(* ===== verification/_CoqProject ===== *)
-Q . S2P
Prelude.v
Memory.v
Machine.v
Pmm.v
FreeLists.v
Bitmap.v
Buddy.v
PmmSpec.v
PmmInit.v
Canonical.v
PmmProps.v
PageAlloc.v
Strings.v
PageTable.v
TableTree.v
TableUpdate.v
TableStore.v
PageTableSpec.v
WalkSpec.v
MmioMap.v
HostMmu.v
MapSpec.v
HostMmuSpec.v
GuestMmu.v
WalkL3.v
GuestMmuSpec.v
MmuProps.v
Heap.v
HeapLarge.v
HeapSlab.v
HeapSlabOps.v
HeapSlabAlloc.v
HeapObjects.v
HeapServe.v
HeapProps.v
Vcpu.v
Psci.v
Vmm.v
VmmSpec.v
VmmProps.v
Cpio.v
CpioSpec.v
CpioEncode.v
CpioProps.v
Fdt.v
BootLoader.v
LayoutSpec.v
PatchSpec.v
PatchSim.v
PatchRun.v
PatchTree.v
LoadSpec.v
BootLoaderProps.v
DeviceTree.v
DeviceTreeSpec.v
ParseSpec.v
ParseTree.v
DeviceTreeProps.v
Mmio.v
Uart.v
Gic.v
Timer.v
GicReset.v
GicInject.v
GicProps.v
Log.v
LogSpec.v
Console.v
ConsoleProps.v
Boot.v
BootProps.v
BootMemory.v
HmainProps.v
Arm.v
Assembly.v
VcpuSwitch.v
SwitchProps.v
EntryProps.v
StartProps.v
