(* ===== verification/Prelude.v ===== *)
(** * HyperBerry: a verification library for an AArch64 type-1 hypervisor

    HyperBerry boots at EL2, reads the firmware's device tree, takes over physical memory,
    turns its own MMU on, unpacks a Linux guest from a cpio archive into a block of guest RAM,
    gives the guest a stage-2 translation, and runs it, answering its PSCI calls. This library
    models that program from its C++ sources (all paths below are under src/) and proves what
    makes its parts correct.

    ** How the program is modelled

    Unsigned machine integers are [Z] with their reductions written out ([u8], [u32], [u64] and
    the circled operators below). Code that changes state is in the state monad [M S] of this
    file: a run returns ([Done]) or stops for good ([Stop]) with the reason - [Panic] for
    [HvPanic], [Wfe] for an endless wait, [OutOfFuel] for a loop that used up its bound,
    [Undefined] for behaviour the language leaves undefined, such as a read outside a span.
    [runs m s Q] is total correctness: the run returns and its result satisfies [Q].

    - Memory.v, Machine.v: byte addressed physical memory (identity mapped at EL2), the singletons
      of the memory components, system registers, and the events whose order the architecture
      gives a meaning to (table stores, cache and TLB maintenance, barriers).
    - Mmio.v: devices. What a device does is not in the program: a device world [D] with a class
      [Bus D] is a parameter of all driver code, and every access is logged in order.
    - Console.v: the whole program's state, [platform]: machine, devices, and the console and
      interrupt controller singletons, which the first [GetInstance] constructs.

    ** The parts, their files, and what is shown

    Physical pages (core/mm/pmm; Pmm.v). [Pmm] has the class's members, one definition per
    method. FreeLists.v and Bitmap.v give the representation invariant (intrusive lists, one bit
    per pair of buddies), Buddy.v splitting and merging, PmmSpec.v and PmmInit.v the operations,
    Canonical.v merged pools. PmmProps.v: allocation hands out a free aligned block and only it,
    succeeds whenever a block is free, freeing merges, alloc-free is the identity on merged
    pools, initialisation seeds exactly the pool less the reserved blocks; and where the code
    falls short (small regions stay allocatable, ragged pools loop for ever). PageAlloc.v is the
    interface - a class [PageAllocator] the clients are proved against, with the allocator as its
    instance.

    Translation tables (core/mm/pageTable, mmu; PageTable.v, MmioMap.v, HostMmu.v, GuestMmu.v).
    TableTree.v defines the architecture's own walk ([translate]) and the tree invariant;
    TableUpdate.v, TableStore.v, WalkSpec.v, MapSpec.v, WalkL3.v prove that the software walk,
    links, leaves and block splits change exactly the translations they should. MmuProps.v: the
    guest's stage 2 maps its RAM block and its windows and nothing else; splitting follows
    break-before-make; the host map; cache maintenance covers its range.

    Kernel heap (core/mm/heap; Heap.v): every operation. HeapLarge.v: size classes and large
    blocks. HeapSlab.v gives the representation of slabs (free slots chained through their first
    bytes, slabs through their headers), HeapSlabOps.v and HeapSlabAlloc.v the operations on it.
    HeapObjects.v is the abstract view, a store of objects only their clients write, with the
    relation to slabs and large blocks, HeapServe.v each request against it. HeapProps.v: no
    sequence of requests makes objects overlap or lose their bytes, null means that memory is
    short; large blocks go back to the page allocator; a size that wraps.

    Virtual CPU and machine, traps, run loop (core/vcpu, core/vm, core/vmm; Vcpu.v, Psci.v,
    Vmm.v). The guest itself - what the world and memory do between two exits - is the parameter
    [vcpu_run]. VmmSpec.v is the abstract machine of a guest's life; VmmProps.v: the loop refines
    it, returns exactly on a terminal exit, the PSCI table, and confinement: a guest that obeys
    its translation never touches memory outside its block and windows.

    Boot archive (lib/cpio; Cpio.v; reads outside the archive are [None]). CpioSpec.v,
    CpioEncode.v, CpioProps.v: no archive makes the reader read outside or run
    for ever; what is encoded is found; paths are accepted by the reference definition.

    Boot loader (core/bootLoader; Fdt.v for the format, BootLoader.v). LayoutSpec.v: placement.
    PatchSpec.v reads a structure block as tokens; PatchSim.v, PatchRun.v follow the patcher over
    them, PatchTree.v lifts that to trees and to copies of a tree; LoadSpec.v and
    BootLoaderProps.v: the layout is the highest legal one, the patcher writes exactly the cells
    of its placeholders, and [Load] either leaves the files, patched, in one fresh block or
    gives all memory back.

    Device tree parser (core/deviceTree; DeviceTree.v). DeviceTreeSpec.v: validation accepts exactly
    the valid blobs; ParseSpec.v: both parsers as folds over the tokens; ParseTree.v:
    their results by the tree. DeviceTreeProps.v: they end on every blob, the memory map and the
    devices are what the tree says, and no byte outside the blob matters to the devices; two
    limits of the validator.

    Console, format engine, panics (drivers/uart, lib/log, lib/panic, lib/registerDump,
    core/vmm/exceptions; Uart.v, Log.v, Console.v). LogSpec.v: numerals, values and format strings
    against reference definitions. ConsoleProps.v: what [Println] and a panic put on the wire.

    Interrupt controller and timer (drivers/gic, drivers/timer; Gic.v, Timer.v). GicReset.v:
    the accesses of a reset. GicInject.v: the list registers as a class with the
    architecture's laws, injection against an abstract one. GicProps.v: reset, injection, and the
    invariant that no number is presented twice, over all interleavings with the guest.

    Entry point (core/main.cpp, the MMIO maps of deviceTree.cpp; Boot.v): the composition of all
    of it in boot order. BootProps.v: the host and guest windows, and that [hmain] never returns.
    BootMemory.v composes the memory components along [hmain]: what holds of free memory, the
    hypervisor's tables and guest RAM from the firmware's map to the guest's last instruction.
    HmainProps.v adds what [hmain] reads and prints: started on a valid tree of its board it
    always gets through the boot, and ends with a refused archive or with a guest that changed
    nothing but its block and its windows. There the device tree and the archive lie outside RAM:
    when they lie inside, nothing keeps the allocator from handing their pages out, because
    [SetMemoryMap] reserves whole blocks only ([PmmProps.small_regions_not_reserved]).

    Assembly (core/vcpu/vcpu.S, core/vmm/exceptions/vectors.S and entry.S, boot.S of bsp/qemu and
    bsp/rpi5). Arm.v has a core with its registers and memory, the instructions of the files, their
    execution from a label on, [runs_to] - a run with enough fuel to a state a predicate holds of -
    and what sequences of loads and stores leave. Assembly.v is the files, line by line.
    VcpuSwitch.v follows the context switch into the guest, out of it, and back to the caller.
    SwitchProps.v: the run loop's [vcpu_run] gives the guest the registers of its [Vcpu], and
    returns with the guest's, the report, and the caller's state; EntryProps.v: an exception of
    EL2 itself, from its vector to the C++ handlers of Console.v and back; StartProps.v: what
    boot.S leaves to [hmain], and where other cores stay.

    ** Bounds and fuel

    Loops with a bound in the code get it as their fuel, and the theorems show it is enough: list
    loops of the allocator have one pass per page of the pool, mapping loops one per granule,
    tree walks one per token, digit loops one per bit. Loops that depend on the world - the spin
    of [Putc], the guest's exits - take the bound as an argument; the theorems say for which
    bounds they return. [ParseMemoryMap] and [FindDevice] take one too and return for any bound
    above the size of the structure block.

    ** What is assumed

    There are no axioms. Named hypotheses state documented behaviour of what is outside: a console
    takes characters within the poll bound ([drains]), list registers behave as the architecture
    says ([ListRegisters]), the guest reaches memory only through its translation. Each theorem
    with hypotheses has a witness that meets them on concrete data.

    ** What is not modelled

    The linker scripts and device trees of the boards: the symbols and constants they define are
    arguments. What the guest does between two exits, and the vector registers, which the switch
    leaves alone. Log output inside the memory components: it changes the console only, and the
    console is modelled where the program's entry and its panics use it; so the claims about the
    wire are about those messages. The integration test branch of [hmain], unit tests, scripts.
    The register offsets of the interrupt controller that no code uses. *)
From Stdlib Require Export ZArith Lia.
From stdpp Require Export base tactics numbers list gmap strings functions.

#[global] Open Scope Z_scope.

(** ** Machine integers

    Unsigned C++ integers are [Z] values; every operation of the code that
    can leave the range writes its reduction out. *)

Definition u8 (x : Z) : Z := x mod 2 ^ 8.
Definition u32 (x : Z) : Z := x mod 2 ^ 32.
Definition u64 (x : Z) : Z := x mod 2 ^ 64.

Declare Scope word_scope.
Delimit Scope word_scope with word.
Notation "a ⊞ b" := (u64 (a + b)) (at level 50, left associativity) : word_scope.
Notation "a ⊟ b" := (u64 (a - b)) (at level 50, left associativity) : word_scope.
Notation "a ⊠ b" := (u64 (a * b)) (at level 40, left associativity) : word_scope.
#[global] Open Scope word_scope.

(** [~x] on a [uint64_t]. *)
Definition not64 (x : Z) : Z := 2 ^ 64 - 1 - x.

(** A value that fits in [n] bits. *)
Definition fits (n x : Z) : Prop := 0 ≤ x < 2 ^ n.

(** ** Outcomes and the state monad

    A run either returns, or stops for good: in [HvPanic], in a [wfe] loop, or
    by using up the fuel of a loop, which stands for a loop that never ends; or
    it does what the language leaves undefined. *)

Inductive halt : Type :=
  | Panic (msg : string)
  | Wfe (msg : string)
  | OutOfFuel
  | Undefined.

Inductive outcome (S A : Type) : Type :=
  | Done (a : A) (s : S)
  | Stop (why : halt) (s : S).
Arguments Done {S A} a s.
Arguments Stop {S A} why s.

Definition M (S A : Type) : Type := S → outcome S A.

#[global] Instance M_ret S : MRet (M S) := λ A a s, Done a s.
#[global] Instance M_bind S : MBind (M S) := λ A B k m s,
  match m s with
  | Done a s' => k a s'
  | Stop w s' => Stop w s'
  end.

Definition get {S} : M S S := λ s, Done s s.
Definition put {S} (s : S) : M S unit := λ _, Done tt s.
Definition gets {S A} (f : S → A) : M S A := λ s, Done (f s) s.
Definition modify {S} (f : S → S) : M S unit := λ s, Done tt (f s).
Definition stop {S A} (w : halt) : M S A := λ s, Stop w s.
Definition when {S} (b : bool) (m : M S unit) : M S unit := if b then m else mret tt.

(** A loop whose body returns the next loop variables or the exit value. *)
Fixpoint loop {S A B} (fuel : nat) (body : A → M S (A + B)) (a : A) : M S B := λ s,
  match fuel with
  | O => Stop OutOfFuel s
  | Datatypes.S n =>
      match body a s with
      | Done (inl a') s' => loop n body a' s'
      | Done (inr b) s' => Done b s'
      | Stop w s' => Stop w s'
      end
  end.

(** ** Total correctness: the run returns and its result satisfies [Q]. *)

Definition runs {S A} (m : M S A) (s : S) (Q : A → S → Prop) : Prop :=
  match m s with
  | Done a s' => Q a s'
  | Stop _ _ => False
  end.

Section runs.
Context {S A B : Type}.
Implicit Types (s : S).

(** The first step of a run. *)
Lemma bind_done (m : M S A) (k : A → M S B) s a s' : m s = Done a s' → (m ≫= k) s = k a s'.
Proof. unfold mbind, M_bind. by intros ->. Qed.
Lemma bind_stop (m : M S A) (k : A → M S B) s w s' : m s = Stop w s' → (m ≫= k) s = Stop w s'.
Proof. unfold mbind, M_bind. by intros ->. Qed.

Lemma runs_ret (a : A) s (Q : A → S → Prop) : Q a s → runs (mret a) s Q.
Proof. done. Qed.

Lemma runs_bind (m : M S A) (k : A → M S B) s (Q : B → S → Prop) :
  runs m s (λ a s', runs (k a) s' Q) → runs (m ≫= k) s Q.
Proof. unfold runs, mbind, M_bind. by destruct (m s). Qed.

Lemma runs_mono (m : M S A) s (P Q : A → S → Prop) :
  runs m s P → (∀ a s', P a s' → Q a s') → runs m s Q.
Proof. unfold runs. destruct (m s); naive_solver. Qed.

Lemma runs_inv (m : M S A) s (Q : A → S → Prop) :
  runs m s Q → ∃ a s', m s = Done a s' ∧ Q a s'.
Proof. unfold runs. destruct (m s); naive_solver. Qed.

Lemma runs_of_eq (m : M S A) s a s' (Q : A → S → Prop) :
  m s = Done a s' → Q a s' → runs m s Q.
Proof. unfold runs. by intros ->. Qed.

Lemma runs_det (m : M S A) s (Q : A → S → Prop) a s' :
  runs m s Q → m s = Done a s' → Q a s'.
Proof. unfold runs. by intros H E; rewrite E in H. Qed.

(** One pass of a loop. *)
Lemma runs_loop_S n (body : A → M S (A + B)) a s (Q : B → S → Prop) :
  runs (body a) s (λ r s', match r with inl a' => runs (loop n body a') s' Q | inr b => Q b s' end) →
  runs (loop (Datatypes.S n) body a) s Q.
Proof. unfold runs. cbn [loop]. by destruct (body a s) as [[a'|b] s'|w s']. Qed.

(** The one rule for loops: an invariant that carries a decreasing bound. *)
Lemma runs_loop (I : nat → A → S → Prop) (body : A → M S (A + B)) (Q : B → S → Prop) :
  (∀ n a s, I n a s → runs (body a) s (λ r s',
     match r with
     | inl a' => ∃ n', (n' < n)%nat ∧ I n' a' s'
     | inr b => Q b s'
     end)) →
  ∀ fuel n a s, I n a s → (n < fuel)%nat → runs (loop fuel body a) s Q.
Proof.
  intros Hbody fuel. induction fuel as [|k IH]; intros n a s HI Hlt; [lia|].
  specialize (Hbody n a s HI). unfold runs in *. simpl.
  destruct (body a s) as [[a'|b] s'|w s'] eqn:E; [|done|done].
  destruct Hbody as (n' & Hdec & HI'). apply (IH n'); [done|lia].
Qed.
End runs.

(** One symbolic step of a monadic run. *)
Ltac run_step :=
  lazymatch goal with
  | |- runs (mbind _ _) _ _ => apply runs_bind
  | |- runs (mret _) _ _ => apply runs_ret
  | |- runs (gets ?f) ?s ?Q => change (runs (gets f) s Q) with (Q (f s) s)
  | |- runs get ?s ?Q => change (runs get s Q) with (Q s s)
  | |- runs (put ?s') ?s ?Q => change (runs (put s') s Q) with (Q tt s')
  | |- runs (modify ?f) ?s ?Q => change (runs (modify f) s Q) with (Q tt (f s))
  end.
Ltac run := repeat (run_step; cbv beta).

(** ** Bit operations *)

Lemma lor_add a b : Z.land a b = 0 → Z.lor a b = a + b.
Proof. intros H. by rewrite Z.add_nocarry_lxor, Z.lxor_lor. Qed.

Lemma land_low_zero a k n : 0 ≤ n → a mod 2 ^ n = 0 → 0 ≤ k < 2 ^ n → Z.land a k = 0.
Proof.
  intros Hn Ha Hk. pose proof (Z.pow_pos_nonneg 2 n). apply Z.bits_inj'. intros i Hi. rewrite Z.land_spec, Z.bits_0.
  destruct (decide (i < n)).
  - assert (Z.testbit a i = false) as ->; [|done].
    apply Z.mod_divide in Ha as [q ->]; [|lia]. rewrite Z.mul_pow2_bits_low; [done|lia].
  - rewrite <-(Z.mod_small k (2 ^ n)), Z.mod_pow2_bits_high by lia. apply andb_false_r.
Qed.

Lemma lor_low a k n : 0 ≤ n → a mod 2 ^ n = 0 → 0 ≤ k < 2 ^ n → Z.lor a k = a + k.
Proof. intros. apply lor_add. by apply (land_low_zero a k n). Qed.

(** Masking the low bits off. *)
Lemma ldiff_ones a n : 0 ≤ n → Z.ldiff a (Z.ones n) = a - a mod 2 ^ n.
Proof.
  intros Hn. rewrite Z.ldiff_ones_r, Z.shiftl_mul_pow2, Z.shiftr_div_pow2 by done.
  pose proof (Z.div_mod a (2 ^ n)). pose proof (Z.pow_pos_nonneg 2 n). lia.
Qed.

Lemma testbit_add_low a k n i : 0 ≤ i < n → a mod 2 ^ n = 0 → Z.testbit (a + k) i = Z.testbit k i.
Proof.
  intros Hi Ha. pose proof (Z.pow_pos_nonneg 2 n). apply Z.mod_divide in Ha as [q ->]; [|lia].
  rewrite <-(Z.mod_pow2_bits_low (q * 2 ^ n + k) n i), <-(Z.mod_pow2_bits_low k n i) by lia.
  f_equal. rewrite Z.add_comm. apply Z.mod_add. lia.
Qed.

(** The bits of a complement, and of a value that fits. *)
Lemma not64_bit x i : 0 ≤ x < 2 ^ 64 → 0 ≤ i →
  Z.testbit (not64 x) i = bool_decide (i < 64) && negb (Z.testbit x i).
Proof.
  intros Hx Hi. unfold not64. change (2 ^ 64 - 1) with (Z.ones 64).
  rewrite Z.sub_nocarry_ldiff.
  - rewrite Z.ldiff_spec. case_bool_decide; [by rewrite Z.ones_spec_low by lia|].
    by rewrite Z.ones_spec_high by lia.
  - apply Z.ldiff_ones_r_low; [lia|]. destruct (decide (x = 0)) as [->|]; [done|]. apply Z.log2_lt_pow2; lia.
Qed.

Lemma high_bit x i : 0 ≤ x < 2 ^ 64 → 64 ≤ i → Z.testbit x i = false.
Proof. intros Hx Hi. rewrite <-(Z.mod_small x (2 ^ 64)), Z.mod_pow2_bits_high by lia. done. Qed.
