(* ===== verification/Memory.v ===== *)
(** * Byte addressed physical memory *)
From S2P Require Import Prelude.

(** A cell holds eight bits; an address never written reads as zero. *)
Definition mem : Type := gmap Z Z.

Definition load8 (m : gmap Z Z) (a : Z) : Z := u8 (default 0 (m !! a)).
Definition store8 (m : gmap Z Z) (a v : Z) : gmap Z Z := <[a := u8 v]> m.

(** Little endian accesses of [n] bytes. *)
Fixpoint load (n : nat) (m : gmap Z Z) (a : Z) : Z :=
  match n with
  | O => 0
  | S n' => load8 m a + 2 ^ 8 * load n' m (a + 1)
  end.

Fixpoint store (n : nat) (m : gmap Z Z) (a v : Z) : gmap Z Z :=
  match n with
  | O => m
  | S n' => store n' (store8 m a v) (a + 1) (v / 2 ^ 8)
  end.

Abbreviation load32 := (load 4).
Abbreviation load64 := (load 8).
Abbreviation store32 := (store 4).
Abbreviation store64 := (store 8).

Lemma load8_store8_eq m a v : load8 (store8 m a v) a = u8 v.
Proof. unfold load8, store8. rewrite lookup_insert_eq. simpl. unfold u8. by rewrite Z.mod_mod. Qed.

Lemma load8_store8_ne m a b v : a ≠ b → load8 (store8 m a v) b = load8 m b.
Proof. intros. unfold load8, store8. by rewrite lookup_insert_ne. Qed.

Lemma load8_range m a : 0 ≤ load8 m a < 2 ^ 8.
Proof. apply Z.mod_pos_bound. lia. Qed.

Lemma load_range n m a : 0 ≤ load n m a < 2 ^ (8 * Z.of_nat n).
Proof.
  revert a. induction n as [|n IH]; intros a; cbn [load]; [lia|].
  pose proof (load8_range m a). specialize (IH (a + 1)).
  replace (8 * Z.of_nat (S n)) with (8 + 8 * Z.of_nat n) by lia.
  rewrite Z.pow_add_r by lia. nia.
Qed.

(** Two memories that agree on the bytes read give the same value. *)
Lemma load_agree n m m' a :
  (∀ x, a ≤ x < a + Z.of_nat n → load8 m x = load8 m' x) → load n m a = load n m' a.
Proof.
  revert a. induction n as [|n IH]; intros a H; cbn [load]; [done|].
  rewrite (H a) by lia. rewrite (IH (a + 1)); [done|]. intros x Hx. apply H. lia.
Qed.

(** A store changes only its own bytes. *)
Lemma store_frame n m a v x :
  ¬ (a ≤ x < a + Z.of_nat n) → load8 (store n m a v) x = load8 m x.
Proof.
  revert m a v. induction n as [|n IH]; intros m a v H; cbn [store]; [done|].
  rewrite IH by lia. apply load8_store8_ne. lia.
Qed.

Lemma load_store_ne n k m a b v :
  a + Z.of_nat n ≤ b ∨ b + Z.of_nat k ≤ a → load k (store n m a v) b = load k m b.
Proof. intros H. apply load_agree. intros x Hx. apply store_frame. lia. Qed.

Lemma load_store_eq n m a v : load n (store n m a v) a = v mod 2 ^ (8 * Z.of_nat n).
Proof.
  revert m a v. induction n as [|n IH]; intros m a v; cbn [load store].
  - by rewrite Z.mod_1_r.
  - rewrite IH. rewrite store_frame by lia. rewrite load8_store8_eq. unfold u8.
    replace (8 * Z.of_nat (S n)) with (8 + 8 * Z.of_nat n) by lia.
    rewrite Z.pow_add_r by lia. rewrite Z.rem_mul_r by lia. done.
Qed.

Lemma load_store_eq_fits n m a v :
  fits (8 * Z.of_nat n) v → load n (store n m a v) a = v.
Proof. intros H. rewrite load_store_eq. by apply Z.mod_small. Qed.

#[global] Arguments load : simpl never.
#[global] Arguments store : simpl never.

Lemma load_S n m a : load (S n) m a = load8 m a + 2 ^ 8 * load n m (a + 1).
Proof. done. Qed.

Lemma store_S n m a v : store (S n) m a v = store n (store8 m a v) (a + 1) (v / 2 ^ 8).
Proof. done. Qed.

(** A second store to the same place hides the first. *)
Lemma store8_store_comm n m a b v w : b < a →
  store n (store8 m b w) a v = store8 (store n m a v) b w.
Proof.
  revert m a v. induction n as [|n IH]; intros m a v Hlt; [done|]. rewrite !store_S.
  rewrite <-IH by lia. f_equal. unfold store8. by rewrite insert_insert_ne by lia.
Qed.

Lemma store_store n m a v w : store n (store n m a v) a w = store n m a w.
Proof.
  revert m a v w. induction n as [|n IH]; intros m a v w; [done|]. rewrite !store_S.
  rewrite <-(store8_store_comm n _ (a + 1) a (v / 2 ^ 8) w) by lia. rewrite IH. f_equal.
  unfold store8. by rewrite insert_insert_eq.
Qed.
