(* ===== verification/Machine.v ===== *)
(** * The machine the hypervisor runs on: memory, singletons, system registers *)
From S2P Require Import Prelude Memory.

(** The system registers the code writes. *)
Inductive sysreg : Set :=
  | HCR_EL2 | VTCR_EL2 | VTTBR_EL2 | MAIR_EL2 | TCR_EL2 | TTBR0_EL2 | SCTLR_EL2
  | CTR_EL0 | SCTLR_EL1.

#[export] Instance sysreg_eq_dec : EqDecision sysreg.
Proof. solve_decision. Defined.

(** Effects whose order the architecture gives a meaning to. [EvStore] records
    the stores to translation tables that other agents may observe. *)
Inductive event : Set :=
  | EvStore (addr val : Z)
  | EvDcCvac (line : Z)
  | EvDsbIsh | EvDsbIshst | EvDsbSy | EvIsb
  | EvMsr (r : sysreg) (val : Z)
  | EvTlbiVmalls12e1is | EvTlbiAlle2is | EvTlbiVae2is (page : Z).

#[export] Instance event_eq_dec : EqDecision event.
Proof. solve_decision. Defined.

(** The members of class [Pmm]. A null free list is address 0; a bitmap byte
    never toggled is 0, the way [m_bitmap.fill(0)] leaves it. *)
Record Pmm : Set := MkPmm {
  m_base : Z;
  m_size : Z;
  m_freeLists : list Z;
  m_bitmap : gmap Z Z;
}.

Record machine : Type := MkMachine {
  mc_mem : gmap Z Z;         (** physical memory, identity mapped *)
  mc_pmm : Pmm;              (** [Pmm::GetInstance()] *)
  mc_slabs : list Z;         (** [Heap::GetInstance().m_slabs] *)
  mc_sys : sysreg → Z;       (** system registers *)
  mc_trace : list event;     (** what was done, oldest first *)
}.

Definition set_mem (f : gmap Z Z → gmap Z Z) (s : machine) : machine :=
  MkMachine (f (mc_mem s)) (mc_pmm s) (mc_slabs s) (mc_sys s) (mc_trace s).
Definition set_pmm (f : Pmm → Pmm) (s : machine) : machine :=
  MkMachine (mc_mem s) (f (mc_pmm s)) (mc_slabs s) (mc_sys s) (mc_trace s).
Definition set_slabs (f : list Z → list Z) (s : machine) : machine :=
  MkMachine (mc_mem s) (mc_pmm s) (f (mc_slabs s)) (mc_sys s) (mc_trace s).
Definition set_sys (f : (sysreg → Z) → sysreg → Z) (s : machine) : machine :=
  MkMachine (mc_mem s) (mc_pmm s) (mc_slabs s) (f (mc_sys s)) (mc_trace s).
Definition set_trace (f : list event → list event) (s : machine) : machine :=
  MkMachine (mc_mem s) (mc_pmm s) (mc_slabs s) (mc_sys s) (f (mc_trace s)).

(** Primitive accesses. *)
Definition ld64 (a : Z) : M machine Z := gets (λ s, load64 (mc_mem s) a).
Definition st64 (a v : Z) : M machine unit := modify (set_mem (λ m, store64 m a v)).
Definition ld32 (a : Z) : M machine Z := gets (λ s, load32 (mc_mem s) a).
Definition st32 (a v : Z) : M machine unit := modify (set_mem (λ m, store32 m a v)).
Definition emit (e : event) : M machine unit := modify (set_trace (λ t, t ++ [e])).
Definition mrs (r : sysreg) : M machine Z := gets (λ s, mc_sys s r).
Definition msr (r : sysreg) (v : Z) : M machine unit :=
  modify (set_sys (<[r := v]>));; emit (EvMsr r v).
Definition HvPanic {A} (msg : string) : M machine A := stop (Panic msg).
Definition wfe_forever {A} (msg : string) : M machine A := stop (Wfe msg).

(** [s'] differs from [s] at most in memory and in the page allocator. *)
Definition mem_pmm_only (s s' : machine) : Prop :=
  mc_slabs s' = mc_slabs s ∧ mc_sys s' = mc_sys s ∧ mc_trace s' = mc_trace s.

Lemma mem_pmm_only_refl s : mem_pmm_only s s.
Proof. done. Qed.

Lemma mem_pmm_only_trans s1 s2 s3 :
  mem_pmm_only s1 s2 → mem_pmm_only s2 s3 → mem_pmm_only s1 s3.
Proof. intros (? & ? & ?) (? & ? & ?). repeat split; congruence. Qed.

(** Memory agreement outside a set of addresses. *)
Definition mem_same_outside (P : Z → Prop) (s s' : machine) : Prop :=
  ∀ x, ¬ P x → load8 (mc_mem s') x = load8 (mc_mem s) x.

Lemma mem_same_outside_refl P s : mem_same_outside P s s.
Proof. done. Qed.

Lemma mem_same_outside_trans (P Q R : Z → Prop) s1 s2 s3 :
  mem_same_outside P s1 s2 → mem_same_outside Q s2 s3 →
  (∀ x, P x → R x) → (∀ x, Q x → R x) → mem_same_outside R s1 s3.
Proof. intros H1 H2 HP HQ x Hx. rewrite H2, H1; naive_solver. Qed.

Lemma mem_same_outside_weaken (P Q : Z → Prop) s1 s2 :
  mem_same_outside P s1 s2 → (∀ x, P x → Q x) → mem_same_outside Q s1 s2.
Proof. intros H1 HP x Hx. rewrite H1; naive_solver. Qed.

#[export] Hint Resolve mem_pmm_only_refl mem_same_outside_refl : core.

(** Symbolic steps through the primitive accesses. *)
Ltac mrun_step :=
  lazymatch goal with
  | |- runs (ld64 ?a) ?s ?Q => change (runs (ld64 a) s Q) with (Q (load64 (mc_mem s) a) s)
  | |- runs (ld32 ?a) ?s ?Q => change (runs (ld32 a) s Q) with (Q (load32 (mc_mem s) a) s)
  | |- runs (st64 ?a ?v) ?s ?Q =>
      change (runs (st64 a v) s Q) with (Q tt (set_mem (λ m, store64 m a v) s))
  | |- runs (st32 ?a ?v) ?s ?Q =>
      change (runs (st32 a v) s Q) with (Q tt (set_mem (λ m, store32 m a v) s))
  | |- runs (emit ?e) ?s ?Q => change (runs (emit e) s Q) with (Q tt (set_trace (λ t, t ++ [e]) s))
  | |- runs (mrs ?r) ?s ?Q => change (runs (mrs r) s Q) with (Q (mc_sys s r) s)
  | |- runs (msr ?r ?v) ?s ?Q =>
      change (runs (msr r v) s Q) with
        (Q tt (set_trace (λ t, t ++ [EvMsr r v]) (set_sys (<[r := v]>) s)))
  | |- _ => run_step
  end.
Ltac mrun := repeat (mrun_step; cbv beta).
