(* ===== verification/Pmm.v ===== *)
(** * The physical page allocator (core/mm/pmm) *)
From S2P Require Import Prelude Memory Machine.

(** ** Constants of pmm.h *)

Definition PAGE_SIZE : Z := 0x1000.
Definition PAGE_SHIFT : Z := 12.
Definition MAX_ORDER : nat := 16.
Definition NUM_ORDERS : nat := 17.
Definition MAX_POOL_SIZE : Z := 0x200000000.

(** [PAGE_SIZE << order]; orders are [uint32_t] values that only index the free
    lists and shift, so they are [nat] here. *)
Definition blockSize (order : nat) : Z := u64 (Z.shiftl PAGE_SIZE (Z.of_nat order)).

(** The loop [for (off = 0; off < order; off++) bits += totalPages >> (off + 1)]. *)
Fixpoint pairBits (totalPages : Z) (order : nat) : Z :=
  match order with
  | O => 0
  | S off => pairBits totalPages off ⊞ (totalPages ≫ Z.of_nat (off + 1))
  end.

Definition BITMAP_BYTES : Z :=
  (pairBits (MAX_POOL_SIZE ≫ PAGE_SHIFT) (MAX_ORDER + 1) + 7) / 8.

(** The boot memory map (struct MemoryMap of deviceTree.h). *)
Record MemoryMap : Set := MkMemoryMap {
  memBase : Z; memSize : Z;
  atfBase : Z; atfSize : Z;
  dtbBase : Z; dtbSize : Z;
  cpioArchiveBase : Z; cpioArchiveSize : Z;
}.

(** ** The buddy bitmap *)

Definition bitmapIndex (p : Pmm) (addr : Z) (order : nat) : Z :=
  let pageIndex := (addr ⊟ m_base p) ≫ PAGE_SHIFT in
  let pairIndex := pageIndex ≫ Z.of_nat (order + 1) in
  let totalPages := m_size p ≫ PAGE_SHIFT in
  pairBits totalPages order ⊞ pairIndex.

Definition set_bitmap (b : gmap Z Z) (p : Pmm) : Pmm :=
  MkPmm (m_base p) (m_size p) (m_freeLists p) b.
Definition set_freeLists (l : list Z) (p : Pmm) : Pmm :=
  MkPmm (m_base p) (m_size p) l (m_bitmap p).

Definition bitmapToggle (addr : Z) (order : nat) : M machine Z :=
  p ← gets mc_pmm;
  let bitIdx := bitmapIndex p addr order in
  let byteIdx := bitIdx ≫ 3 in
  if decide (BITMAP_BYTES ≤ byteIdx) then wfe_forever "[ERROR] PMM bitmap overflow"
  else
    let mask := u8 (1 ≪ Z.land bitIdx 7) in
    let byte := Z.lxor (default 0 (m_bitmap p !! byteIdx)) mask in
    modify (set_pmm (set_bitmap (<[byteIdx := byte]> (m_bitmap p))));;
    mret (if decide (Z.land byte mask ≠ 0) then 1 else 0).

(** ** Intrusive free lists: the first word of a free block is its successor. *)

Definition freeList (order : nat) : M machine Z :=
  gets (λ s, m_freeLists (mc_pmm s) !!! order).
Definition set_freeList (order : nat) (a : Z) : M machine unit :=
  modify (set_pmm (λ p, set_freeLists (<[order := a]> (m_freeLists p)) p)).

Definition listPush (addr : Z) (order : nat) : M machine unit :=
  head ← freeList order;
  st64 addr head;;
  set_freeList order addr.

Definition listPop (order : nat) : M machine Z :=
  node ← freeList order;
  if decide (node = 0) then mret 0
  else
    next ← ld64 node;
    set_freeList order next;;
    mret node.

(** [FreeNode** curr]: the list head, or the [next] field of a node. *)
Inductive link : Set := Head | NextOf (node : Z).

Definition read_link (order : nat) (l : link) : M machine Z :=
  match l with Head => freeList order | NextOf n => ld64 n end.
Definition write_link (order : nat) (l : link) (a : Z) : M machine unit :=
  match l with Head => set_freeList order a | NextOf n => st64 n a end.

Definition listRemove_step (addr : Z) (order : nat) (curr : link) :
    M machine (link + bool) :=
  node ← read_link order curr;
  if decide (node = 0) then mret (inr false)
  else if decide (node = addr) then
    next ← ld64 node;
    write_link order curr next;;
    mret (inr true)
  else mret (inl (NextOf node)).

(** A free list holds at most one node per page of the pool, so a walk that
    takes more steps than that never ends. *)
Definition list_fuel (p : Pmm) : nat := S (S (Z.to_nat (m_size p ≫ PAGE_SHIFT))).

Definition listRemove (addr : Z) (order : nat) : M machine bool :=
  fuel ← gets (λ s, list_fuel (mc_pmm s));
  loop fuel (listRemove_step addr order) Head.

Definition buddyOf (p : Pmm) (addr : Z) (order : nat) : Z :=
  let offset := addr ⊟ m_base p in
  let size := blockSize order in
  Z.lxor offset size ⊞ m_base p.

(** ** Allocation *)

(** The orders [from, from + 1, ..., MAX_ORDER] of the search loop. *)
Fixpoint find_order (lists : list Z) (o n : nat) : option nat :=
  match n with
  | O => None
  | S n' => if decide (lists !!! o ≠ 0) then Some o else find_order lists (S o) n'
  end.

(** [while (found > order)]: push the upper half, keep the lower. *)
Fixpoint split_down (addr : Z) (found : nat) (n : nat) : M machine unit :=
  match n with
  | O => mret tt
  | S n' =>
      let found := (found - 1)%nat in
      let split := addr ⊞ blockSize found in
      bitmapToggle split found;;
      listPush split found;;
      split_down addr found n'
  end.

Definition AllocPages (order : nat) : M machine Z :=
  if decide (MAX_ORDER < order)%nat then mret 0
  else
    lists ← gets (λ s, m_freeLists (mc_pmm s));
    match find_order lists order (NUM_ORDERS - order) with
    | None => mret 0
    | Some found =>
        addr ← listPop found;
        bitmapToggle addr found;;
        split_down addr found (found - order);;
        mret addr
    end.

(** ** Deallocation *)

Definition FreePages_step (ao : Z * nat) : M machine (Z * nat + unit) :=
  let '(addr, order) := ao in
  if decide (order < MAX_ORDER)%nat then
    p ← gets mc_pmm;
    let buddy := buddyOf p addr order in
    bit ← bitmapToggle addr order;
    if decide (bit ≠ 0) then listPush addr order;; mret (inr tt)
    else
      removed ← listRemove buddy order;
      if negb removed then
        bitmapToggle addr order;; listPush addr order;; mret (inr tt)
      else
        let addr := if decide (buddy < addr) then buddy else addr in
        mret (inl (addr, S order))
  else
    bitmapToggle addr order;; listPush addr order;; mret (inr tt).

Definition FreePages (addr : Z) (order : nat) : M machine unit :=
  if decide (addr = 0 ∨ (MAX_ORDER < order)%nat) then mret tt
  else loop (S NUM_ORDERS) FreePages_step (addr, order).

(** ** Reservation and initialisation *)

Definition page_down (x : Z) : Z := Z.land x (not64 (PAGE_SIZE - 1)).

(** The orders [MAX_ORDER, ..., 1, 0] of the two descending loops. *)
Definition orders_down : list nat := rev (seq 0 NUM_ORDERS).

Fixpoint reserve_try (addr end_ : Z) (os : list nat) : M machine (option Z) :=
  match os with
  | [] => mret None
  | o :: os' =>
      let bs := blockSize o in
      if decide (Z.land addr (bs - 1) ≠ 0) then reserve_try addr end_ os'
      else if decide (end_ < addr ⊞ bs) then reserve_try addr end_ os'
      else
        removed ← listRemove addr o;
        if (removed : bool) then
          bitmapToggle addr o;; mret (Some (addr ⊞ bs))
        else reserve_try addr end_ os'
  end.

Definition reserve_step (end_ addr : Z) : M machine (Z + unit) :=
  if decide (addr < end_) then
    r ← reserve_try addr end_ orders_down;
    match r with
    | Some addr' => mret (inl addr')
    | None => mret (inl (addr ⊞ PAGE_SIZE))
    end
  else mret (inr tt).

Definition reserveRegion (base size : Z) : M machine unit :=
  let start := page_down base in
  let end_ := page_down (base ⊞ size ⊞ PAGE_SIZE ⊟ 1) in
  loop (S (Z.to_nat ((end_ - start) / PAGE_SIZE))) (reserve_step end_) start.

Fixpoint seed_tail (os : list nat) (addr remaining : Z) : M machine Z :=
  match os with
  | [] => mret addr
  | o :: os' =>
      let bs := blockSize o in
      if decide (bs ≤ remaining) then
        bitmapToggle addr o;; listPush addr o;;
        seed_tail os' (addr ⊞ bs) (remaining ⊟ bs)
      else seed_tail os' addr remaining
  end.

Definition seed_step (poolEnd addr : Z) : M machine (Z + unit) :=
  if decide (addr < poolEnd) then
    let remaining := poolEnd ⊟ addr in
    if decide (blockSize MAX_ORDER ≤ remaining) then
      bitmapToggle addr MAX_ORDER;; listPush addr MAX_ORDER;;
      mret (inl (addr ⊞ blockSize MAX_ORDER))
    else
      addr' ← seed_tail orders_down addr remaining;
      mret (inl addr')
  else mret (inr tt).

(** One pass of the outer loop consumes a largest block or the whole tail. *)
Definition seed_fuel (size : Z) : nat := S (S (Z.to_nat (size / blockSize MAX_ORDER))).

Definition count_step (curr : Z * Z) : M machine (Z * Z + Z) :=
  let '(node, count) := curr in
  if decide (node = 0) then mret (inr count)
  else next ← ld64 node; mret (inl (next, u32 (count + 1))).

(** The counts [DumpState] prints, from order 0 up. *)
Fixpoint dump_orders (os : list nat) : M machine (list Z) :=
  match os with
  | [] => mret []
  | o :: os' =>
      node ← freeList o;
      fuel ← gets (λ s, list_fuel (mc_pmm s));
      c ← loop fuel count_step (node, 0);
      cs ← dump_orders os';
      mret (c :: cs)
  end.
Definition DumpState : M machine (list Z) := dump_orders (seq 0 NUM_ORDERS).

(** [kernelBase] and [kernelEnd] are the linker symbols [__text_start] and
    [__uncached_space_end]. *)
Definition SetMemoryMap (kernelBase kernelEnd : Z) (map : MemoryMap) : M machine unit :=
  modify (set_pmm (λ _, MkPmm (memBase map) (memSize map) (replicate NUM_ORDERS 0) ∅));;
  if decide (MAX_POOL_SIZE < memSize map) then
    wfe_forever "[PMM][ERROR] PMM pool larger than supported bitmap"
  else
    let poolEnd := memBase map ⊞ memSize map in
    loop (seed_fuel (memSize map)) (seed_step poolEnd) (memBase map);;
    reserveRegion kernelBase (kernelEnd ⊟ kernelBase);;
    reserveRegion (atfBase map) (atfSize map);;
    reserveRegion (dtbBase map) (dtbSize map);;
    when (bool_decide (cpioArchiveSize map ≠ 0))
      (reserveRegion (cpioArchiveBase map) (cpioArchiveSize map));;
    when (bool_decide (memBase map = 0 ∧ PAGE_SIZE ≤ memSize map))
      (reserveRegion 0 PAGE_SIZE);;
    DumpState;;
    mret tt.
