(* ===== verification/FreeLists.v ===== *)
(** * Free lists of the page allocator: representation invariant and list operations *)
From S2P Require Import Prelude Memory Machine Pmm.

(** The size of a block in exact arithmetic. *)
Definition bs (o : nat) : Z := 2 ^ (12 + Z.of_nat o).
Abbreviation PA_LIMIT := (2 ^ 52).

Lemma bs_pos o : 4096 ≤ bs o.
Proof. unfold bs. rewrite Z.pow_add_r by lia. pose proof (Z.pow_pos_nonneg 2 (Z.of_nat o)). lia. Qed.

Lemma bs_S o : bs (S o) = 2 * bs o.
Proof. unfold bs. rewrite <-Z.pow_succ_r by lia. f_equal. lia. Qed.

Lemma bs_le o o' : (o ≤ o')%nat → bs o ≤ bs o'.
Proof. intros. apply Z.pow_le_mono_r; lia. Qed.

Lemma bs_max o : (o ≤ 16)%nat → bs o ≤ 2 ^ 28.
Proof. intros. transitivity (bs 16); [by apply bs_le|reflexivity]. Qed.

Lemma bs_divide o o' : (o ≤ o')%nat → (bs o | bs o').
Proof.
  intros. exists (2 ^ (Z.of_nat o' - Z.of_nat o)). unfold bs.
  rewrite <-Z.pow_add_r by lia. f_equal. lia.
Qed.

Lemma blockSize_bs o : (o ≤ 16)%nat → blockSize o = bs o.
Proof.
  intros Ho. unfold blockSize, PAGE_SIZE. rewrite Z.shiftl_mul_pow2 by lia.
  change 0x1000 with (2 ^ 12). rewrite <-Z.pow_add_r by lia.
  apply Z.mod_small. pose proof (bs_max o Ho). pose proof (bs_pos o). unfold bs in *. lia.
Qed.

(** ** Representation *)

(** The null terminated list [l] is linked through memory from [p]. *)
Fixpoint chain (m : gmap Z Z) (p : Z) (l : list Z) : Prop :=
  match l with
  | [] => p = 0
  | a :: l' => p = a ∧ a ≠ 0 ∧ chain m (load64 m a) l'
  end.

Record pool_ok (p : Pmm) : Prop := {
  po_base : 0 ≤ m_base p;
  po_base_page : m_base p mod 4096 = 0;
  po_size : 0 ≤ m_size p ≤ MAX_POOL_SIZE;
  po_end : m_base p + m_size p ≤ PA_LIMIT;
  po_lists : length (m_freeLists p) = NUM_ORDERS;
}.

(** A well placed block of order [o] at [a]. *)
Definition in_pool (p : Pmm) (a : Z) (o : nat) : Prop :=
  m_base p ≤ a ∧ a + bs o ≤ m_base p + m_size p ∧ (a - m_base p) mod bs o = 0 ∧ a ≠ 0 ∧
  (o ≤ MAX_ORDER)%nat.

(** The bytes of a block, and the bytes of all free blocks. *)
Definition block (a : Z) (o : nat) (x : Z) : Prop := a ≤ x < a + bs o.
Definition free_at (L : nat → list Z) (x : Z) : Prop := ∃ o a, a ∈ L o ∧ block a o x.

Definition apart (a : Z) (o : nat) (b : Z) (o' : nat) : Prop := a + bs o ≤ b ∨ b + bs o' ≤ a.
Definition apart_all (L : nat → list Z) (a : Z) (o : nat) : Prop :=
  ∀ o' b, b ∈ L o' → apart a o b o'.

(** [L o] is the list of the free blocks of order [o], in list order. *)
Record free_lists (s : machine) (L : nat → list Z) : Prop := {
  fl_pool : pool_ok (mc_pmm s);
  fl_chain : ∀ o, (o ≤ MAX_ORDER)%nat →
    chain (mc_mem s) (m_freeLists (mc_pmm s) !!! o) (L o);
  fl_block : ∀ o a, a ∈ L o → in_pool (mc_pmm s) a o;
  fl_nodup : ∀ o, NoDup (L o);
  fl_apart : ∀ o a o' b, a ∈ L o → b ∈ L o' → (o, a) ≠ (o', b) → apart a o b o';
}.

(** What an operation may change: memory inside [P], the free lists, the bitmap. *)
Record touched (P : Z → Prop) (s s' : machine) : Prop := {
  to_only : mem_pmm_only s s';
  to_mem : mem_same_outside P s s';
  to_base : m_base (mc_pmm s') = m_base (mc_pmm s);
  to_size : m_size (mc_pmm s') = m_size (mc_pmm s);
}.

Definition same_bitmap (s s' : machine) : Prop :=
  m_bitmap (mc_pmm s') = m_bitmap (mc_pmm s).

Lemma touched_refl P s : touched P s s.
Proof. by split. Qed.

Lemma touched_trans (P Q R : Z → Prop) s1 s2 s3 :
  touched P s1 s2 → touched Q s2 s3 → (∀ x, P x → R x) → (∀ x, Q x → R x) →
  touched R s1 s3.
Proof.
  intros [? ? ? ?] [? ? ? ?] HP HQ. split; [|by eapply mem_same_outside_trans| |]; try congruence.
  by eapply mem_pmm_only_trans.
Qed.

Lemma touched_weaken (P Q : Z → Prop) s s' :
  touched P s s' → (∀ x, P x → Q x) → touched Q s s'.
Proof. intros H1 H2. eapply touched_trans; [exact H1|apply (touched_refl Q)| |]; auto. Qed.

Lemma apart_sym a o b o' : apart a o b o' ↔ apart b o' a o.
Proof. unfold apart. lia. Qed.

Lemma apart_block a o b o' x : apart a o b o' → block a o x → ¬ block b o' x.
Proof. unfold apart, block. lia. Qed.

Lemma in_pool_size_eq p p' a o :
  m_base p' = m_base p → m_size p' = m_size p → in_pool p a o → in_pool p' a o.
Proof. unfold in_pool. by intros -> ->. Qed.

Lemma in_pool_bounds p a o :
  pool_ok p → in_pool p a o → 0 < a ∧ a + bs o ≤ PA_LIMIT ∧ a mod 4096 = 0.
Proof.
  intros [? Hb ? ? _] (? & ? & Hm & ? & _). split_and!; [lia|lia|].
  apply Z.mod_divide in Hm; [|pose proof (bs_pos o); lia].
  apply Z.mod_divide; [lia|]. apply Z.mod_divide in Hb; [|lia].
  replace a with ((a - m_base p) + m_base p) by lia. apply Z.divide_add_r; [|done].
  etransitivity; [|exact Hm]. change 4096 with (bs 0). apply bs_divide. lia.
Qed.

Lemma chain_agree m m' p l :
  (∀ a, a ∈ l → load64 m' a = load64 m a) → chain m p l → chain m' p l.
Proof.
  revert p. induction l as [|a l IH]; intros p Heq Hc; simpl in *; [done|].
  destruct Hc as (-> & ? & Hc). split_and!; [done..|].
  rewrite Heq by set_solver. apply IH; [set_solver|done].
Qed.

(** Free blocks keep their links when memory changes elsewhere. *)
Lemma load64_block_agree (P : Z → Prop) s s' a o :
  mem_same_outside P s s' → (∀ x, block a o x → ¬ P x) →
  load64 (mc_mem s') a = load64 (mc_mem s) a.
Proof.
  intros Hm HP. apply load_agree. intros x Hx. apply Hm, HP.
  pose proof (bs_pos o). unfold block. lia.
Qed.

Lemma apart_all_not_free L a o x : apart_all L a o → block a o x → ¬ free_at L x.
Proof. intros H Hx (o' & b & Hb & Hx'). by eapply apart_block; [apply (H o' b Hb)| |]. Qed.

Lemma free_at_elem (L : nat → list Z) o a x : a ∈ L o → block a o x → free_at L x.
Proof. by exists o, a. Qed.

(** ** [listPush] *)

Section ops.
Context (s : machine) (L : nat → list Z) (HL : free_lists s L).

Lemma head_fits o : (o ≤ MAX_ORDER)%nat → fits 64 (m_freeLists (mc_pmm s) !!! o).
Proof.
  intros Ho. pose proof (fl_chain _ _ HL o Ho) as Hc. pose proof (fl_block _ _ HL o) as Hb.
  destruct (L o) as [|a l]; simpl in Hc; [rewrite Hc; done|].
  destruct Hc as [-> _]. destruct (in_pool_bounds _ _ _ (fl_pool _ _ HL) (Hb a ltac:(set_solver))).
  pose proof (bs_pos o). unfold fits. lia.
Qed.

Lemma lookup_list_insert o o' v :
  (o ≤ MAX_ORDER)%nat →
  (<[o := v]> (m_freeLists (mc_pmm s)) : list Z) !!! o' =
  if decide (o = o') then v else m_freeLists (mc_pmm s) !!! o'.
Proof.
  intros Ho. case_decide as E; subst.
  - apply list_lookup_total_insert_eq. rewrite (po_lists _ (fl_pool _ _ HL)).
    unfold NUM_ORDERS, MAX_ORDER in *. lia.
  - by apply list_lookup_total_insert_ne.
Qed.

(** The state after the free lists changed to [L'] and memory inside [P]. *)
Lemma free_lists_update s' L' (P : Z → Prop) o :
  (o ≤ MAX_ORDER)%nat →
  touched P s s' →
  (∀ o', o' ≠ o → L' o' = L o' ∧ m_freeLists (mc_pmm s') !!! o' = m_freeLists (mc_pmm s) !!! o') →
  length (m_freeLists (mc_pmm s')) = NUM_ORDERS →
  (∀ o' b x, o' ≠ o → b ∈ L o' → block b o' x → ¬ P x) →
  chain (mc_mem s') (m_freeLists (mc_pmm s') !!! o) (L' o) →
  (∀ a, a ∈ L' o → a ∈ L o ∨ in_pool (mc_pmm s) a o ∧ apart_all L a o) →
  NoDup (L' o) →
  (∀ a b, a ∈ L' o → b ∈ L' o → a ≠ b → apart a o b o) →
  free_lists s' L'.
Proof.
  intros Ho [Hon Hm Hb Hsz] Hother Hlen HP Hch Hin Hnd Hap. destruct HL as [[] Hc Hbl Hn Had].
  split.
  - by split; rewrite ?Hb, ?Hsz.
  - intros o' Ho'. destruct (decide (o' = o)) as [->|Hne]; [done|].
    destruct (Hother o' Hne) as [-> ->]. eapply chain_agree; [|by apply Hc].
    intros b Hbin. eapply load64_block_agree; [done|]. intros x Hx. eapply HP; eauto.
  - intros o' a Ha. apply (in_pool_size_eq (mc_pmm s)); [done..|].
    destruct (decide (o' = o)) as [->|Hne].
    + destruct (Hin a Ha) as [|[]]; auto.
    + destruct (Hother o' Hne) as [HLo _]. rewrite HLo in Ha. auto.
  - intros o'. destruct (decide (o' = o)) as [->|Hne]; [done|].
    destruct (Hother o' Hne) as [-> _]. auto.
  - assert (Hmix : ∀ a o' b, a ∈ L' o → o' ≠ o → b ∈ L o' → apart a o b o').
    { intros a o' b Ha Hne Hb'. destruct (Hin a Ha) as [|[_ H']]; [|by apply H'].
      apply Had; [done..|congruence]. }
    intros o1 a o2 b Ha Hb' Hne.
    destruct (decide (o1 = o)) as [->|H1], (decide (o2 = o)) as [->|H2].
    + apply Hap; [done..|congruence].
    + destruct (Hother o2 H2) as [HLo _]. rewrite HLo in Hb'. auto.
    + destruct (Hother o1 H1) as [HLo _]. rewrite HLo in Ha. apply apart_sym. auto.
    + destruct (Hother o1 H1) as [HL1 _]. destruct (Hother o2 H2) as [HL2 _].
      rewrite HL1 in Ha. rewrite HL2 in Hb'. auto.
Qed.

Lemma listPush_spec a o :
  in_pool (mc_pmm s) a o → apart_all L a o →
  runs (listPush a o) s (λ _ s',
    free_lists s' (<[o := a :: L o]> L) ∧ touched (block a o) s s' ∧ same_bitmap s s').
Proof.
  intros Hin Hap. pose proof Hin as (_ & _ & _ & Ha0 & Ho). pose proof (bs_pos o) as Hpos.
  assert (Hnot : a ∉ L o) by (intros Ha; specialize (Hap o a Ha); unfold apart in Hap; lia).
  assert (Ht : touched (block a o) s
    (set_pmm (λ p, set_freeLists (<[o:=a]> (m_freeLists p)) p)
      (set_mem (λ m, store64 m a (m_freeLists (mc_pmm s) !!! o)) s))).
  { split; [done| |done|done]. intros x Hx. apply store_frame.
    unfold block in Hx. lia. }
  unfold listPush, freeList, st64, set_freeList. run. split; [|split; [exact Ht|done]].
  eapply (free_lists_update _ _ _ o Ho Ht); simpl.
  - intros o' Hne. rewrite fn_lookup_insert_ne by done. split; [done|].
    rewrite lookup_list_insert by done. by rewrite decide_False.
  - rewrite length_insert. apply (po_lists _ (fl_pool _ _ HL)).
  - intros o' b x Hne Hb Hx. eapply apart_block; [|exact Hx]. apply apart_sym. auto.
  - rewrite fn_lookup_insert, lookup_list_insert, decide_True by done. simpl.
    split_and!; [done..|]. rewrite load_store_eq_fits by (by apply head_fits).
    eapply chain_agree; [|by apply (fl_chain _ _ HL)].
    intros b Hb. apply load_store_ne. specialize (Hap o b Hb). unfold apart in Hap. lia.
  - rewrite fn_lookup_insert. intros b [->|Hb]%elem_of_cons; auto.
  - rewrite fn_lookup_insert. constructor; [done|]. apply (fl_nodup _ _ HL).
  - rewrite fn_lookup_insert.
    intros b c [->|Hb]%elem_of_cons [->|Hc]%elem_of_cons Hne; [done|by apply Hap| |].
    + apply apart_sym. by apply Hap.
    + apply (fl_apart _ _ HL); [done..|congruence].
Qed.

Lemma listPop_spec a l o :
  L o = a :: l → (o ≤ MAX_ORDER)%nat →
  runs (listPop o) s (λ r s', r = a ∧ free_lists s' (<[o := l]> L) ∧
    touched (λ _, False) s s' ∧ same_bitmap s s').
Proof.
  intros HLo Ho. pose proof (fl_chain _ _ HL o Ho) as Hc. rewrite HLo in Hc.
  destruct Hc as (Hhd & Ha0 & Hc).
  unfold listPop, freeList, ld64, set_freeList. run. rewrite Hhd, decide_False by done.
  run. split; [done|].
  assert (Ht : touched (λ _, False) s (set_pmm (λ p, set_freeLists
    (<[o:=load64 (mc_mem s) a]> (m_freeLists p)) p) s)) by (by split).
  split; [|by split]. pose proof (fl_nodup _ _ HL o) as Hnd. rewrite HLo in Hnd.
  inversion_clear Hnd as [|? ? Hnot Hnd'].
  eapply (free_lists_update _ _ _ o Ho Ht); simpl.
  - intros o' Hne. rewrite fn_lookup_insert_ne by done. split; [done|].
    rewrite lookup_list_insert by done. by rewrite decide_False.
  - rewrite length_insert. apply (po_lists _ (fl_pool _ _ HL)).
  - auto.
  - by rewrite fn_lookup_insert, lookup_list_insert, decide_True by done.
  - rewrite fn_lookup_insert. intros b Hb. left. rewrite HLo. set_solver.
  - by rewrite fn_lookup_insert.
  - rewrite fn_lookup_insert. intros b c Hb Hc' Hne.
    apply (fl_apart _ _ HL); [rewrite HLo; set_solver..|congruence].
Qed.
End ops.

(** ** [listRemove] *)

Definition spaced (l : list Z) : Prop := ∀ a b, a ∈ l → b ∈ l → a ≠ b → a + 8 ≤ b ∨ b + 8 ≤ a.

Lemma chain_unlink m p l1 n a l2 :
  spaced (l1 ++ n :: a :: l2) → NoDup (l1 ++ n :: a :: l2) →
  chain m p (l1 ++ n :: a :: l2) →
  chain (store64 m n (load64 m a)) p (l1 ++ n :: l2).
Proof.
  revert p. induction l1 as [|b l1 IH]; intros p Hsp Hnd Hc; simpl in *.
  - destruct Hc as (-> & Hn & Ha & _ & Hc). split_and!; [done..|].
    rewrite load_store_eq_fits by apply (load_range 8).
    eapply chain_agree; [|exact Hc]. intros x Hx. apply load_store_ne.
    apply list.NoDup_cons in Hnd as [Hnot _].
    apply Hsp; [set_solver..|]. intros ->. set_solver.
  - destruct Hc as (-> & Hb & Hc). split_and!; [done..|].
    apply list.NoDup_cons in Hnd as [Hnot Hnd].
    rewrite load_store_ne by (apply Hsp; [set_solver..|]; intros ->; set_solver).
    apply IH; [|done|done]. intros x y Hx Hy. apply Hsp; set_solver.
Qed.

(** What a link of the walk reads: the first element not yet visited. *)
Lemma chain_next m p l1 n l2 :
  chain m p (l1 ++ n :: l2) → chain m (load64 m n) l2.
Proof. revert p. induction l1 as [|b l1 IH]; intros p Hc; simpl in *; naive_solver. Qed.

Definition link_at (l : link) (visited : list Z) : Prop :=
  match l with
  | Head => visited = []
  | NextOf n => ∃ l', visited = l' ++ [n]
  end.

Section remove.
Context (s : machine) (L : nat → list Z) (HL : free_lists s L).
Context (o : nat) (Ho : (o ≤ MAX_ORDER)%nat).

Lemma list_spaced : spaced (L o).
Proof.
  intros a b Ha Hb Hne. pose proof (bs_pos o).
  destruct (fl_apart _ _ HL o a o b Ha Hb); [congruence|lia|lia].
Qed.

Lemma read_link_spec l l1 l2 :
  L o = l1 ++ l2 → link_at l l1 →
  ∃ p, read_link o l s = Done p s ∧ chain (mc_mem s) p l2.
Proof.
  intros HLo Hl. pose proof (fl_chain _ _ HL o Ho) as Hc. rewrite HLo in Hc.
  destruct l as [|n]; simpl in *.
  - subst l1. eauto.
  - destruct Hl as [l' ->]. rewrite <-app_assoc in Hc. eauto using chain_next.
Qed.

Lemma unlink_spec l l1 a l2 :
  L o = l1 ++ a :: l2 → link_at l l1 →
  runs (write_link o l (load64 (mc_mem s) a)) s (λ _ s',
    free_lists s' (<[o := l1 ++ l2]> L) ∧ touched (free_at L) s s' ∧ same_bitmap s s').
Proof.
  intros HLo Hl. pose proof (fl_chain _ _ HL o Ho) as Hc. rewrite HLo in Hc.
  pose proof (fl_nodup _ _ HL o) as Hnd. pose proof list_spaced as Hsp.
  assert (Hsub : ∀ x, x ∈ l1 ++ l2 → x ∈ L o) by (rewrite HLo; set_solver).
  destruct l as [|n]; simpl in Hl |- *; unfold set_freeList, st64; run.
  - subst l1. simpl in Hc. destruct Hc as (_ & _ & Hc).
    assert (Ht : touched (free_at L) s (set_pmm (λ p, set_freeLists
      (<[o:=load64 (mc_mem s) a]> (m_freeLists p)) p) s)) by (by split).
    split; [|by split].
    eapply (free_lists_update s L HL _ _ (λ _, False) o Ho); simpl; try done.
    + intros o' Hne. rewrite fn_lookup_insert_ne by done. split; [done|].
      rewrite (lookup_list_insert s L HL) by done. by rewrite decide_False.
    + rewrite length_insert. apply (po_lists _ (fl_pool _ _ HL)).
    + auto.
    + by rewrite fn_lookup_insert, (lookup_list_insert s L HL), decide_True by done.
    + rewrite fn_lookup_insert. auto.
    + rewrite fn_lookup_insert. rewrite HLo in Hnd. by apply list.NoDup_cons in Hnd as [].
    + rewrite fn_lookup_insert. intros b c Hb Hc' Hne.
      apply (fl_apart _ _ HL); auto. congruence.
  - destruct Hl as [l' ->]. rewrite <-app_assoc in HLo, Hc |- *. simpl in *.
    assert (Hn : n ∈ L o) by (rewrite HLo; set_solver).
    assert (Ht : touched (block n o) s (set_mem (λ m, store64 m n (load64 m a)) s)).
    { split; [done| |done|done]. intros x Hx. apply store_frame.
      pose proof (bs_pos o). unfold block in Hx. lia. }
    split.
    2: { split; [|done]. eapply touched_weaken; [exact Ht|]. intros x Hx. by eapply free_at_elem. }
    eapply (free_lists_update s L HL _ _ _ o Ho Ht); simpl.
    + intros o' Hne. by rewrite fn_lookup_insert_ne.
    + apply (po_lists _ (fl_pool _ _ HL)).
    + intros o' b x Hne Hb Hx. eapply apart_block; [|exact Hx].
      apply (fl_apart _ _ HL); [done..|congruence].
    + rewrite fn_lookup_insert. rewrite HLo in Hsp, Hnd. by apply chain_unlink.
    + rewrite fn_lookup_insert. intros b Hb. left. apply Hsub. set_solver.
    + rewrite fn_lookup_insert. rewrite HLo in Hnd.
      eapply sublist_NoDup; [exact Hnd|]. apply sublist_app; [done|].
      by apply sublist_skip, sublist_cons.
    + rewrite fn_lookup_insert. intros b c Hb Hc' Hne.
      apply (fl_apart _ _ HL); [apply Hsub; set_solver..|congruence].
Qed.
End remove.

(** Two blocks of one order in a pool are disjoint or the same. *)
Lemma in_pool_apart p a b o : in_pool p a o → in_pool p b o → a ≠ b → apart a o b o.
Proof.
  intros (_ & _ & Ha & _) (_ & _ & Hb & _) Hne. pose proof (bs_pos o). unfold apart.
  apply Z.mod_divide in Ha as [x Hx]; [|lia]. apply Z.mod_divide in Hb as [y Hy]; [|lia].
  destruct (Z.lt_trichotomy x y) as [Hlt|[->|Hlt]]; [left| |right]; [|lia|].
  - pose proof (Z.mul_le_mono_nonneg_r (x + 1) y (bs o)). lia.
  - pose proof (Z.mul_le_mono_nonneg_r (y + 1) x (bs o)). lia.
Qed.

(** Distinct blocks of a pool are at most as many as it has pages. *)
Lemma in_pool_length p o l :
  pool_ok p → NoDup l → (∀ a, a ∈ l → in_pool p a o) →
  (length l ≤ Z.to_nat (m_size p ≫ PAGE_SHIFT))%nat.
Proof.
  intros [? ? ? ? _] Hnd Hin.
  set (n := Z.to_nat _). pose (f := λ a : Z, Z.to_nat ((a - m_base p) / 4096)).
  pose proof (bs_pos o) as Hpos.
  rewrite <-(length_seq n 0%nat), <-(length_fmap f l).
  apply submseteq_length, NoDup_submseteq.
  - apply NoDup_fmap_2_strong; [|done].
    intros a b Ha Hb Hf. destruct (decide (a = b)) as [|Hne]; [done|].
    destruct (Hin _ Ha) as (? & _). destruct (Hin _ Hb) as (? & _).
    unfold f in Hf. apply Z2Nat.inj in Hf; [|apply Z.div_pos; lia..].
    destruct (in_pool_apart p a b o (Hin a Ha) (Hin b Hb) Hne) as [Hap|Hap]; exfalso.
    + pose proof (Z.div_le_mono (a - m_base p + 1 * 4096) (b - m_base p) 4096) as Hd.
      rewrite Z.div_add in Hd by lia. lia.
    + pose proof (Z.div_le_mono (b - m_base p + 1 * 4096) (a - m_base p) 4096) as Hd.
      rewrite Z.div_add in Hd by lia. lia.
  - intros x (a & -> & Ha)%list_elem_of_fmap. apply elem_of_seq.
    destruct (Hin _ Ha) as (? & ? & _). split; [lia|].
    unfold f, n. rewrite Z.shiftr_div_pow2 by (unfold PAGE_SHIFT; lia).
    change (2 ^ PAGE_SHIFT) with 4096. apply Z2Nat.inj_lt; [apply Z.div_pos; lia..|].
    apply Z.div_lt_upper_bound; [lia|].
    pose proof (Z.mul_div_le (m_size p) 4096).
    pose proof (Z.mod_pos_bound (m_size p) 4096).
    pose proof (Z.div_mod (m_size p) 4096). lia.
Qed.

Section bound.
Context (s : machine) (L : nat → list Z) (HL : free_lists s L).

(** A free list has at most one node per page of the pool. *)
Lemma free_list_length o : (length (L o) ≤ Z.to_nat (m_size (mc_pmm s) ≫ PAGE_SHIFT))%nat.
Proof.
  apply (in_pool_length _ o); [apply (fl_pool _ _ HL)|apply (fl_nodup _ _ HL)|apply (fl_block _ _ HL)].
Qed.

Lemma listRemove_spec a o :
  (o ≤ MAX_ORDER)%nat →
  runs (listRemove a o) s (λ r s',
    (r = true ∧ ∃ l1 l2, L o = l1 ++ a :: l2 ∧ free_lists s' (<[o := l1 ++ l2]> L) ∧
       touched (free_at L) s s' ∧ same_bitmap s s') ∨
    (r = false ∧ a ∉ L o ∧ s' = s)).
Proof.
  intros Ho. unfold listRemove. run.
  apply (runs_loop (λ n l s', s' = s ∧ ∃ l1 l2,
    L o = l1 ++ l2 ∧ a ∉ l1 ∧ link_at l l1 ∧ n = S (length l2))) with (n := S (length (L o))).
  - intros n l s' (-> & l1 & l2 & HLo & Hnot & Hl & ->).
    destruct (read_link_spec s L HL o Ho l l1 l2 HLo Hl) as (p & Hrd & Hc).
    unfold listRemove_step. run. eapply runs_of_eq; [exact Hrd|].
    case_decide as Hp.
    + run. right. split_and!; [done| |done]. destruct l2 as [|b l2]; [|simpl in Hc; naive_solver].
      rewrite HLo. set_solver.
    + destruct l2 as [|b l2]; [done|]. destruct Hc as (-> & Hb & Hc). case_decide as Hba.
      * subst b. unfold ld64. run.
        eapply runs_mono; [by eapply unlink_spec|]. intros [] s' (? & ? & ?). run. left. eauto 8.
      * run. exists (S (length l2)). split; [simpl; lia|]. split; [done|].
        exists (l1 ++ [b]), l2. rewrite <-app_assoc. split_and!; [done|set_solver| |done].
        simpl. eauto.
  - split; [done|]. exists [], (L o). split_and!; [done|set_solver|done|done].
  - unfold list_fuel. pose proof (free_list_length o). lia.
Qed.
End bound.
