(* ===== verification/Bitmap.v ===== *)
(** * The buddy bitmap: bounds, injectivity of the index, and what a toggle does *)
From S2P Require Import Prelude Memory Machine Pmm FreeLists.

(** ** Bit facts *)

Lemma lxor_pow2_clear x n : 0 ≤ n → Z.testbit x n = false → Z.lxor x (2 ^ n) = x + 2 ^ n.
Proof.
  intros Hn Hb. symmetry. apply Z.add_nocarry_lxor, Z.bits_inj'. intros i Hi.
  rewrite Z.land_spec, Z.bits_0, Z.pow2_bits_eqb by done.
  destruct (Z.eqb_spec n i) as [->|]; [by rewrite Hb|apply andb_false_r].
Qed.

Lemma lxor_pow2_set x n : 0 ≤ n → Z.testbit x n = true → Z.lxor x (2 ^ n) = x - 2 ^ n.
Proof.
  intros Hn Hb. assert (Z.testbit (Z.lxor x (2 ^ n)) n = false) as Hb'.
  { by rewrite Z.lxor_spec, Hb, Z.pow2_bits_true by done. }
  pose proof (lxor_pow2_clear _ n Hn Hb') as E.
  rewrite Z.lxor_assoc, Z.lxor_nilpotent, Z.lxor_0_r in E. lia.
Qed.

Lemma lxor_pow2_multiple k n :
  0 ≤ n → Z.lxor (k * 2 ^ n) (2 ^ n) = (if Z.odd k then k - 1 else k + 1) * 2 ^ n.
Proof.
  intros Hn. assert (Z.testbit (k * 2 ^ n) n = Z.odd k) as Hb.
  { rewrite Z.testbit_odd, Z.shiftr_div_pow2, Z.div_mul by lia. done. }
  destruct (Z.odd k); [rewrite lxor_pow2_set|rewrite lxor_pow2_clear]; try done; lia.
Qed.

(** The bit of the bitmap at index [i]. *)
Definition bitAt (b : gmap Z Z) (i : Z) : bool :=
  Z.testbit (default 0 (b !! (i ≫ 3))) (Z.land i 7).

Lemma land7 i : Z.land i 7 = i mod 8.
Proof. change 7 with (Z.ones 3). by rewrite Z.land_ones. Qed.

Lemma index_split i j : i ≫ 3 = j ≫ 3 → Z.land i 7 = Z.land j 7 → i = j.
Proof.
  rewrite !land7, !Z.shiftr_div_pow2 by lia. change (2 ^ 3) with 8. intros.
  rewrite (Z.div_mod i 8), (Z.div_mod j 8) by lia. congruence.
Qed.

Lemma bitmapToggle_spec s a o :
  let i := bitmapIndex (mc_pmm s) a o in
  i ≫ 3 < BITMAP_BYTES →
  runs (bitmapToggle a o) s (λ bit s', ∃ b,
    s' = set_pmm (set_bitmap b) s ∧
    bitAt b i = negb (bitAt (m_bitmap (mc_pmm s)) i) ∧
    (∀ j, j ≠ i → bitAt b j = bitAt (m_bitmap (mc_pmm s)) j) ∧
    bit = Z.b2z (bitAt b i)).
Proof.
  intros i Hi. unfold bitmapToggle. run. fold i. rewrite decide_False by lia.
  set (old := default 0 (m_bitmap (mc_pmm s) !! (i ≫ 3))).
  assert (Hk : 0 ≤ Z.land i 7 < 8) by (rewrite land7; apply Z.mod_pos_bound; lia).
  assert (Hm : u8 (1 ≪ Z.land i 7) = 2 ^ Z.land i 7).
  { rewrite Z.shiftl_1_l. apply Z.mod_small. split; [lia|]. apply Z.pow_lt_mono_r; lia. }
  rewrite Hm. run. eexists. split; [done|].
  assert (Hbit : ∀ j, bitAt (<[i ≫ 3:=Z.lxor old (2 ^ Z.land i 7)]> (m_bitmap (mc_pmm s))) j =
    xorb (bitAt (m_bitmap (mc_pmm s)) j) (bool_decide (i = j))).
  { intros j. unfold bitAt. destruct (decide (i ≫ 3 = j ≫ 3)) as [E|E].
    - rewrite E, lookup_insert_eq. simpl. rewrite Z.lxor_spec. f_equal; [by rewrite <-E|].
      rewrite Z.pow2_bits_eqb by lia. case_bool_decide as D.
      + subst. apply Z.eqb_refl.
      + apply Z.eqb_neq. intros H. by apply D, index_split.
    - rewrite lookup_insert_ne by done. rewrite bool_decide_false by (intros ->; done).
      by rewrite xorb_false_r. }
  split_and!.
  - rewrite Hbit, bool_decide_true by done. apply xorb_true_r.
  - intros j Hj. rewrite Hbit, bool_decide_false by done. apply xorb_false_r.
  - rewrite Hbit, bool_decide_true, xorb_true_r by done. unfold bitAt. fold old.
    replace (Z.land (Z.lxor old (2 ^ Z.land i 7)) (2 ^ Z.land i 7))
      with (if Z.testbit old (Z.land i 7) then 0 else 2 ^ Z.land i 7).
    { destruct (Z.testbit old (Z.land i 7)); case_decide; simpl; try done. lia. }
    apply Z.bits_inj'. intros n Hn. rewrite Z.land_spec, Z.lxor_spec, Z.pow2_bits_eqb by lia.
    destruct (Z.testbit old (Z.land i 7)) eqn:E.
    + rewrite Z.bits_0. destruct (Z.eqb_spec (Z.land i 7) n) as [<-|]; [by rewrite E|].
      by rewrite andb_false_r.
    + rewrite Z.pow2_bits_eqb by lia.
      destruct (Z.eqb_spec (Z.land i 7) n) as [<-|]; [by rewrite E|]. by rewrite andb_false_r.
Qed.

(** ** The index of a pair *)

Section index.
Context (p : Pmm) (Hp : pool_ok p).
Let P := m_size p ≫ PAGE_SHIFT.

Lemma pages_range : 0 ≤ P ≤ 2 ^ 21.
Proof.
  destruct Hp as [_ _ Hs _ _]. unfold P, PAGE_SHIFT. rewrite Z.shiftr_div_pow2 by lia.
  unfold MAX_POOL_SIZE in Hs. split; [apply Z.div_pos; lia|].
  apply Z.div_le_upper_bound; lia.
Qed.

Lemma pairBits_bound o : (o ≤ 17)%nat → 0 ≤ pairBits P o ≤ 2 ^ 21 - 2 ^ (21 - Z.of_nat o).
Proof.
  induction o as [|o IH]; intros Ho; [cbn [pairBits]; change (Z.of_nat 0) with 0; lia|].
  specialize (IH ltac:(lia)). pose proof pages_range as HP. cbn [pairBits]. unfold u64.
  assert (Hshift : 0 ≤ P ≫ Z.of_nat (o + 1) ≤ 2 ^ (20 - Z.of_nat o)).
  { rewrite Z.shiftr_div_pow2 by lia.
    pose proof (Z.pow_pos_nonneg 2 (Z.of_nat (o + 1))).
    split; [apply Z.div_pos; lia|]. apply Z.div_le_upper_bound; [lia|].
    rewrite <-Z.pow_add_r by lia.
    replace (Z.of_nat (o + 1) + (20 - Z.of_nat o)) with 21 by lia. lia. }
  replace (21 - Z.of_nat o) with (Z.succ (20 - Z.of_nat o)) in IH by lia.
  rewrite Z.pow_succ_r in IH by lia.
  replace (21 - Z.of_nat (S o)) with (20 - Z.of_nat o) by lia.
  rewrite Z.mod_small; lia.
Qed.

Lemma pairBits_S o : (o ≤ 16)%nat →
  pairBits P (S o) = pairBits P o + P ≫ Z.of_nat (o + 1).
Proof.
  intros Ho. pose proof (pairBits_bound o ltac:(lia)). pose proof pages_range.
  cbn [pairBits]. apply Z.mod_small.
  rewrite Z.shiftr_div_pow2 by lia. pose proof (Z.pow_pos_nonneg 2 (Z.of_nat (o + 1))).
  pose proof (Z.div_pos P (2 ^ Z.of_nat (o + 1))).
  assert (P / 2 ^ Z.of_nat (o + 1) ≤ P) by (apply Z.div_le_upper_bound; nia).
  pose proof (Z.pow_pos_nonneg 2 (21 - Z.of_nat o)). lia.
Qed.

Lemma pairBits_mono o o' : (o ≤ o')%nat → (o' ≤ 17)%nat → pairBits P o ≤ pairBits P o'.
Proof.
  induction 1 as [|o' Hle IH]; intros Ho; [lia|]. rewrite pairBits_S by lia.
  specialize (IH ltac:(lia)). pose proof pages_range.
  rewrite Z.shiftr_div_pow2 by lia. pose proof (Z.pow_pos_nonneg 2 (Z.of_nat (o' + 1))).
  pose proof (Z.div_pos P (2 ^ Z.of_nat (o' + 1))). lia.
Qed.

(** The position of a block in units of its size. *)
Definition pos (a : Z) (o : nat) : Z := (a - m_base p) / bs o.

Lemma in_pool_pos a o : in_pool p a o → a = m_base p + pos a o * bs o ∧ 0 ≤ pos a o ∧
  (pos a o + 1) * 2 ^ Z.of_nat o ≤ P.
Proof.
  intros (H1 & H2 & H3 & _ & _). unfold pos. pose proof (bs_pos o).
  assert (a - m_base p = (a - m_base p) / bs o * bs o) as E.
  { pose proof (Z.div_mod (a - m_base p) (bs o)). lia. }
  split_and!; [lia|apply Z.div_pos; lia|].
  unfold P, PAGE_SHIFT. rewrite Z.shiftr_div_pow2 by lia.
  apply Z.div_le_lower_bound; [lia|].
  replace (2 ^ 12 * (((a - m_base p) / bs o + 1) * 2 ^ Z.of_nat o))
    with (((a - m_base p) / bs o + 1) * bs o)
    by (unfold bs; rewrite Z.pow_add_r by lia; ring). lia.
Qed.

Lemma sub_base_small a o : in_pool p a o → a ⊟ m_base p = a - m_base p.
Proof.
  intros (? & ? & _). destruct Hp as [? _ Hs _ _]. unfold MAX_POOL_SIZE in Hs.
  pose proof (bs_pos o). apply Z.mod_small. lia.
Qed.

Lemma bitmapIndex_eq a o :
  in_pool p a o → bitmapIndex p a o = pairBits P o + pos a o / 2.
Proof.
  intros Hin. pose proof Hin as (? & ? & _ & _ & Ho). unfold bitmapIndex.
  rewrite (sub_base_small a o Hin). fold P. unfold PAGE_SHIFT.
  rewrite Z.shiftr_shiftr, Z.shiftr_div_pow2 by lia.
  replace ((a - m_base p) / 2 ^ (12 + Z.of_nat (o + 1))) with (pos a o / 2).
  2: { unfold pos, bs. pose proof (Z.pow_pos_nonneg 2 (12 + Z.of_nat o)).
    rewrite Z.div_div by lia. f_equal. rewrite <-(Z.mul_comm 2), <-Z.pow_succ_r by lia.
    f_equal. lia. }
  apply Z.mod_small. destruct (in_pool_pos a o Hin) as (_ & Hk & Hk').
  pose proof pages_range. pose proof (pairBits_bound o ltac:(unfold MAX_ORDER in *; lia)).
  pose proof (Z.pow_pos_nonneg 2 (Z.of_nat o)). pose proof (Z.pow_pos_nonneg 2 (21 - Z.of_nat o)).
  pose proof (Z.div_pos (pos a o) 2). assert (pos a o / 2 ≤ pos a o) by (apply Z.div_le_upper_bound; lia).
  unfold MAX_ORDER in *. nia.
Qed.

(** Blocks of the pool always have their bit inside the array. *)
Lemma bitmapIndex_in_range a o :
  in_pool p a o → 0 ≤ bitmapIndex p a o ∧ bitmapIndex p a o ≫ 3 < BITMAP_BYTES.
Proof.
  intros Hin. rewrite bitmapIndex_eq by done. destruct (in_pool_pos a o Hin) as (_ & Hk & Hk').
  pose proof Hin as (_ & _ & _ & _ & Ho). unfold MAX_ORDER in Ho.
  pose proof pages_range as HP. pose proof (pairBits_bound o ltac:(lia)) as Hb.
  assert (Hhalf : pos a o / 2 < 2 ^ (20 - Z.of_nat o)).
  { apply Z.div_lt_upper_bound; [lia|].
    assert ((pos a o + 1) * 2 ^ Z.of_nat o ≤ 2 ^ (21 - Z.of_nat o) * 2 ^ Z.of_nat o) as Hle.
    { rewrite <-Z.pow_add_r by lia. replace (21 - Z.of_nat o + Z.of_nat o) with 21 by lia. lia. }
    apply Z.mul_le_mono_pos_r in Hle; [|apply Z.pow_pos_nonneg; lia].
    replace (21 - Z.of_nat o) with (Z.succ (20 - Z.of_nat o)) in Hle by lia.
    rewrite Z.pow_succ_r in Hle by lia. lia. }
  pose proof (Z.div_pos (pos a o) 2). split; [lia|].
  assert (Hlow : 2 ^ 4 ≤ 2 ^ (20 - Z.of_nat o)) by (apply Z.pow_le_mono_r; lia).
  replace (21 - Z.of_nat o) with (Z.succ (20 - Z.of_nat o)) in Hb by lia.
  rewrite Z.pow_succ_r in Hb by lia.
  rewrite Z.shiftr_div_pow2 by lia. change BITMAP_BYTES with 262142.
  apply Z.div_lt_upper_bound; lia.
Qed.

(** ** Buddies *)

Lemma buddyOf_eq a o :
  in_pool p a o →
  buddyOf p a o = m_base p + (if Z.odd (pos a o) then pos a o - 1 else pos a o + 1) * bs o.
Proof.
  intros Hin. pose proof Hin as (H1 & H2 & _ & _ & Ho). unfold MAX_ORDER in Ho.
  destruct (in_pool_pos a o Hin) as (E & Hk & _). unfold buddyOf.
  rewrite (sub_base_small a o Hin), blockSize_bs by done.
  replace (a - m_base p) with (pos a o * bs o) by lia. unfold bs at 1 2.
  rewrite lxor_pow2_multiple by lia. fold (bs o).
  pose proof (bs_max o Ho). pose proof (bs_pos o).
  destruct Hp as [? _ Hs He _]. unfold MAX_POOL_SIZE in Hs.
  unfold u64. rewrite Z.mod_small; [lia|].
  assert (0 ≤ (if Z.odd (pos a o) then pos a o - 1 else pos a o + 1)).
  { destruct (Z.odd (pos a o)) eqn:Hodd; [|lia]. destruct (decide (pos a o = 0)) as [E0|]; [|lia].
    by rewrite E0 in Hodd. }
  assert ((if Z.odd (pos a o) then pos a o - 1 else pos a o + 1) ≤ pos a o + 1) by (destruct (Z.odd _); lia).
  nia.
Qed.

Lemma buddy_pos a o b : in_pool p a o → in_pool p b o →
  b = buddyOf p a o ↔ pos b o = (if Z.odd (pos a o) then pos a o - 1 else pos a o + 1).
Proof.
  intros Ha Hb. rewrite buddyOf_eq by done. destruct (in_pool_pos b o Hb) as (E & _ & _).
  pose proof (bs_pos o). split; intros H'.
  - rewrite E in H'. nia.
  - rewrite E, H'. done.
Qed.

Lemma odd_half k : k / 2 = if Z.odd k then (k - 1) / 2 else k / 2.
Proof.
  destruct (Z.odd k) eqn:E; [|done]. apply Zodd_bool_iff, Zodd_ex in E as [m ->].
  replace (2 * m + 1 - 1) with (m * 2) by lia. replace (2 * m + 1) with (1 + m * 2) by lia.
  rewrite Z.div_add, Z.div_mul by lia. done.
Qed.

(** Two blocks of one order share a bit exactly when they are equal or buddies. *)
Lemma pair_shared a b o : in_pool p a o → in_pool p b o →
  pos a o / 2 = pos b o / 2 ↔ b = a ∨ b = buddyOf p a o.
Proof.
  intros Ha Hb. rewrite (buddy_pos a o b Ha Hb).
  destruct (in_pool_pos a o Ha) as (Ea & _). destruct (in_pool_pos b o Hb) as (Eb & _).
  assert (b = a ↔ pos b o = pos a o) as ->.
  { pose proof (bs_pos o). split; [by intros ->|]. intros H'. rewrite Ea, Eb, H'. done. }
  set (i := pos a o). set (j := pos b o).
  destruct (Z.Even_or_Odd i) as [[m Hi]|[m Hi]].
  - assert (Z.odd i = false) as ->. { rewrite <-Z.negb_even. apply negb_false_iff, Z.even_spec. by exists m. }
    pose proof (Z.div_mod j 2). pose proof (Z.mod_pos_bound j 2). pose proof (Z.div_mod i 2).
    pose proof (Z.mod_pos_bound i 2). lia.
  - assert (Z.odd i = true) as ->. { apply Z.odd_spec. by exists m. }
    pose proof (Z.div_mod j 2). pose proof (Z.mod_pos_bound j 2). pose proof (Z.div_mod i 2).
    pose proof (Z.mod_pos_bound i 2). lia.
Qed.

(** When the pool is a whole number of largest buddy pairs, every pair has a
    bit of its own. *)
Definition whole_pairs : Prop := m_size p mod 2 ^ 29 = 0.

Lemma whole_pairs_pages o : whole_pairs → (o ≤ 16)%nat →
  P = 2 ^ Z.of_nat (o + 1) * (P ≫ Z.of_nat (o + 1)).
Proof.
  intros Hw Ho. unfold whole_pairs in Hw. apply Z.mod_divide in Hw as [n Hn]; [|lia].
  unfold P, PAGE_SHIFT. rewrite Hn, !Z.shiftr_div_pow2 by lia.
  replace (n * 2 ^ 29) with (n * 2 ^ 17 * 2 ^ 12) by lia. rewrite Z.div_mul by lia.
  assert (2 ^ 17 = 2 ^ (17 - Z.of_nat (o + 1)) * 2 ^ Z.of_nat (o + 1)) as E.
  { rewrite <-Z.pow_add_r by lia. f_equal. lia. }
  rewrite E at 2. rewrite Z.mul_assoc, Z.div_mul by (pose proof (Z.pow_pos_nonneg 2 (Z.of_nat (o + 1))); lia).
  rewrite E. ring.
Qed.

Lemma whole_pairs_index a o :
  whole_pairs → in_pool p a o → bitmapIndex p a o < pairBits P (S o).
Proof.
  intros Hw Hin. pose proof Hin as (_ & _ & _ & _ & Ho). unfold MAX_ORDER in Ho.
  rewrite bitmapIndex_eq, pairBits_S by done.
  destruct (in_pool_pos a o Hin) as (_ & Hk & Hk').
  pose proof (whole_pairs_pages o Hw Ho) as E. set (q := P ≫ Z.of_nat (o + 1)) in *.
  rewrite E, Nat2Z.inj_add, Z.pow_add_r in Hk' by lia.
  change (2 ^ Z.of_nat 1) with 2 in Hk'. pose proof (Z.pow_pos_nonneg 2 (Z.of_nat o)).
  assert (pos a o + 1 ≤ 2 * q) by nia.
  assert (pos a o / 2 < q) by (apply Z.div_lt_upper_bound; lia). lia.
Qed.

Lemma bitmapIndex_inj a o b o' :
  whole_pairs → in_pool p a o → in_pool p b o' →
  bitmapIndex p a o = bitmapIndex p b o' → o = o' ∧ (b = a ∨ b = buddyOf p a o).
Proof.
  intros Hw Ha Hb E. pose proof Ha as (_ & _ & _ & _ & Ho). pose proof Hb as (_ & _ & _ & _ & Ho').
  pose proof (whole_pairs_index a o Hw Ha). pose proof (whole_pairs_index b o' Hw Hb).
  unfold MAX_ORDER in *.
  assert (Hlow : ∀ c n, in_pool p c n → pairBits P n ≤ bitmapIndex p c n).
  { intros c n Hc. rewrite bitmapIndex_eq by done. destruct (in_pool_pos c n Hc) as (_ & ? & _).
    pose proof (Z.div_pos (pos c n) 2). lia. }
  pose proof (Hlow a o Ha). pose proof (Hlow b o' Hb).
  assert (o = o') as <-.
  { destruct (Nat.lt_trichotomy o o') as [Hlt|[->|Hlt]]; [exfalso|done|exfalso].
    - pose proof (pairBits_mono (S o) o' ltac:(lia) ltac:(lia)). lia.
    - pose proof (pairBits_mono (S o') o ltac:(lia) ltac:(lia)). lia. }
  split; [done|]. apply (pair_shared a b o Ha Hb). rewrite !bitmapIndex_eq in E by done. lia.
Qed.
End index.
