(* ===== verification/Buddy.v ===== *)
(** * The buddy invariant, splitting and merging *)
From S2P Require Import Prelude Memory Machine Pmm FreeLists Bitmap.

(** Each bit is the exclusive or of "this block is free" over its pair. *)
Definition bitmap_exact (s : machine) (L : nat → list Z) : Prop :=
  ∀ a o, in_pool (mc_pmm s) a o →
    bitAt (m_bitmap (mc_pmm s)) (bitmapIndex (mc_pmm s) a o) =
    xorb (bool_decide (a ∈ L o)) (bool_decide (buddyOf (mc_pmm s) a o ∈ L o)).

Record buddy_inv (s : machine) (L : nat → list Z) : Prop := {
  bi_lists : free_lists s L;
  bi_bitmap : whole_pairs (mc_pmm s) → bitmap_exact s L;
}.

(** No two buddies are both free below the largest order. *)
Definition merged (p : Pmm) (L : nat → list Z) : Prop :=
  ∀ o a, (o < MAX_ORDER)%nat → a ∈ L o → buddyOf p a o ∉ L o.

(** [b] is the bitmap of [s] with the bit of [(a, o)] flipped. *)
Definition flipped (s : machine) (a : Z) (o : nat) (b : gmap Z Z) : Prop :=
  let i := bitmapIndex (mc_pmm s) a o in
  bitAt b i = negb (bitAt (m_bitmap (mc_pmm s)) i) ∧
  ∀ j, j ≠ i → bitAt b j = bitAt (m_bitmap (mc_pmm s)) j.

Abbreviation with_bitmap b s := (set_pmm (set_bitmap b) s).

Lemma free_lists_with_bitmap s L b : free_lists s L → free_lists (with_bitmap b s) L.
Proof. intros [[] ? ? ? ?]. by split. Qed.

Lemma touched_with_bitmap P s b : touched P s (with_bitmap b s).
Proof. by split. Qed.

Lemma toggle_spec s a o :
  pool_ok (mc_pmm s) → in_pool (mc_pmm s) a o →
  runs (bitmapToggle a o) s (λ bit s', ∃ b, s' = with_bitmap b s ∧ flipped s a o b ∧
    bit = Z.b2z (bitAt b (bitmapIndex (mc_pmm s) a o))).
Proof.
  intros Hp Hin. eapply runs_mono; [apply bitmapToggle_spec, bitmapIndex_in_range; done|].
  cbv beta. intros bit s' (b & -> & ? & ? & ->). by exists b.
Qed.

(** ** Buddies as blocks *)

Section blocks.
Context (p : Pmm) (Hp : pool_ok p).

Lemma buddy_neq a o : in_pool p a o → buddyOf p a o ≠ a.
Proof.
  intros Hin. pose proof (buddyOf_eq p Hp a o Hin) as Eb.
  destruct (in_pool_pos p a o Hin) as (E & _). pose proof (bs_pos o).
  destruct (Z.odd _); nia.
Qed.

Lemma buddy_invol a o : in_pool p a o → in_pool p (buddyOf p a o) o →
  buddyOf p (buddyOf p a o) o = a.
Proof.
  intros Ha Hb. pose proof (proj1 (buddy_pos p Hp a o _ Ha Hb) eq_refl) as E.
  symmetry. apply (buddy_pos p Hp _ o a Hb Ha). rewrite E.
  destruct (Z.odd (pos p a o)) eqn:Ho.
  - replace (Z.odd (pos p a o - 1)) with false; [lia|].
    rewrite Z.odd_sub, Ho. done.
  - rewrite Z.odd_add, Ho. simpl. lia.
Qed.

Lemma buddy_index a o : in_pool p a o → in_pool p (buddyOf p a o) o →
  bitmapIndex p (buddyOf p a o) o = bitmapIndex p a o.
Proof.
  intros Ha Hb. rewrite !bitmapIndex_eq by done. f_equal. symmetry.
  apply (pair_shared p Hp a _ o Ha Hb). by right.
Qed.

Lemma buddy_apart a o : in_pool p a o → apart a o (buddyOf p a o) o.
Proof.
  intros Hin. pose proof (buddyOf_eq p Hp a o Hin) as Eb.
  destruct (in_pool_pos p a o Hin) as (E & _). pose proof (bs_pos o). unfold apart. destruct (Z.odd _); nia.
Qed.

(** A pair of buddies is one block of the next order. *)
Lemma merge_block a o :
  in_pool p a o → in_pool p (buddyOf p a o) o → (o < MAX_ORDER)%nat →
  let m := if decide (buddyOf p a o < a) then buddyOf p a o else a in
  in_pool p m (S o) ∧ (∀ x, block m (S o) x ↔ block a o x ∨ block (buddyOf p a o) o x).
Proof.
  intros Ha Hb Ho m. pose proof (bs_pos o) as Hpos. pose proof (bs_S o) as HS.
  destruct (in_pool_pos p a o Ha) as (Ea & Hk & _).
  pose proof (buddyOf_eq p Hp a o Ha) as Eb. unfold m, in_pool, block in *.
  assert (Hmod : ∀ j, j * 2 * bs o mod bs (S o) = 0).
  { intros j. rewrite HS. replace (j * 2 * bs o) with (j * (2 * bs o)) by ring.
    apply Z.mod_mul. lia. }
  destruct (Z.odd (pos p a o)) eqn:Hodd.
  - apply Zodd_bool_iff, Zodd_ex in Hodd as [j Hj]. rewrite decide_True by nia.
    split; [|intros x; nia]. split_and!; [lia|nia| |lia|lia].
    rewrite Eb. replace (_ - _) with (j * 2 * bs o) by nia. apply Hmod.
  - assert (Zeven (pos p a o)) as [j Hj]%Zeven_ex.
    { apply Zeven_bool_iff. rewrite <-Z.negb_odd, Hodd. done. }
    rewrite decide_False by nia.
    split; [|intros x; nia]. split_and!; [lia|nia| |lia|lia].
    rewrite Ea. replace (_ - _) with (j * 2 * bs o) by nia. apply Hmod.
Qed.

(** Splitting: the upper half is the buddy of the lower half. *)
Lemma split_block a o :
  in_pool p a (S o) →
  in_pool p a o ∧ in_pool p (a + bs o) o ∧ buddyOf p (a + bs o) o = a ∧
  a ⊞ blockSize o = a + bs o.
Proof.
  intros Hin. pose proof Hin as (H1 & H2 & H3 & H4 & H5). pose proof (bs_pos o). pose proof (bs_S o).
  destruct (in_pool_bounds _ _ _ Hp Hin) as (? & ? & _).
  assert (Hlo : in_pool p a o).
  { unfold in_pool. split_and!; [lia|lia| |lia|lia].
    apply Z.mod_divide in H3; [|lia]. apply Z.mod_divide; [lia|].
    etransitivity; [|exact H3]. apply bs_divide. lia. }
  assert (Hhi : in_pool p (a + bs o) o).
  { destruct Hlo as (_ & _ & Hm & _). unfold in_pool. split_and!; [lia|lia| |lia|lia].
    replace (a + bs o - m_base p) with (a - m_base p + 1 * bs o) by lia.
    rewrite Z.mod_add by lia. done. }
  split_and!; [done|done| |].
  - symmetry. apply (buddy_pos p Hp _ o a Hhi Hlo).
    assert (pos p (a + bs o) o = pos p a o + 1) as ->.
    { unfold pos. replace (a + bs o - m_base p) with (a - m_base p + 1 * bs o) by lia.
      rewrite Z.div_add by lia. done. }
    assert (Z.odd (pos p a o) = false) as E.
    { apply Z.mod_divide in H3 as [j Hj]; [|lia]. unfold pos. rewrite Hj, bs_S.
      replace (j * (2 * bs o)) with (j * 2 * bs o) by ring. rewrite Z.div_mul by lia.
      rewrite Z.odd_mul. apply andb_false_r. }
    rewrite Z.odd_add, E. simpl. lia.
  - rewrite blockSize_bs by (unfold MAX_ORDER in *; lia). apply Z.mod_small. lia.
Qed.
End blocks.

(** ** Keeping the bitmap exact *)

Lemma exact_flip s L L' o c b s' :
  free_lists s L → whole_pairs (mc_pmm s) → bitmap_exact s L →
  in_pool (mc_pmm s) c o → flipped s c o b →
  (∀ o' x, (o', x) ≠ (o, c) → x ∈ L' o' ↔ x ∈ L o') →
  (c ∈ L' o ↔ c ∉ L o) →
  m_base (mc_pmm s') = m_base (mc_pmm s) → m_size (mc_pmm s') = m_size (mc_pmm s) →
  m_bitmap (mc_pmm s') = b →
  bitmap_exact s' L'.
Proof.
  intros HL Hw Hex Hc [Hflip Hkeep] Hother Hself Hb Hsz Hbm x o' Hx.
  pose proof (fl_pool _ _ HL) as Hp. cbv zeta in Hflip, Hkeep.
  assert (Eidx : bitmapIndex (mc_pmm s') x o' = bitmapIndex (mc_pmm s) x o').
  { unfold bitmapIndex. by rewrite Hb, Hsz. }
  assert (Ebud : buddyOf (mc_pmm s') x o' = buddyOf (mc_pmm s) x o') by (unfold buddyOf; by rewrite Hb).
  apply (in_pool_size_eq _ (mc_pmm s)) in Hx; [|done..]. rewrite Eidx, Ebud, Hbm. specialize (Hex x o' Hx).
  assert (Hself' : bool_decide (c ∈ L' o) = negb (bool_decide (c ∈ L o))).
  { destruct (bool_decide (c ∈ L o)) eqn:E.
    - apply bool_decide_eq_true in E. apply bool_decide_false. tauto.
    - apply bool_decide_eq_false in E. apply bool_decide_true. tauto. }
  assert (Hkeepb : ∀ o' x, (o', x) ≠ (o, c) → bool_decide (x ∈ L' o') = bool_decide (x ∈ L o')).
  { intros. apply bool_decide_ext. by apply Hother. }
  destruct (decide (bitmapIndex (mc_pmm s) x o' = bitmapIndex (mc_pmm s) c o)) as [E|E].
  - destruct (bitmapIndex_inj (mc_pmm s) Hp c o x o' Hw Hc Hx (eq_sym E)) as [-> [->| ->]].
    + rewrite Hflip, Hex, Hself', (Hkeepb o' (buddyOf (mc_pmm s) c o')).
      * by repeat destruct (bool_decide _).
      * intros [=]. by apply (buddy_neq (mc_pmm s) Hp c o').
    + rewrite (buddy_invol (mc_pmm s) Hp c o' Hc Hx) in Hex |- *.
      rewrite E, Hflip, <-E, Hex, Hself', (Hkeepb o' (buddyOf (mc_pmm s) c o')).
      * by repeat destruct (bool_decide _).
      * intros [=]. by apply (buddy_neq (mc_pmm s) Hp c o').
  - rewrite Hkeep, Hex by done. f_equal; symmetry; apply Hkeepb.
    + intros [= -> ->]. done.
    + intros [= -> Eb]. apply E. rewrite <-Eb. symmetry. apply buddy_index; [done..|].
      by rewrite Eb.
Qed.

Section steps.
Context (s : machine) (L : nat → list Z) (HI : buddy_inv s L).
Let p := mc_pmm s.
Let HL : free_lists s L := bi_lists _ _ HI.
Let Hp : pool_ok p := fl_pool _ _ HL.

Lemma apart_all_not_elem a o : apart_all L a o → a ∉ L o.
Proof. intros H Ha. pose proof (bs_pos o). destruct (H o a Ha); lia. Qed.

(** Push after its bit was flipped. *)
Lemma push_flipped a o b :
  in_pool p a o → apart_all L a o → flipped s a o b →
  runs (listPush a o) (with_bitmap b s) (λ _ s',
    buddy_inv s' (<[o := a :: L o]> L) ∧ touched (block a o) s s').
Proof.
  intros Hin Hap Hf.
  eapply runs_mono; [apply (listPush_spec _ L); [by apply free_lists_with_bitmap|done|done]|].
  intros [] s' (HL' & Ht & Hbm). split.
  2: { eapply touched_trans; [apply (touched_with_bitmap (block a o))|exact Ht|done|done]. }
  split; [done|]. intros Hw. destruct Ht as [_ _ Hb Hs].
  assert (Hw' : whole_pairs p) by (unfold whole_pairs in *; by rewrite Hs in Hw).
  pose proof (apart_all_not_elem a o Hap).
  eapply (exact_flip s L _ o a b s'); try done.
  - by apply (bi_bitmap _ _ HI).
  - intros o' x Hne. destruct (decide (o' = o)) as [->|Hne'].
    + rewrite fn_lookup_insert, elem_of_cons. naive_solver.
    + by rewrite fn_lookup_insert_ne.
  - rewrite fn_lookup_insert. set_solver.
Qed.

(** Flip and push, the way the code always does it. *)
Lemma insert_spec {A} a o (k : M machine A) Q :
  in_pool p a o → apart_all L a o →
  (∀ s', buddy_inv s' (<[o := a :: L o]> L) → touched (block a o) s s' → runs k s' Q) →
  runs (bitmapToggle a o;; listPush a o;; k) s Q.
Proof.
  intros Hin Hap Hk. apply runs_bind. eapply runs_mono; [by apply toggle_spec|].
  intros bit s1 (b & -> & Hf & _). cbv beta. apply runs_bind.
  eapply runs_mono; [by apply push_flipped|]. intros [] s' [? ?]. auto.
Qed.

(** A block left the lists and its bit was flipped. *)
Lemma remove_flipped c o b l1 l2 s' :
  L o = l1 ++ c :: l2 → flipped s c o b →
  free_lists s' (<[o := l1 ++ l2]> L) → m_bitmap (mc_pmm s') = b →
  m_base (mc_pmm s') = m_base p → m_size (mc_pmm s') = m_size p →
  buddy_inv s' (<[o := l1 ++ l2]> L).
Proof.
  intros HLo Hf HL' Hbm Hb Hs. split; [done|]. intros Hw.
  assert (Hw' : whole_pairs p) by (unfold whole_pairs in *; by rewrite Hs in Hw).
  pose proof (fl_nodup _ _ HL o) as Hnd. rewrite HLo in Hnd.
  apply list.NoDup_app in Hnd as (Hnd1 & Hnd12 & Hnd2). apply list.NoDup_cons in Hnd2 as [Hnd2 _].
  eapply (exact_flip s L _ o c b s'); try done.
  - by apply (bi_bitmap _ _ HI).
  - apply (fl_block _ _ HL). rewrite HLo. set_solver.
  - intros o' x Hne. destruct (decide (o' = o)) as [->|Hne'].
    + rewrite fn_lookup_insert, HLo, !elem_of_app, elem_of_cons. naive_solver.
    + by rewrite fn_lookup_insert_ne.
  - rewrite fn_lookup_insert, HLo, !elem_of_app, elem_of_cons. specialize (Hnd12 c). set_solver.
Qed.
End steps.

(** The code flips the bit of a block it just took off its list. *)
Lemma toggle_removed s L (P : Z → Prop) c o l1 l2 s1 :
  buddy_inv s L → L o = l1 ++ c :: l2 →
  free_lists s1 (<[o := l1 ++ l2]> L) → touched P s s1 → same_bitmap s s1 →
  runs (bitmapToggle c o) s1 (λ _ s',
    buddy_inv s' (<[o := l1 ++ l2]> L) ∧ touched P s s').
Proof.
  intros HI HLo HL1 Ht Hbm. pose proof (bi_lists _ _ HI) as HL.
  assert (Hin : in_pool (mc_pmm s) c o) by (apply (fl_block _ _ HL); rewrite HLo; set_solver).
  eapply runs_mono.
  { apply toggle_spec; [apply (fl_pool _ _ HL1)|].
    apply (in_pool_size_eq (mc_pmm s)); [apply Ht..|done]. }
  intros bit s2 (b & -> & Hflip & _). split.
  - eapply (remove_flipped s L HI); [done| |by apply free_lists_with_bitmap|done|apply Ht..].
    unfold flipped, bitmapIndex in *. by rewrite (to_base _ _ _ Ht), (to_size _ _ _ Ht), Hbm in Hflip.
  - eapply touched_trans; [exact Ht|apply (touched_with_bitmap P)|done|done].
Qed.

Lemma free_at_insert (L : nat → list Z) a o x :
  free_at (<[o := a :: L o]> L) x ↔ free_at L x ∨ block a o x.
Proof.
  split.
  - intros (o' & b & Hb & Hx). destruct (decide (o' = o)) as [->|Hne].
    + rewrite fn_lookup_insert in Hb. apply elem_of_cons in Hb as [->|Hb]; [by right|].
      left. by exists o, b.
    + rewrite fn_lookup_insert_ne in Hb by done. left. by exists o', b.
  - intros [(o' & b & Hb & Hx)|Hx].
    + exists o', b. split; [|done]. destruct (decide (o' = o)) as [->|Hne].
      * rewrite fn_lookup_insert. set_solver.
      * by rewrite fn_lookup_insert_ne.
    + exists o, a. split; [|done]. rewrite fn_lookup_insert. set_solver.
Qed.

Lemma free_at_remove (L : nat → list Z) c o l1 l2 x :
  L o = l1 ++ c :: l2 → free_at L x ↔ free_at (<[o := l1 ++ l2]> L) x ∨ block c o x.
Proof.
  intros HLo. split.
  - intros (o' & b & Hb & Hx). destruct (decide (o' = o)) as [->|Hne].
    + rewrite HLo in Hb. destruct (decide (b = c)) as [->|]; [by right|]. left. exists o, b.
      split; [|done]. rewrite fn_lookup_insert. set_solver.
    + left. exists o', b. by rewrite fn_lookup_insert_ne.
  - intros [(o' & b & Hb & Hx)|Hx].
    + exists o', b. split; [|done]. destruct (decide (o' = o)) as [->|Hne].
      * rewrite fn_lookup_insert in Hb. rewrite HLo. set_solver.
      * by rewrite fn_lookup_insert_ne in Hb.
    + exists o, c. split; [|done]. rewrite HLo. set_solver.
Qed.

Lemma elem_remove (L : nat → list Z) c o l1 l2 o' x :
  L o = l1 ++ c :: l2 → x ∈ (<[o := l1 ++ l2]> L : nat → list Z) o' → x ∈ L o'.
Proof.
  intros HLo Hx. destruct (decide (o' = o)) as [->|Hne].
  - rewrite fn_lookup_insert in Hx. rewrite HLo. set_solver.
  - by rewrite fn_lookup_insert_ne in Hx.
Qed.

(** A removed block is apart from the ones that stay. *)
Lemma removed_apart s L c o l1 l2 :
  free_lists s L → L o = l1 ++ c :: l2 → apart_all (<[o := l1 ++ l2]> L) c o.
Proof.
  intros HL HLo o' b Hb. pose proof (elem_remove L c o l1 l2 o' b HLo Hb) as Hb'.
  apply (fl_apart _ _ HL); [rewrite HLo; set_solver|done|]. intros [= -> ->].
  rewrite fn_lookup_insert in Hb. pose proof (fl_nodup _ _ HL o') as Hnd. rewrite HLo in Hnd.
  apply list.NoDup_app in Hnd as (_ & Hnd12 & Hnd2). apply list.NoDup_cons in Hnd2 as [Hnd2 _].
  specialize (Hnd12 b). set_solver.
Qed.

Lemma apart_all_insert (L : nat → list Z) a o b o' :
  apart_all L b o' → apart b o' a o → apart_all (<[o := a :: L o]> L) b o'.
Proof.
  intros H1 H2 o'' c Hc. destruct (decide (o'' = o)) as [->|Hne].
  - rewrite fn_lookup_insert in Hc. apply elem_of_cons in Hc as [->|Hc]; auto.
  - rewrite fn_lookup_insert_ne in Hc by done. auto.
Qed.

(** ** Keeping buddies merged *)

Lemma merged_sub p (L L' : nat → list Z) :
  (∀ o x, x ∈ L' o → x ∈ L o) → merged p L → merged p L'.
Proof. intros Hsub Hm o a Ho Ha Hb. by apply (Hm o a Ho); apply Hsub. Qed.

Lemma merged_base p p' L : m_base p' = m_base p → merged p L → merged p' L.
Proof. intros Hb Hm o a Ho Ha. unfold buddyOf. rewrite Hb. by apply Hm. Qed.

Lemma merged_insert s L a o :
  free_lists s L → in_pool (mc_pmm s) a o → merged (mc_pmm s) L →
  ((o < MAX_ORDER)%nat → buddyOf (mc_pmm s) a o ∉ L o) →
  merged (mc_pmm s) (<[o := a :: L o]> L).
Proof.
  intros HL Ha Hm Hbud o' x Ho' Hx. pose proof (fl_pool _ _ HL) as Hp.
  destruct (decide (o' = o)) as [->|Hne].
  2: { rewrite fn_lookup_insert_ne in Hx |- * by done. by apply Hm. }
  rewrite fn_lookup_insert in Hx |- *. rewrite elem_of_cons.
  apply elem_of_cons in Hx as [->|Hx]; intros [Hb|Hb].
  - by apply (buddy_neq (mc_pmm s) Hp a o).
  - by apply Hbud.
  - apply Hbud; [done|]. rewrite <-Hb, buddy_invol; try done.
    + by apply (fl_block _ _ HL).
    + by rewrite Hb.
  - by apply (Hm o x).
Qed.
