(* ===== verification/PmmSpec.v ===== *)
(** * The page allocator: allocation and deallocation against the invariant *)
From S2P Require Import Prelude Memory Machine Pmm FreeLists Bitmap Buddy.

Lemma split_down_spec n : ∀ s L a found,
  buddy_inv s L → in_pool (mc_pmm s) a found → apart_all L a found → (n ≤ found)%nat →
  runs (split_down a found n) s (λ _ s', ∃ L',
    buddy_inv s' L' ∧ in_pool (mc_pmm s) a (found - n) ∧ apart_all L' a (found - n) ∧
    (∀ x, free_at L x ∨ block a found x ↔ free_at L' x ∨ block a (found - n) x) ∧
    touched (block a found) s s' ∧
    (merged (mc_pmm s) L → merged (mc_pmm s) L')).
Proof.
  induction n as [|n IH]; intros s L a found HI Hin Hap Hle; cbn [split_down].
  - run. exists L. by rewrite Nat.sub_0_r.
  - destruct found as [|f]; [lia|]. cbv zeta. replace (S f - 1)%nat with f by lia.
    pose proof (bi_lists _ _ HI) as HL. pose proof (fl_pool _ _ HL) as Hp.
    destruct (split_block _ Hp a f Hin) as (Hlo & Hhi & Hbud & ->).
    pose proof (bs_S f) as HS. pose proof (bs_pos f).
    assert (Hap_hi : apart_all L (a + bs f) f).
    { intros o' b Hb. specialize (Hap o' b Hb). unfold apart in *. lia. }
    apply (insert_spec s L HI); [done|done|]. intros s1 HI1 Ht1.
    assert (Hap1 : apart_all (<[f := a + bs f :: L f]> L) a f).
    { apply apart_all_insert; [|unfold apart; lia].
      intros o' b Hb. specialize (Hap o' b Hb). unfold apart in *. lia. }
    eapply runs_mono; [apply (IH s1 (<[f := a + bs f :: L f]> L) a f); [done| |done|lia]|].
    { by apply (in_pool_size_eq (mc_pmm s)); [apply Ht1..|]. }
    cbv beta. intros [] s' (L' & HI' & Hin' & Hap' & Hfree & Ht' & Hm').
    exists L'. replace (S f - S n)%nat with (f - n)%nat by lia. split_and!; try done.
    + apply (in_pool_size_eq (mc_pmm s1)); [symmetry; apply Ht1..|done].
    + intros x. rewrite <-Hfree, free_at_insert. unfold block. rewrite HS.
      split; [intros [?|?]; [by left; left|]|intros [[?|?]|?]; [by left|right; lia..]].
      destruct (decide (a + bs f ≤ x)); [left; right|right]; lia.
    + eapply touched_trans; [exact Ht1|exact Ht'| |]; unfold block; lia.
    + intros Hm. eapply (merged_base (mc_pmm s1)); [symmetry; apply Ht1|]. apply Hm'.
      eapply (merged_base (mc_pmm s)); [apply Ht1|]. apply (merged_insert s); [done..|].
      intros _. rewrite Hbud. apply apart_all_not_elem. intros o' b Hb.
      specialize (Hap o' b Hb). unfold apart in *. lia.
Qed.

Lemma find_order_spec lists o n :
  match find_order lists o n with
  | Some f => (o ≤ f < o + n)%nat ∧ lists !!! f ≠ 0
  | None => ∀ k, (o ≤ k < o + n)%nat → lists !!! k = 0
  end.
Proof.
  revert o. induction n as [|n IH]; intros o; cbn [find_order]; [lia|].
  case_decide as Ho.
  - split; [lia|done].
  - specialize (IH (S o)). destruct (find_order lists (S o) n) as [f|].
    + destruct IH. split; [lia|done].
    + intros k Hk. destruct (decide (k = o)) as [->|]; [|apply IH; lia].
      by destruct (decide (lists !!! o = 0)).
Qed.

Lemma list_head_nil s L o :
  free_lists s L → (o ≤ MAX_ORDER)%nat → m_freeLists (mc_pmm s) !!! o = 0 ↔ L o = [].
Proof.
  intros HL Ho. pose proof (fl_chain _ _ HL o Ho) as Hc.
  destruct (L o) as [|a l]; simpl in Hc; [done|]. destruct Hc as (-> & ? & _). done.
Qed.

(** What a successful allocation promises. *)
Definition allocated (s : machine) (L : nat → list Z) (a : Z) (order : nat)
    (s' : machine) (L' : nat → list Z) : Prop :=
  in_pool (mc_pmm s) a order ∧ apart_all L' a order ∧
  (∀ x, free_at L x ↔ free_at L' x ∨ block a order x) ∧
  touched (free_at L) s s'.

Lemma AllocPages_spec s L order :
  buddy_inv s L → (order ≤ MAX_ORDER)%nat →
  runs (AllocPages order) s (λ a s',
    (a = 0 ∧ s' = s ∧ ∀ o, (order ≤ o ≤ MAX_ORDER)%nat → L o = []) ∨
    (a ≠ 0 ∧ ∃ L', buddy_inv s' L' ∧ allocated s L a order s' L' ∧
      (merged (mc_pmm s) L → merged (mc_pmm s') L'))).
Proof.
  intros HI Ho. pose proof (bi_lists _ _ HI) as HL. pose proof (fl_pool _ _ HL) as Hp.
  unfold AllocPages. rewrite decide_False by lia. run.
  pose proof (find_order_spec (m_freeLists (mc_pmm s)) order (NUM_ORDERS - order)) as Hf.
  assert (E17 : (order + (NUM_ORDERS - order))%nat = 17%nat) by (unfold NUM_ORDERS, MAX_ORDER in *; lia).
  rewrite E17 in Hf. destruct (find_order _ _ _) as [f|].
  2: { run. left. split_and!; [done..|]. intros o Hoo. apply (list_head_nil s); [done|lia|].
       apply Hf. unfold MAX_ORDER in *. lia. }
  destruct Hf as [Hfo Hhd]. assert (Hf16 : (f ≤ MAX_ORDER)%nat) by (unfold MAX_ORDER; lia).
  rewrite (list_head_nil s L f HL Hf16) in Hhd. destruct (L f) as [|a l] eqn:HLf; [done|].
  assert (Ha : a ∈ L f) by (rewrite HLf; set_solver).
  pose proof (fl_block _ _ HL f a Ha) as Hin.
  apply runs_bind. eapply runs_mono; [by eapply (listPop_spec s L HL a l f)|].
  intros r s1 (-> & HL1 & Ht1 & Hbm1). cbv beta. apply runs_bind.
  eapply runs_mono; [by apply (toggle_removed s L (λ _, False) a f [] l)|].
  intros bit s2 [HI2 Ht2]. cbv beta.
  assert (Hin2 : in_pool (mc_pmm s2) a f) by (by apply (in_pool_size_eq (mc_pmm s)); [apply Ht2..|]).
  pose proof (removed_apart s L a f [] l HL HLf) as Hap.
  apply runs_bind. eapply runs_mono; [apply (split_down_spec (f - order) _ _ a f HI2 Hin2 Hap); lia|].
  intros [] s' (L' & HI' & Hin' & Hap' & Hfree & Ht' & Hm). cbv beta. run. right.
  replace (f - (f - order))%nat with order in * by lia.
  split; [apply Hin|]. exists L'. split; [done|]. split; [split_and!|].
  - apply (in_pool_size_eq (mc_pmm s2)); [symmetry; apply Ht2..|done].
  - done.
  - intros x. rewrite (free_at_remove L a f [] l x HLf). simpl. rewrite Hfree. done.
  - eapply touched_trans; [exact Ht2|exact Ht'|done|].
    cbv beta. intros x Hx. by eapply free_at_elem.
  - intros Hmg. eapply (merged_base (mc_pmm s2)); [apply Ht'|]. apply Hm.
    eapply (merged_base (mc_pmm s)); [apply Ht2|]. eapply merged_sub; [|exact Hmg].
    intros o x. by apply (elem_remove L a f [] l).
Qed.

(** ** Deallocation *)

(** The block being returned at one pass of the merge loop. *)
Record freeing (s0 : machine) (L0 : nat → list Z) (a0 : Z) (o0 : nat)
    (s : machine) (L : nat → list Z) (a : Z) (o : nat) : Prop := {
  fr_inv : buddy_inv s L;
  fr_in : in_pool (mc_pmm s) a o;
  fr_apart : apart_all L a o;
  fr_free : ∀ x, free_at L0 x ∨ block a0 o0 x ↔ free_at L x ∨ block a o x;
  fr_touched : touched (λ x, free_at L0 x ∨ block a0 o0 x) s0 s;
  fr_merged : merged (mc_pmm s0) L0 → merged (mc_pmm s) L;
}.

Definition freed (s0 : machine) (L0 : nat → list Z) (a0 : Z) (o0 : nat) (s' : machine) : Prop :=
  ∃ L', buddy_inv s' L' ∧ (∀ x, free_at L' x ↔ free_at L0 x ∨ block a0 o0 x) ∧
    touched (λ x, free_at L0 x ∨ block a0 o0 x) s0 s' ∧
    (whole_pairs (mc_pmm s0) → merged (mc_pmm s0) L0 → merged (mc_pmm s') L').

Section free.
Context (s0 : machine) (L0 : nat → list Z) (a0 : Z) (o0 : nat).

(** The pass that pushes the block ends the loop with the post-condition. *)
Lemma freeing_push s L a o s' :
  freeing s0 L0 a0 o0 s L a o →
  buddy_inv s' (<[o := a :: L o]> L) → touched (block a o) s s' →
  (whole_pairs (mc_pmm s) → (o < MAX_ORDER)%nat → buddyOf (mc_pmm s) a o ∉ L o) →
  freed s0 L0 a0 o0 s'.
Proof.
  intros [HI Hin Hap Hfree Ht Hm] HI' Ht' Hbud. exists (<[o := a :: L o]> L). split_and!.
  - done.
  - intros x. rewrite free_at_insert. symmetry. apply Hfree.
  - eapply touched_trans; [exact Ht|exact Ht'|done|]. cbv beta. intros x Hx. apply Hfree. by right.
  - intros Hw Hm0. eapply (merged_base (mc_pmm s)); [apply Ht'|].
    apply merged_insert; [apply HI|done|by apply Hm|]. apply Hbud.
    unfold whole_pairs in *. by rewrite (to_size _ _ _ Ht).
Qed.

(** The pass that merges the block with its free buddy. *)
Lemma freeing_merge s L a o b l1 l2 s' :
  freeing s0 L0 a0 o0 s L a o → (o < MAX_ORDER)%nat →
  L o = l1 ++ buddyOf (mc_pmm s) a o :: l2 → flipped s a o b →
  free_lists s' (<[o := l1 ++ l2]> L) → touched (free_at L) (with_bitmap b s) s' →
  same_bitmap (with_bitmap b s) s' →
  freeing s0 L0 a0 o0 s' (<[o := l1 ++ l2]> L)
    (if decide (buddyOf (mc_pmm s) a o < a) then buddyOf (mc_pmm s) a o else a) (S o).
Proof.
  intros [HI Hin Hap Hfree Ht Hm] Ho HLo Hflip HL' Ht' Hbm.
  pose proof (bi_lists _ _ HI) as HL. pose proof (fl_pool _ _ HL) as Hp.
  assert (Hb : buddyOf (mc_pmm s) a o ∈ L o) by (rewrite HLo; set_solver).
  pose proof (fl_block _ _ HL o _ Hb) as Hbin.
  destruct (merge_block _ Hp a o Hin Hbin Ho) as [Hmin Hmblk]. set (m := if decide _ then _ else _) in *.
  split.
  - eapply (remove_flipped s L HI _ o b l1 l2); [done| |done|apply Hbm|apply Ht'..].
    destruct Hflip as [Hf1 Hf2]. unfold flipped. by rewrite buddy_index.
  - apply (in_pool_size_eq (mc_pmm s)); [apply Ht'..|done].
  - intros o' c Hc. pose proof (elem_remove L _ o l1 l2 o' c HLo Hc) as Hc'.
    pose proof (removed_apart s L _ o l1 l2 HL HLo o' c Hc) as H1. specialize (Hap o' c Hc').
    unfold m. pose proof (buddy_apart _ Hp a o Hin) as H2.
    pose proof (proj1 (Hmblk (m + bs (S o) - 1))) as E1. pose proof (bs_S o). pose proof (bs_pos o).
    pose proof (bs_pos o').
    assert (Hext : ∀ x, block m (S o) x → x < c ∨ c + bs o' ≤ x).
    { intros x Hx. apply Hmblk in Hx. unfold apart, block in *. lia. }
    unfold apart. unfold m, block in *.
    destruct (decide (c + bs o' ≤ m)); [by right|left].
    destruct (Z_le_gt_dec (m + bs (S o)) c) as [|Hgt]; [done|exfalso].
    destruct (decide (m ≤ c)).
    + pose proof (Hext c). lia.
    + pose proof (Hext m). lia.
  - intros x. rewrite Hfree, (free_at_remove L _ o l1 l2 x HLo), Hmblk. tauto.
  - eapply touched_trans; [exact Ht| |done|].
    { eapply touched_trans; [apply (touched_with_bitmap (free_at L))|exact Ht'|done|done]. }
    cbv beta. intros x Hx. apply Hfree. by left.
  - intros Hm0. eapply (merged_base (mc_pmm s)); [apply Ht'|].
    eapply merged_sub; [|by apply Hm]. intros o' x. by apply (elem_remove L (buddyOf (mc_pmm s) a o) o l1 l2).
Qed.

Lemma FreePages_step_spec s L a o :
  freeing s0 L0 a0 o0 s L a o →
  runs (FreePages_step (a, o)) s (λ r s',
    match r with
    | inl (a', o') => (o < MAX_ORDER)%nat ∧ o' = S o ∧ ∃ L', freeing s0 L0 a0 o0 s' L' a' o'
    | inr _ => freed s0 L0 a0 o0 s'
    end).
Proof.
  intros HF. pose proof HF as [HI Hin Hap _ _ _]. pose proof (bi_lists _ _ HI) as HL.
  pose proof (fl_pool _ _ HL) as Hp. unfold FreePages_step. case_decide as Ho.
  2: { apply (insert_spec s L HI); [done..|]. intros s' HI' Ht'. run.
       eapply freeing_push; [done..|]. intros. lia. }
  run. eapply runs_mono; [by apply toggle_spec|]. intros bit s1 (b & -> & Hflip & ->). cbv beta.
  assert (Hsame : whole_pairs (mc_pmm s) →
    bitAt b (bitmapIndex (mc_pmm s) a o) = negb (bool_decide (buddyOf (mc_pmm s) a o ∈ L o))).
  { intros Hw. destruct Hflip as [-> _]. rewrite (bi_bitmap _ _ HI Hw a o Hin).
    rewrite (bool_decide_false (a ∈ L o)) by (by apply apart_all_not_elem). done. }
  destruct (decide (Z.b2z (bitAt b (bitmapIndex (mc_pmm s) a o)) ≠ 0)) as [Hbit|Hbit].
  - run. eapply runs_mono; [by apply (push_flipped s L HI)|]. intros [] s' [HI' Ht']. run.
    eapply freeing_push; [done..|]. intros Hw _ Hb. specialize (Hsame Hw).
    rewrite bool_decide_true in Hsame by done. by rewrite Hsame in Hbit.
  - run. eapply runs_mono.
    { apply (listRemove_spec _ L); [by apply free_lists_with_bitmap|lia]. }
    cbv beta. intros r s2 [(-> & l1 & l2 & HLo & HL2 & Ht2 & Hbm2)|(-> & Hnot & ->)]; simpl.
    + run. split_and!; [done..|]. eexists. by eapply freeing_merge.
    + assert (Hnw : ¬ whole_pairs (mc_pmm s)).
      { intros Hw. rewrite (Hsame Hw), bool_decide_false in Hbit by done. by apply Hbit. }
      assert (HI1 : buddy_inv (with_bitmap b s) L).
      { split; [by apply free_lists_with_bitmap|]. done. }
      apply (insert_spec _ L HI1); [done..|]. intros s' HI' Ht'. run.
      eapply freeing_push; [done|done| |done].
      eapply touched_trans; [apply (touched_with_bitmap (block a o))|exact Ht'|done|done].
Qed.

Lemma FreePages_spec :
  buddy_inv s0 L0 → in_pool (mc_pmm s0) a0 o0 → apart_all L0 a0 o0 →
  runs (FreePages a0 o0) s0 (λ _ s', freed s0 L0 a0 o0 s').
Proof.
  intros HI Hin Hap. pose proof Hin as (_ & _ & _ & Ha & Ho). unfold FreePages.
  rewrite decide_False by (intros [?|?]; [done|lia]).
  apply (runs_loop (λ n ao s, n = (MAX_ORDER - ao.2)%nat ∧ (ao.2 ≤ MAX_ORDER)%nat ∧
    ∃ L, freeing s0 L0 a0 o0 s L ao.1 ao.2)) with (n := (MAX_ORDER - o0)%nat).
  - intros n [a o] s (-> & Ho' & L & HF). simpl in *.
    eapply runs_mono; [by apply (FreePages_step_spec s L)|].
    intros [[a' o']|[]] s'; [|done]. intros (? & -> & L' & HF').
    exists (MAX_ORDER - S o)%nat. split; [lia|]. split_and!; [done|simpl; lia|]. by exists L'.
  - split_and!; [done|done|]. exists L0. by split.
  - unfold MAX_ORDER, NUM_ORDERS. lia.
Qed.
End free.
