(* ===== verification/PmmInit.v ===== *)
(** * The page allocator: seeding the pool and reserving regions *)
From S2P Require Import Prelude Memory Machine Pmm FreeLists Bitmap Buddy PmmSpec.

(** ** Page rounding *)

Lemma page_down_eq x : fits 64 x → page_down x = x - x mod 4096.
Proof.
  intros Hx. unfold fits in Hx. unfold page_down, not64, PAGE_SIZE.
  change (2 ^ 64 - 1 - (0x1000 - 1)) with (Z.ldiff (Z.ones 64) (Z.ones 12)).
  assert (Z.land x (Z.ldiff (Z.ones 64) (Z.ones 12)) = Z.ldiff x (Z.ones 12)) as ->.
  { apply Z.bits_inj'. intros n Hn. rewrite Z.land_spec, !Z.ldiff_spec.
    destruct (decide (n < 64)) as [Hlt|Hge].
    - rewrite (Z.ones_spec_low 64) by lia. done.
    - rewrite (Z.ones_spec_high 64), andb_false_r by lia. simpl.
      rewrite <-(Z.mod_small x (2 ^ 64)), Z.mod_pow2_bits_high by lia. done. }
  rewrite Z.ldiff_ones_r, Z.shiftl_mul_pow2, Z.shiftr_div_pow2 by lia.
  pose proof (Z.div_mod x 4096). change (2 ^ 12) with 4096. lia.
Qed.

Lemma land_ones_zero a o : Z.land a (bs o - 1) = a mod bs o.
Proof.
  unfold bs. replace (2 ^ (12 + Z.of_nat o) - 1) with (Z.ones (12 + Z.of_nat o)).
  2: { rewrite Z.ones_equiv. lia. }
  apply Z.land_ones. lia.
Qed.

(** ** Seeding *)

Section seed.
Context (base size : Z).
Context (Hb : 0 < base) (Hbm : base mod 4096 = 0).
Context (Hs : 0 ≤ size ≤ MAX_POOL_SIZE) (Hsm : size mod 4096 = 0) (He : base + size ≤ PA_LIMIT).

(** Everything below [addr] is free, in blocks of order at least [n]. *)
Record seeded (s0 s : machine) (L : nat → list Z) (addr : Z) (n : nat) : Prop := {
  sd_inv : buddy_inv s L;
  sd_base : m_base (mc_pmm s) = base;
  sd_size : m_size (mc_pmm s) = size;
  sd_addr : base ≤ addr ≤ base + size;
  sd_pos : (addr - base) mod bs n = 0;
  sd_free : ∀ x, free_at L x ↔ base ≤ x < addr;
  sd_small : ∀ o, (o < n)%nat → L o = [];
  sd_merged : merged (mc_pmm s) L;
  sd_only : mem_pmm_only s0 s;
  sd_mem : mem_same_outside (λ x, base ≤ x < base + size) s0 s;
}.

(** Flip and push the next block; [n] is the largest order that stays empty below. *)
Lemma seed_push {A} s0 s L addr n (k : M machine A) Q :
  seeded s0 s L addr n → (n ≤ MAX_ORDER)%nat → addr + bs n ≤ base + size →
  (n = MAX_ORDER ∨ L n = []) →
  (∀ s' L', seeded s0 s' L' (addr + bs n) n → runs k s' Q) →
  runs (bitmapToggle addr n;; listPush addr n;; k) s Q.
Proof.
  intros [HI Hba Hsz Had Hpos Hfree Hsmall Hmg Hon Hmem] Hn Hend Hln Hk.
  pose proof (bs_pos n) as Hbs.
  assert (Hin : in_pool (mc_pmm s) addr n).
  { unfold in_pool. rewrite Hba, Hsz. split_and!; lia. }
  assert (Hap : apart_all L addr n).
  { intros o b Hbl. right. pose proof (bs_pos o).
    assert (base ≤ b + bs o - 1 < addr); [|lia]. apply Hfree. exists o, b. split; [done|].
    unfold block. lia. }
  apply (insert_spec s L HI); [done..|]. intros s' HI' Ht. apply (Hk _ (<[n := addr :: L n]> L)).
  destruct Ht as [Ht1 Ht2 Ht3 Ht4]. split; rewrite ?Ht3, ?Ht4; try done.
  - lia.
  - replace (addr + bs n - base) with (addr - base + 1 * bs n) by lia. by rewrite Z.mod_add by lia.
  - intros x. rewrite free_at_insert, Hfree. unfold block. lia.
  - intros o Ho. rewrite fn_lookup_insert_ne by lia. auto.
  - eapply (merged_base (mc_pmm s)); [done|]. apply (merged_insert s); [apply HI|done..|].
    intros Hlt. destruct Hln as [->| ->]; [lia|set_solver].
  - by eapply mem_pmm_only_trans.
  - eapply mem_same_outside_trans; [exact Hmem|exact Ht2|done|]. unfold block. lia.
Qed.

Lemma orders_down_S n : rev (seq 0 (S n)) = n :: rev (seq 0 n).
Proof. rewrite seq_S, rev_app_distr. done. Qed.

Lemma add_small addr o : base ≤ addr → addr + bs o ≤ base + size → (o ≤ MAX_ORDER)%nat →
  addr ⊞ bs o = addr + bs o.
Proof.
  intros ? ? Ho. pose proof (bs_pos o). apply Z.mod_small. lia.
Qed.

Lemma seeded_down s0 s L addr n : seeded s0 s L addr (S n) → seeded s0 s L addr n.
Proof.
  intros [HI Hba Hsz Had Hpos Hfree Hsmall Hmg Hon Hmem]. split; try done.
  - pose proof (bs_pos n). apply Z.mod_divide; [lia|].
    apply Z.mod_divide in Hpos; [|pose proof (bs_pos (S n)); lia].
    etransitivity; [|exact Hpos]. apply bs_divide. lia.
  - intros o Ho. apply Hsmall. lia.
Qed.

Lemma seeded_zero s0 s L addr n : seeded s0 s L addr n → seeded s0 s L addr 0.
Proof. induction n; [done|]. intros. by apply IHn, seeded_down. Qed.

Lemma orders_down_eq : orders_down = MAX_ORDER :: rev (seq 0 MAX_ORDER).
Proof. done. Qed.

(** The tail is cut into blocks of strictly decreasing order. *)
Lemma seed_tail_spec s0 n : ∀ s L addr remaining,
  (n ≤ MAX_ORDER)%nat → seeded s0 s L addr n → addr + remaining = base + size →
  0 ≤ remaining < bs n → remaining mod 4096 = 0 →
  runs (seed_tail (rev (seq 0 n)) addr remaining) s (λ a s', ∃ L',
    a = base + size ∧ seeded s0 s' L' a 0).
Proof.
  induction n as [|n IH]; intros s L addr r Hn HS Hr Hlt Hrm.
  - simpl. run. exists L. assert (bs 0 = 4096) as E by done. rewrite E in Hlt.
    rewrite Z.mod_small in Hrm by lia. subst. replace addr with (base + size) in * by lia. done.
  - rewrite orders_down_S. cbn [seed_tail]. cbv zeta.
    pose proof (sd_addr _ _ _ _ _ HS). pose proof (bs_S n). pose proof (bs_pos n).
    rewrite (blockSize_bs n) by (unfold MAX_ORDER in *; lia). case_decide as Hle.
    + eapply seed_push; [by apply seeded_down|lia|lia|right; apply (sd_small _ _ _ _ _ HS); lia|].
      intros s' L' HS'. rewrite add_small by lia.
      assert (r ⊟ bs n = r - bs n) as ->.
      { apply Z.mod_small. unfold MAX_POOL_SIZE in *. lia. }
      eapply IH; [lia|exact HS'|lia|lia|].
      apply Z.mod_divide in Hrm; [|lia]. apply Z.mod_divide; [lia|].
      apply Z.divide_sub_r; [done|]. change 4096 with (bs 0). apply bs_divide. lia.
    + eapply IH; [lia|by apply seeded_down|done|lia|done].
Qed.

Lemma max_block : blockSize MAX_ORDER = bs MAX_ORDER ∧ bs MAX_ORDER = 2 ^ 28.
Proof. split; [apply blockSize_bs; unfold MAX_ORDER; lia|done]. Qed.

(** The whole pool is free, in largest blocks alone when its size allows it. *)
Definition seeded_all (s0 s : machine) (L : nat → list Z) : Prop :=
  seeded s0 s L (base + size) 0 ∧
  (size mod bs MAX_ORDER = 0 → seeded s0 s L (base + size) MAX_ORDER).

(** Where the outer loop stands, with a bound on the passes that are left. *)
Definition seeding (s0 : machine) (n : nat) (addr : Z) (s : machine) : Prop :=
  (∃ L, seeded s0 s L addr MAX_ORDER ∧
     n = S (Z.to_nat ((base + size - addr) / bs MAX_ORDER)) ∧ addr < base + size) ∨
  (∃ L, seeded_all s0 s L ∧ addr = base + size ∧ n = 0%nat).

Lemma seeding_intro s0 s L addr :
  seeded s0 s L addr MAX_ORDER → ∃ n,
    (n ≤ S (Z.to_nat ((base + size - addr) / bs MAX_ORDER)))%nat ∧ seeding s0 n addr s.
Proof.
  intros HS. pose proof (sd_addr _ _ _ _ _ HS). unfold seeding.
  destruct (decide (addr = base + size)) as [->|Hne].
  - exists 0%nat. split; [lia|]. right. exists L. split_and!; [|done..].
    split; [by apply (seeded_zero _ _ _ _ MAX_ORDER)|done].
  - eexists. split; [done|]. left. exists L. split_and!; [done..|lia].
Qed.

Lemma seed_tail_skip o os addr r :
  r < blockSize o → seed_tail (o :: os) addr r = seed_tail os addr r.
Proof. intros. cbn [seed_tail]. cbv zeta. by rewrite decide_False by lia. Qed.

Lemma seed_tail_start s0 s L addr :
  seeded s0 s L addr MAX_ORDER → base + size - addr < bs MAX_ORDER →
  runs (seed_tail orders_down addr (base + size - addr)) s (λ a s', ∃ L',
    a = base + size ∧ seeded s0 s' L' a 0).
Proof.
  intros HS Hlt. destruct max_block as [Hmax _]. pose proof (sd_addr _ _ _ _ _ HS).
  rewrite orders_down_eq, seed_tail_skip by lia.
  apply (seed_tail_spec s0 MAX_ORDER s L); [done|done|lia|lia|].
  pose proof (sd_pos _ _ _ _ _ HS) as Hpos.
  apply Z.mod_divide in Hpos; [|lia]. apply Z.mod_divide; [lia|].
  replace (base + size - addr) with (size - (addr - base)) by lia.
  apply Z.divide_sub_r; [by apply Z.mod_divide|]. etransitivity; [|exact Hpos].
  change 4096 with (bs 0). apply bs_divide. lia.
Qed.

Lemma seed_step_spec s0 n addr s :
  seeding s0 n addr s →
  runs (seed_step (base + size) addr) s (λ r s',
    match r with
    | inl a' => ∃ n', (n' < n)%nat ∧ seeding s0 n' a' s'
    | inr _ => ∃ L', seeded_all s0 s' L'
    end).
Proof.
  destruct max_block as [Hmax Hb16]. unfold seed_step.
  intros [(L1 & HS1 & -> & Hlt)|(L1 & HS1 & -> & ->)].
  2: { rewrite decide_False by lia. run. by exists L1. }
  rewrite decide_True by done. cbv zeta. pose proof (sd_addr _ _ _ _ _ HS1).
  assert (base + size ⊟ addr = base + size - addr) as ->.
  { apply Z.mod_small. unfold MAX_POOL_SIZE in *. lia. }
  rewrite Hmax. case_decide as Hle.
  - eapply seed_push; [exact HS1|done|lia|by left|].
    intros s2 L2 HS2. run. rewrite add_small by (lia || done).
    destruct (seeding_intro s0 s2 L2 _ HS2) as (n' & Hn' & HS'). exists n'. split; [|done].
    replace (base + size - addr) with (base + size - (addr + bs MAX_ORDER) + 1 * bs MAX_ORDER) by lia.
    rewrite Z.div_add by lia.
    pose proof (Z.div_pos (base + size - (addr + bs MAX_ORDER)) (bs MAX_ORDER)). lia.
  - apply runs_bind. eapply runs_mono; [apply (seed_tail_start s0 s L1); [done|lia]|].
    intros a s2 (L2 & -> & HS2). run. exists 0%nat. split; [lia|]. right. exists L2. split_and!; [|done..].
    split; [done|]. intros Hmod. exfalso. pose proof (sd_pos _ _ _ _ _ HS1) as Hpos.
    replace size with ((addr - base) + (base + size - addr)) in Hmod by lia.
    rewrite Z.add_mod, Hpos, Z.add_0_l, Z.mod_mod, Z.mod_small in Hmod by lia. lia.
Qed.

Lemma seed_loop_spec s0 s L :
  seeded s0 s L base MAX_ORDER →
  runs (loop (seed_fuel size) (seed_step (base ⊞ size)) base) s (λ _ s', ∃ L',
    seeded_all s0 s' L').
Proof.
  intros HS. assert (base ⊞ size = base + size) as -> by (apply Z.mod_small; lia).
  destruct (seeding_intro s0 s L base HS) as (n & Hn & HS').
  apply (runs_loop (seeding s0)) with (n := n); [apply seed_step_spec|done|].
  replace (base + size - base) with size in Hn by lia. unfold seed_fuel.
  destruct max_block as [-> _]. lia.
Qed.
End seed.

(** The pool right after [SetMemoryMap] cleared it. *)
Lemma empty_seeded s base size :
  0 < base → base mod 4096 = 0 → 0 ≤ size ≤ MAX_POOL_SIZE → base + size ≤ PA_LIMIT →
  let s1 := set_pmm (λ _, MkPmm base size (replicate NUM_ORDERS 0) ∅) s in
  seeded base size s s1 (λ _, []) base MAX_ORDER.
Proof.
  intros Hb Hbm Hs He s1. split; try done; simpl.
  - split.
    + split; simpl; try (intros; set_solver).
      * split; simpl; lia || done.
      * intros o Ho. cbn. apply (lookup_total_replicate_2 NUM_ORDERS 0).
        unfold NUM_ORDERS, MAX_ORDER in *. lia.
      * intros. constructor.
    + intros Hw a o Ha. simpl. unfold bitAt. by rewrite lookup_empty, Z.testbit_0_l.
  - lia.
  - rewrite Z.sub_diag. apply Z.mod_0_l. done.
  - intros x. split; [|lia]. intros (o & a & Ha & _). set_solver.
  - intros o a _ Ha. set_solver.
Qed.

(** ** Reserving a region *)

Lemma elem_orders_down o : o ∈ orders_down ↔ (o ≤ MAX_ORDER)%nat.
Proof.
  unfold orders_down. rewrite list_elem_of_In, <-in_rev, in_seq.
  unfold NUM_ORDERS, MAX_ORDER. lia.
Qed.

(** A free block the walk over [start, lim) takes out. *)
Definition inside (start lim : Z) (o : nat) (x : Z) : Prop :=
  start ≤ x ∧ x + bs o ≤ lim ∧ x mod bs o = 0.

Lemma reserve_try_spec os s L addr lim :
  buddy_inv s L → 0 ≤ addr < lim → lim ≤ PA_LIMIT + 4096 → (∀ o, o ∈ os → (o ≤ MAX_ORDER)%nat) →
  runs (reserve_try addr lim os) s (λ r s',
    match r with
    | None => s' = s ∧ ∀ o, o ∈ os → addr ∈ L o → ¬ inside addr lim o addr
    | Some a' => ∃ o l1 l2, L o = l1 ++ addr :: l2 ∧ inside addr lim o addr ∧
        a' = addr + bs o ∧ buddy_inv s' (<[o := l1 ++ l2]> L) ∧ touched (free_at L) s s'
    end).
Proof.
  intros HI Ha Hlim. pose proof (bi_lists _ _ HI) as HL.
  induction os as [|o os IH]; intros Hos; cbn [reserve_try]; [run; set_solver|].
  specialize (IH ltac:(set_solver)). assert (Ho : (o ≤ MAX_ORDER)%nat) by set_solver.
  cbv zeta. rewrite blockSize_bs by done. pose proof (bs_max o Ho). pose proof (bs_pos o).
  rewrite land_ones_zero.
  assert (addr ⊞ bs o = addr + bs o) as -> by (apply Z.mod_small; lia).
  assert (Hskip : ¬ (addr ∈ L o ∧ inside addr lim o addr) → runs (reserve_try addr lim os) s (λ r s',
    match r with
    | None => s' = s ∧ ∀ o', o' ∈ o :: os → addr ∈ L o' → ¬ inside addr lim o' addr
    | Some a' => ∃ o l1 l2, L o = l1 ++ addr :: l2 ∧ inside addr lim o addr ∧
        a' = addr + bs o ∧ buddy_inv s' (<[o := l1 ++ l2]> L) ∧ touched (free_at L) s s'
    end)).
  { intros Hno. eapply runs_mono; [exact IH|]. intros [a'|] s'; [done|].
    intros [-> Hn]. split; [done|]. intros o' [->|Ho']%elem_of_cons Hin ?; [by apply Hno|].
    by eapply Hn. }
  destruct (decide (addr mod bs o ≠ 0)) as [Hal|Hal]; [apply Hskip; unfold inside; tauto|].
  destruct (decide (lim < addr + bs o)) as [Hend|Hend].
  { apply Hskip. unfold inside. lia. }
  assert (Hins : inside addr lim o addr) by (unfold inside; lia).
  apply runs_bind. eapply runs_mono; [by apply (listRemove_spec s L)|].
  intros r s1 [(-> & l1 & l2 & HLo & HL1 & Ht1 & Hbm1)|(-> & Hnot & ->)].
  - apply runs_bind. eapply runs_mono; [by apply (toggle_removed s L (free_at L))|].
    intros bit s2 [HI2 Ht2]. run. exists o, l1, l2. split_and!; done.
  - apply Hskip. tauto.
Qed.

(** The free lists after the region below [upto] was walked. *)
Definition reserved_upto (L L' : nat → list Z) (start lim upto : Z) : Prop :=
  ∀ o x, x ∈ L' o ↔ x ∈ L o ∧ ¬ (inside start lim o x ∧ x < upto).

(** Past a page where no free block that fits starts. *)
Lemma reserved_upto_page s L0 L start lim addr : free_lists s L → reserved_upto L0 L start lim addr → start ≤ addr →
  addr mod 4096 = 0 → (∀ o, (o ≤ MAX_ORDER)%nat → addr ∈ L o → ¬ inside addr lim o addr) →
  reserved_upto L0 L start lim (addr + 4096).
Proof.
  intros HL HR Hle Ham Hno o x. rewrite (HR o x).
  split; intros [Hx0 Hn]; (split; [done|]); intros [Hin Hxa]; apply Hn; (split; [done|]); [|lia].
  destruct (decide (x < addr)); [done|exfalso]. assert (Hx4 : x mod 4096 = 0).
  { destruct Hin as (_ & _ & Hm). apply Z.mod_divide in Hm; [|pose proof (bs_pos o); lia].
    apply Z.mod_divide; [lia|]. etransitivity; [|exact Hm]. change 4096 with (bs 0). apply bs_divide. lia. }
  apply Z.mod_divide in Hx4 as [k Hk], Ham as [i Hi]; [|lia..]. assert (x = addr) as -> by lia.
  assert (Hx : addr ∈ L o) by (apply HR; split; [done|]; intros [_ ?]; lia).
  apply (Hno o); [by apply (fl_block _ _ HL o addr Hx)|done|]. unfold inside in *. lia.
Qed.

(** Past a block that was removed. *)
Lemma reserved_upto_block s L0 L start lim addr o l1 l2 : free_lists s L → L o = l1 ++ addr :: l2 →
  reserved_upto L0 L start lim addr → start ≤ addr → inside addr lim o addr →
  reserved_upto L0 (<[o := l1 ++ l2]> L) start lim (addr + bs o).
Proof.
  intros HL HLo HR Hle (Hi1 & Hi2 & Hi3) o' x. pose proof (removed_apart s L addr o l1 l2 HL HLo) as Hap. split.
  - intros Hx. pose proof (elem_remove L addr o l1 l2 o' x HLo Hx) as Hx'.
    specialize (Hap o' x Hx). apply HR in Hx' as [Hx0 Hn]. split; [done|].
    pose proof (bs_pos o'). unfold inside, apart in *. intros [Hi Hxa]. apply Hn. split; [done|]. lia.
  - intros [Hx0 Hn]. assert (Hx : x ∈ L o').
    { apply HR. split; [done|]. intros [Hi ?]. apply Hn. split; [done|]. pose proof (bs_pos o). lia. }
    destruct (decide (o' = o)) as [->|Hne]; [|by rewrite fn_lookup_insert_ne].
    rewrite fn_lookup_insert. rewrite HLo in Hx. destruct (decide (x = addr)) as [->|]; [|set_solver].
    exfalso. apply Hn. pose proof (bs_pos o). split; [unfold inside|]; lia.
Qed.

Lemma reserve_step_spec s0 L0 start lim :
  0 ≤ start → start mod 4096 = 0 → lim mod 4096 = 0 → lim ≤ PA_LIMIT + 4096 →
  ∀ s L addr, buddy_inv s L → touched (free_at L0) s0 s → reserved_upto L0 L start lim addr →
  start ≤ addr → addr mod 4096 = 0 → addr ≤ lim →
  runs (reserve_step lim addr) s (λ r s',
    match r with
    | inr _ => s' = s ∧ lim ≤ addr
    | inl a' => addr + 4096 ≤ a' ≤ lim ∧ a' mod 4096 = 0 ∧ ∃ L', buddy_inv s' L' ∧
        touched (free_at L0) s0 s' ∧ reserved_upto L0 L' start lim a'
    end).
Proof.
  intros Hst Hsm Hlm Hlim s L addr HI Ht HR Hle Ham Hal. pose proof (bi_lists _ _ HI) as HL.
  unfold reserve_step. case_decide as Hlt; [|run; split; [done|lia]].
  apply runs_bind. eapply runs_mono; [apply (reserve_try_spec orders_down s L); [done|lia|done|]|].
  { intros o. apply elem_orders_down. }
  intros [a'|] s' Hr; cbv beta.
  - destruct Hr as (o & l1 & l2 & HLo & Hin & -> & HI' & Ht'). run.
    pose proof (bs_pos o). split_and!; [lia|unfold inside in Hin; lia| |].
    { apply Z.mod_divide; [lia|]. apply Z.divide_add_r; [by apply Z.mod_divide|].
      change 4096 with (bs 0). apply bs_divide. lia. }
    exists (<[o := l1 ++ l2]> L). split_and!; [done| |by apply (reserved_upto_block s)].
    eapply touched_trans; [exact Ht|exact Ht'|done|]. intros x (o' & b & Hb%HR & Hx). exists o', b. tauto.
  - destruct Hr as [-> Hno]. run.
    assert (addr ⊞ PAGE_SIZE = addr + 4096) as -> by (unfold PAGE_SIZE; apply Z.mod_small; lia).
    pose proof Ham as Hm. apply Z.mod_divide in Hm as [i Hi], Hlm as [j Hj]; [|lia..].
    split_and!; [lia|lia|subst addr; replace (i * 4096 + 4096) with ((i + 1) * 4096) by lia; by apply Z.mod_mul|].
    exists L. split_and!; [done..|]. apply (reserved_upto_page s); try done.
    intros o Ho. apply Hno. by apply elem_orders_down.
Qed.

(** The page rounded bounds of a reserved region. *)
Definition region_lo (base : Z) : Z := base - base mod 4096.
Definition region_hi (base size : Z) : Z := base + size + 4095 - (base + size + 4095) mod 4096.

Lemma sub_mod_aligned x : (x - x mod 4096) mod 4096 = 0.
Proof.
  rewrite Zminus_mod, Z.mod_mod, Z.sub_diag by lia. done.
Qed.

Lemma reserveRegion_spec s L base size :
  buddy_inv s L → 0 ≤ base → 0 ≤ size → base + size ≤ PA_LIMIT →
  runs (reserveRegion base size) s (λ _ s', ∃ L', buddy_inv s' L' ∧ touched (free_at L) s s' ∧
    ∀ o x, x ∈ L' o ↔ x ∈ L o ∧ ¬ inside (region_lo base) (region_hi base size) o x).
Proof.
  intros HI Hb Hs He. unfold reserveRegion. cbv zeta.
  assert (page_down base = region_lo base) as -> by (apply page_down_eq; unfold fits; lia).
  assert (base ⊞ size ⊞ PAGE_SIZE ⊟ 1 = base + size + 4095) as ->.
  { unfold PAGE_SIZE, u64. rewrite Zminus_mod_idemp_l, Z.mod_small; rewrite ?Zplus_mod_idemp_l;
      rewrite ?Z.mod_small by lia; lia. }
  assert (page_down (base + size + 4095) = region_hi base size) as ->
    by (apply page_down_eq; unfold fits; lia).
  pose proof (sub_mod_aligned base) as Hlo. fold (region_lo base) in Hlo.
  pose proof (sub_mod_aligned (base + size + 4095)) as Hhi. fold (region_hi base size) in Hhi.
  pose proof (Z.mod_pos_bound base 4096). pose proof (Z.mod_pos_bound (base + size + 4095) 4096).
  pose proof (Z.mod_le base 4096).
  assert (Hlohi : 0 ≤ region_lo base ≤ region_hi base size) by (unfold region_lo, region_hi in *; lia).
  assert (Hmax : region_hi base size ≤ PA_LIMIT + 4096) by (unfold region_hi in *; lia).
  set (lo := region_lo base) in *. set (hi := region_hi base size) in *.
  apply (runs_loop (λ n addr s', n = Z.to_nat ((hi - addr) / 4096) ∧ lo ≤ addr ≤ hi ∧
    addr mod 4096 = 0 ∧ ∃ L', buddy_inv s' L' ∧ touched (free_at L) s s' ∧
    reserved_upto L L' lo hi addr)) with (n := Z.to_nat ((hi - lo) / PAGE_SIZE)); [| |lia].
  - intros n addr s1 (-> & Ha & Ham & L1 & HI1 & Ht1 & HR1).
    eapply runs_mono; [apply (reserve_step_spec s L lo hi) with (L := L1); try done; lia|].
    intros [a'|[]] s2.
    + intros (Ha' & Ham' & L2 & HI2 & Ht2 & HR2). exists (Z.to_nat ((hi - a') / 4096)). split.
      * apply Z2Nat.inj_lt; [apply Z.div_pos; lia..|].
        assert ((hi - a') / 4096 + 1 ≤ (hi - addr) / 4096); [|lia].
        rewrite <-Z.div_add by lia. apply Z.div_le_mono; lia.
      * split_and!; [done|lia|lia|done|]. eauto.
    + intros [-> Hge]. exists L1. split_and!; [done..|]. intros o x. rewrite (HR1 o x).
      split; intros [Hx Hn]; (split; [done|]); [intros Hi; apply Hn|naive_solver].
      split; [done|]. destruct Hi as (_ & ? & _). pose proof (bs_pos o). lia.
  - split_and!; [done|lia|lia|done|]. exists L. split_and!; [done|apply touched_refl|].
    intros o x. unfold inside. split; [intros; split; [done|lia]|by intros []].
Qed.

(** ** [DumpState] *)

Lemma count_spec s p l :
  chain (mc_mem s) p l → ∀ fuel c, (length l < fuel)%nat → 0 ≤ c → c + Z.of_nat (length l) < 2 ^ 32 →
  loop fuel count_step (p, c) s = Done (c + Z.of_nat (length l)) s.
Proof.
  revert p. induction l as [|a l IH]; intros p Hc fuel c Hf Hc0 Hlt.
  - simpl in Hc. subst p. destruct fuel as [|fuel]; [simpl in Hf; lia|]. simpl. f_equal. lia.
  - destruct Hc as (-> & Ha & Hc). destruct fuel as [|fuel]; [simpl in Hf; lia|].
    cbn [loop]. unfold count_step at 1. rewrite decide_False by done. cbn [mbind M_bind].
    unfold ld64, gets. cbn [mret M_ret]. simpl in Hf, Hlt.
    assert (u32 (c + 1) = c + 1) as -> by (apply Z.mod_small; lia).
    unfold mbind, M_bind, mret, M_ret. rewrite IH; [f_equal; simpl; lia|done|lia|lia|lia].
Qed.

Lemma dump_orders_spec s L os :
  free_lists s L → (∀ o, o ∈ os → (o ≤ MAX_ORDER)%nat) →
  dump_orders os s = Done ((λ o, Z.of_nat (length (L o))) <$> os) s.
Proof.
  intros HL. induction os as [|o os IH]; intros Hos; [done|]. cbn [dump_orders].
  unfold mbind, M_bind, freeList, gets.
  pose proof (free_list_length s L HL o) as Hlen. pose proof (fl_pool _ _ HL) as [_ _ Hsz _ _].
  rewrite (count_spec s _ (L o)).
  - rewrite IH by set_solver. done.
  - apply (fl_chain _ _ HL). set_solver.
  - unfold list_fuel. lia.
  - lia.
  - rewrite Z.shiftr_div_pow2 in Hlen by (unfold PAGE_SHIFT; lia). change (2 ^ PAGE_SHIFT) with 4096 in Hlen.
    unfold MAX_POOL_SIZE in Hsz. pose proof (Z.div_le_mono (m_size (mc_pmm s)) 0x200000000 4096).
    change (0x200000000 / 4096) with 2097152 in *. lia.
Qed.

Lemma DumpState_spec s L :
  free_lists s L → DumpState s = Done ((λ o, Z.of_nat (length (L o))) <$> seq 0 NUM_ORDERS) s.
Proof.
  intros HL. apply dump_orders_spec; [done|]. intros o [? ?]%elem_of_seq.
  unfold NUM_ORDERS, MAX_ORDER in *. lia.
Qed.

(** ** [SetMemoryMap] *)

(** A region the firmware may report. *)
Definition region_ok (r : Z * Z) : Prop := 0 ≤ r.1 ∧ 0 ≤ r.2 ∧ r.1 + r.2 ≤ PA_LIMIT.

Definition reserved_regions (kernelBase kernelEnd : Z) (map : MemoryMap) : list (Z * Z) :=
  [(kernelBase, kernelEnd - kernelBase); (atfBase map, atfSize map); (dtbBase map, dtbSize map)] ++
  (if bool_decide (cpioArchiveSize map ≠ 0) then [(cpioArchiveBase map, cpioArchiveSize map)] else []).

Record map_ok (kernelBase kernelEnd : Z) (map : MemoryMap) : Prop := {
  mo_base : 0 < memBase map;
  mo_base_page : memBase map mod 4096 = 0;
  mo_size : 0 ≤ memSize map ≤ MAX_POOL_SIZE;
  mo_size_page : memSize map mod 4096 = 0;
  mo_end : memBase map + memSize map ≤ PA_LIMIT;
  mo_kernel : 0 ≤ kernelBase ≤ kernelEnd ∧ kernelEnd ≤ PA_LIMIT;
  mo_regions : Forall region_ok (reserved_regions kernelBase kernelEnd map);
}.

Definition in_ram (map : MemoryMap) (x : Z) : Prop := memBase map ≤ x < memBase map + memSize map.

(** [L'] is [L] without the blocks that lie inside a reserved region. *)
Definition minus_regions (rs : list (Z * Z)) (L L' : nat → list Z) : Prop :=
  ∀ o x, x ∈ L' o ↔
    x ∈ L o ∧ ∀ r, r ∈ rs → ¬ inside (region_lo r.1) (region_hi r.1 r.2) o x.

Definition reserve_all (rs : list (Z * Z)) : M machine unit :=
  foldr (λ r k, reserveRegion r.1 r.2;; k) (mret tt) rs.

Lemma reserve_all_spec rs : ∀ s L,
  buddy_inv s L → Forall region_ok rs →
  runs (reserve_all rs) s (λ _ s', ∃ L', buddy_inv s' L' ∧ touched (free_at L) s s' ∧
    minus_regions rs L L').
Proof.
  induction rs as [|r rs IH]; intros s L HI Hok; simpl.
  - run. exists L. split_and!; [done|apply touched_refl|]. intros o x. set_solver.
  - apply Forall_cons_1 in Hok as [(? & ? & ?) Hok']. apply runs_bind.
    eapply runs_mono; [by apply (reserveRegion_spec s L)|]. intros [] s1 (L1 & HI1 & Ht1 & HL1).
    eapply runs_mono; [by apply (IH s1 L1)|]. intros [] s2 (L2 & HI2 & Ht2 & HL2).
    exists L2. split_and!; [done| |].
    + eapply touched_trans; [exact Ht1|exact Ht2|done|]. intros x (o & a & Ha & Hx).
      exists o, a. split; [by apply HL1|done].
    + intros o x. rewrite (HL2 o x), (HL1 o x). set_solver.
Qed.

Lemma minus_regions_sub rs L L' : minus_regions rs L L' → ∀ o x, x ∈ L' o → x ∈ L o.
Proof. intros H o x Hx. by apply H. Qed.

(** The pool [SetMemoryMap] leaves: [L0] covered all of RAM before the reservations. *)
Record booted (kernelBase kernelEnd : Z) (map : MemoryMap) (s s' : machine)
    (L0 L' : nat → list Z) : Prop := {
  bo_inv : buddy_inv s' L';
  bo_base : m_base (mc_pmm s') = memBase map;
  bo_size : m_size (mc_pmm s') = memSize map;
  bo_seed : ∀ x, free_at L0 x ↔ in_ram map x;
  bo_large : memSize map mod bs MAX_ORDER = 0 → ∀ o, (o < MAX_ORDER)%nat → L0 o = [];
  bo_minus : minus_regions (reserved_regions kernelBase kernelEnd map) L0 L';
  bo_merged : merged (mc_pmm s') L';
  bo_only : mem_pmm_only s s';
  bo_mem : mem_same_outside (in_ram map) s s';
}.

Lemma reserve_chain_eq kernelBase kernelEnd map (k : M machine unit) s Q :
  0 < memBase map → 0 ≤ kernelBase ≤ kernelEnd ∧ kernelEnd ≤ PA_LIMIT →
  runs (reserve_all (reserved_regions kernelBase kernelEnd map);; k) s Q →
  runs (reserveRegion kernelBase (kernelEnd ⊟ kernelBase);;
        reserveRegion (atfBase map) (atfSize map);;
        reserveRegion (dtbBase map) (dtbSize map);;
        when (bool_decide (cpioArchiveSize map ≠ 0))
          (reserveRegion (cpioArchiveBase map) (cpioArchiveSize map));;
        when (bool_decide (memBase map = 0 ∧ PAGE_SIZE ≤ memSize map))
          (reserveRegion 0 PAGE_SIZE);; k) s Q.
Proof.
  intros Hb Hk H.
  assert (kernelEnd ⊟ kernelBase = kernelEnd - kernelBase) as -> by (apply Z.mod_small; lia).
  rewrite (bool_decide_false (memBase map = 0 ∧ _)) by lia.
  unfold reserved_regions in H. revert H. unfold runs, mbind, M_bind, reserve_all, when.
  destruct (bool_decide _); simpl; unfold mbind, M_bind;
  repeat (lazymatch goal with |- context [reserveRegion ?b ?z ?s] => destruct (reserveRegion b z s) end); done.
Qed.

Lemma SetMemoryMap_spec kernelBase kernelEnd map s :
  map_ok kernelBase kernelEnd map →
  runs (SetMemoryMap kernelBase kernelEnd map) s (λ _ s', ∃ L0 L',
    booted kernelBase kernelEnd map s s' L0 L').
Proof.
  intros [Hb Hbp Hs Hsp He Hk Hr]. unfold SetMemoryMap. run.
  rewrite decide_False by lia. cbv zeta.
  pose proof (empty_seeded s _ _ Hb Hbp Hs He) as Hseed. cbv zeta in Hseed.
  apply runs_bind. eapply runs_mono; [by eapply seed_loop_spec|].
  intros [] s1 (L1 & [HI Hba Hsz _ _ Hfree _ Hmg Hon Hmem] & Hall).
  apply reserve_chain_eq; [done|done|]. apply runs_bind.
  eapply runs_mono; [by apply (reserve_all_spec _ s1 L1)|].
  intros [] s2 (L2 & HI2 & Ht2 & Hmin). apply runs_bind.
  eapply runs_of_eq; [by apply DumpState_spec, (bi_lists _ _ HI2)|]. run.
  exists L1, L2. destruct Ht2 as [Ht1 Ht2 Ht3 Ht4]. split; try congruence; try done.
  - intros Hmod o Ho. by apply (sd_small _ _ _ _ _ _ _ (Hall Hmod)).
  - eapply merged_base; [exact Ht3|]. eapply merged_sub; [|exact Hmg]. by eapply minus_regions_sub.
  - by eapply mem_pmm_only_trans.
  - eapply (mem_same_outside_trans (in_ram map)); [exact Hmem|exact Ht2|done|].
    intros x Hx. by apply Hfree.
Qed.
