(* ===== verification/Canonical.v ===== *)
(** * The page allocator: free blocks as aligned intervals, and merged pools

    A pool in which no two buddies are both free is in a canonical form: the
    set of free bytes determines the free blocks. *)
From S2P Require Import Prelude Memory Machine Pmm FreeLists Bitmap Buddy.

Section aligned.
Context (p : Pmm).

(** Aligned blocks that meet are nested. *)
Lemma block_nested a k b o y :
  in_pool p a k → in_pool p b o → (k ≤ o)%nat → block a k y → block b o y →
  b ≤ a ∧ a + bs k ≤ b + bs o.
Proof.
  intros (_ & _ & Ha & _) (_ & _ & Hb & _) Hko Hy Hy'.
  destruct (bs_divide k o Hko) as [q Hq]. pose proof (bs_pos k). pose proof (bs_pos o).
  apply Z.mod_divide in Ha as [u Hu]; [|lia]. apply Z.mod_divide in Hb as [v Hv]; [|lia].
  unfold block in *. rewrite Hq in *.
  assert (b - m_base p = (v * q) * bs k) as Hv' by (rewrite Hv; ring).
  assert (v * q ≤ u) by nia. assert (u + 1 ≤ v * q + q) by nia. nia.
Qed.

Lemma block_same a b o y :
  in_pool p a o → in_pool p b o → block a o y → block b o y → a = b.
Proof.
  intros Ha Hb Hy Hy'. pose proof (block_nested a o b o y Ha Hb (Nat.le_refl _) Hy Hy').
  pose proof (block_nested b o a o y Hb Ha (Nat.le_refl _) Hy' Hy). lia.
Qed.
End aligned.

Lemma block_first a o : block a o a.
Proof. unfold block. pose proof (bs_pos o). lia. Qed.

Section merged.
Context (s : machine) (L : nat → list Z).
Context (HL : free_lists s L) (Hm : merged (mc_pmm s) L).

Lemma free_unique o a o' b x : a ∈ L o → b ∈ L o' → block a o x → block b o' x → o = o' ∧ a = b.
Proof.
  intros Ha Hb Hx Hy. destruct (decide ((o, a) = (o', b))) as [[=]|Hne]; [done|].
  pose proof (fl_apart _ _ HL _ _ _ _ Ha Hb Hne). unfold apart, block in *. lia.
Qed.

(** Free space that fills an aligned block lies in one free block. *)
Lemma merged_covers k : ∀ a,
  in_pool (mc_pmm s) a k → (∀ x, block a k x → free_at L x) →
  ∃ o b, b ∈ L o ∧ (k ≤ o)%nat ∧ block b o a.
Proof.
  pose proof (fl_pool _ _ HL) as Hp. induction k as [|k IH]; intros a Hin Hfree.
  - destruct (Hfree a (block_first a 0)) as (o & b & Hb & Hx). exists o, b. split_and!; [done|lia|done].
  - destruct (split_block _ Hp a k Hin) as (Hlo & Hhi & Hbud & _).
    pose proof (bs_S k). pose proof (bs_pos k).
    destruct (IH a Hlo) as (o1 & b1 & Hb1 & Ho1 & Hx1).
    { intros x Hx. apply Hfree. unfold block in *. lia. }
    destruct (decide (S k ≤ o1)%nat) as [|Hs1]; [by exists o1, b1|].
    assert (o1 = k) as -> by lia.
    destruct (IH (a + bs k) Hhi) as (o2 & b2 & Hb2 & Ho2 & Hx2).
    { intros x Hx. apply Hfree. unfold block in *. lia. }
    destruct (decide (S k ≤ o2)%nat) as [Hs2|Hs2].
    + exists o2, b2. split_and!; [done..|].
      pose proof (block_nested _ a (S k) b2 o2 (a + bs k) Hin (fl_block _ _ HL _ _ Hb2) Hs2) as Hn.
      unfold block in *. lia.
    + assert (o2 = k) as -> by lia. exfalso.
      pose proof (block_same _ _ _ _ _ Hlo (fl_block _ _ HL _ _ Hb1) (block_first a k) Hx1) as <-.
      pose proof (block_same _ _ _ _ _ Hhi (fl_block _ _ HL _ _ Hb2) (block_first _ k) Hx2) as <-.
      destruct Hin as (_ & _ & _ & _ & Hk). apply (Hm k (a + bs k)); [lia|done|]. by rewrite Hbud.
Qed.
End merged.

(** Equal free bytes, equal free blocks. *)
Lemma merged_canonical s s' L L' :
  free_lists s L → free_lists s' L' →
  m_base (mc_pmm s') = m_base (mc_pmm s) → m_size (mc_pmm s') = m_size (mc_pmm s) →
  merged (mc_pmm s) L → merged (mc_pmm s') L' →
  (∀ x, free_at L x ↔ free_at L' x) → ∀ o a, a ∈ L o → a ∈ L' o.
Proof.
  intros HL HL' Hb Hs Hm Hm' Heq o a Ha.
  pose proof (fl_block _ _ HL _ _ Ha) as Hin.
  destruct (merged_covers s' L' HL' Hm' o a) as (o1 & b1 & Hb1 & Ho1 & Hx1).
  { by apply (in_pool_size_eq (mc_pmm s)). }
  { intros x Hx. apply Heq. by eapply free_at_elem. }
  assert (Hin1 : in_pool (mc_pmm s) b1 o1).
  { apply (in_pool_size_eq (mc_pmm s')); [by symmetry..|by apply (fl_block _ _ HL')]. }
  destruct (merged_covers s L HL Hm o1 b1 Hin1) as (o2 & b2 & Hb2 & Ho2 & Hx2).
  { intros x Hx. apply Heq. by eapply free_at_elem. }
  pose proof (block_nested _ a o b1 o1 a Hin Hin1 Ho1 (block_first a o) Hx1).
  pose proof (block_nested _ b1 o1 b2 o2 b1 Hin1 (fl_block _ _ HL _ _ Hb2) Ho2 (block_first b1 o1) Hx2).
  pose proof (bs_pos o).
  destruct (free_unique s L HL o a o2 b2 a Ha Hb2 (block_first a o)) as [-> ->]; [unfold block; lia|].
  assert (o1 = o2) as -> by lia. by assert (b1 = b2) as -> by lia.
Qed.
