(* ===== verification/PmmProps.v ===== *)
(** * The page allocator: what it promises, and where it falls short *)
From S2P Require Import Prelude Memory Machine Pmm FreeLists Bitmap Buddy PmmSpec PmmInit Canonical.

(** ** A concrete pool: 512 MiB at 1 GiB, two free blocks of the largest order *)

Definition pool0 : machine :=
  MkMachine (store64 (store64 ∅ 0x40000000 0x50000000) 0x50000000 0)
    (MkPmm 0x40000000 0x20000000 (replicate 16 0 ++ [0x40000000]) ∅) [] (λ _, 0) [].
Definition blocks0 (o : nat) : list Z :=
  if decide (o = MAX_ORDER) then [0x40000000; 0x50000000] else [].

Lemma blocks0_elem o a : a ∈ blocks0 o ↔ o = MAX_ORDER ∧ (a = 0x40000000 ∨ a = 0x50000000).
Proof. unfold blocks0. case_decide; set_solver. Qed.

Lemma pool0_ok : pool_ok (mc_pmm pool0).
Proof. split; vm_compute; intuition congruence. Qed.

Lemma pool0_in o a : a ∈ blocks0 o → in_pool (mc_pmm pool0) a o.
Proof.
  intros [-> [-> | ->]]%blocks0_elem; unfold in_pool; split_and!; vm_compute; try congruence; lia.
Qed.

Lemma pool0_lists : free_lists pool0 blocks0.
Proof.
  split.
  - apply pool0_ok.
  - intros o Ho. do 17 (destruct o as [|o]; [vm_compute; intuition congruence|]).
    unfold MAX_ORDER in Ho. lia.
  - apply pool0_in.
  - intros o. unfold blocks0. case_decide; repeat constructor; set_solver.
  - intros o a o' b [-> Ha]%blocks0_elem [-> Hb]%blocks0_elem Hne. unfold apart.
    destruct max_block as [_ ->]. destruct Ha as [-> | ->], Hb as [-> | ->]; try lia; congruence.
Qed.

Lemma pool0_inv : buddy_inv pool0 blocks0.
Proof.
  split; [apply pool0_lists|]. intros _ a o Hin.
  assert (bitAt (m_bitmap (mc_pmm pool0)) (bitmapIndex (mc_pmm pool0) a o) = false) as ->.
  { unfold bitAt. simpl. by rewrite lookup_empty, Z.testbit_0_l. }
  destruct (decide (o = MAX_ORDER)) as [->|Hne].
  2: { rewrite !bool_decide_false by (rewrite blocks0_elem; tauto). done. }
  destruct Hin as (H1 & H2 & H3 & _). destruct max_block as [_ Hb]. rewrite Hb in *. simpl in H1, H2, H3.
  assert (a = 0x40000000 ∨ a = 0x50000000) as [-> | ->]; [|done..].
  apply Z.mod_divide in H3 as [k Hk]; [|done]. lia.
Qed.

Lemma pool0_merged : merged (mc_pmm pool0) blocks0.
Proof. intros o a Ho [-> _]%blocks0_elem. lia. Qed.

Lemma pool0_whole : whole_pairs (mc_pmm pool0).
Proof. reflexivity. Qed.

(** The same pool with everything allocated. *)
Definition pool1 : machine :=
  MkMachine ∅ (MkPmm 0x40000000 0x20000000 (replicate 17 0) ∅) [] (λ _, 0) [].

Lemma pool1_inv : buddy_inv pool1 (λ _, []).
Proof.
  split; [split|].
  - split; vm_compute; intuition congruence.
  - intros o Ho. do 17 (destruct o as [|o]; [reflexivity|]). unfold MAX_ORDER in Ho. lia.
  - set_solver.
  - intros o. constructor.
  - set_solver.
  - intros _ a o Hin. unfold bitAt. simpl. by rewrite lookup_empty, Z.testbit_0_l.
Qed.

Lemma pool1_page : in_pool (mc_pmm pool1) 0x48000000 0.
Proof. unfold in_pool. split_and!; vm_compute; try congruence; lia. Qed.

Lemma block_dec a o x : {block a o x} + {¬ block a o x}.
Proof. unfold block. destruct (decide (a ≤ x)), (decide (x < a + bs o)); [left|right..]; lia. Qed.

(** ** Allocation and deallocation *)

(** C4: from a consistent pool [AllocPages] either returns 0 and changes nothing, or takes
    exactly one well placed block of the order asked for out of the free memory: its bytes
    were free and no longer are, all other bytes stay free or allocated as they were, and
    only free memory and the allocator's own state are written. *)
Theorem AllocPages_correct s L order
    (HI : buddy_inv s L) (Ho : (order ≤ MAX_ORDER)%nat) :
  runs (AllocPages order) s (λ a s',
    (a = 0 ∧ s' = s) ∨
    (a ≠ 0 ∧ ∃ L', buddy_inv s' L' ∧ in_pool (mc_pmm s) a order ∧
      (∀ x, block a order x → free_at L x ∧ ¬ free_at L' x) ∧
      (∀ x, ¬ block a order x → free_at L' x ↔ free_at L x) ∧
      touched (free_at L) s s')).
Proof.
  eapply runs_mono; [by apply (AllocPages_spec s L)|].
  intros a s' [(? & ? & _)|(Ha & L' & HI' & (Hin & Hap & Hf & Ht) & _)]; [by left|right].
  split; [done|]. exists L'. split_and!; try done.
  - intros x Hx. split; [apply Hf; by right|by apply (apart_all_not_free L' a order)].
  - intros x Hx. specialize (Hf x). tauto.
Qed.

Lemma AllocPages_correct_witness :
  buddy_inv pool0 blocks0 ∧ ∃ a s', AllocPages 3 pool0 = Done a s' ∧ a = 0x40000000.
Proof.
  split; [apply pool0_inv|].
  destruct (runs_inv _ _ _ (AllocPages_correct pool0 blocks0 3 pool0_inv ltac:(vm_compute; lia)))
    as (a & s' & E & _).
  exists a, s'. split; [exact E|]. vm_compute in E. by injection E.
Defined.

(** C5: [FreePages] of a block that was allocated returns its bytes, and no others, to the
    free memory, keeps the pool consistent, and coalesces: if no two buddies were both free
    before, none are after. *)
Theorem FreePages_correct s L a order
    (HI : buddy_inv s L) (Hin : in_pool (mc_pmm s) a order) (Hap : apart_all L a order) :
  runs (FreePages a order) s (λ _ s', ∃ L', buddy_inv s' L' ∧
    (∀ x, free_at L' x ↔ free_at L x ∨ block a order x) ∧
    touched (λ x, free_at L x ∨ block a order x) s s' ∧
    (whole_pairs (mc_pmm s) → merged (mc_pmm s) L → merged (mc_pmm s') L')).
Proof. by apply FreePages_spec. Qed.

Lemma FreePages_correct_witness :
  buddy_inv pool1 (λ _, []) ∧
  runs (FreePages 0x48000000 0) pool1 (λ _ s', ∃ L', buddy_inv s' L' ∧
    (∀ x, free_at L' x ↔ free_at (λ _, []) x ∨ block 0x48000000 0 x) ∧
    touched (λ x, free_at (λ _, []) x ∨ block 0x48000000 0 x) pool1 s' ∧
    (whole_pairs (mc_pmm pool1) → merged (mc_pmm pool1) (λ _, []) → merged (mc_pmm s') L')).
Proof.
  split; [apply pool1_inv|].
  apply (FreePages_correct pool1 (λ _, []) 0x48000000 0 pool1_inv pool1_page).
  intros o b Hb. by apply elem_of_nil in Hb.
Defined.

(** C6: allocation is complete on a merged pool: as long as some aligned block of the order
    asked for is free throughout, [AllocPages] returns memory, and the pool stays merged. *)
Theorem AllocPages_complete s L order b
    (HI : buddy_inv s L) (Hm : merged (mc_pmm s) L) (Hin : in_pool (mc_pmm s) b order)
    (Hfree : ∀ x, block b order x → free_at L x) :
  runs (AllocPages order) s (λ a s', a ≠ 0 ∧ ∃ L',
    buddy_inv s' L' ∧ merged (mc_pmm s') L').
Proof.
  pose proof (bi_lists _ _ HI) as HL.
  eapply runs_mono; [apply (AllocPages_spec s L); [done|apply Hin]|].
  intros a s' [(-> & -> & Hnone)|(Ha & L' & HI' & _ & Hm')]; [exfalso|split; [done|eauto]].
  destruct (merged_covers s L HL Hm order b Hin Hfree) as (o & c & Hc & Ho & _).
  rewrite (Hnone o) in Hc; [set_solver|].
  destruct (fl_block _ _ HL o c Hc) as (_ & _ & _ & _ & ?). lia.
Qed.

Lemma pool0_first x : block 0x40000000 16 x → free_at blocks0 x.
Proof. intros Hx. exists 16%nat, 0x40000000. split; [by apply blocks0_elem; auto|done]. Qed.

Lemma AllocPages_complete_witness :
  runs (AllocPages 16) pool0 (λ a s', a ≠ 0 ∧ ∃ L', buddy_inv s' L' ∧ merged (mc_pmm s') L').
Proof.
  apply (AllocPages_complete pool0 blocks0 16 0x40000000).
  - apply pool0_inv.
  - apply pool0_merged.
  - apply pool0_in, blocks0_elem. auto.
  - apply pool0_first.
Defined.



(** ** Boot *)

(** The map of the FVP platform file: 2 GiB at 2 GiB, a small kernel, TF-A and DTB. *)
Definition fvp_map : MemoryMap := MkMemoryMap 0x80000000 0x80000000 0x4000000 0x200000 0x82000000 0x100000 0 0.

Lemma fvp_map_ok : map_ok 0x80080000 0x80280000 fvp_map.
Proof. split; [..|repeat constructor]; vm_compute; intuition congruence. Qed.



(** C19: [reserveRegion] never splits a block, so on a pool made of largest blocks (a multiple
    of 256 MiB) regions that are smaller than 256 MiB stay in the free memory: after
    [SetMemoryMap] every byte of RAM, the kernel image included, can still be allocated. *)
Theorem small_regions_not_reserved kernelBase kernelEnd map s
    (Hok : map_ok kernelBase kernelEnd map) (Hsize : memSize map mod bs MAX_ORDER = 0)
    (Hsmall : Forall (λ r, region_hi r.1 r.2 - region_lo r.1 < bs MAX_ORDER)
      (reserved_regions kernelBase kernelEnd map)) :
  runs (SetMemoryMap kernelBase kernelEnd map) s (λ _ s', ∃ L',
    buddy_inv s' L' ∧ ∀ x, in_ram map x → free_at L' x).
Proof.
  eapply runs_mono; [by apply SetMemoryMap_spec|]. intros [] s' (L0 & L' & HB).
  exists L'. split; [apply HB|]. intros x Hx. apply (bo_seed _ _ _ _ _ _ _ HB) in Hx as (o & a & Ha & Hxa).
  exists o, a. split; [|done]. apply (bo_minus _ _ _ _ _ _ _ HB). split; [done|].
  intros r Hr (H1 & H2 & _). rewrite Forall_forall in Hsmall. specialize (Hsmall r (proj1 (list_elem_of_In _ _) Hr)). cbv beta in Hsmall.
  destruct (decide (o < MAX_ORDER)%nat) as [Hlt|Hge].
  - rewrite (bo_large _ _ _ _ _ _ _ HB Hsize o Hlt) in Ha. by apply elem_of_nil in Ha.
  - pose proof (bs_le MAX_ORDER o ltac:(lia)). lia.
Qed.

Lemma small_regions_not_reserved_witness :
  in_ram fvp_map 0x80080000 ∧
  runs (SetMemoryMap 0x80080000 0x80280000 fvp_map) pool1 (λ _ s', ∃ L',
    buddy_inv s' L' ∧ ∀ x, in_ram fvp_map x → free_at L' x).
Proof.
  split; [vm_compute; split; congruence|]. apply small_regions_not_reserved.
  - apply fvp_map_ok.
  - reflexivity.
  - repeat constructor.
Defined.

(** ** A pool that ends inside a page *)

Section ragged.
Context (base size : Z).
Context (Hb : 0 < base) (Hbm : base mod 4096 = 0).
Context (Hs : 0 ≤ size ≤ MAX_POOL_SIZE) (He : base + size ≤ PA_LIMIT).

(** All the seeding loop needs of the state to go on. *)
Definition pool_set (s : machine) : Prop :=
  pool_ok (mc_pmm s) ∧ m_base (mc_pmm s) = base ∧ m_size (mc_pmm s) = size.

Lemma seed_block {A} s addr n (k : M machine A) Q :
  pool_set s → base ≤ addr → addr + bs n ≤ base + size → (addr - base) mod bs n = 0 →
  (n ≤ MAX_ORDER)%nat → (∀ s', pool_set s' → runs k s' Q) →
  runs (bitmapToggle addr n;; listPush addr n;; k) s Q.
Proof.
  intros (Hp & Eb & Es) Hlo Hhi Hal Hn Hk. apply runs_bind.
  eapply runs_mono; [apply toggle_spec; [done|]|].
  { unfold in_pool. rewrite Eb, Es. split_and!; try done. lia. }
  intros ? ? (b & -> & _ & _). apply runs_bind. unfold listPush. run.
  apply Hk. destruct Hp. repeat split; simpl; try done; try lia. by rewrite length_insert.
Qed.

Lemma seed_tail_ragged n : ∀ s addr r,
  (n ≤ MAX_ORDER)%nat → pool_set s → base ≤ addr → addr + r = base + size → 0 ≤ r < bs n →
  (addr - base) mod bs n = 0 →
  runs (seed_tail (rev (seq 0 n)) addr r) s (λ a s',
    a = base + (size - size mod 4096) ∧ pool_set s').
Proof.
  induction n as [|n IH]; intros s addr r Hn HS Hlo Hr Hlt Hal.
  - simpl. run. split; [|done]. change (bs 0) with 4096 in *.
    pose proof (Z.div_mod (addr - base) 4096). pose proof (Z.mod_add r ((addr - base) / 4096) 4096).
    pose proof (Z.mod_small r 4096).
    replace size with (r + (addr - base) / 4096 * 4096) at 2 by lia. lia.
  - rewrite orders_down_S. cbn [seed_tail]. cbv zeta.
    pose proof (bs_S n) as HSn. pose proof (bs_pos n).
    assert (Hal' : (addr - base) mod bs n = 0).
    { apply Z.mod_divide; [lia|]. apply Z.mod_divide in Hal; [|lia].
      etransitivity; [|exact Hal]. apply bs_divide. lia. }
    rewrite (blockSize_bs n) by (unfold MAX_ORDER in *; lia). case_decide as Hle.
    + apply seed_block; try done; [lia|lia|]. intros s' HS'.
      rewrite (add_small base size) by (done || lia).
      assert (r ⊟ bs n = r - bs n) as ->.
      { apply Z.mod_small. unfold MAX_POOL_SIZE in *. lia. }
      apply IH; try done; try lia.
      replace (addr + bs n - base) with (addr - base + 1 * bs n) by lia. by rewrite Z.mod_add by lia.
    + apply IH; try done; lia.
Qed.

(** A loop head: before the tail on a largest-block boundary, or stuck before the last page part. *)
Definition stuck (addr : Z) : Prop :=
  base ≤ addr < base + size ∧ (addr - base) mod 4096 = 0 ∧
  ((addr - base) mod bs MAX_ORDER = 0 ∨ addr = base + (size - size mod 4096)).

Lemma seed_tail_none s addr r os :
  r < 4096 → (∀ o, o ∈ os → (o ≤ MAX_ORDER)%nat) → seed_tail os addr r s = Done addr s.
Proof.
  intros Hr. induction os as [|o os IH]; intros Hos; [done|].
  rewrite seed_tail_skip; [apply IH; set_solver|].
  rewrite blockSize_bs by (apply Hos; set_solver). pose proof (bs_pos o). lia.
Qed.

Lemma seed_step_stuck s addr :
  size mod 4096 ≠ 0 → pool_set s → stuck addr →
  runs (seed_step (base + size) addr) s (λ r s',
    match r with inl a' => stuck a' ∧ pool_set s' | inr _ => False end).
Proof.
  intros Hrag HS (Ha & Hal & Hcase). destruct max_block as [Hmax Hb16]. unfold seed_step.
  rewrite decide_True by lia. cbv zeta.
  assert (base + size ⊟ addr = base + size - addr) as ->.
  { apply Z.mod_small. unfold MAX_POOL_SIZE in *. lia. }
  pose proof (Z.mod_pos_bound size 4096).
  assert (Hnz : (base + size - addr) mod 4096 ≠ 0).
  { replace (base + size - addr) with (size - (addr - base)) by lia.
    by rewrite Zminus_mod, Hal, Z.sub_0_r, Z.mod_mod. }
  rewrite Hmax. case_decide as Hle.
  - assert ((addr - base) mod bs MAX_ORDER = 0) by (destruct Hcase as [? | ->]; lia).
    apply seed_block; try done; [lia|lia|]. intros s' HS'. run. split; [|done].
    rewrite (add_small base size) by (done || lia).
    assert ((addr + bs MAX_ORDER - base) mod bs MAX_ORDER = 0).
    { replace (addr + bs MAX_ORDER - base) with (addr - base + 1 * bs MAX_ORDER) by lia. by rewrite Z.mod_add by lia. }
    unfold stuck. split_and!; [lia| | |by left].
    + destruct (decide (base + size = addr + bs MAX_ORDER)) as [E|]; [exfalso|lia].
      apply Hnz. replace (base + size - addr) with (bs MAX_ORDER) by lia. by rewrite Hb16.
    + replace (addr + bs MAX_ORDER - base) with (addr - base + 65536 * 4096) by (rewrite Hb16; lia).
      by rewrite Z.mod_add.
  - apply runs_bind. eapply (runs_mono _ _ (λ a s', a = base + (size - size mod 4096) ∧ pool_set s')).
    + destruct Hcase as [Hc|Hc].
      * rewrite orders_down_eq, seed_tail_skip by lia.
        apply seed_tail_ragged; try done; lia.
      * eapply runs_of_eq; [apply seed_tail_none; [lia|by intros o ?%elem_orders_down]|done].
    + intros a s' (-> & HS'). run. split; [|done].
      pose proof (Z.div_mod size 4096). pose proof (Z.div_pos size 4096).
      unfold stuck. split_and!; [lia|lia| |by right].
      replace (base + (size - size mod 4096) - base) with (0 + size / 4096 * 4096) by lia.
      by rewrite Z.mod_add.
Qed.

Lemma seed_loop_stuck fuel : ∀ s addr,
  size mod 4096 ≠ 0 → pool_set s → stuck addr →
  ∃ s', loop fuel (seed_step (base + size)) addr s = Stop OutOfFuel s'.
Proof.
  induction fuel as [|k IH]; intros s addr Hrag HS Hst; [by eexists|]. cbn [loop].
  destruct (runs_inv _ _ _ (seed_step_stuck s addr Hrag HS Hst)) as ([a|[]] & s' & -> & Hr); [|done].
  destruct Hr. by apply IH.
Qed.
End ragged.

(** C20: when the size of RAM is not a multiple of the page size the seeding loop of
    [SetMemoryMap] never ends: it is stopped before the last, partial page, which no block
    fits, and that no pass skips. *)
Theorem ragged_pool_never_seeded base size s fuel
    (Hb : 0 < base) (Hbm : base mod 4096 = 0) (Hs : 0 ≤ size ≤ MAX_POOL_SIZE)
    (He : base + size ≤ PA_LIMIT) (Hrag : size mod 4096 ≠ 0)
    (Hinit : mc_pmm s = MkPmm base size (replicate NUM_ORDERS 0) ∅) :
  ∃ s', loop fuel (seed_step (base ⊞ size)) base s = Stop OutOfFuel s'.
Proof.
  assert (base ⊞ size = base + size) as -> by (apply Z.mod_small; lia).
  apply seed_loop_stuck; try done.
  - repeat split; rewrite ?Hinit; simpl; try done; lia.
  - pose proof (Z.mod_small 0 4096).
    assert (size ≠ 0) by (intros ->; lia).
    unfold stuck. rewrite Z.sub_diag. split_and!; [lia..| |left]; done.
Qed.

Lemma ragged_pool_never_seeded_witness :
  0x3001 mod 4096 ≠ 0 ∧ ∃ s', loop 1000 (seed_step (0x1000 ⊞ 0x3001)) 0x1000
    (set_pmm (λ _, MkPmm 0x1000 0x3001 (replicate NUM_ORDERS 0) ∅) pool1) = Stop OutOfFuel s'.
Proof.
  split; [done|]. apply ragged_pool_never_seeded; try done; vm_compute; intuition congruence.
Defined.

(** ** The buddy bitmap *)

(** every bit index the operations compute lies inside the bitmap, so that
    [bitmapToggle] never halts, and on a pool of whole pairs a bit belongs to one pair of
    buddies only. *)
Lemma bitmapIndex_one_pair p a o b o'
    (Hp : pool_ok p) (Ha : in_pool p a o) (Hb : in_pool p b o') :
  0 ≤ bitmapIndex p a o ∧ bitmapIndex p a o ≫ 3 < BITMAP_BYTES ∧
  (whole_pairs p → bitmapIndex p a o = bitmapIndex p b o' ↔ o = o' ∧ (b = a ∨ b = buddyOf p a o)).
Proof.
  destruct (bitmapIndex_in_range p Hp a o Ha) as [H1 H2]. split_and!; [done..|]. intros Hw.
  split; [by apply bitmapIndex_inj|]. intros [<- [-> | ->]]; [done|]. symmetry. by apply buddy_index.
Qed.

Lemma bitmapIndex_one_pair_witness :
  let p := mc_pmm pool0 in
  whole_pairs p ∧ (bitmapIndex p 0x40000000 16 = bitmapIndex p 0x50000000 16 ↔
    16%nat = 16%nat ∧ (0x50000000 = 0x40000000 ∨ 0x50000000 = buddyOf p 0x40000000 16)).
Proof.
  split; [reflexivity|].
  apply (bitmapIndex_one_pair (mc_pmm pool0) 0x40000000 16 0x50000000 16).
  - apply pool0_ok.
  - apply pool0_in, blocks0_elem. auto.
  - apply pool0_in, blocks0_elem. auto.
  - reflexivity.
Defined.

(** Without whole pairs bits are shared across orders: in a pool of three pages, page 2 at
    order 0 and page 0 at order 1 use the same bit. *)
Lemma bitmapIndex_aliases :
  let p := MkPmm 0x1000 0x3000 (replicate NUM_ORDERS 0) ∅ in
  in_pool p 0x3000 0 ∧ in_pool p 0x1000 1 ∧ bitmapIndex p 0x3000 0 = bitmapIndex p 0x1000 1.
Proof. unfold in_pool. split_and!; vm_compute; try congruence; lia. Qed.

(** RAM that starts at address 0 loses its first block: pushing address 0 leaves the list
    empty. Of four pages at 0 none is in a free list; the order 2 block was pushed as null. *)
Lemma pool_at_zero_loses_first_block :
  runs (SetMemoryMap 0x80000 0x280000 (MkMemoryMap 0 0x4000 0x90000 0 0x90000 0 0 0)) pool1 (λ _ s',
    DumpState s' = Done (replicate NUM_ORDERS 0) s').
Proof. vm_compute. reflexivity. Qed.
