(* ===== verification/PageAlloc.v ===== *)
(** * The interface of the page allocator, as its clients use it

    A client knows a set [F] of free bytes and which blocks it may give back.
    The laws below are proved for [Pmm] once; the page tables, the MMUs and the
    heap are verified against the class. *)
From S2P Require Import Prelude Memory Machine Pmm FreeLists Bitmap Buddy PmmSpec.

(** Only free memory [F] and the allocator's own state may differ. *)
Record pa_frame (F : Z → Prop) (s s' : machine) : Prop := {
  pf_only : mem_pmm_only s s';
  pf_mem : mem_same_outside F s s';
}.

Class PageAllocator (alloc : nat → M machine Z) (free : Z → nat → M machine unit) := {
  (** The allocator is consistent, and [F] is the free memory. *)
  pa_ok : machine → (Z → Prop) → Prop;
  (** [a] is a block of order [o] the allocator could have handed out. *)
  pa_block : machine → Z → nat → Prop;
  (** An allocation of order [o] would succeed. *)
  pa_avail : machine → nat → Prop;
  pa_ext s F F' : pa_ok s F → (∀ x, F x ↔ F' x) → pa_ok s F';
  pa_bounds s F x : pa_ok s F → F x → 0 < x < PA_LIMIT;
  pa_client s s' F : pa_ok s F → mc_pmm s' = mc_pmm s →
    (∀ x, F x → load8 (mc_mem s') x = load8 (mc_mem s) x) →
    pa_ok s' F ∧ ∀ a o, pa_block s a o → pa_block s' a o;
  pa_block_bounds s F a o : pa_ok s F → pa_block s a o →
    0 < a ∧ a + bs o ≤ PA_LIMIT ∧ a mod 4096 = 0 ∧ (o ≤ MAX_ORDER)%nat;
  pa_alloc s F o : pa_ok s F → (o ≤ MAX_ORDER)%nat →
    runs (alloc o) s (λ a s',
      (a = 0 ∧ s' = s ∧ ¬ pa_avail s o ∧ (o = 0%nat → ∀ x, ¬ F x)) ∨
      (a ≠ 0 ∧ pa_block s' a o ∧ (∀ b k, pa_block s b k → pa_block s' b k) ∧ pa_frame F s s' ∧
       ∃ F', pa_ok s' F' ∧ (∀ x, F x ↔ F' x ∨ block a o x) ∧ ∀ x, block a o x → ¬ F' x));
  pa_free s F a o : pa_ok s F → pa_block s a o → (∀ x, block a o x → ¬ F x) →
    runs (free a o) s (λ _ s',
      pa_ok s' (λ x, F x ∨ block a o x) ∧ (∀ b k, pa_block s b k → pa_block s' b k) ∧
      pa_frame (λ x, F x ∨ block a o x) s s');
  (** Distinct pages handed out are at most one per page of the pool. *)
  pa_pages s F l : pa_ok s F → NoDup l → (∀ a, a ∈ l → pa_block s a 0) →
    (length l < list_fuel (mc_pmm s))%nat;
}.

(** At least [k] pages are free. *)
Definition free_pages (F : Z → Prop) (k : nat) : Prop :=
  ∃ l, NoDup l ∧ (k ≤ length l)%nat ∧ ∀ p, p ∈ l → p mod 4096 = 0 ∧ F p.

Lemma free_pages_le F k k' : (k' ≤ k)%nat → free_pages F k → free_pages F k'.
Proof. intros ? (l & ? & ? & ?). exists l. split_and!; [done|lia|done]. Qed.

Lemma free_pages_take F F' a k :
  a mod 4096 = 0 → (∀ x, F x → F' x ∨ block a 0 x) → free_pages F (S k) → free_pages F' k.
Proof.
  intros Ha HF (l & Hnd & Hlen & Hl). exists (filter (λ p, p ≠ a) l). split_and!.
  - by apply list.NoDup_filter.
  - assert (length l ≤ S (length (filter (λ p, p ≠ a) l)))%nat; [|lia].
    clear Hlen Hl. induction l as [|p l IH]; [simpl; lia|].
    apply list.NoDup_cons in Hnd as [Hp Hnd]. rewrite filter_cons. case_decide as E; simpl.
    + specialize (IH Hnd). lia.
    + subst p. assert (filter (λ p, p ≠ a) l = l) as ->; [|lia].
      clear IH Hnd. induction l as [|q l IHl]; [done|]. rewrite filter_cons_True by set_solver.
      f_equal. apply IHl. set_solver.
  - intros p [Hne Hp]%list_elem_of_filter. destruct (Hl p Hp) as [Hm Hf]. split; [done|].
    destruct (HF p Hf) as [|Hb]; [done|]. exfalso. unfold block in Hb. change (bs 0) with 4096 in Hb.
    pose proof (Z.div_mod p 4096). pose proof (Z.div_mod a 4096). lia.
Qed.

(** A block of order [o] is [2 ^ o] pages. *)
Lemma free_pages_take_block o : ∀ F F' a k,
  a mod 4096 = 0 → (∀ x, F x → F' x ∨ block a o x) → free_pages F (2 ^ o + k) → free_pages F' k.
Proof.
  induction o as [|o IH]; intros F F' a k Ha HF Hk; [by apply (free_pages_take F F' a)|].
  assert (Hbs : bs (S o) = 2 * bs o) by apply bs_S. pose proof (bs_pos o).
  assert (Hm : bs o mod 4096 = 0) by (apply Z.mod_divide; [done|]; apply (bs_divide 0 o); lia).
  apply (IH (λ x, F x ∧ ¬ block a o x) F' (a + bs o)).
  - by rewrite Z.add_mod, Ha, Hm by done.
  - intros x [Hx Hno]. destruct (HF x Hx); [by left|right]. unfold block in *. lia.
  - apply (IH F _ a); [done| |]. { intros x Hx. destruct (decide (a ≤ x < a + bs o)); [by right|by left]. }
    eapply free_pages_le, Hk. rewrite Nat.pow_succ_r'. lia.
Qed.

(** A block of order 1 is two pages. *)
Lemma free_pages_take2 F F' a k :
  a mod 4096 = 0 → (∀ x, F x → F' x ∨ block a 1 x) → free_pages F (2 + k) → free_pages F' k.
Proof. intros Ha HF. by apply (free_pages_take_block 1 F F' a k). Qed.

Section client.
Context {alloc free} `{PA : !PageAllocator alloc free}.

Lemma alloc_page s F k :
  pa_ok s F → free_pages F (S k) →
  runs (alloc 0%nat) s (λ a s',
    a ≠ 0 ∧ pa_block s' a 0 ∧ (∀ b k, pa_block s b k → pa_block s' b k) ∧ pa_frame F s s' ∧
    ∃ F', pa_ok s' F' ∧ (∀ x, F x ↔ F' x ∨ block a 0 x) ∧ (∀ x, block a 0 x → ¬ F' x) ∧
      ∀ n, free_pages F (S n) → free_pages F' n).
Proof.
  intros HF Hk. eapply runs_mono; [apply (pa_alloc s F 0); [done|unfold MAX_ORDER; lia]|].
  intros a s' [(-> & -> & _ & Hnone)|(Ha & Hb & Hbs & Hfr & F' & HF' & Heq & Hdis)].
  - exfalso. destruct Hk as (l & _ & Hlen & Hl). destruct l as [|p l]; [simpl in Hlen; lia|].
    apply (Hnone eq_refl p). apply Hl. set_solver.
  - split_and!; [done..|]. exists F'. split_and!; [done..|].
    intros n. apply (free_pages_take _ _ a); [|naive_solver].
    by destruct (pa_block_bounds s' F' a 0 HF' Hb) as (_ & _ & ? & _).
Qed.

(** Client writes outside the free memory keep the allocator consistent. *)
Lemma pa_client_write s F (f : gmap Z Z → gmap Z Z) :
  pa_ok s F → (∀ x, F x → load8 (f (mc_mem s)) x = load8 (mc_mem s) x) →
  pa_ok (set_mem f s) F.
Proof. intros HF Hx. by apply (pa_client s). Qed.
End client.

(** ** [Pmm] implements the interface *)

Lemma free_lists_client s s' L :
  free_lists s L → mc_pmm s' = mc_pmm s →
  (∀ x, free_at L x → load8 (mc_mem s') x = load8 (mc_mem s) x) → free_lists s' L.
Proof.
  intros [Hp Hc Hb Hnd Hap] Hpmm Hmem. split; rewrite ?Hpmm; try done.
  intros o Ho. eapply chain_agree; [|by apply Hc]. intros a Ha. apply load_agree. intros x Hx.
  apply Hmem. exists o, a. split; [done|]. unfold block. pose proof (bs_pos o). lia.
Qed.

#[export] Program Instance pmm_allocator : PageAllocator AllocPages FreePages := {|
    pa_ok s F := ∃ L, buddy_inv s L ∧ ∀ x, F x ↔ free_at L x;
    pa_block s a o := in_pool (mc_pmm s) a o;
    pa_avail s o := ∃ k, (o ≤ k ≤ MAX_ORDER)%nat ∧ m_freeLists (mc_pmm s) !!! k ≠ 0;
  |}.
  Next Obligation. intros s F F' (L & HI & HF) Heq. exists L. split; [done|]. intros x. by rewrite <-Heq. Qed.
  Next Obligation.
    intros s F x (L & HI & HF) (o & a & Ha & Hx)%HF.
    pose proof (bi_lists _ _ HI) as HL.
    destruct (in_pool_bounds _ a o (fl_pool _ _ HL) (fl_block _ _ HL _ _ Ha)) as (? & ? & _).
    unfold block in Hx. lia.
Qed.
  Next Obligation.
    intros s s' F (L & [HL Hbm] & HF) Hpmm Hmem. split; [|by rewrite Hpmm].
    exists L. split; [|done]. split.
    - apply (free_lists_client s); [done..|]. intros x Hx. by apply Hmem, HF.
    - unfold bitmap_exact in *. by rewrite Hpmm.
Qed.
  Next Obligation.
    intros s F a o (L & HI & HF) Hin.
    destruct (in_pool_bounds _ a o (fl_pool _ _ (bi_lists _ _ HI)) Hin) as (? & ? & ?).
    destruct Hin as (_ & _ & _ & _ & ?). done.
Qed.
  Next Obligation.
    intros s F o (L & HI & HF) Ho. eapply runs_mono; [by apply (AllocPages_spec s L)|].
    intros a s' [(-> & -> & Hnone)|(Ha & L' & HI' & (Hin & Hap & Hf & Ht) & _)]; [left|right].
    - split_and!; [done..| |].
      { intros (k & Hk & Hne). apply Hne. apply (list_head_nil s L); [apply HI|lia|by apply Hnone]. }
      intros -> x (k & b & Hb & _)%HF.
      rewrite Hnone in Hb; [by apply elem_of_nil in Hb|].
      destruct (fl_block _ _ (bi_lists _ _ HI) k b Hb) as (_ & _ & _ & _ & ?). lia.
    - split_and!; [done| | |split; [apply Ht|]|].
      + by apply (in_pool_size_eq (mc_pmm s)); [apply Ht..|].
      + intros b k. apply in_pool_size_eq; apply Ht.
      + eapply mem_same_outside_weaken; [apply Ht|]. intros x. apply HF.
      + exists (free_at L'). split_and!; [by exists L'|intros x; by rewrite HF|].
        intros x Hx. by apply (apart_all_not_free L' a o).
Qed.
  Next Obligation.
    intros s F a o (L & HI & HF) Hin Hdis. 
    assert (Hap : apart_all L a o).
    { intros o' b Hb. unfold apart. pose proof (bs_pos o). pose proof (bs_pos o').
      assert (Hno : ∀ x, block a o x → ¬ block b o' x).
      { intros x Hx Hy. apply (Hdis x Hx), HF. by exists o', b. }
      unfold block in Hno. pose proof (Hno a). pose proof (Hno b). lia. }
    eapply runs_mono; [by apply (FreePages_spec s L)|].
    intros [] s' (L' & HI' & Hf & Ht & _). split_and!.
    - exists L'. split; [done|]. intros x. by rewrite Hf, HF.
    - intros b k. apply in_pool_size_eq; apply Ht.
    - split; [apply Ht|]. eapply mem_same_outside_weaken; [apply Ht|]. intros x. cbv beta. by rewrite HF.
Qed.
  Next Obligation.
    intros s F l (L & HI & HF) Hnd Hl. unfold list_fuel.
    assert (length l ≤ Z.to_nat (m_size (mc_pmm s) ≫ PAGE_SHIFT))%nat; [|lia].
    by apply (in_pool_length _ 0); [apply HI|..].
Qed.
