(* ===== verification/Strings.v ===== *)
(** * Freestanding memory and string primitives (lib/strings) *)
From S2P Require Import Prelude Memory Machine.

(** ** [memcpy] and [memset]: one byte at a time, upwards *)

Definition st8 (a v : Z) : M machine unit := modify (set_mem (λ m, store8 m a v)).

Fixpoint copy_bytes (m : gmap Z Z) (d s : Z) (n : nat) : gmap Z Z :=
  match n with
  | O => m
  | S n' => copy_bytes (store8 m d (load8 m s)) (d + 1) (s + 1) n'
  end.

Fixpoint fill_bytes (m : gmap Z Z) (d c : Z) (n : nat) : gmap Z Z :=
  match n with
  | O => m
  | S n' => fill_bytes (store8 m d (u8 c)) (d + 1) c n'
  end.

Definition memcpy (dest src n : Z) : M machine Z :=
  modify (set_mem (λ m, copy_bytes m dest src (Z.to_nat n)));; mret dest.

Definition memset (dest c n : Z) : M machine Z :=
  modify (set_mem (λ m, fill_bytes m dest c (Z.to_nat n)));; mret dest.

(** ** [StrEq] and [StrStartsWith]

    A [const char*] is the list of the bytes from the pointer to the end of the
    object it points into; [None] is a read past that end. *)

Fixpoint StrEq (str1 str2 : list Z) : option bool :=
  match str1, str2 with
  | c1 :: s1, c2 :: s2 =>
      if decide (c1 ≠ 0 ∧ c2 ≠ 0) then
        if decide (c1 ≠ c2) then Some false else StrEq s1 s2
      else Some (bool_decide (c1 = c2))
  | _, _ => None
  end.

Fixpoint StrStartsWith (str prefix : list Z) {struct prefix} : option bool :=
  match prefix with
  | [] => None
  | p :: prefix' =>
      if decide (p = 0) then Some true
      else match str with
           | [] => None
           | c :: str' => if decide (c ≠ p) then Some false else StrStartsWith str' prefix'
           end
  end.

(** ** Effect on memory *)

Lemma load8_fill m d c n x :
  load8 (fill_bytes m d c n) x = if decide (d ≤ x < d + Z.of_nat n) then u8 c else load8 m x.
Proof.
  revert m d. induction n as [|n IH]; intros m d; cbn [fill_bytes].
  - by rewrite decide_False by lia.
  - rewrite IH. destruct (decide (x = d)) as [->|Hne].
    + rewrite decide_False, decide_True, load8_store8_eq by lia. unfold u8. by rewrite Z.mod_mod.
    + rewrite load8_store8_ne by done. repeat case_decide; try done; lia.
Qed.

(** Without overlap the destination receives the source and the rest is kept. *)
Lemma load8_copy m d s n x :
  s + Z.of_nat n ≤ d ∨ d + Z.of_nat n ≤ s →
  load8 (copy_bytes m d s n) x =
    if decide (d ≤ x < d + Z.of_nat n) then load8 m (s + (x - d)) else load8 m x.
Proof.
  revert m d s. induction n as [|n IH]; intros m d s Hdis; cbn [copy_bytes].
  - by rewrite decide_False by lia.
  - rewrite IH by lia. destruct (decide (x = d)) as [->|Hne].
    + rewrite decide_False, decide_True, load8_store8_eq by lia.
      rewrite Z.sub_diag, Z.add_0_r. apply Z.mod_small, load8_range.
    + rewrite (load8_store8_ne m d x) by done. repeat case_decide; try done; try lia.
      rewrite load8_store8_ne by lia. f_equal. lia.
Qed.

Lemma load_zero n m a :
  (∀ x, a ≤ x < a + Z.of_nat n → load8 m x = 0) → load n m a = 0.
Proof.
  revert a. induction n as [|n IH]; intros a H; [done|]. rewrite load_S.
  rewrite (H a), IH; [done| |lia]. intros x Hx. apply H. lia.
Qed.

(** [memset] and [memcpy] by their effect on the bytes. *)
Record wrote (s s' : machine) : Prop := {
  wr_pmm : mc_pmm s' = mc_pmm s;
  wr_slabs : mc_slabs s' = mc_slabs s;
  wr_sys : mc_sys s' = mc_sys s;
  wr_trace : mc_trace s' = mc_trace s;
}.

Lemma memset_spec s dest c n : 0 ≤ n →
  runs (memset dest c n) s (λ r s', r = dest ∧ wrote s s' ∧
    ∀ x, load8 (mc_mem s') x = if decide (dest ≤ x < dest + n) then u8 c else load8 (mc_mem s) x).
Proof.
  intros Hn. unfold memset. mrun. split_and!; [done|by split|]. intros x.
  cbn [mc_mem set_mem]. by rewrite load8_fill, Z2Nat.id.
Qed.

Lemma memcpy_spec s dest src n : 0 ≤ n → src + n ≤ dest ∨ dest + n ≤ src →
  runs (memcpy dest src n) s (λ r s', r = dest ∧ wrote s s' ∧
    ∀ x, load8 (mc_mem s') x =
      if decide (dest ≤ x < dest + n) then load8 (mc_mem s) (src + (x - dest)) else load8 (mc_mem s) x).
Proof.
  intros Hn Hdis. unfold memcpy. mrun. split_and!; [done|by split|]. intros x.
  cbn [mc_mem set_mem]. by rewrite load8_copy, Z2Nat.id by lia.
Qed.

#[global] Arguments fill_bytes : simpl never.
#[global] Arguments copy_bytes : simpl never.

(** ** C strings *)

(** The bytes of [s] followed by NUL and whatever comes after. *)
Definition cstr (s rest : list Z) : list Z := s ++ 0 :: rest.
Definition no_nul (s : list Z) : Prop := Forall (λ c, c ≠ 0) s.

Lemma StrEq_cstr s1 : ∀ s2 r1 r2, no_nul s1 → no_nul s2 →
  StrEq (cstr s1 r1) (cstr s2 r2) = Some (bool_decide (s1 = s2)).
Proof.
  induction s1 as [|c1 s1 IH]; intros [|c2 s2] r1 r2 H1 H2; unfold cstr; cbn [app StrEq].
  - done.
  - inversion_clear H2. rewrite decide_False by tauto. f_equal. by rewrite !bool_decide_false by congruence.
  - inversion_clear H1. rewrite decide_False by tauto. f_equal. by rewrite !bool_decide_false by congruence.
  - inversion_clear H1; inversion_clear H2. rewrite decide_True by done. case_decide as E.
    + f_equal. by rewrite bool_decide_false by congruence.
    + assert (c1 = c2) as -> by (by destruct (decide (c1 = c2))). fold (cstr s1 r1) (cstr s2 r2).
      rewrite IH by done. f_equal. apply bool_decide_ext. naive_solver.
Qed.

Lemma StrStartsWith_cstr p : ∀ s r1 r2, no_nul s → no_nul p →
  StrStartsWith (cstr s r1) (cstr p r2) = Some (bool_decide (p `prefix_of` s)).
Proof.
  induction p as [|c2 p IH]; intros s r1 r2 H1 H2; unfold cstr; cbn [app StrStartsWith].
  - rewrite decide_True by done. by rewrite bool_decide_true by apply prefix_nil.
  - inversion_clear H2. rewrite decide_False by done. destruct s as [|c1 s]; cbn [app].
    + rewrite decide_True by congruence. rewrite bool_decide_false; [done|]. apply prefix_nil_not.
    + inversion_clear H1. case_decide as E.
      * rewrite bool_decide_false; [done|]. intros Hp. by apply prefix_cons_inv_1 in Hp.
      * assert (c1 = c2) as -> by (by destruct (decide (c1 = c2))). fold (cstr s r1) (cstr p r2).
        rewrite IH by done. f_equal. apply bool_decide_ext. split; [apply prefix_cons|apply prefix_cons_inv_2].
Qed.
