(* ===== verification/PageTable.v ===== *)
(** * Page-table primitives shared by the two MMUs (core/mm/pageTable) *)
From S2P Require Import Prelude Memory Machine Pmm Strings.

(** ** Descriptors *)

Definition PTE_VALID : Z := 1 ≪ 0.
Definition PTE_TABLE : Z := 1 ≪ 1.
Definition PTE_BLOCK : Z := 0 ≪ 1.
Definition PTE_AF : Z := 1 ≪ 10.
Definition PTE_ADDR_MASK : Z := 0x0000FFFFFFFFF000.

Definition SIZE_4KB : Z := 0x1000.
Definition SIZE_2MB : Z := 0x200000.
Definition SIZE_1GB : Z := 0x40000000.
Definition SIZE_8GB : Z := 0x200000000.
Definition SIZE_16GB : Z := 0x400000000.

Definition L2_INDEX (addr : Z) : Z := Z.land (addr ≫ 21) 0x1FF.
Definition L3_INDEX (addr : Z) : Z := Z.land (addr ≫ 12) 0x1FF.

Definition pte_next_table (entry : Z) : Z := Z.land entry PTE_ADDR_MASK.
Definition pte_is_valid (entry : Z) : bool := bool_decide (Z.land entry PTE_VALID ≠ 0).
Definition pte_is_table (entry : Z) : bool :=
  bool_decide (Z.land entry (Z.lor PTE_VALID PTE_TABLE) = Z.lor PTE_VALID PTE_TABLE).
Definition pte_is_block (entry : Z) : bool :=
  bool_decide (Z.land entry (Z.lor PTE_VALID PTE_TABLE) = PTE_VALID).

(** A store to a translation table entry: other agents may observe it. *)
Definition st_pte (a v : Z) : M machine unit := st64 a v;; emit (EvStore a v).

(** ** Cache maintenance *)

Definition clean_step (lineSize end_ line : Z) : M machine (Z + unit) :=
  if decide (line < end_) then emit (EvDcCvac line);; mret (inl (line ⊞ lineSize))
  else mret (inr tt).

Definition CleanDataCacheRange (addr size : Z) : M machine unit :=
  if decide (size = 0) then mret tt
  else
    ctr ← mrs CTR_EL0;
    let lineSize := u64 (4 ≪ Z.land (ctr ≫ 16) 0xF) in
    let start := Z.land addr (not64 (lineSize - 1)) in
    let end_ := addr ⊞ size in
    loop (S (S (Z.to_nat (size / lineSize + 1)))) (clean_step lineSize end_) start;;
    emit EvDsbIshst.

(** ** Tables *)

Record PageTable : Set := MkPageTable {
  m_root : Z;
  m_startLevel : nat;
  m_rootIndexMask : Z;
}.

Definition AllocTable : M machine Z :=
  pa ← AllocPages 0;
  if decide (pa = 0) then wfe_forever "[PageTable] Failed to allocate page table"
  else
    memset pa 0 PAGE_SIZE;;
    CleanDataCacheRange pa PAGE_SIZE;;
    mret pa.

Definition levelShift (level : nat) : Z := nth level [39; 30; 21; 12] 0.

(** [&table[idx]] *)
Definition slot (table idx : Z) : Z := table + 8 * idx.

(** The levels from [level] up to, and without, level 2. [None] is the null pointer. *)
Fixpoint Walk_levels (pt : PageTable) (addr : Z) (allocOnMiss : bool)
    (level n : nat) (table : Z) : M machine (option Z) :=
  match n with
  | O => mret (Some table)
  | S n' =>
      let mask := if decide (level = m_startLevel pt) then m_rootIndexMask pt else 0x1FF in
      let idx := Z.land (addr ≫ levelShift level) mask in
      entry ← ld64 (slot table idx);
      if pte_is_valid entry then
        Walk_levels pt addr allocOnMiss (S level) n' (pte_next_table entry)
      else if negb allocOnMiss then mret None
      else
        next ← AllocTable;
        st_pte (slot table idx) (Z.lor (Z.lor next PTE_VALID) PTE_TABLE);;
        CleanDataCacheRange (slot table idx) 8;;
        entry ← ld64 (slot table idx);
        Walk_levels pt addr allocOnMiss (S level) n' (pte_next_table entry)
  end.

Definition Walk (pt : PageTable) (addr : Z) (allocOnMiss : bool) : M machine (option Z) :=
  table ← Walk_levels pt addr allocOnMiss (m_startLevel pt) (2 - m_startLevel pt) (m_root pt);
  mret match table with Some table => Some (slot table (L2_INDEX addr)) | None => None end.
