(* ===== verification/TableTree.v ===== *)
(** * Translation tables in memory: the architecture's walk, and the tree invariant

    [translate] is what the Arm VMSAv8-64 table walk computes for the 4 KiB
    granule. [pt_inv] says that the tables reached from a root form a tree of
    separate pages, which is what makes one entry's update local. *)
From S2P Require Import Prelude Memory Machine Pmm FreeLists PageTable.

(** ** The hardware walk *)

(** The bits of a leaf descriptor other than the output address and the type. *)
Definition leaf_attrs (e : Z) : Z := Z.ldiff e (Z.lor PTE_ADDR_MASK 3).

(** The output of a leaf that maps [2 ^ n] bytes. *)
Definition leaf_out (e a n : Z) : Z := Z.ldiff (Z.land e PTE_ADDR_MASK) (Z.ones n) + a mod 2 ^ n.

(** [e] is the descriptor read at level [3 - rem]: the output address and the
    attributes, or [None] for a translation fault. *)
Fixpoint hw_walk (m : gmap Z Z) (rem : nat) (e a : Z) : option (Z * Z) :=
  if negb (Z.testbit e 0) then None
  else match rem with
  | O => if Z.testbit e 1 then Some (leaf_out e a 12, leaf_attrs e) else None
  | S rem' =>
      let shift := levelShift (3 - rem') in
      if Z.testbit e 1 then
        hw_walk m rem' (load64 m (slot (Z.land e PTE_ADDR_MASK) (Z.land (a ≫ shift) 0x1FF))) a
      else if decide (rem = 3%nat) then None
      else Some (leaf_out e a (levelShift (3 - rem)), leaf_attrs e)
  end.

Definition translate (m : gmap Z Z) (pt : PageTable) (a : Z) : option (Z * Z) :=
  let l := m_startLevel pt in
  hw_walk m (3 - l)
    (load64 m (slot (m_root pt) (Z.land (a ≫ levelShift l) (m_rootIndexMask pt)))) a.

(** ** Tables on the way of an address *)

Section tree.
Context (pt : PageTable).

(** The two regimes: a 48-bit stage 1, and a 40-bit stage 2 with two root tables. *)
Definition pt_config : Prop :=
  (m_startLevel pt = 0%nat ∧ m_rootIndexMask pt = 0x1FF) ∨
  (m_startLevel pt = 1%nat ∧ m_rootIndexMask pt = 0x3FF).

Definition ialen : Z := if decide (m_startLevel pt = 0%nat) then 48 else 40.
Definition in_range (a : Z) : Prop := 0 ≤ a < 2 ^ ialen.

(** Depth [n] counts from the root. *)
Definition shift (n : nat) : Z := levelShift (m_startLevel pt + n).
Definition depth2 : nat := 2 - m_startLevel pt.
Definition index (n : nat) (a : Z) : Z :=
  Z.land (a ≫ shift n) (if decide (n = 0%nat) then m_rootIndexMask pt else 0x1FF).
Definition tsize (n : nat) : Z :=
  if decide (n = 0%nat) then 8 * (m_rootIndexMask pt + 1) else 4096.

(** The addresses below one entry at depth [n] share [ekey n]; those below one
    table at depth [n] share [tkey n]. *)
Definition ekey (n : nat) (a : Z) : Z := a ≫ shift n.
Definition tkey (n : nat) (a : Z) : Z := match n with O => 0 | S n' => ekey n' a end.

Fixpoint table_at (m : gmap Z Z) (n : nat) (a : Z) : option Z :=
  match n with
  | O => Some (m_root pt)
  | S n' =>
      match table_at m n' a with
      | None => None
      | Some t =>
          let e := load64 m (slot t (index n' a)) in
          if pte_is_table e then Some (pte_next_table e) else None
      end
  end.

Definition entry_at (m : gmap Z Z) (n : nat) (a : Z) : option Z :=
  match table_at m n a with Some t => Some (slot t (index n a)) | None => None end.

(** A table, with its depth and the key of its addresses. *)
Definition is_table_of (m : gmap Z Z) (n : nat) (a t : Z) : Prop :=
  (m_startLevel pt + n ≤ 3)%nat ∧ in_range a ∧ table_at m n a = Some t.

Record pt_inv (m : gmap Z Z) : Prop := {
  pi_config : pt_config;
  pi_bounds n a t : is_table_of m n a t → t mod 4096 = 0 ∧ 0 < t ∧ t + tsize n ≤ 2 ^ 48;
  pi_inj n a t n' a' t' : is_table_of m n a t → is_table_of m n' a' t' →
    t < t' + tsize n' → t' < t + tsize n → n = n' ∧ tkey n a = tkey n' a';
  pi_valid n a t : (m_startLevel pt + n < 2)%nat → is_table_of m n a t →
    let e := load64 m (slot t (index n a)) in pte_is_valid e = true → pte_is_table e = true;
  (** 2 MiB blocks are aligned: bits [20:12] of the address are RES0. *)
  pi_block n a t : (m_startLevel pt + n = 2)%nat → is_table_of m n a t →
    let e := load64 m (slot t (index n a)) in
    pte_is_block e = true → Z.land e PTE_ADDR_MASK mod 2 ^ 21 = 0;
}.

Definition tree_byte (m : gmap Z Z) (x : Z) : Prop :=
  ∃ n a t, is_table_of m n a t ∧ t ≤ x < t + tsize n.
End tree.

(** ** Descriptor bits *)

Lemma land_valid e : pte_is_valid e = Z.testbit e 0.
Proof.
  unfold pte_is_valid, PTE_VALID. change (1 ≪ 0) with (Z.ones 1).
  rewrite Z.land_ones by lia. change (2 ^ 1) with 2. rewrite Zmod_odd, Z.bit0_odd.
  by destruct (Z.odd e).
Qed.

Lemma land3 e : Z.land e 3 = Z.b2z (Z.testbit e 0) + 2 * Z.b2z (Z.testbit e 1).
Proof.
  change 3 with (Z.ones 2). rewrite Z.land_ones by lia. change (2 ^ 2) with 4.
  rewrite (Z.testbit_spec' e 0), (Z.testbit_spec' e 1) by lia.
  change (2 ^ 0) with 1. change (2 ^ 1) with 2. rewrite Z.div_1_r.
  change 4 with (2 * 2). by rewrite (Z.rem_mul_r e 2 2) by lia.
Qed.

Lemma is_table_bits e : pte_is_table e = Z.testbit e 0 && Z.testbit e 1.
Proof.
  unfold pte_is_table. change (Z.lor PTE_VALID PTE_TABLE) with 3. rewrite land3.
  by destruct (Z.testbit e 0), (Z.testbit e 1).
Qed.

Lemma is_block_bits e : pte_is_block e = Z.testbit e 0 && negb (Z.testbit e 1).
Proof.
  unfold pte_is_block. change (Z.lor PTE_VALID PTE_TABLE) with 3. change PTE_VALID with 1. rewrite land3.
  by destruct (Z.testbit e 0), (Z.testbit e 1).
Qed.

(** ** Indices *)

Section index.
Context (pt : PageTable) (Hc : pt_config pt).

Lemma shift_S n : (m_startLevel pt + n < 3)%nat → shift pt n = shift pt (S n) + 9.
Proof.
  unfold shift. replace (m_startLevel pt + S n)%nat with (S (m_startLevel pt + n)) by lia.
  generalize (m_startLevel pt + n)%nat. intros [|[|[|k]]] Hk; unfold levelShift; simpl; lia.
Qed.

Lemma shift_pos n : (m_startLevel pt + n ≤ 3)%nat → 12 ≤ shift pt n.
Proof.
  unfold shift. generalize (m_startLevel pt + n)%nat. intros [|[|[|[|k]]]] Hk; unfold levelShift; simpl; lia.
Qed.

Lemma index_eq n a : in_range pt a → (m_startLevel pt + n ≤ 3)%nat →
  index pt n a = if decide (n = 0%nat) then ekey pt 0 a else ekey pt n a mod 512.
Proof.
  intros Ha Hn. unfold index, ekey. case_decide as E; [subst n|].
  - unfold in_range, ialen in Ha. rewrite Z.shiftr_div_pow2 by (pose proof (shift_pos 0); lia).
    unfold shift. rewrite Nat.add_0_r in *.
    destruct Hc as [[E1 E2]|[E1 E2]]; rewrite E1 in Ha |- *; rewrite E2;
      unfold levelShift; simpl in *;
      [change 0x1FF with (Z.ones 9)|change 0x3FF with (Z.ones 10)];
      rewrite Z.land_ones by lia; (rewrite Z.mod_small; [done|]);
      (split; [apply Z.div_pos; lia|apply Z.div_lt_upper_bound; lia]).
  - change 0x1FF with (Z.ones 9). by rewrite Z.land_ones by lia.
Qed.

Lemma index_bound n a : in_range pt a → (m_startLevel pt + n ≤ 3)%nat →
  0 ≤ index pt n a ∧ 8 * index pt n a + 8 ≤ tsize pt n.
Proof.
  intros Ha Hn. pose proof (index_eq n a Ha Hn) as E. unfold tsize. unfold index in *.
  case_decide.
  - destruct Hc as [[_ ->]|[_ ->]]; [change 0x1FF with (Z.ones 9)|change 0x3FF with (Z.ones 10)];
      rewrite Z.land_ones by lia;
      [change (Z.ones 9) with 511|change (Z.ones 10) with 1023];
      pose proof (Z.mod_pos_bound (a ≫ shift pt n) (2 ^ 9)); pose proof (Z.mod_pos_bound (a ≫ shift pt n) (2 ^ 10)); lia.
  - rewrite E. pose proof (Z.mod_pos_bound (ekey pt n a) 512). lia.
Qed.

(** A table key and an index make the key of the entry. *)
Lemma ekey_split n a a' : in_range pt a → in_range pt a' → (m_startLevel pt + n ≤ 3)%nat →
  tkey pt n a = tkey pt n a' → index pt n a = index pt n a' → ekey pt n a = ekey pt n a'.
Proof.
  intros Ha Ha' Hn Ht Hi. rewrite !index_eq in Hi by done.
  destruct n as [|n]; simpl in Hi, Ht; [done|].
  assert (∀ b, ekey pt n b = ekey pt (S n) b / 512) as Ek.
  { intros b. unfold ekey. rewrite shift_S by lia. pose proof (shift_pos (S n)).
    rewrite <-Z.shiftr_shiftr by lia. by rewrite Z.shiftr_div_pow2 by lia. }
  rewrite !Ek in Ht.
  rewrite (Z.div_mod (ekey pt (S n) a) 512), (Z.div_mod (ekey pt (S n) a') 512) by lia. congruence.
Qed.

Lemma ekey_tkey n a a' : (m_startLevel pt + n ≤ 3)%nat →
  ekey pt n a = ekey pt n a' → tkey pt n a = tkey pt n a'.
Proof.
  intros Hn E. destruct n as [|n]; [done|]. simpl. unfold ekey in *. rewrite shift_S by lia.
  pose proof (shift_pos (S n)). rewrite <-!Z.shiftr_shiftr by lia. by rewrite E.
Qed.

Lemma ekey_index n a a' : in_range pt a → in_range pt a' → (m_startLevel pt + n ≤ 3)%nat →
  ekey pt n a = ekey pt n a' → index pt n a = index pt n a'.
Proof.
  intros Ha Ha' Hn E. rewrite !index_eq by done. rewrite E. case_decide; [by subst n|done].
Qed.

Lemma table_at_key m n a a' : in_range pt a → in_range pt a' → (m_startLevel pt + n ≤ 3)%nat →
  tkey pt n a = tkey pt n a' → table_at pt m n a = table_at pt m n a'.
Proof.
  intros Ha Ha'. revert m. induction n as [|n IH]; intros m Hn E; [done|]. simpl in *.
  rewrite (IH m) by first [lia|by apply ekey_tkey; [lia|]].
  by rewrite (ekey_index n a a') by (done || lia).
Qed.
End index.
