(* ===== verification/TableUpdate.v ===== *)
(** * Updating one entry of a translation table tree *)
From S2P Require Import Prelude Memory Machine Pmm FreeLists PageTable TableTree.

Section tree.
Context (pt : PageTable).
Implicit Types (m : gmap Z Z) (n : nat) (a t x : Z).

Abbreviation lvl n := (m_startLevel pt + n)%nat.

Lemma depth2_lvl : pt_config pt → lvl (depth2 pt) = 2%nat ∧ (depth2 pt = 1 ∨ depth2 pt = 2)%nat.
Proof. unfold depth2. intros [[-> _]|[-> _]]; auto. Qed.

Lemma tsize_page n : pt_config pt → 4096 ≤ tsize pt n ∧ (n ≠ 0%nat → tsize pt n = 4096).
Proof. unfold tsize. intros [[_ ->]|[_ ->]]; case_decide; split; try lia; done. Qed.

Lemma table_at_none m n n' a : (n ≤ n')%nat → table_at pt m n a = None → table_at pt m n' a = None.
Proof. induction 1 as [|k ? IH]; [done|]. intros E. simpl. by rewrite IH. Qed.

Lemma table_at_pred m n a t : table_at pt m (S n) a = Some t → ∃ t',
  table_at pt m n a = Some t' ∧ pte_is_table (load64 m (slot t' (index pt n a))) = true ∧
  t = pte_next_table (load64 m (slot t' (index pt n a))).
Proof. simpl. destruct (table_at pt m n a) as [t'|]; [|done]. case_match; [|done]. intros [= <-]. eauto. Qed.

Section inv.
Context (m : gmap Z Z) (HI : pt_inv pt m).
Let Hc : pt_config pt := pi_config _ _ HI.

Lemma slot_bounds n a t : is_table_of pt m n a t →
  t ≤ slot t (index pt n a) ∧ slot t (index pt n a) + 8 ≤ t + tsize pt n.
Proof.
  intros (Hn & Ha & _). pose proof (index_bound pt Hc n a Ha Hn). unfold slot. lia.
Qed.

Lemma slot_tree_byte n a t x : is_table_of pt m n a t →
  slot t (index pt n a) ≤ x < slot t (index pt n a) + 8 → tree_byte pt m x.
Proof. intros H Hx. pose proof (slot_bounds n a t H). exists n, a, t. split; [done|lia]. Qed.

(** Two entries are the same entry or do not overlap. *)
Lemma slot_cases n a t n' a' t' :
  is_table_of pt m n a t → is_table_of pt m n' a' t' →
  (n = n' ∧ ekey pt n a = ekey pt n' a' ∧ t = t' ∧ index pt n a = index pt n' a') ∨
  slot t (index pt n a) + 8 ≤ slot t' (index pt n' a') ∨
  slot t' (index pt n' a') + 8 ≤ slot t (index pt n a).
Proof.
  intros H H'. pose proof (slot_bounds _ _ _ H). pose proof (slot_bounds _ _ _ H').
  destruct (decide (t < t' + tsize pt n' ∧ t' < t + tsize pt n)) as [[Ho1 Ho2]|Hno]; [|right; lia].
  destruct (pi_inj _ _ HI _ _ _ _ _ _ H H' Ho1 Ho2) as [<- Hk].
  destruct H as (Hn & Ha & Et), H' as (_ & Ha' & Et').
  assert (t = t') as <-.
  { rewrite (table_at_key pt Hc m n a a' Ha Ha' Hn Hk) in Et. congruence. }
  destruct (decide (index pt n a = index pt n a')) as [E|Hne].
  - left. split_and!; try done. by apply ekey_split.
  - right. unfold slot. lia.
Qed.

(** ** Memory outside the tables does not matter *)

Lemma table_at_frame m' : (∀ x, tree_byte pt m x → load8 m' x = load8 m x) →
  ∀ n a, (lvl n ≤ 3)%nat → in_range pt a → table_at pt m' n a = table_at pt m n a.
Proof.
  intros Hf n. induction n as [|n IH]; intros a Hn Ha; [done|]. simpl. rewrite IH by (done || lia).
  destruct (table_at pt m n a) as [t|] eqn:E; [|done].
  assert (load64 m' (slot t (index pt n a)) = load64 m (slot t (index pt n a))) as ->; [|done].
  apply load_agree. intros x Hx. apply Hf. eapply (slot_tree_byte n a t); [|done].
  split_and!; [lia|done|done].
Qed.

(** ** The walk from depth [n] *)

Lemma translate_at n a : in_range pt a → (lvl n ≤ 2)%nat →
  translate m pt a =
    match table_at pt m n a with
    | Some t => hw_walk m (3 - lvl n) (load64 m (slot t (index pt n a))) a
    | None => None
    end.
Proof.
  intros Ha. induction n as [|n IH]; intros Hn.
  - unfold translate, index, shift. simpl. by rewrite Nat.add_0_r.
  - rewrite IH by lia. simpl. destruct (table_at pt m n a) as [t|] eqn:E; [|done].
    assert (Ht : is_table_of pt m n a t) by (split_and!; [lia|done|done]).
    pose proof (pi_valid _ _ HI n a t ltac:(lia) Ht) as Hv. cbv zeta in Hv.
    set (e := load64 m (slot t (index pt n a))) in *. rewrite land_valid, is_table_bits in *.
    replace (3 - lvl n)%nat with (S (3 - lvl (S n))) by lia. cbn [hw_walk].
    destruct (Z.testbit e 0) eqn:E0; simpl; [|done]. specialize (Hv eq_refl). simpl in Hv. rewrite Hv.
    replace (3 - (3 - lvl (S n)))%nat with (lvl (S n)) by lia. unfold index, shift.
    by rewrite decide_False.
Qed.
End inv.

Lemma index3 a : pt_config pt → index pt (S (depth2 pt)) a = Z.land (a ≫ 12) 0x1FF.
Proof.
  intros Hc. destruct (depth2_lvl Hc). unfold index, shift.
  replace (lvl (S (depth2 pt))) with 3%nat by lia. by rewrite decide_False by lia.
Qed.

(** The last two levels of the walk, spelled out. *)
Lemma translate_l2 m a : pt_inv pt m → in_range pt a →
  translate m pt a =
    match table_at pt m (depth2 pt) a with
    | None => None
    | Some t =>
        let e := load64 m (slot t (index pt (depth2 pt) a)) in
        if negb (Z.testbit e 0) then None
        else if Z.testbit e 1 then
          let e' := load64 m (slot (Z.land e PTE_ADDR_MASK) (index pt (S (depth2 pt)) a)) in
          if Z.testbit e' 0 && Z.testbit e' 1 then Some (leaf_out e' a 12, leaf_attrs e') else None
        else Some (leaf_out e a 21, leaf_attrs e)
    end.
Proof.
  intros HI Ha. destruct (depth2_lvl (pi_config _ _ HI)) as [E2 _].
  rewrite (translate_at m HI (depth2 pt)) by (done || lia). rewrite E2.
  destruct (table_at pt m (depth2 pt) a); [|done]. cbv zeta. cbn [hw_walk Nat.sub].
  case_match; [done|]. case_match; [|done]. rewrite index3 by apply HI.
  change (levelShift 3) with 12. set (e' := load64 m (slot (Z.land _ _) _)).
  by destruct (Z.testbit e' 0).
Qed.

Lemma index3_table m a t : pt_inv pt m → in_range pt a →
  table_at pt m (S (depth2 pt)) a = Some t → is_table_of pt m (S (depth2 pt)) a t.
Proof. intros HI Ha Et. destruct (depth2_lvl (pi_config _ _ HI)). split_and!; [lia|done|done]. Qed.

Lemma translate_frame m m' : pt_inv pt m → pt_inv pt m' →
  (∀ x, tree_byte pt m x → load8 m' x = load8 m x) →
  ∀ a, in_range pt a → translate m' pt a = translate m pt a.
Proof.
  intros HI HI' Hf a Ha. rewrite !translate_l2 by done.
  destruct (depth2_lvl (pi_config _ _ HI)) as [E2 _].
  rewrite (table_at_frame m HI m') by (done || lia).
  destruct (table_at pt m (depth2 pt) a) as [t|] eqn:Et; [|done]. cbv zeta.
  assert (Hld : ∀ n u, is_table_of pt m n a u →
    load64 m' (slot u (index pt n a)) = load64 m (slot u (index pt n a))).
  { intros n u Hu. apply load_agree. intros x Hx. apply Hf. by eapply (slot_tree_byte m HI n a u). }
  rewrite (Hld (depth2 pt) t) by (split_and!; [lia|done|done]).
  case_match eqn:E0; [done|]. case_match eqn:E1; [|done].
  rewrite (Hld (S (depth2 pt))); [done|]. apply index3_table; [done..|].
  simpl. rewrite Et. rewrite is_table_bits, E1. apply negb_false_iff in E0. by rewrite E0.
Qed.

Lemma pt_inv_frame m m' : pt_inv pt m →
  (∀ x, tree_byte pt m x → load8 m' x = load8 m x) → pt_inv pt m'.
Proof.
  intros HI Hf.
  assert (Heq : ∀ n a t, is_table_of pt m' n a t → is_table_of pt m n a t).
  { intros n a t (Hn & Ha & Et). split_and!; [done|done|]. by rewrite <-(table_at_frame m HI m'). }
  assert (Hld : ∀ n a t, is_table_of pt m n a t →
    load64 m' (slot t (index pt n a)) = load64 m (slot t (index pt n a))).
  { intros n a t H. apply load_agree. intros x Hx. apply Hf. by eapply (slot_tree_byte m HI n a t). }
  split.
  - apply HI.
  - intros n a t H. by apply (pi_bounds _ _ HI n a), Heq.
  - intros n a t n' a' t' H H'. apply (pi_inj _ _ HI); by apply Heq.
  - intros n a t Hn H%Heq. cbv zeta. rewrite Hld by done. by apply (pi_valid _ _ HI).
  - intros n a t Hn H%Heq. cbv zeta. rewrite Hld by done. by apply (pi_block _ _ HI).
Qed.
End tree.
