(* ===== verification/TableStore.v ===== *)
(** * Storing one descriptor: leaves and links *)
From S2P Require Import Prelude Memory Machine Pmm FreeLists PageTable TableTree TableUpdate.

Section store.
Context (pt : PageTable) (m : gmap Z Z) (HI : pt_inv pt m).
Context (n0 : nat) (a0 t0 v : Z) (H0 : is_table_of pt m n0 a0 t0) (Hv : fits 64 v).
Let Hc : pt_config pt := pi_config _ _ HI.

Abbreviation lvl n := (m_startLevel pt + n)%nat.
Abbreviation e0 := (slot t0 (index pt n0 a0)).
Abbreviation old := (load64 m e0).
Abbreviation m' := (store64 m e0 v).

Lemma entry_load n a t : is_table_of pt m n a t →
  load64 m' (slot t (index pt n a)) =
    if decide (n = n0 ∧ ekey pt n a = ekey pt n0 a0) then v else load64 m (slot t (index pt n a)).
Proof.
  intros H. destruct (slot_cases pt m HI n0 a0 t0 n a t H0 H) as [(<- & E & <- & Ei)|Hdis].
  - rewrite decide_True by done. rewrite <-Ei. by apply (load_store_eq_fits 8).
  - rewrite decide_False; [by apply load_store_ne|]. intros [-> E].
    destruct H as (Hn & Ha & Et), H0 as (_ & Ha0 & Et0).
    rewrite (table_at_key pt Hc m n0 a a0 Ha Ha0 Hn) in Et by (by apply ekey_tkey).
    assert (t = t0) as -> by congruence. rewrite (ekey_index pt Hc n0 a a0) in Hdis by done.
    unfold slot in Hdis. lia.
Qed.

(** Tables that are not below the entry stay. *)
Lemma table_at_other n : ∀ a, (lvl n ≤ 3)%nat → in_range pt a →
  (n ≤ n0)%nat ∨ ekey pt n0 a ≠ ekey pt n0 a0 → table_at pt m' n a = table_at pt m n a.
Proof.
  induction n as [|n IH]; intros a Hn Ha Hcase; [done|]. cbn [table_at]. rewrite IH by (done || lia).
  destruct (table_at pt m n a) as [t|] eqn:E; [|done].
  rewrite entry_load by (split_and!; [lia|done|done]).
  rewrite decide_False; [done|]. intros [-> ?]. destruct Hcase; [lia|done].
Qed.

(** The table right below the entry is the one the new value links. *)
Lemma table_at_below a : in_range pt a → ekey pt n0 a = ekey pt n0 a0 →
  table_at pt m' (S n0) a = if pte_is_table v then Some (pte_next_table v) else None.
Proof.
  intros Ha E. destruct H0 as (Hn & Ha0 & Et0). cbn [table_at].
  rewrite table_at_other by (done || by left).
  rewrite (table_at_key pt Hc m n0 a a0 Ha Ha0 Hn) by (by apply ekey_tkey). rewrite Et0.
  rewrite (ekey_index pt Hc n0 a a0 Ha Ha0 Hn E), (load_store_eq_fits 8) by done. done.
Qed.

Lemma table_at_old_below a : in_range pt a → ekey pt n0 a = ekey pt n0 a0 →
  table_at pt m (S n0) a = if pte_is_table old then Some (pte_next_table old) else None.
Proof.
  intros Ha E. destruct H0 as (Hn & Ha0 & Et0). cbn [table_at].
  rewrite (table_at_key pt Hc m n0 a a0 Ha Ha0 Hn) by (by apply ekey_tkey). rewrite Et0.
  by rewrite (ekey_index pt Hc n0 a a0 Ha Ha0 Hn E).
Qed.

(** Addresses that do not go through the entry translate as before. *)
Lemma translate_other : pt_inv pt m' → ∀ a, in_range pt a → (lvl n0 ≤ 3)%nat →
  ekey pt n0 a ≠ ekey pt n0 a0 → translate m' pt a = translate m pt a.
Proof.
  intros HI' a Ha Hn Hne. rewrite !translate_l2 by done.
  destruct (depth2_lvl pt Hc) as [E2 _].
  rewrite table_at_other by (done || lia || by right).
  destruct (table_at pt m (depth2 pt) a) as [t|] eqn:Et; [|done]. cbv zeta.
  assert (Hld : ∀ n u, is_table_of pt m n a u →
    load64 m' (slot u (index pt n a)) = load64 m (slot u (index pt n a))).
  { intros n u Hu. rewrite entry_load by done. rewrite decide_False; [done|]. intros [-> ?]. done. }
  rewrite (Hld (depth2 pt) t) by (split_and!; [lia|done|done]).
  case_match eqn:E0; [done|]. case_match eqn:E1; [|done].
  rewrite (Hld (S (depth2 pt))); [done|]. apply index3_table; [done..|].
  simpl. rewrite Et. rewrite is_table_bits, E1. apply negb_false_iff in E0. by rewrite E0.
Qed.

(** ** A leaf: no table below *)

Section leaf.
Context (Hlv : (2 ≤ lvl n0)%nat) (Hleaf : lvl n0 = 2%nat → pte_is_table v = false).
Context (Hblk : lvl n0 = 2%nat → pte_is_block v = true → Z.land v PTE_ADDR_MASK mod 2 ^ 21 = 0).

Lemma leaf_tables n a t : is_table_of pt m' n a t → is_table_of pt m n a t.
Proof.
  intros (Hn & Ha & Et). split_and!; [done..|].
  destruct (decide (n ≤ n0)%nat); [rewrite table_at_other in Et; by auto|].
  destruct (decide (ekey pt n0 a = ekey pt n0 a0)) as [E|]; [|rewrite table_at_other in Et; by auto].
  assert (n = S n0) as -> by lia. rewrite table_at_below in Et by done.
  by rewrite Hleaf in Et by lia.
Qed.

Lemma leaf_inv : pt_inv pt m'.
Proof.
  split; [done|..].
  - intros n a t H. by apply (pi_bounds _ _ HI n a), leaf_tables.
  - intros n a t n' a' t' H H'. apply (pi_inj _ _ HI); by apply leaf_tables.
  - intros n a t Hn H%leaf_tables. cbv zeta. rewrite entry_load by done.
    rewrite decide_False by lia. by apply (pi_valid _ _ HI).
  - intros n a t Hn H%leaf_tables. cbv zeta. rewrite entry_load by done.
    case_decide as E; [destruct E as [-> _]; by apply Hblk|by apply (pi_block _ _ HI)].
Qed.

Lemma leaf_bytes x : tree_byte pt m' x → tree_byte pt m x.
Proof. intros (n & a & t & H & Hx). exists n, a, t. split; [by apply leaf_tables|done]. Qed.
End leaf.

(** ** A link to a fresh table *)

Section link.
Context (p : Z) (Htab : pte_is_table v = true) (Hp : pte_next_table v = p).
Context (Hlv : (lvl n0 ≤ 2)%nat) (Hold : pte_is_table old = false).
Context (Hpb : p mod 4096 = 0 ∧ 0 < p ∧ p + 4096 ≤ 2 ^ 48).
Context (Hfresh : ∀ x, p ≤ x < p + 4096 → ¬ tree_byte pt m x).
Context (Hzero : (lvl n0 < 2)%nat → ∀ x, p ≤ x < p + 4096 → load8 m x = 0).

Lemma fresh_load i : 0 ≤ i < 512 → load64 m' (slot p i) = load64 m (slot p i).
Proof.
  intros Hi. apply load_store_ne. pose proof (slot_tree_byte pt m HI n0 a0 t0) as Hb.
  destruct (decide (e0 + 8 ≤ slot p i ∨ slot p i + 8 ≤ e0)) as [|Hov]; [lia|exfalso].
  apply (Hfresh (Z.max e0 (slot p i))); [unfold slot in *; lia|].
  apply Hb; [done|lia].
Qed.

Lemma fresh_zero i : (lvl n0 < 2)%nat → 0 ≤ i < 512 → load64 m' (slot p i) = 0.
Proof.
  intros Hl Hi. rewrite fresh_load by done.
  assert (∀ k b, (∀ x, b ≤ x < b + Z.of_nat k → load8 m x = 0) → load k m b = 0) as Hz.
  { intros k. induction k as [|k IH]; intros b Hb; [done|].
    rewrite load_S, (Hb b), IH; [done| |lia]. intros x Hx. apply Hb. lia. }
  apply Hz. intros x Hx. apply Hzero; [done|]. unfold slot in Hx. lia.
Qed.

Lemma link_index n a : in_range pt a → (lvl (S n) ≤ 3)%nat → 0 ≤ index pt (S n) a < 512.
Proof.
  intros Ha Hn. rewrite (index_eq pt Hc) by done. rewrite decide_False by lia.
  apply Z.mod_pos_bound. lia.
Qed.

Lemma link_tables n a t : is_table_of pt m' n a t →
  is_table_of pt m n a t ∨ (n = S n0 ∧ ekey pt n0 a = ekey pt n0 a0 ∧ t = p).
Proof.
  intros (Hn & Ha & Et).
  destruct (decide (n ≤ n0)%nat); [left; split_and!; [done..|rewrite table_at_other in Et; by auto]|].
  destruct (decide (ekey pt n0 a = ekey pt n0 a0)) as [E|];
    [|left; split_and!; [done..|rewrite table_at_other in Et; by auto]].
  destruct (decide (n = S n0)) as [->|Hne].
  - right. rewrite table_at_below, Htab in Et by done. split_and!; congruence.
  - exfalso. assert (table_at pt m' (S (S n0)) a = None) as Hnone.
    { change (table_at pt m' (S (S n0)) a) with
        (match table_at pt m' (S n0) a with
         | None => None
         | Some t => let e := load64 m' (slot t (index pt (S n0) a)) in
             if pte_is_table e then Some (pte_next_table e) else None
         end).
      rewrite table_at_below, Htab, Hp by done. cbv zeta.
      rewrite fresh_zero; [done|lia|apply link_index; [done|lia]]. }
    rewrite (table_at_none pt m' (S (S n0)) n a) in Et; [done|lia|done].
Qed.

Lemma link_new a : in_range pt a → ekey pt n0 a = ekey pt n0 a0 → is_table_of pt m' (S n0) a p.
Proof. intros Ha E. split_and!; [lia|done|]. by rewrite table_at_below, Htab, Hp by done. Qed.

Lemma link_keeps n a t : is_table_of pt m n a t → is_table_of pt m' n a t.
Proof.
  intros (Hn & Ha & Et). split_and!; [done..|].
  destruct (decide (n ≤ n0)%nat); [rewrite table_at_other; by auto|].
  destruct (decide (ekey pt n0 a = ekey pt n0 a0)) as [E|]; [|rewrite table_at_other; by auto].
  exfalso. pose proof (table_at_old_below a Ha E) as Hb. rewrite Hold in Hb.
  rewrite (table_at_none pt m (S n0) n a) in Et; [done|lia|done].
Qed.

Lemma link_bytes x : tree_byte pt m' x ↔ tree_byte pt m x ∨ p ≤ x < p + 4096.
Proof.
  assert (Hts : tsize pt (S n0) = 4096) by (by apply tsize_page). split.
  - intros (n & a & t & [H|(-> & E & ->)]%link_tables & Hx); [left; by exists n, a, t|].
    right. lia.
  - intros [(n & a & t & H & Hx)|Hx].
    + exists n, a, t. split; [by apply link_keeps|done].
    + exists (S n0), a0, p. split; [|lia]. by apply link_new; [apply H0|].
Qed.

Lemma link_inv : pt_inv pt m'.
Proof.
  assert (Hts : tsize pt (S n0) = 4096) by (by apply tsize_page).
  split; [done|..].
  - intros n a t [H|(-> & E & ->)]%link_tables; [by apply (pi_bounds _ _ HI n a)|].
    rewrite Hts. lia.
  - intros n a t n' a' t' H H' Ho1 Ho2.
    apply link_tables in H as [H|(-> & E & ->)]; apply link_tables in H' as [H'|(-> & E' & ->)].
    + by apply (pi_inj _ _ HI n a t n' a' t').
    + exfalso. pose proof (tsize_page pt n Hc). apply (Hfresh (Z.max t p)); [lia|]. exists n, a, t. split; [done|lia].
    + exfalso. pose proof (tsize_page pt n' Hc). apply (Hfresh (Z.max t' p)); [lia|]. exists n', a', t'. split; [done|lia].
    + simpl. by rewrite E, E'.
  - intros n a t Hn H. pose proof H as (Hn3 & Ha & _). cbv zeta.
    apply link_tables in H as [H|(-> & E & ->)].
    + rewrite entry_load by done. case_decide; [done|by apply (pi_valid _ _ HI)].
    + rewrite fresh_zero; [done|lia|apply link_index; [done|lia]].
  - intros n a t Hn H. pose proof H as (Hn3 & Ha & _). cbv zeta.
    apply link_tables in H as [H|(-> & E & ->)].
    + rewrite entry_load by done. case_decide; [|by apply (pi_block _ _ HI)].
      revert Htab. rewrite is_table_bits, is_block_bits. by destruct (Z.testbit v 0), (Z.testbit v 1).
    + rewrite fresh_zero; [done|lia|apply link_index; [done|lia]].
Qed.

(** Linking a zeroed table maps nothing. *)
Lemma link_translate : (lvl n0 < 2)%nat → ∀ a, in_range pt a →
  pte_is_valid old = false → translate m' pt a = translate m pt a.
Proof.
  intros Hl a Ha Hinv. destruct (decide (ekey pt n0 a = ekey pt n0 a0)) as [E|Hne].
  - rewrite (translate_at pt m HI n0 a), (translate_at pt m' link_inv (S n0) a) by (done || lia).
    rewrite table_at_below, Htab, Hp by done.
    rewrite (fresh_zero (index pt (S n0) a)) by first [done|by apply link_index; [|lia]].
    destruct H0 as (Hn & Ha0 & Et0).
    rewrite (table_at_key pt Hc m n0 a a0 Ha Ha0 Hn), Et0 by (by apply ekey_tkey).
    rewrite (ekey_index pt Hc n0 a a0 Ha Ha0 Hn E).
    assert (∀ mm k, hw_walk mm k 0 a = None) as ->.
    { intros mm k. by destruct k. }
    rewrite land_valid in Hinv. destruct (3 - lvl n0)%nat; cbn [hw_walk]; by rewrite Hinv.
  - apply translate_other; [apply link_inv|done|lia|done].
Qed.
End link.
End store.
