(* ===== verification/PageTableSpec.v ===== *)
(** * Page-table primitives: cache maintenance, allocation, the software walk *)
From S2P Require Import Prelude Memory Machine Pmm FreeLists PageAlloc Strings PageTable TableTree.
From S2P Require Import TableUpdate TableStore.

(** ** Address and attribute bits of a descriptor *)

Lemma land_addr_mask x : Z.land x PTE_ADDR_MASK = x mod 2 ^ 48 - x mod 2 ^ 12.
Proof.
  change PTE_ADDR_MASK with (Z.ldiff (Z.ones 48) (Z.ones 12)).
  assert (Z.land x (Z.ldiff (Z.ones 48) (Z.ones 12)) = Z.ldiff (Z.land x (Z.ones 48)) (Z.ones 12)) as ->.
  { apply Z.bits_inj'. intros i _. rewrite Z.ldiff_spec, !Z.land_spec, Z.ldiff_spec. by rewrite andb_assoc. }
  rewrite Z.land_ones, ldiff_ones by lia. f_equal.
  apply Z.mod_mod_divide. by exists (2 ^ 36).
Qed.

Lemma addr_mask_id x : 0 ≤ x < 2 ^ 48 → x mod 4096 = 0 → Z.land x PTE_ADDR_MASK = x.
Proof. intros Hx Hm. rewrite land_addr_mask, (Z.mod_small x (2 ^ 48)) by done. change (2 ^ 12) with 4096. lia. Qed.

(** A link descriptor. *)
Lemma table_desc p : p mod 4096 = 0 → 0 < p < 2 ^ 48 →
  let v := Z.lor (Z.lor p PTE_VALID) PTE_TABLE in
  pte_is_table v = true ∧ pte_next_table v = p ∧ fits 64 v.
Proof.
  intros Hm Hp. cbv zeta. unfold PTE_VALID, PTE_TABLE. change (1 ≪ 0) with 1. change (1 ≪ 1) with 2.
  rewrite <-Z.lor_assoc. change (Z.lor 1 2) with 3.
  rewrite (lor_low p 3 12) by (done || lia). split_and!.
  - rewrite is_table_bits, (testbit_add_low p 3 12 0), (testbit_add_low p 3 12 1) by (done || lia). done.
  - unfold pte_next_table. rewrite land_addr_mask. change (2 ^ 12) with 4096.
    assert ((p + 3) mod 4096 = 3) as -> by (rewrite Z.add_mod, Hm by lia; done).
    rewrite Z.mod_small; [lia|].
    apply Z.mod_divide in Hm as [q ->]; [|lia]. change (2 ^ 48) with (2 ^ 36 * 4096) in *. lia.
  - unfold fits. lia.
Qed.

(** A leaf descriptor built from an address and attribute bits. *)
Lemma leaf_desc pa c n : 0 ≤ n → Z.land c PTE_ADDR_MASK = 0 → Z.land pa PTE_ADDR_MASK mod 2 ^ n = 0 →
  let v := Z.lor (Z.land pa PTE_ADDR_MASK) c in
  (∀ a, leaf_out v a n = Z.land pa PTE_ADDR_MASK + a mod 2 ^ n) ∧ leaf_attrs v = Z.ldiff c 3.
Proof.
  intros Hn Hc Hpa. cbv zeta.
  assert (Hv : Z.land (Z.lor (Z.land pa PTE_ADDR_MASK) c) PTE_ADDR_MASK = Z.land pa PTE_ADDR_MASK).
  { rewrite Z.land_lor_distr_l, Hc, Z.lor_0_r, <-Z.land_assoc. by rewrite Z.land_diag. }
  split.
  - intros a. unfold leaf_out. rewrite Hv, ldiff_ones by done. lia.
  - unfold leaf_attrs. apply Z.bits_inj'. intros i Hi.
    pose proof (f_equal (λ z, Z.testbit z i) Hc) as Hci. cbv beta in Hci. revert Hci.
    rewrite !Z.ldiff_spec, !Z.lor_spec, !Z.land_spec, Z.bits_0.
    destruct (Z.testbit pa i), (Z.testbit c i), (Z.testbit PTE_ADDR_MASK i), (Z.testbit 3 i); done.
Qed.

(** ** [CleanDataCacheRange] *)

Definition line_size (s : machine) : Z := 2 ^ (2 + Z.land (mc_sys s CTR_EL0 ≫ 16) 0xF).

(** The lines that meet [addr, addr + size). *)
Definition lines (s : machine) (addr size : Z) : list Z :=
  let ls := line_size s in
  let start := addr - addr mod ls in
  (λ i, start + i * ls) <$> seqZ 0 ((addr + size - start + ls - 1) / ls).

Definition cleaned (s : machine) (addr size : Z) : list event :=
  if decide (size = 0) then [] else (EvDcCvac <$> lines s addr size) ++ [EvDsbIshst].

Abbreviation traced evs s := (set_trace (λ t, t ++ evs) s).

Lemma land15 x : 0 ≤ Z.land x 0xF ≤ 15.
Proof. assert (Z.land x 0xF = x mod 16) as -> by exact (Z.land_ones x 4 ltac:(lia)). pose proof (Z.mod_pos_bound x 16). lia. Qed.

Lemma line_size_bounds s : 4 ≤ line_size s ≤ 2 ^ 17.
Proof.
  unfold line_size. pose proof (land15 (mc_sys s CTR_EL0 ≫ 16)). split.
  - change 4 with (2 ^ 2) at 1. apply Z.pow_le_mono_r; lia.
  - apply Z.pow_le_mono_r; lia.
Qed.

Lemma set_trace_nil s : traced [] s = s.
Proof. destruct s. unfold set_trace. simpl. by rewrite app_nil_r. Qed.

Lemma set_trace_app s l1 l2 : traced l2 (traced l1 s) = traced (l1 ++ l2) s.
Proof. destruct s. unfold set_trace. simpl. by rewrite app_assoc. Qed.

Lemma clean_loop ls end_ n : 4 ≤ ls ≤ 2 ^ 17 → end_ < 2 ^ 63 → ∀ s line fuel,
  0 ≤ line → n = Z.to_nat ((end_ - line + ls - 1) / ls) → (n < fuel)%nat →
  loop fuel (clean_step ls end_) line s =
    Done tt (traced (EvDcCvac <$> ((λ i, line + i * ls) <$> seqZ 0 (Z.of_nat n))) s).
Proof.
  intros Hls Hend. induction n as [|n IH]; intros s line fuel Hl Hn Hf;
    (destruct fuel as [|fuel]; [lia|]); cbn [loop]; unfold clean_step at 1.
  - rewrite decide_False; [simpl; by rewrite set_trace_nil|].
    intros Hlt. assert (1 ≤ (end_ - line + ls - 1) / ls); [|lia].
    apply Z.div_le_lower_bound; lia.
  - assert (line < end_).
    { destruct (decide (line < end_)); [done|]. assert ((end_ - line + ls - 1) / ls < 1); [|lia].
      apply Z.div_lt_upper_bound; lia. }
    rewrite decide_True by done. unfold emit, modify, mbind, M_bind, mret, M_ret.
    assert (line ⊞ ls = line + ls) as -> by (apply Z.mod_small; lia).
    rewrite IH; [|lia| |lia].
    + rewrite set_trace_app. do 2 f_equal. rewrite Nat2Z.inj_succ, (seqZ_cons 0 (Z.succ (Z.of_nat n))) by lia.
      rewrite Z.pred_succ, !fmap_cons. simpl. rewrite Z.mul_0_l, Z.add_0_r.
      rewrite <-(fmap_add_seqZ 1 0), <-!list_fmap_compose.
      assert (∀ l, (EvDcCvac ∘ (λ i, line + ls + i * ls)) <$> l =
        (EvDcCvac ∘ (λ i, line + i * ls) ∘ Z.add 1) <$> l) as ->; [|done].
      intros l. apply list_fmap_ext. intros _ x _. simpl. f_equal. lia.
    + replace (end_ - line + ls - 1) with (end_ - (line + ls) + ls - 1 + 1 * ls) in Hn by lia.
      rewrite Z.div_add in Hn by lia.
      assert (0 ≤ (end_ - (line + ls) + ls - 1) / ls) by (apply Z.div_pos; lia). lia.
Qed.

Lemma Clean_eq s addr size : 0 ≤ addr → 0 ≤ size → addr + size < 2 ^ 63 →
  CleanDataCacheRange addr size s = Done tt (traced (cleaned s addr size) s).
Proof.
  intros Ha Hs Hend. unfold CleanDataCacheRange, cleaned. case_decide as E; [by rewrite set_trace_nil|].
  unfold mrs, gets, mbind at 1, M_bind at 1. cbv zeta.
  pose proof (line_size_bounds s) as Hls. pose proof (land15 (mc_sys s CTR_EL0 ≫ 16)) as Hk.
  assert (u64 (4 ≪ Z.land (mc_sys s CTR_EL0 ≫ 16) 0xF) = line_size s) as ->.
  { rewrite Z.shiftl_mul_pow2 by lia. change 4 with (2 ^ 2). rewrite <-Z.pow_add_r by lia.
    apply Z.mod_small. fold (line_size s). lia. }
  assert (Z.land addr (not64 (line_size s - 1)) = addr - addr mod line_size s) as ->.
  { unfold line_size in *. set (k := 2 + _) in *.
    assert (not64 (2 ^ k - 1) = Z.ldiff (Z.ones 64) (Z.ones k)) as ->.
    { unfold not64. rewrite ldiff_ones by lia. rewrite Z.ones_equiv.
      assert (2 ^ 64 = 2 ^ (64 - k) * 2 ^ k) as -> by (rewrite <-Z.pow_add_r by lia; f_equal; lia).
      replace (Z.pred (2 ^ (64 - k) * 2 ^ k)) with ((2 ^ k - 1) + (2 ^ (64 - k) - 1) * 2 ^ k) by lia.
      rewrite Z.mod_add, Z.mod_small by lia. lia. }
    rewrite <-(ldiff_ones addr k) by lia. apply Z.bits_inj'. intros i Hi.
    rewrite Z.land_spec, !Z.ldiff_spec. destruct (decide (i < 64)).
    - by rewrite (Z.ones_spec_low 64) by lia.
    - rewrite <-(Z.mod_small addr (2 ^ 64)), Z.mod_pow2_bits_high by lia. done. }
  assert (addr ⊞ size = addr + size) as -> by (apply Z.mod_small; lia).
  pose proof (Z.mod_pos_bound addr (line_size s)).
  assert (0 ≤ addr - addr mod line_size s) by (pose proof (Z.mod_le addr (line_size s)); lia).
  unfold mbind, M_bind. erewrite clean_loop; [|done|lia|done|done|].
  - unfold emit, modify. rewrite set_trace_app. do 4 f_equal. unfold lines. cbv zeta. do 2 f_equal.
    rewrite Z2Nat.id; [done|]. apply Z.div_pos; lia.
  - assert ((addr + size - (addr - addr mod line_size s) + line_size s - 1) / line_size s ≤ size / line_size s + 2).
    { transitivity ((size + 2 * line_size s) / line_size s); [apply Z.div_le_mono; lia|].
      by rewrite Z.div_add by lia. }
    pose proof (Z.div_pos size (line_size s)). lia.
Qed.

(** ** States around page-table code *)

(** Registers and slabs are as before; the trace only grows. *)
Record quiet (s s' : machine) : Prop := {
  qu_slabs : mc_slabs s' = mc_slabs s;
  qu_sys : mc_sys s' = mc_sys s;
  qu_trace : ∃ evs, mc_trace s' = mc_trace s ++ evs;
}.

Lemma quiet_refl s : quiet s s.
Proof. split; [done..|]. exists []. by rewrite app_nil_r. Qed.

Lemma quiet_trans s1 s2 s3 : quiet s1 s2 → quiet s2 s3 → quiet s1 s3.
Proof.
  intros [? ? [e1 E1]] [? ? [e2 E2]]. split; [congruence..|]. exists (e1 ++ e2).
  by rewrite E2, E1, app_assoc.
Qed.

Lemma quiet_only s s' : mem_pmm_only s s' → quiet s s'.
Proof. intros (? & ? & Ht). split; [done..|]. exists []. by rewrite app_nil_r. Qed.

Lemma quiet_traced s s' evs : quiet s s' → quiet s (traced evs s').
Proof. intros H. eapply quiet_trans; [exact H|]. split; [done..|]. by exists evs. Qed.

Section alloc.
Context `{PA : !PageAllocator AllocPages FreePages}.

(** A page taken out of the free memory. *)
Record fresh_page (s : machine) (F : Z → Prop) (p : Z) (s' : machine) (F' : Z → Prop) : Prop := {
  fp_page : p mod 4096 = 0 ∧ 0 < p ∧ p + 4096 ≤ 2 ^ 48;
  fp_was_free x : p ≤ x < p + 4096 → F x;
  fp_ok : pa_ok s' F';
  fp_free x : F x ↔ F' x ∨ p ≤ x < p + 4096;
  fp_taken x : p ≤ x < p + 4096 → ¬ F' x;
  fp_pages n : free_pages F (S n) → free_pages F' n;
  fp_blocks b k : pa_block s b k → pa_block s' b k;
  fp_quiet : quiet s s';
  fp_mem : mem_same_outside F s s';
}.

Lemma AllocTable_spec s F k :
  pa_ok s F → (∀ x, F x → x < 2 ^ 48) → free_pages F (S k) →
  runs AllocTable s (λ p s', (∃ F', fresh_page s F p s' F') ∧
    (∀ x, p ≤ x < p + 4096 → load8 (mc_mem s') x = 0) ∧
    ∃ evs, mc_trace s' = mc_trace s ++ evs ++ cleaned s' p 4096).
Proof.
  intros HF Hhi Hk. unfold AllocTable. apply runs_bind.
  eapply runs_mono; [by apply (alloc_page s F k)|]. cbv beta.
  intros p s1 (Hp & Hb & Hbs & [Hon Hmem] & F' & HF' & Heq & Hdis & Hpg). rewrite decide_False by done.
  destruct (pa_block_bounds s1 F' p 0 HF' Hb) as (Hpos & _ & Hal & _).
  change (block p 0) with (λ x, p ≤ x < p + 4096) in Heq, Hdis. cbv beta in Heq, Hdis.
  assert (Hend : p + 4096 ≤ 2 ^ 48).
  { assert (p + 4095 < 2 ^ 48); [|lia]. apply Hhi, Heq. right. lia. }
  apply runs_bind. eapply runs_mono; [by apply memset_spec|]. cbv beta.
  intros _ s2 (_ & [Wp Ws Wy Wt] & Hfill). change PAGE_SIZE with 4096 in *. change (u8 0) with 0 in Hfill.
  apply runs_bind. eapply runs_of_eq; [apply Clean_eq; lia|]. run.
  set (s3 := traced _ s2).
  destruct (pa_client s1 s3 F' HF' Wp) as [Hok3 Hb3].
  { intros x Hx. change (mc_mem s3) with (mc_mem s2). rewrite Hfill, decide_False; [done|].
    intros Hin. by apply (Hdis x). }
  split_and!.
  - exists F'. split; try done.
    + intros x Hx. apply Heq. by right.
    + auto.
    + apply quiet_traced. eapply quiet_trans; [by apply quiet_only|]. split; [done..|].
      exists []. by rewrite app_nil_r.
    + intros x Hx. change (mc_mem s3) with (mc_mem s2). rewrite Hfill, decide_False; [by apply Hmem|].
      intros Hin. apply Hx, Heq. by right.
  - intros x Hx. change (mc_mem s3) with (mc_mem s2). by rewrite Hfill, decide_True.
  - exists []. destruct Hon as (_ & _ & Hto). change (mc_trace s3) with (mc_trace s2 ++ cleaned s2 p 4096).
    by rewrite Wt, Hto.
Qed.
End alloc.
