(* ===== verification/WalkSpec.v ===== *)
(** * The software walk: it finds the level 2 entry and changes no translation *)
From S2P Require Import Prelude Memory Machine Pmm FreeLists PageAlloc Strings PageTable TableTree.
From S2P Require Import TableUpdate TableStore PageTableSpec.

Section walk.
Context `{PA : !PageAllocator AllocPages FreePages} (pt : PageTable).

Abbreviation lvl n := (m_startLevel pt + n)%nat.

(** The tables form a tree, in memory that is not free. *)
Record tables_ok (s : machine) (F : Z → Prop) : Prop := {
  tk_alloc : pa_ok s F;
  tk_inv : pt_inv pt (mc_mem s);
  tk_owned x : tree_byte pt (mc_mem s) x → ¬ F x;
  tk_high x : F x → x < 2 ^ 48;
}.

(** The tree grew by at most [k] tables and translates as [tr] now. *)
Record evolved (tr : Z → option (Z * Z)) (k : nat) (s : machine) (F : Z → Prop) (s' : machine) (F' : Z → Prop) : Prop := {
  gr_ok : tables_ok s' F';
  gr_free x : F' x → F x;
  gr_pages n : free_pages F (k + n) → free_pages F' n;
  gr_blocks b o : pa_block s b o → pa_block s' b o;
  gr_quiet : quiet s s';
  gr_mem : mem_same_outside (λ x, F x ∨ tree_byte pt (mc_mem s) x) s s';
  gr_bytes x : tree_byte pt (mc_mem s') x → tree_byte pt (mc_mem s) x ∨ F x;
  gr_translate a : in_range pt a → translate (mc_mem s') pt a = tr a;
}.
Abbreviation grown k s F s' F' := (evolved (translate (mc_mem s) pt) k s F s' F').

Lemma grown_refl s F k : tables_ok s F → grown k s F s F.
Proof.
  intros H. split; try done; [|apply quiet_refl|auto].
  intros n. apply free_pages_le. lia.
Qed.

Lemma evolved_trans tr1 tr k1 k2 s1 F1 s2 F2 s3 F3 :
  evolved tr1 k1 s1 F1 s2 F2 → evolved tr k2 s2 F2 s3 F3 → evolved tr (k1 + k2) s1 F1 s3 F3.
Proof.
  intros [O1 Fr1 P1 B1 Q1 M1 By1 T1] [O2 Fr2 P2 B2 Q2 M2 By2 T2]. split; auto.
  - intros n Hn. apply P2, P1. by rewrite Nat.add_assoc.
  - by eapply quiet_trans.
  - eapply mem_same_outside_trans; [exact M1|exact M2|done|]. cbv beta. naive_solver.
  - naive_solver.
Qed.

Lemma evolved_ext tr tr' k s F s' F' :
  (∀ a, in_range pt a → tr a = tr' a) → evolved tr k s F s' F' → evolved tr' k s F s' F'.
Proof. intros Heq []. split; try done. intros a Ha. by rewrite <-Heq; auto. Qed.

Lemma evolved_more tr k k' s F s' F' : (k ≤ k')%nat → evolved tr k s F s' F' → evolved tr k' s F s' F'.
Proof.
  intros Hk [O Fr P B Q M By T]. split; try done. intros n Hn. apply P. eapply free_pages_le, Hn. lia.
Qed.

Lemma grown_trans tr k1 k2 s1 F1 s2 F2 s3 F3 :
  grown k1 s1 F1 s2 F2 → evolved tr k2 s2 F2 s3 F3 → evolved tr (k1 + k2) s1 F1 s3 F3.
Proof. apply evolved_trans. Qed.

Lemma grown_grown k1 k2 s1 F1 s2 F2 s3 F3 :
  grown k1 s1 F1 s2 F2 → grown k2 s2 F2 s3 F3 → grown (k1 + k2) s1 F1 s3 F3.
Proof.
  intros H1 H2. eapply evolved_ext; [|by eapply evolved_trans].
  intros a Ha. symmetry. rewrite <-(gr_translate _ _ _ _ _ _ H1 a Ha). done.
Qed.

(** A store into the tree that keeps the invariant keeps the allocator. *)
Lemma tables_ok_store s F e v :
  tables_ok s F → (∀ x, e ≤ x < e + 8 → ¬ F x) → pt_inv pt (store64 (mc_mem s) e v) →
  (∀ x, tree_byte pt (store64 (mc_mem s) e v) x → ¬ F x) →
  ∀ evs, tables_ok (traced evs (set_mem (λ m, store64 m e v) s)) F ∧
    ∀ b o, pa_block s b o → pa_block (traced evs (set_mem (λ m, store64 m e v) s)) b o.
Proof.
  intros [HA HI HO HH] He HI' HO' evs.
  assert (Hmem : ∀ x, F x → load8 (store64 (mc_mem s) e v) x = load8 (mc_mem s) x).
  { intros x Hx. apply store_frame. intros Hin. by apply (He x). }
  pose proof (pa_client s (traced evs (set_mem (λ m, store64 m e v) s)) F HA eq_refl Hmem) as [H1 H2].
  by split.
Qed.

(** Memory that agrees on the tree holds the same tree. *)
Lemma tree_frame m m' : pt_inv pt m → (∀ x, tree_byte pt m x → load8 m' x = load8 m x) →
  pt_inv pt m' ∧ (∀ k b u, is_table_of pt m' k b u ↔ is_table_of pt m k b u) ∧ (∀ x, tree_byte pt m' x ↔ tree_byte pt m x).
Proof.
  intros HI Hagree.
  assert (Hto : ∀ k b u, is_table_of pt m' k b u ↔ is_table_of pt m k b u).
  { intros k b u. unfold is_table_of. split; intros (? & ? & E); split_and!; try done.
    - by rewrite <-(table_at_frame pt m HI m'). - by rewrite (table_at_frame pt m HI m'). }
  split; [by apply (pt_inv_frame pt m)|]. split; [done|].
  intros x. split; intros (k & b & u & Hu & Hx); exists k, b, u; split; try done; by apply Hto.
Qed.

(** Taking a page leaves the tree, and the page is no part of it. *)
Lemma fresh_tables s F p s1 F1 : tables_ok s F → fresh_page s F p s1 F1 →
  tables_ok s1 F1 ∧ (∀ k b u, is_table_of pt (mc_mem s1) k b u ↔ is_table_of pt (mc_mem s) k b u) ∧
  (∀ x, tree_byte pt (mc_mem s1) x ↔ tree_byte pt (mc_mem s) x) ∧
  ∀ x, p ≤ x < p + 4096 → ¬ tree_byte pt (mc_mem s1) x.
Proof.
  intros [HA HI HO HH] [Hpage Hwas Hok Hfree Htaken Hpg Hblk Hq Hmem].
  destruct (tree_frame (mc_mem s) (mc_mem s1) HI) as (HI1 & Hto & Hb); [intros x Hx; by apply Hmem, HO|].
  split; [|split; [done|split; [done|]]].
  - split; [done|done| |]; [intros x Hx%Hb Hf|intros x Hx].
    + apply (HO x Hx), Hfree. by left.
    + apply HH, Hfree. by left.
  - intros x Hx Ht%Hb. by apply (HO x Ht), Hwas.
Qed.

(** Linking a freshly allocated table under an invalid entry above level 2. *)
Lemma link_fresh s F n a t p s1 F1 evs :
  tables_ok s F → is_table_of pt (mc_mem s) n a t → (lvl n < 2)%nat →
  pte_is_valid (load64 (mc_mem s) (slot t (index pt n a))) = false →
  fresh_page s F p s1 F1 → (∀ x, p ≤ x < p + 4096 → load8 (mc_mem s1) x = 0) →
  let v := Z.lor (Z.lor p PTE_VALID) PTE_TABLE in
  let s2 := traced evs (set_mem (λ m, store64 m (slot t (index pt n a)) v) s1) in
  grown 1 s F s2 F1 ∧ table_at pt (mc_mem s2) (S n) a = Some p ∧
  load64 (mc_mem s2) (slot t (index pt n a)) = v.
Proof.
  intros Hok Ht Hn Hinv Hfp Hzero. cbv zeta. pose proof Hok as [HA HI HO HH].
  destruct (fresh_tables s F p s1 F1 Hok Hfp) as (Hok1 & Hto & Hbytes & Hfresh). pose proof (tk_inv _ _ Hok1) as HI1.
  destruct Hfp as [Hpage Hwas _ Hfree Htaken Hpg Hblk Hq Hmem].
  destruct (table_desc p) as (Hv1 & Hv2 & Hv3); [tauto|lia|].
  set (v := Z.lor (Z.lor p PTE_VALID) PTE_TABLE) in *. set (e := slot t (index pt n a)) in *.
  assert (He : ∀ x, e ≤ x < e + 8 → tree_byte pt (mc_mem s) x).
  { intros x Hx. by apply (slot_tree_byte pt (mc_mem s) HI n a t). }
  pose proof (proj2 (Hto _ _ _) Ht) as Ht1.
  assert (Hold : load64 (mc_mem s1) e = load64 (mc_mem s) e) by (apply load_agree; intros x Hx; by apply Hmem, HO, He).
  assert (Htf : pte_is_table (load64 (mc_mem s1) e) = false).
  { rewrite Hold, is_table_bits. rewrite land_valid in Hinv. by rewrite Hinv. }
  assert (Hinv1 : pte_is_valid (load64 (mc_mem s1) e) = false) by (by rewrite Hold).
  assert (HI2 : pt_inv pt (store64 (mc_mem s1) e v)).
  { by apply (link_inv pt _ HI1 n a t v Ht1 Hv3 p); try done; lia. }
  assert (Hb2 : ∀ x, tree_byte pt (store64 (mc_mem s1) e v) x ↔ tree_byte pt (mc_mem s1) x ∨ p ≤ x < p + 4096).
  { apply (link_bytes pt _ HI1 n a t v Ht1 Hv3 p); try done; lia. }
  destruct (tables_ok_store s1 F1 e v Hok1) with (evs := evs) as [Hok2 Hblk2].
  { intros x Hx%He Hf. apply (HO x Hx), Hfree. by left. }
  { done. }
  { intros x [Hx|Hx]%Hb2 Hf; [|by apply (Htaken x)]. by apply (tk_owned _ _ Hok1 x). }
  split_and!.
  - split; simpl; [exact Hok2| |exact Hpg|by auto| | | |].
    + intros x Hx. apply Hfree. by left.
    + apply quiet_traced. eapply quiet_trans; [exact Hq|]. split; [done..|]. exists []. by rewrite app_nil_r.
    + intros x Hx. simpl. rewrite store_frame; [apply Hmem; tauto|]. intros Hin. by apply Hx; right; apply He.
    + intros x [Hx|Hx]%Hb2; [left; by apply Hbytes|right; by apply Hwas].
    + intros b Hb. rewrite (link_translate pt _ HI1 n a t v Ht1 Hv3 p); try done; try lia.
      apply translate_frame; [done..| |done]. intros x Hx. by apply Hmem, HO.
  - pose proof (table_at_below pt (mc_mem s1) HI1 n a t v Ht1 Hv3 a) as Hbel.
    rewrite Hv1, Hv2 in Hbel. apply Hbel; [apply Ht|done].
  - simpl. by apply (load_store_eq_fits 8).
Qed.

Lemma slot_small m n a t : pt_inv pt m → is_table_of pt m n a t →
  0 ≤ slot t (index pt n a) ∧ slot t (index pt n a) + 8 < 2 ^ 63.
Proof. intros HI Ht. pose proof (slot_bounds pt m HI n a t Ht). destruct (pi_bounds _ _ HI n a t Ht) as (_ & ? & ?). lia. Qed.

Lemma Walk_levels_spec n : ∀ s F d a t k,
  (lvl d + n)%nat = 2%nat → tables_ok s F → is_table_of pt (mc_mem s) d a t → free_pages F (n + k) →
  runs (Walk_levels pt a true (lvl d) n t) s (λ r s', ∃ F' t', r = Some t' ∧ grown n s F s' F' ∧
    is_table_of pt (mc_mem s') (d + n) a t').
Proof.
  induction n as [|n IH]; intros s F d a t k Hl Hok Ht Hk; cbn [Walk_levels].
  - run. exists F, t. rewrite Nat.add_0_r. split_and!; [done|by apply grown_refl|done..|].
    all: apply Ht.
  - cbv zeta.
    assert (Z.land (a ≫ levelShift (lvl d))
      (if decide (lvl d = m_startLevel pt) then m_rootIndexMask pt else 0x1FF) = index pt d a) as ->.
    { unfold index, shift. destruct (decide (d = 0%nat)) as [->|];
        [by rewrite decide_True by lia|by rewrite decide_False by lia]. }
    mrun. pose proof Hok as [HA HI HO HH].
    destruct (pte_is_valid (load64 (mc_mem s) (slot t (index pt d a)))) eqn:Ev.
    + replace (S (lvl d)) with (lvl (S d)) by lia.
      pose proof (pi_valid _ _ HI d a t ltac:(lia) Ht Ev) as Etab.
      eapply runs_mono; [apply (IH s F (S d) a _ (S k)); [lia|done| |]|].
      * destruct Ht as (_ & Ha & Et). split_and!; [lia|done|]. simpl. by rewrite Et, Etab.
      * eapply free_pages_le, Hk. lia.
      * intros r s' (F' & t' & -> & Hg & Ht'). exists F', t'. split_and!; [done| |].
        -- eapply (grown_grown 1 n); [by apply grown_refl|exact Hg].
        -- by rewrite Nat.add_succ_r.
    + simpl negb. cbv iota. apply runs_bind.
      eapply runs_mono; [by apply (AllocTable_spec s F (n + k))|]. cbv beta.
      intros p s1 ((F1 & Hfp) & Hzero & _). unfold st_pte. mrun.
      pose proof (slot_small (mc_mem s) d a t HI Ht) as Hsl.
      eapply runs_of_eq; [apply Clean_eq; [lia|done|lia]|].
      mrun.
      destruct (link_fresh s F d a t p s1 F1
        (EvStore (slot t (index pt d a)) (Z.lor (Z.lor p PTE_VALID) PTE_TABLE) ::
          cleaned s1 (slot t (index pt d a)) 8)) as (Hg & Htab & Hld); try done; [lia|].
      rewrite set_trace_app. cbv zeta in Hg, Htab, Hld.
      set (s2 := traced _ _) in Hg, Htab, Hld.
      match goal with |- runs _ ?s2' _ => change s2' with s2 end.
      match goal with |- context [load64 ?m2 _] => change m2 with (mc_mem s2) end.
      rewrite Hld. destruct (table_desc p) as (_ & -> & _); [apply Hfp|pose proof (fp_page _ _ _ _ _ Hfp); lia|].
      replace (S (lvl d)) with (lvl (S d)) by lia.
      eapply runs_mono; [apply (IH s2 F1 (S d) a p k); [lia|apply Hg| |]|].
      * split_and!; [lia|apply Ht|done].
      * apply (gr_pages _ _ _ _ _ _ Hg). done.
      * intros r s' (F' & t' & -> & Hg' & Ht'). exists F', t'. split_and!; [done| |].
        -- by eapply (grown_grown 1 n).
        -- by rewrite Nat.add_succ_r.
Qed.

Lemma Walk_spec s F a :
  tables_ok s F → in_range pt a → free_pages F 2 →
  runs (Walk pt a true) s (λ r s', ∃ F' t, r = Some (slot t (index pt (depth2 pt) a)) ∧
    grown 2 s F s' F' ∧ is_table_of pt (mc_mem s') (depth2 pt) a t).
Proof.
  intros Hok Ha Hk. pose proof (pi_config _ _ (tk_inv _ _ Hok)) as Hc.
  destruct (depth2_lvl pt Hc) as [E2 Hd]. unfold Walk. apply runs_bind.
  replace (m_startLevel pt) with (lvl 0) at 1 by lia. fold (depth2 pt).
  eapply runs_mono; [apply (Walk_levels_spec (depth2 pt) s F 0 a (m_root pt) (2 - depth2 pt))|].
  - lia.
  - done.
  - split_and!; [lia|done|done].
  - eapply free_pages_le, Hk. lia.
  - intros r s' (F' & t & -> & Hg & Ht). run. exists F', t. split_and!; try done.
    + unfold L2_INDEX, index, shift. rewrite E2, decide_False by lia. done.
    + eapply (grown_grown (depth2 pt) (2 - depth2 pt)) in Hg; [|apply grown_refl, Hg].
      by replace (depth2 pt + (2 - depth2 pt))%nat with 2%nat in Hg by lia.
Qed.

(** ** Storing a leaf *)

(** What a leaf [v] at depth [n] gives the addresses below it. *)
Definition leaf_tr (n : nat) (v b : Z) : option (Z * Z) :=
  if decide (lvl n = 2%nat) then
    if Z.testbit v 0 then Some (leaf_out v b 21, leaf_attrs v) else None
  else if Z.testbit v 0 && Z.testbit v 1 then Some (leaf_out v b 12, leaf_attrs v) else None.

Lemma leaf_translate m n a t v b :
  pt_inv pt m → is_table_of pt m n a t → fits 64 v → (2 ≤ lvl n)%nat →
  (lvl n = 2%nat → pte_is_table v = false) → pt_inv pt (store64 m (slot t (index pt n a)) v) →
  in_range pt b → ekey pt n b = ekey pt n a →
  translate (store64 m (slot t (index pt n a)) v) pt b = leaf_tr n v b.
Proof.
  intros HI Ht Hv Hn Hleaf HI' Hb E. pose proof (pi_config _ _ HI) as Hc.
  destruct (depth2_lvl pt Hc) as [E2 _]. pose proof Ht as (Hn3 & Ha & Et). rewrite translate_l2 by done.
  unfold leaf_tr. case_decide as Hl.
  - assert (n = depth2 pt) as -> by lia.
    rewrite (table_at_other pt m HI (depth2 pt) a t v Ht Hv) by auto.
    rewrite (table_at_key pt Hc m (depth2 pt) b a) by (done || by apply ekey_tkey). rewrite Et. cbv zeta.
    rewrite (ekey_index pt Hc (depth2 pt) b a) by done. rewrite (load_store_eq_fits 8) by done.
    specialize (Hleaf Hl). rewrite is_table_bits in Hleaf.
    by destruct (Z.testbit v 0), (Z.testbit v 1).
  - assert (n = S (depth2 pt)) as -> by lia.
    rewrite (table_at_other pt m HI (S (depth2 pt)) a t v Ht Hv) by (auto || lia).
    pose proof (ekey_tkey pt (S (depth2 pt)) b a Hn3 E) as Ek. simpl in Ek.
    rewrite (table_at_key pt Hc m (depth2 pt) b a) by (done || lia || (apply ekey_tkey; [lia|done])).
    destruct (table_at_pred pt m (depth2 pt) a t Et) as (u & Eu & Htab & ->). rewrite Eu. cbv zeta.
    assert (Hu : is_table_of pt m (depth2 pt) a u) by (split_and!; [lia|done|done]).
    rewrite (ekey_index pt Hc (depth2 pt) b a) by (done || lia).
    rewrite (entry_load pt m HI (S (depth2 pt)) a _ v Ht Hv (depth2 pt) a u Hu).
    rewrite decide_False by lia. rewrite is_table_bits in Htab. apply andb_prop in Htab as [H1 H2].
    rewrite H1, H2. simpl negb. cbv iota. rewrite (ekey_index pt Hc (S (depth2 pt)) b a) by done.
    change (Z.land ?e PTE_ADDR_MASK) with (pte_next_table e). by rewrite (load_store_eq_fits 8).
Qed.

Lemma store_leaf s F n a t v evs :
  tables_ok s F → is_table_of pt (mc_mem s) n a t → (2 ≤ lvl n)%nat → fits 64 v →
  (lvl n = 2%nat → pte_is_table v = false) →
  (lvl n = 2%nat → pte_is_block v = true → Z.land v PTE_ADDR_MASK mod 2 ^ 21 = 0) →
  evolved (λ b, if decide (ekey pt n b = ekey pt n a) then leaf_tr n v b
                else translate (mc_mem s) pt b) 0 s F
    (traced evs (set_mem (λ m, store64 m (slot t (index pt n a)) v) s)) F.
Proof.
  intros Hok Ht Hn Hv Hleaf Hblk. pose proof Hok as [HA HI HO HH].
  pose proof (leaf_inv pt _ HI n a t v Ht Hv Hn Hleaf Hblk) as HI'.
  pose proof (leaf_bytes pt _ HI n a t v Ht Hv Hn Hleaf Hblk) as Hb.
  pose proof (slot_tree_byte pt _ HI n a t) as Hs.
  destruct (tables_ok_store s F (slot t (index pt n a)) v Hok) with (evs := evs) as [Hok' Hblk'].
  { intros x Hx. apply HO. apply (Hs x); done. }
  { done. }
  { intros x Hx%Hb. by apply HO. }
  split; try done.
  - split; [done..|]. by exists evs.
  - intros x Hx. simpl. apply store_frame. intros Hin. apply Hx. right. by apply (Hs x).
  - intros x Hx. left. by apply Hb.
  - intros b Hb'. simpl. case_decide as E.
    + by apply leaf_translate.
    + apply translate_other; try done. apply Ht.
Qed.
End walk.

Abbreviation grown pt k s F s' F' := (evolved pt (translate (mc_mem s) pt) k s F s' F').
