(* ===== verification/MmioMap.v ===== *)
(** * Device windows handed to the MMU layers (core/mm/mmu/mmioMap.h) *)
From S2P Require Import Prelude PageTable.

Definition MMIO_MAX_WINDOWS : nat := 8.

Record MmioWindow : Set := MkMmioWindow {
  base : Z;
  pa : Z;
  size : Z;
  byPage : bool;
}.

#[export] Instance MmioWindow_eq_dec : EqDecision MmioWindow.
Proof. solve_decision. Defined.

(** The windows held: the first [m_count] elements of the array [m_windows]. *)
Definition MmioMap : Type := list MmioWindow.
Definition GetCount (m : MmioMap) : nat := length m.

(** [x & ~(align - 1)] for a power of two. *)
Definition align_down (x align : Z) : Z := Z.land x (not64 (align - 1)).

Definition Add (m : MmioMap) (want : MmioWindow) : bool * MmioMap :=
  if existsb (λ have,
      (base have =? base want) && (pa have =? pa want) && (size have =? size want) &&
      Bool.eqb (byPage have) (byPage want)) m
  then (true, m)
  else if decide (GetCount m = MMIO_MAX_WINDOWS) then (false, m)
  else (true, m ++ [want]).

Definition AddBlocks (m : MmioMap) (b sz : Z) : bool * MmioMap :=
  let start := align_down b SIZE_2MB in
  let end_ := align_down (b ⊞ sz ⊞ SIZE_2MB ⊟ 1) SIZE_2MB in
  Add m (MkMmioWindow start start (end_ ⊟ start) false).

Definition AddPages (m : MmioMap) (ipa p sz : Z) : bool * MmioMap :=
  let start := align_down ipa SIZE_4KB in
  let end_ := align_down (ipa ⊞ sz ⊞ SIZE_4KB ⊟ 1) SIZE_4KB in
  Add m (MkMmioWindow start (align_down p SIZE_4KB) (end_ ⊟ start) true).

Definition Covers (m : MmioMap) (addr : Z) : bool :=
  existsb (λ w, (base w <=? addr) && (addr <? base w ⊞ size w)) m.

(** ** Properties *)

Lemma same_window_spec w want :
  (base w =? base want) && (pa w =? pa want) && (size w =? size want) &&
    Bool.eqb (byPage w) (byPage want) = true ↔ w = want.
Proof.
  rewrite !andb_true_iff, !Z.eqb_eq, Bool.eqb_true_iff. destruct w, want; simpl. naive_solver.
Qed.

Lemma Add_present m want : existsb (λ have,
      (base have =? base want) && (pa have =? pa want) && (size have =? size want) &&
      Bool.eqb (byPage have) (byPage want)) m = true ↔ want ∈ m.
Proof.
  rewrite existsb_exists, list_elem_of_In. split.
  - intros (w & Hw & ->%same_window_spec). done.
  - intros H. exists want. split; [done|]. by apply same_window_spec.
Qed.

(** A well-formed map: within capacity, no duplicates. *)
Definition map_wf (m : MmioMap) : Prop := (length m ≤ MMIO_MAX_WINDOWS)%nat ∧ NoDup m.

Lemma Add_spec m want : map_wf m →
  let '(ok, m') := Add m want in
  map_wf m' ∧ m `prefix_of` m' ∧
  (ok = true ↔ want ∈ m') ∧ (∀ w, w ∈ m' → w ∈ m ∨ w = want) ∧
  (ok = false → length m = MMIO_MAX_WINDOWS ∧ m' = m).
Proof.
  intros [Hlen Hnd]. unfold Add. destruct (existsb _ m) eqn:E.
  - apply Add_present in E. unfold map_wf. split_and!; naive_solver.
  - assert (want ∉ m) as Hnot by (rewrite <-Add_present, E; done).
    unfold GetCount, map_wf. case_decide as Hc; split_and!; try done.
    + naive_solver.
    + rewrite length_app; simpl; lia.
    + apply list.NoDup_app. split_and!; [done| |apply list.NoDup_singleton].
      intros x Hx ->%list_elem_of_singleton. done.
    + by apply prefix_app_r.
    + split; [set_solver|done].
    + set_solver.
Qed.

Lemma align_down_eq x n : 0 ≤ n ≤ 64 → fits 64 x → align_down x (2 ^ n) = x - x mod 2 ^ n.
Proof.
  intros Hn Hx. unfold fits in Hx. unfold align_down, not64. rewrite <-(ldiff_ones x n) by lia.
  assert (2 ^ 64 - 1 - (2 ^ n - 1) = Z.ldiff (Z.ones 64) (Z.ones n)) as ->.
  { rewrite ldiff_ones by lia. rewrite Z.ones_equiv.
    assert (2 ^ 64 = 2 ^ (64 - n) * 2 ^ n) as -> by (rewrite <-Z.pow_add_r by lia; f_equal; lia).
    replace (Z.pred (2 ^ (64 - n) * 2 ^ n)) with ((2 ^ n - 1) + (2 ^ (64 - n) - 1) * 2 ^ n) by lia.
    rewrite Z.mod_add, Z.mod_small by lia. lia. }
  apply Z.bits_inj'. intros i Hi. rewrite Z.land_spec, !Z.ldiff_spec.
  destruct (decide (i < 64)).
  - by rewrite (Z.ones_spec_low 64) by lia.
  - rewrite <-(Z.mod_small x (2 ^ 64)), Z.mod_pow2_bits_high by lia. done.
Qed.

Lemma align_down_bounds x n : 0 ≤ n ≤ 64 → fits 64 x →
  align_down x (2 ^ n) ≤ x < align_down x (2 ^ n) + 2 ^ n ∧ align_down x (2 ^ n) mod 2 ^ n = 0 ∧
  0 ≤ align_down x (2 ^ n).
Proof.
  intros Hn Hx. rewrite align_down_eq by done. pose proof (Z.pow_pos_nonneg 2 n).
  pose proof (Z.mod_pos_bound x (2 ^ n)). pose proof (Z.mod_le x (2 ^ n)). unfold fits in Hx. split_and!; try lia.
  rewrite Zminus_mod, Z.mod_mod, Z.sub_diag by lia. by apply Z.mod_0_l; lia.
Qed.

(** A window in the first 2^63 bytes. *)
Lemma AddBlocks_eq m b sz : 0 ≤ b → 0 ≤ sz → b + sz < 2 ^ 63 →
  ∃ start end_, AddBlocks m b sz = Add m (MkMmioWindow start start (end_ - start) false) ∧
    start mod 2 ^ 21 = 0 ∧ end_ mod 2 ^ 21 = 0 ∧ start ≤ b < start + 2 ^ 21 ∧
    b + sz ≤ end_ < b + sz + 2 ^ 21.
Proof.
  intros Hb Hs He. unfold AddBlocks. change SIZE_2MB with (2 ^ 21).
  assert (b ⊞ sz ⊞ 2 ^ 21 ⊟ 1 = b + sz + 2 ^ 21 - 1) as ->.
  { unfold u64. rewrite Zminus_mod_idemp_l, (Z.mod_small (b + sz)), Z.mod_small by lia. done. }
  pose proof (align_down_bounds b 21) as (? & ? & ?); [lia|unfold fits; lia|].
  pose proof (align_down_bounds (b + sz + 2 ^ 21 - 1) 21) as (? & ? & ?); [lia|unfold fits; lia|].
  eexists (align_down b (2 ^ 21)), (align_down (b + sz + 2 ^ 21 - 1) (2 ^ 21)).
  split; [|split_and!; [done|done|lia..]]. cbv zeta. do 2 f_equal. apply Z.mod_small. lia.
Qed.
