(* ===== verification/HostMmu.v ===== *)
(** * The EL2 stage-1 MMU: the hypervisor's own map (core/mm/mmu/hostMmu) *)
From S2P Require Import Prelude Memory Machine Pmm Strings PageTable MmioMap.

Definition PTE_SH_INNER : Z := 3 ≪ 8.
Definition PTE_SH_NONE : Z := 0 ≪ 8.
Definition PTE_AP_RW : Z := 0 ≪ 6.
Definition PTE_XN : Z := 1 ≪ 54.
Definition MAIR_IDX_NORMAL : Z := 0.
Definition MAIR_IDX_DEVICE : Z := 1.
Definition MAIR_IDX_NORMAL_NC : Z := 2.
Definition PTE_ATTRIDX (idx : Z) : Z := idx ≪ 2.
Definition PTE_NORMAL : Z :=
  Z.lor (Z.lor (Z.lor PTE_VALID PTE_AF) PTE_SH_INNER) (PTE_ATTRIDX MAIR_IDX_NORMAL).
Definition PTE_DEVICE : Z :=
  Z.lor (Z.lor (Z.lor (Z.lor PTE_VALID PTE_AF) PTE_SH_NONE) (PTE_ATTRIDX MAIR_IDX_DEVICE)) PTE_XN.
Definition HV_VA_BASE : Z := 0.
Definition HV_VA_SIZE : Z := SIZE_16GB.

Definition STAGE1_START_LEVEL : nat := 0.
Definition STAGE1_ROOT_INDEX_MASK : Z := 0x1FF.

(** The object is its one member [m_table]. *)
Definition HostMmu : Type := PageTable.

Definition HostMmu_new : M machine HostMmu :=
  root ← AllocTable;
  mret (MkPageTable root STAGE1_START_LEVEL STAGE1_ROOT_INDEX_MASK).

(** [for (uint64_t off {}; off < size; off += step)]: the fuel is one more than
    the number of iterations. *)
Definition for_fuel (size step : Z) : nat := S (S (Z.to_nat (size / step))).

Definition MapRange_step (m_table : PageTable) (va pa size flags off : Z) : M machine (Z + unit) :=
  if decide (off < size) then
    pte ← Walk m_table (va ⊞ off) true;
    match pte with
    | None => mret (inr tt)
    | Some pte =>
        st_pte pte (Z.lor (Z.lor (Z.land (pa ⊞ off) PTE_ADDR_MASK) flags) PTE_BLOCK);;
        mret (inl (off ⊞ SIZE_2MB))
    end
  else mret (inr tt).

Definition MapRange (m_table : PageTable) (va pa size flags : Z) : M machine unit :=
  loop (for_fuel size SIZE_2MB) (MapRange_step m_table va pa size flags) 0.

Definition TlbFlushAll : M machine unit := emit EvTlbiAlle2is;; emit EvDsbSy;; emit EvIsb.
Definition TlbFlushVa (va : Z) : M machine unit :=
  emit (EvTlbiVae2is (va ≫ 12));; emit EvDsbSy;; emit EvIsb.

Definition UnmapRange_step (m_table : PageTable) (va size off : Z) : M machine (Z + unit) :=
  if decide (off < size) then
    pte ← Walk m_table (va ⊞ off) false;
    match pte with
    | None => mret (inr tt)
    | Some pte =>
        st_pte pte 0;;
        TlbFlushVa (va ⊞ off);;
        mret (inl (off ⊞ SIZE_2MB))
    end
  else mret (inr tt).

Definition UnmapRange (m_table : PageTable) (va size : Z) : M machine unit :=
  loop (for_fuel size SIZE_2MB) (UnmapRange_step m_table va size) 0.

Fixpoint map_devices (m_table : PageTable) (devices : MmioMap) : M machine unit :=
  match devices with
  | [] => mret tt
  | window :: rest =>
      MapRange m_table (base window) (pa window) (size window) PTE_DEVICE;;
      map_devices m_table rest
  end.

Definition mair_value : Z :=
  Z.lor (Z.lor (0xFF ≪ (MAIR_IDX_NORMAL * 8)) (0x00 ≪ (MAIR_IDX_DEVICE * 8)))
    (0x44 ≪ (MAIR_IDX_NORMAL_NC * 8)).

Definition tcr_value : Z :=
  Z.lor (Z.lor (Z.lor (Z.lor (Z.lor (16 ≪ 0) (0 ≪ 14)) (1 ≪ 8)) (1 ≪ 10)) (3 ≪ 12)) (2 ≪ 16).

Definition Enable (m_table : HostMmu) (devices : MmioMap) : M machine unit :=
  msr MAIR_EL2 mair_value;;
  msr TCR_EL2 tcr_value;;
  emit EvIsb;;
  MapRange m_table HV_VA_BASE HV_VA_BASE HV_VA_SIZE (Z.lor PTE_NORMAL PTE_AP_RW);;
  map_devices m_table devices;;
  msr TTBR0_EL2 (m_root m_table);;
  emit EvDsbIshst;;
  emit EvIsb;;
  sctlr ← mrs SCTLR_EL2;
  let sctlr := Z.lor sctlr (Z.lor (Z.lor (1 ≪ 0) (1 ≪ 2)) (1 ≪ 12)) in
  msr SCTLR_EL2 sctlr;;
  emit EvIsb.

Definition PaToVa (pa : Z) : Z := pa.
