(* ===== verification/MapSpec.v ===== *)
(** * Mapping a block or a page through the software walk

    The effect of every mapping operation is stated on the address map the
    hardware walk gives: [map_range f va pa len attrs] is [f] with
    [va, va + len) sent to [pa, pa + len). *)
From S2P Require Import Prelude Memory Machine Pmm FreeLists PageAlloc Strings PageTable TableTree.
From S2P Require Import TableUpdate TableStore PageTableSpec WalkSpec.

Definition map_range (f : Z → option (Z * Z)) (va pa len attrs a : Z) : option (Z * Z) :=
  if decide (va ≤ a < va + len) then Some (pa + (a - va), attrs) else f a.

Lemma map_range_join f va pa l1 l2 attrs a : 0 ≤ l1 → 0 ≤ l2 →
  map_range (map_range f va pa l1 attrs) (va + l1) (pa + l1) l2 attrs a =
  map_range f va pa (l1 + l2) attrs a.
Proof. intros. unfold map_range. repeat case_decide; try lia; try done. do 2 f_equal. lia. Qed.

Lemma map_range_ext f g va pa len attrs a : f a = g a → map_range f va pa len attrs a = map_range g va pa len attrs a.
Proof. intros E. unfold map_range. by rewrite E. Qed.

(** Attribute bits of a valid leaf: outside the address field, valid bit set. *)
Definition attr_ok (c : Z) : Prop := Z.land c PTE_ADDR_MASK = 0 ∧ Z.testbit c 0 = true ∧ fits 64 c.

Section desc.
Context (c : Z) (Hc : attr_ok c).

Lemma addr_mask_bit x i : 0 ≤ i < 12 → Z.testbit (Z.land x PTE_ADDR_MASK) i = false.
Proof.
  intros Hi. rewrite Z.land_spec. change PTE_ADDR_MASK with ((2 ^ 36 - 1) * 2 ^ 12).
  rewrite Z.mul_pow2_bits_low by lia. apply andb_false_r.
Qed.

Lemma leaf_bit x i : 0 ≤ i < 12 → Z.testbit (Z.lor (Z.land x PTE_ADDR_MASK) c) i = Z.testbit c i.
Proof. intros Hi. by rewrite Z.lor_spec, addr_mask_bit by done. Qed.

Lemma leaf_addr x : Z.land (Z.lor (Z.land x PTE_ADDR_MASK) c) PTE_ADDR_MASK = Z.land x PTE_ADDR_MASK.
Proof.
  destruct Hc as (H0 & _). rewrite Z.land_lor_distr_l, H0, Z.lor_0_r, <-Z.land_assoc.
  by rewrite Z.land_diag.
Qed.

Lemma leaf_fits x : fits 64 (Z.lor (Z.land x PTE_ADDR_MASK) c).
Proof.
  destruct Hc as (_ & _ & Hf).
  assert (Ha : fits 64 (Z.land x PTE_ADDR_MASK)).
  { unfold fits. rewrite land_addr_mask. pose proof (Z.mod_pos_bound x (2 ^ 48)). 
    pose proof (Z.mod_pos_bound x (2 ^ 12)).
    assert (x mod 2 ^ 12 = (x mod 2 ^ 48) mod 2 ^ 12) as Em by (rewrite Z.mod_mod_divide; [done|by exists (2 ^ 36)]).
    pose proof (Z.mod_le (x mod 2 ^ 48) (2 ^ 12)). lia. }
  unfold fits in *. split; [apply Z.lor_nonneg; lia|].
  destruct (decide (Z.lor (Z.land x PTE_ADDR_MASK) c = 0)) as [->|]; [lia|].
  apply Z.log2_lt_pow2; [pose proof (proj2 (Z.lor_nonneg (Z.land x PTE_ADDR_MASK) c)); lia|].
  rewrite Z.log2_lor by lia.
  assert (∀ y, 0 ≤ y < 2 ^ 64 → Z.log2 y < 64) as Hl.
  { intros y Hy. destruct (decide (y = 0)) as [->|]; [done|]. apply Z.log2_lt_pow2; lia. }
  pose proof (Hl _ Ha). pose proof (Hl _ Hf). lia.
Qed.

(** The output of a leaf for [2 ^ n] bytes at an aligned address. *)
Lemma leaf_maps x va n b : 12 ≤ n → 0 ≤ x < 2 ^ 48 → x mod 2 ^ n = 0 → va mod 2 ^ n = 0 →
  b ≫ n = va ≫ n →
  let v := Z.lor (Z.land x PTE_ADDR_MASK) c in
  leaf_out v b n = x + (b - va) ∧ leaf_attrs v = Z.ldiff c 3.
Proof.
  intros Hn Hx Hm Hva E. cbv zeta. pose proof (Z.pow_pos_nonneg 2 n).
  assert (Hx' : Z.land x PTE_ADDR_MASK = x).
  { apply addr_mask_id; [done|]. change 4096 with (2 ^ 12).
    apply Z.mod_divide; [done|]. apply Z.mod_divide in Hm; [|lia].
    etransitivity; [|exact Hm]. exists (2 ^ (n - 12)). rewrite <-Z.pow_add_r by lia. f_equal. lia. }
  destruct (leaf_desc x c n) as [Hout Hat]; [lia|apply Hc|by rewrite Hx'|].
  split; [|done]. rewrite Hout, Hx'. rewrite !Z.shiftr_div_pow2 in E by lia.
  pose proof (Z.div_mod b (2 ^ n)). pose proof (Z.div_mod va (2 ^ n)). rewrite E in *. lia.
Qed.
End desc.

(** The addresses of one aligned block. *)
Lemma same_block n va b : 0 ≤ n → va mod 2 ^ n = 0 → b ≫ n = va ≫ n ↔ va ≤ b < va + 2 ^ n.
Proof.
  intros Hn Hva. pose proof (Z.pow_pos_nonneg 2 n). rewrite !Z.shiftr_div_pow2 by lia.
  pose proof (Z.div_mod va (2 ^ n)). pose proof (Z.div_mod b (2 ^ n)). pose proof (Z.mod_pos_bound b (2 ^ n)).
  split; [intros E; rewrite E in *; lia|]. intros Hb.
  assert (0 < 2 ^ n) as Hp by lia. symmetry. apply (Z.div_unique b (2 ^ n) (va / 2 ^ n) (b - va)); lia.
Qed.

Section map.
Context `{PA : !PageAllocator AllocPages FreePages} (pt : PageTable).
Abbreviation lvl n := (m_startLevel pt + n)%nat.

(** A block descriptor stored in the level 2 entry the walk returned. *)
Lemma map_block_spec {A} s F va p c (Q : A → machine → Prop) (k : option Z → M machine A) :
  tables_ok pt s F → in_range pt va → free_pages F 2 →
  va mod 2 ^ 21 = 0 → 0 ≤ p < 2 ^ 48 → p mod 2 ^ 21 = 0 → attr_ok c → Z.testbit c 1 = false →
  (∀ e s1 F1, grown pt 2 s F s1 F1 → 0 ≤ e → e + 8 < 2 ^ 63 →
    (∀ evs, evolved pt (map_range (translate (mc_mem s) pt) va p (2 ^ 21) (Z.ldiff c 3)) 2 s F
      (traced evs (set_mem (λ m, store64 m e (Z.lor (Z.land p PTE_ADDR_MASK) c)) s1)) F1) →
    runs (k (Some e)) s1 Q) →
  runs (r ← Walk pt va true; k r) s Q.
Proof.
  intros Hok Ha Hpg Hva Hp Hpm Hc Hc1 Hk. pose proof (pi_config _ _ (tk_inv _ _ _ Hok)) as Hcfg.
  destruct (depth2_lvl pt Hcfg) as [E2 _].
  apply runs_bind. eapply runs_mono; [by apply (Walk_spec pt s F)|]. cbv beta.
  intros r s1 (F1 & t & -> & Hg & Ht). pose proof (gr_ok _ _ _ _ _ _ _ Hg) as Hok1.
  pose proof (tk_inv _ _ _ Hok1) as HI1.
  set (v := Z.lor (Z.land p PTE_ADDR_MASK) c).
  assert (Hv1 : pte_is_table v = false).
  { rewrite is_table_bits. unfold v. rewrite (leaf_bit c p 1) by lia. rewrite Hc1. apply andb_false_r. }
  assert (Hv0 : Z.testbit v 0 = true) by (unfold v; rewrite (leaf_bit c p 0) by lia; apply Hc).
  assert (Hpa : Z.land p PTE_ADDR_MASK = p).
  { apply addr_mask_id; [done|]. apply Z.mod_divide; [done|]. apply Z.mod_divide in Hpm; [|done].
    etransitivity; [|exact Hpm]. by exists 512. }
  apply (Hk _ s1 F1); [done| | |].
  - apply (slot_small pt _ _ _ _ HI1 Ht).
  - apply (slot_small pt _ _ _ _ HI1 Ht).
  - intros evs. eapply (evolved_ext pt); [|eapply (grown_trans pt _ 2 0); [exact Hg|]].
    2: { apply (store_leaf pt s1 F1 (depth2 pt) va t v evs); try done; [lia|by apply leaf_fits|].
         intros _ _. unfold v. by rewrite leaf_addr, Hpa. }
    intros b Hb. cbv beta. unfold map_range, ekey, shift. rewrite E2. change (levelShift 2) with 21.
    rewrite (decide_ext (b ≫ 21 = va ≫ 21) (va ≤ b < va + 2 ^ 21)) by (by apply same_block).
    case_decide as Hin; [|by rewrite (gr_translate _ _ _ _ _ _ _ Hg)].
    unfold leaf_tr. rewrite decide_True, Hv0 by done.
    destruct (leaf_maps c Hc p va 21 b) as [Ho Hat]; try done; [by apply same_block|].
    unfold v. by rewrite Ho, Hat.
Qed.

(** ** Loops that map a range, one granule of [2 ^ g] bytes and at most [K] tables a pass *)

Section loop.
Context (s : machine) (F : Z → Prop) (va p size attrs g : Z) (K : nat).
Context (body : Z → M machine (Z + unit)).
Context (Hg : 0 ≤ g) (Hsize : 0 ≤ size ∧ size mod 2 ^ g = 0).
Context (Hexit : ∀ s1 off, size ≤ off → body off s1 = Done (inr tt) s1).
Context (Hbody : ∀ s1 F1 off, tables_ok pt s1 F1 → free_pages F1 K →
  0 ≤ off → off + 2 ^ g ≤ size → off mod 2 ^ g = 0 →
  runs (body off) s1 (λ r s2, r = inl (off + 2 ^ g) ∧ ∃ F2,
    evolved pt (map_range (translate (mc_mem s1) pt) (va + off) (p + off) (2 ^ g) attrs) K
      s1 F1 s2 F2)).

Abbreviation n := (size / 2 ^ g).

(** [k] granules are left. *)
Definition mapping (k : nat) (off : Z) (s1 : machine) : Prop :=
  off = (n - Z.of_nat k) * 2 ^ g ∧ Z.of_nat k ≤ n ∧ ∃ F1,
    evolved pt (map_range (translate (mc_mem s) pt) va p off attrs)
      (K * Z.to_nat (n - Z.of_nat k)) s F s1 F1.

Lemma size_granules : size = n * 2 ^ g ∧ 0 ≤ n.
Proof.
  pose proof (Z.pow_pos_nonneg 2 g). destruct Hsize as [H0 Hm].
  pose proof (Z.div_mod size (2 ^ g)). pose proof (Z.div_pos size (2 ^ g)). lia.
Qed.

Lemma mapping_start : tables_ok pt s F → mapping (Z.to_nat n) 0 s.
Proof.
  intros Hok. destruct size_granules as [_ Hn]. unfold mapping. rewrite Z2Nat.id by done.
  split_and!; [lia|lia|]. exists F.
  eapply evolved_ext; [|by apply grown_refl]. intros a Ha. unfold map_range. by rewrite decide_False by lia.
Qed.

Lemma mapping_step k off s1 :
  free_pages F (K * Z.to_nat n) → mapping k off s1 →
  runs (body off) s1 (λ r s2,
    match r with
    | inl off' => ∃ k', (k' < k)%nat ∧ mapping k' off' s2
    | inr _ => mapping 0 size s2
    end).
Proof.
  intros Hpg (Eoff & Hk & F1 & Hev). pose proof (Z.pow_pos_nonneg 2 g) as Hp2.
  destruct size_granules as [En Hn]. destruct k as [|k].
  { eapply runs_of_eq; [apply Hexit; lia|]. replace size with off by lia.
    split_and!; [done|lia|by exists F1]. }
  eapply runs_mono; [apply (Hbody s1 F1)|].
  - apply (gr_ok _ _ _ _ _ _ _ Hev).
  - apply (gr_pages _ _ _ _ _ _ _ Hev). eapply free_pages_le, Hpg.
    replace (Z.to_nat n) with (Z.to_nat (n - Z.of_nat (S k)) + S k)%nat by lia. nia.
  - nia.
  - nia.
  - rewrite Eoff. apply Z.mod_mul. lia.
  - intros r s2 (-> & F2 & H2). exists k. split; [lia|]. split_and!; [lia|lia|]. exists F2.
    replace (K * Z.to_nat (n - Z.of_nat k))%nat
      with (K * Z.to_nat (n - Z.of_nat (S k)) + K)%nat by nia.
    eapply evolved_ext; [|by eapply evolved_trans]. intros a Ha. cbv beta.
    rewrite <-map_range_join by nia. apply map_range_ext.
    by apply (gr_translate _ _ _ _ _ _ _ Hev).
Qed.

Lemma map_loop fuel : tables_ok pt s F → free_pages F (K * Z.to_nat n) →
  (Z.to_nat n < fuel)%nat →
  runs (loop fuel body 0) s (λ _ s', ∃ F',
    evolved pt (map_range (translate (mc_mem s) pt) va p size attrs) (K * Z.to_nat n) s F s' F').
Proof.
  intros Hok Hpg Hf. eapply (runs_loop mapping).
  - intros k off s1 HI. eapply runs_mono; [by apply mapping_step|]. intros [off'|[]] s2 H.
    + exact H.
    + destruct H as (_ & _ & F' & Hev). exists F'. by rewrite Z.sub_0_r in Hev.
  - by apply mapping_start.
  - done.
Qed.
End loop.
End map.
