(* ===== verification/HostMmuSpec.v ===== *)
(** * The EL2 stage-1 MMU: mapping, unmapping and bring-up *)
From S2P Require Import Prelude Memory Machine Pmm FreeLists PageAlloc Strings PageTable TableTree.
From S2P Require Import TableUpdate TableStore PageTableSpec WalkSpec MapSpec MmioMap HostMmu.

(** ** A zeroed root is an empty tree *)

Section root.
Context (pt : PageTable) (m : gmap Z Z) (Hc : pt_config pt).
Context (Hroot : m_root pt mod 4096 = 0 ∧ 0 < m_root pt ∧ m_root pt + tsize pt 0 ≤ 2 ^ 48).
Context (Hzero : ∀ x, m_root pt ≤ x < m_root pt + tsize pt 0 → load8 m x = 0).

Lemma root_entry a : in_range pt a → load64 m (slot (m_root pt) (index pt 0 a)) = 0.
Proof.
  intros Ha. destruct (index_bound pt Hc 0 a Ha) as [H1 H2]; [destruct Hc as [[-> _]|[-> _]]; lia|].
  apply load_zero. intros x Hx. apply Hzero. unfold slot in Hx. lia.
Qed.

Lemma root_only n a t : is_table_of pt m n a t → n = 0%nat ∧ t = m_root pt.
Proof.
  intros (_ & Ha & Et). destruct n as [|n]; [simpl in Et; split; congruence|].
  assert (table_at pt m 1 a = None) as Hn by (simpl; by rewrite root_entry).
  rewrite (table_at_none pt m 1 (S n) a) in Et; [done|lia|done].
Qed.

Lemma root_inv : pt_inv pt m.
Proof.
  split; [done|..].
  - intros n a t [-> ->]%root_only. done.
  - intros n a t n' a' t' [-> ->]%root_only [-> ->]%root_only _ _. done.
  - intros n a t _ H. pose proof H as (_ & Ha & _). apply root_only in H as [-> ->].
    cbv zeta. by rewrite root_entry.
  - intros n a t _ H. pose proof H as (_ & Ha & _). apply root_only in H as [-> ->].
    cbv zeta. by rewrite root_entry.
Qed.

Lemma root_bytes x : tree_byte pt m x → m_root pt ≤ x < m_root pt + tsize pt 0.
Proof. intros (n & a & t & [-> ->]%root_only & Hx). done. Qed.

Lemma root_translate a : in_range pt a → translate m pt a = None.
Proof.
  intros Ha. rewrite (translate_at pt m root_inv 0) by (done || (destruct Hc as [[-> _]|[-> _]]; lia)).
  simpl. rewrite root_entry by done. by destruct (3 - _)%nat.
Qed.
End root.

(** Registers and trace play no part in the invariant. *)
Lemma tables_ok_regs `{PA : !PageAllocator AllocPages FreePages} pt s s' F :
  tables_ok pt s F → mc_mem s' = mc_mem s → mc_pmm s' = mc_pmm s →
  tables_ok pt s' F ∧ ∀ b o, pa_block s b o → pa_block s' b o.
Proof.
  intros [HA HI HO HH] Hm Hp. destruct (pa_client s s' F HA Hp) as [H1 H2]; [by rewrite Hm|].
  split; [|done]. split; rewrite ?Hm; done.
Qed.

Section host.
Context `{PA : !PageAllocator AllocPages FreePages}.

Lemma HostMmu_new_spec s F k :
  pa_ok s F → (∀ x, F x → x < 2 ^ 48) → free_pages F (S k) →
  runs HostMmu_new s (λ pt s', ∃ F', tables_ok pt s' F' ∧ (∀ n, free_pages F (S n) → free_pages F' n) ∧
    m_startLevel pt = 0%nat ∧ ialen pt = 48 ∧
    (∀ a, in_range pt a → translate (mc_mem s') pt a = None) ∧ quiet s s' ∧
    (∀ x, F' x → F x) ∧ (∀ x, tree_byte pt (mc_mem s') x → F x) ∧ mem_same_outside F s s').
Proof.
  intros HF Hhi Hk. unfold HostMmu_new. apply runs_bind.
  eapply runs_mono; [by apply (AllocTable_spec s F k)|]. cbv beta.
  intros p s' ((F' & [Hpage Hwas Hok Hfree Htaken Hpg Hblk Hq Hmem]) & Hzero & _). mrun.
  set (pt := MkPageTable p _ _).
  assert (Hc : pt_config pt) by (by left).
  assert (Hts : tsize pt 0 = 4096) by done.
  assert (Hsub : ∀ x, F' x → F x) by (intros x Hx; apply Hfree; by left).
  exists F'. split_and!; [|exact Hpg|done|done| |done|done| |done].
  - split; [done| | |].
    + apply root_inv; rewrite ?Hts; done.
    + intros x Hx%root_bytes; rewrite ?Hts in *; try done. by apply Htaken.
    + intros x Hx. by apply Hhi, Hsub.
  - intros a Ha. apply root_translate; rewrite ?Hts; done.
  - intros x Hx%root_bytes; rewrite ?Hts in *; try done. by apply Hwas.
Qed.

Context (pt : PageTable).

(** A range a caller may map: whole blocks, in the range of both spaces. *)
Definition range_ok (va pa size : Z) : Prop :=
  0 ≤ va ∧ va mod 2 ^ 21 = 0 ∧ 0 ≤ pa ∧ pa mod 2 ^ 21 = 0 ∧ 0 ≤ size ∧ size mod 2 ^ 21 = 0 ∧
  va + size ≤ 2 ^ ialen pt ∧ pa + size ≤ 2 ^ 48.

Lemma ialen_le : ialen pt ≤ 48.
Proof. unfold ialen. case_decide; lia. Qed.

Lemma pow_ialen : 2 ^ ialen pt ≤ 2 ^ 48.
Proof. apply Z.pow_le_mono_r; [lia|apply ialen_le]. Qed.

Lemma MapRange_spec s F va p size flags :
  tables_ok pt s F → range_ok va p size → attr_ok flags → Z.testbit flags 1 = false →
  free_pages F (2 * Z.to_nat (size / 2 ^ 21)) →
  runs (MapRange pt va p size flags) s (λ _ s', ∃ F',
    evolved pt (map_range (translate (mc_mem s) pt) va p size (Z.ldiff flags 3))
      (2 * Z.to_nat (size / 2 ^ 21)) s F s' F').
Proof.
  intros Hok (Hva & Hvm & Hp & Hpm & Hsz & Hsm & Hve & Hpe) Hfl Hf1 Hpg. unfold MapRange.
  pose proof pow_ialen as Hial. apply map_loop; try done.
  - intros s1 off Hoff. unfold MapRange_step. by rewrite decide_False by lia.
  - intros s1 F1 off Hok1 Hpg1 H0 Hend Hal. unfold MapRange_step. rewrite decide_True by lia.
    assert (va ⊞ off = va + off) as -> by (apply Z.mod_small; lia).
    assert (p ⊞ off = p + off) as -> by (apply Z.mod_small; lia).
    assert (Hadd : ∀ x, x mod 2 ^ 21 = 0 → (x + off) mod 2 ^ 21 = 0).
    { intros x Hx. by rewrite Z.add_mod, Hx, Hal by done. }
    apply (map_block_spec pt s1 F1 _ (p + off) flags); auto.
    + unfold in_range. lia.
    + lia.
    + intros e s2 F2 Hg He He' Hmap. unfold st_pte. mrun.
      assert (off ⊞ SIZE_2MB = off + 2 ^ 21) as -> by (apply Z.mod_small; change SIZE_2MB with (2 ^ 21); lia).
      split; [done|]. exists F2. change PTE_BLOCK with 0. rewrite Z.lor_0_r. apply Hmap.
  - unfold for_fuel. change SIZE_2MB with (2 ^ 21). lia.
Qed.

(** ** The whole self-map *)

Definition host_attrs : Z := Z.ldiff (Z.lor PTE_NORMAL PTE_AP_RW) 3.
Definition device_attrs : Z := Z.ldiff PTE_DEVICE 3.

(** Later windows win over earlier ones and over the normal map. *)
Definition device_map (f : Z → option (Z * Z)) (devices : MmioMap) : Z → option (Z * Z) :=
  fold_left (λ f w, map_range f (base w) (pa w) (size w) device_attrs) devices f.

Definition window_ok (w : MmioWindow) : Prop := range_ok (base w) (pa w) (size w).
Definition window_pages (devices : MmioMap) : nat :=
  sum_list ((λ w, 2 * Z.to_nat (size w / 2 ^ 21))%nat <$> devices).

Lemma device_map_ext f g devices a : f a = g a → device_map f devices a = device_map g devices a.
Proof.
  unfold device_map. revert f g. induction devices as [|w ws IH]; intros f g E; [done|]. simpl.
  apply IH. by apply map_range_ext.
Qed.

Lemma map_devices_spec devices : ∀ s F,
  tables_ok pt s F → Forall window_ok devices → free_pages F (window_pages devices) →
  runs (map_devices pt devices) s (λ _ s', ∃ F',
    evolved pt (device_map (translate (mc_mem s) pt) devices) (window_pages devices) s F s' F').
Proof.
  induction devices as [|w ws IH]; intros s F Hok Hws Hpg; cbn [map_devices].
  - mrun. exists F. by apply grown_refl.
  - apply Forall_cons_1 in Hws as [Hw Hws]. apply runs_bind.
    change (window_pages (w :: ws)) with (2 * Z.to_nat (size w / 2 ^ 21) + window_pages ws)%nat in *.
    eapply runs_mono.
    { apply (MapRange_spec s F _ _ _ PTE_DEVICE); try done. eapply free_pages_le, Hpg. lia. }
    cbv beta. intros [] s1 (F1 & H1). eapply runs_mono.
    { apply (IH s1 F1); [apply (gr_ok _ _ _ _ _ _ _ H1)|done|].
      apply (gr_pages _ _ _ _ _ _ _ H1), Hpg. }
    cbv beta. intros [] s2 (F2 & H2). exists F2.
    eapply evolved_ext; [|by eapply evolved_trans]. intros a Ha. simpl. apply device_map_ext.
    by apply (gr_translate _ _ _ _ _ _ _ H1).
Qed.

Lemma host_attr_ok : attr_ok (Z.lor PTE_NORMAL PTE_AP_RW).
Proof. unfold attr_ok, fits. split_and!; done. Qed.

Lemma device_attr_ok : attr_ok PTE_DEVICE.
Proof. unfold attr_ok, fits. split_and!; done. Qed.

(** What [Enable] leaves in the registers. *)
Definition sctlr_on (v : Z) : Z := Z.lor v (Z.lor (Z.lor (1 ≪ 0) (1 ≪ 2)) (1 ≪ 12)).

Lemma Enable_spec s F devices :
  tables_ok pt s F → m_startLevel pt = 0%nat → Forall window_ok devices →
  free_pages F (2 * Z.to_nat 8192 + window_pages devices) →
  runs (Enable pt devices) s (λ _ s', ∃ F' evs, tables_ok pt s' F' ∧
    (∀ a, in_range pt a → translate (mc_mem s') pt a =
      device_map (map_range (translate (mc_mem s) pt) 0 0 (2 ^ 34) host_attrs) devices a) ∧
    mc_sys s' MAIR_EL2 = mair_value ∧ mc_sys s' TCR_EL2 = tcr_value ∧
    mc_sys s' TTBR0_EL2 = m_root pt ∧ mc_sys s' SCTLR_EL2 = sctlr_on (mc_sys s SCTLR_EL2) ∧
    mc_trace s' = mc_trace s ++ [EvMsr MAIR_EL2 mair_value; EvMsr TCR_EL2 tcr_value; EvIsb] ++ evs ++
      [EvMsr TTBR0_EL2 (m_root pt); EvDsbIshst; EvIsb;
       EvMsr SCTLR_EL2 (sctlr_on (mc_sys s SCTLR_EL2)); EvIsb] ∧
    (∀ x, F' x → F x) ∧ (∀ x, tree_byte pt (mc_mem s') x → tree_byte pt (mc_mem s) x ∨ F x) ∧
    mem_same_outside (λ x, F x ∨ tree_byte pt (mc_mem s) x) s s' ∧
    ∀ n, free_pages F (2 * Z.to_nat 8192 + window_pages devices + n) → free_pages F' n).
Proof.
  intros Hok Hl Hws Hpg. unfold Enable. mrun.
  set (s1 := set_trace _ _).
  destruct (tables_ok_regs pt s s1 F Hok eq_refl eq_refl) as [Hok1 _].
  eapply runs_mono.
  { apply (MapRange_spec s1 F HV_VA_BASE HV_VA_BASE HV_VA_SIZE _ Hok1); try done.
    - unfold range_ok, ialen. rewrite Hl. simpl. split_and!; done.
    - eapply free_pages_le, Hpg. change (Z.to_nat (HV_VA_SIZE / 2 ^ 21)) with (Z.to_nat 8192). lia. }
  cbv beta. change (Z.to_nat (HV_VA_SIZE / 2 ^ 21)) with (Z.to_nat 8192). intros [] s2 (F2 & H2).
  apply runs_bind. eapply runs_mono.
  { apply (map_devices_spec devices s2 F2); [apply (gr_ok _ _ _ _ _ _ _ H2)|done|].
    apply (gr_pages _ _ _ _ _ _ _ H2). eapply free_pages_le, Hpg. lia. }
  cbv beta. intros [] s3 (F3 & H3). pose proof (evolved_trans _ _ _ _ _ _ _ _ _ _ _ H2 H3) as H23. mrun. fold (sctlr_on (mc_sys s3 SCTLR_EL2)).
  destruct (gr_quiet _ _ _ _ _ _ _ H2) as [_ Hsys2 [e2 Htr2]].
  destruct (gr_quiet _ _ _ _ _ _ _ H3) as [_ Hsys3 [e3 Htr3]].
  match goal with |- ∃ F' evs, tables_ok pt ?s4 F' ∧ _ => set (s' := s4) end.
  destruct (tables_ok_regs pt s3 s' F3 (gr_ok _ _ _ _ _ _ _ H3) eq_refl eq_refl) as [Hok' _].
  assert (Hsc : mc_sys s3 SCTLR_EL2 = mc_sys s SCTLR_EL2) by (by rewrite Hsys3, Hsys2).
  exists F3, (e2 ++ e3). split_and!.
  - done.
  - intros a Ha. change (mc_mem s') with (mc_mem s3).
    rewrite (gr_translate _ _ _ _ _ _ _ H3 a Ha). apply device_map_ext.
    by rewrite (gr_translate _ _ _ _ _ _ _ H2 a Ha).
  - change (mc_sys s3 MAIR_EL2 = mair_value). by rewrite Hsys3, Hsys2.
  - change (mc_sys s3 TCR_EL2 = tcr_value). by rewrite Hsys3, Hsys2.
  - done.
  - change (sctlr_on (mc_sys s3 SCTLR_EL2) = sctlr_on (mc_sys s SCTLR_EL2)). by rewrite Hsc.
  - simpl. rewrite Htr3, Htr2. simpl.
    change (<[TTBR0_EL2:=m_root pt]> (mc_sys s3) SCTLR_EL2) with (mc_sys s3 SCTLR_EL2).
    rewrite Hsc, <-!app_assoc. done.
  - apply (gr_free _ _ _ _ _ _ _ H23).
  - apply (gr_bytes _ _ _ _ _ _ _ H23).
  - apply (gr_mem _ _ _ _ _ _ _ H23).
  - intros n Hn. apply (gr_pages _ _ _ _ _ _ _ H23). eapply free_pages_le, Hn. lia.
Qed.

(** ** Unmapping *)

Abbreviation lvl n := (m_startLevel pt + n)%nat.

(** Without allocation the walk is a lookup. *)
Lemma Walk_levels_lookup n : ∀ s d a t,
  (lvl d + n)%nat = 2%nat → pt_inv pt (mc_mem s) → is_table_of pt (mc_mem s) d a t →
  Walk_levels pt a false (lvl d) n t s = Done (table_at pt (mc_mem s) (d + n) a) s.
Proof.
  induction n as [|n IH]; intros s d a t Hl HI Ht; cbn [Walk_levels].
  - rewrite Nat.add_0_r. destruct Ht as (_ & _ & ->). done.
  - cbv zeta.
    assert (Z.land (a ≫ levelShift (lvl d))
      (if decide (lvl d = m_startLevel pt) then m_rootIndexMask pt else 0x1FF) = index pt d a) as ->.
    { unfold index, shift. destruct (decide (d = 0%nat)) as [->|];
        [by rewrite decide_True by lia|by rewrite decide_False by lia]. }
    unfold mbind, M_bind, ld64, gets. pose proof Ht as (_ & Ha & Et).
    assert (Hnext : table_at pt (mc_mem s) (S d) a =
      if pte_is_table (load64 (mc_mem s) (slot t (index pt d a)))
      then Some (pte_next_table (load64 (mc_mem s) (slot t (index pt d a)))) else None)
      by (simpl; by rewrite Et).
    pose proof (pi_valid _ _ HI d a t ltac:(lia) Ht) as Hval. cbv zeta in Hval.
    destruct (pte_is_valid (load64 (mc_mem s) (slot t (index pt d a)))) eqn:Ev.
    + rewrite (Hval eq_refl) in Hnext. replace (S (lvl d)) with (lvl (S d)) by lia.
      rewrite (IH s (S d) a); [by rewrite Nat.add_succ_r|lia|done|].
      split_and!; [lia|done|done].
    + simpl negb. cbv iota. unfold mret, M_ret. f_equal. symmetry.
      apply (table_at_none pt _ (S d)); [lia|]. rewrite Hnext, is_table_bits.
      rewrite land_valid in Ev. by rewrite Ev.
Qed.

Lemma Walk_lookup s a : pt_inv pt (mc_mem s) → in_range pt a →
  Walk pt a false s = Done (entry_at pt (mc_mem s) (depth2 pt) a) s.
Proof.
  intros HI Ha. pose proof (pi_config _ _ HI) as Hc. destruct (depth2_lvl pt Hc) as [E2 Hd].
  unfold Walk. replace (m_startLevel pt) with (lvl 0) at 1 by lia. fold (depth2 pt).
  unfold mbind, M_bind. rewrite (Walk_levels_lookup (depth2 pt) s 0 a); [|lia|done|split_and!; [lia|done|done]].
  unfold mret, M_ret, entry_at. simpl. f_equal. destruct (table_at pt (mc_mem s) (depth2 pt) a); [|done].
  f_equal. unfold L2_INDEX, index, shift. rewrite E2, decide_False by lia. done.
Qed.

Definition unmapped (f : Z → option (Z * Z)) (va len a : Z) : option (Z * Z) :=
  if decide (va ≤ a < va + len) then None else f a.

(** [off] bytes are unmapped; the tables above level 2 are the ones of the start. *)
Definition unmapping (s : machine) (F : Z → Prop) (va n : Z) (k : nat) (off : Z) (s1 : machine) : Prop :=
  off = (n - Z.of_nat k) * 2 ^ 21 ∧ Z.of_nat k ≤ n ∧
  (∀ a, in_range pt a → table_at pt (mc_mem s1) (depth2 pt) a = table_at pt (mc_mem s) (depth2 pt) a) ∧
  evolved pt (unmapped (translate (mc_mem s) pt) va off) 0 s F s1 F.

Lemma UnmapRange_step_spec s F va size : 
  0 ≤ va → va mod 2 ^ 21 = 0 → 0 ≤ size → size mod 2 ^ 21 = 0 → va + size ≤ 2 ^ ialen pt →
  (∀ a, va ≤ a < va + size → table_at pt (mc_mem s) (depth2 pt) a ≠ None) → ∀ k off s1,
  unmapping s F va (size / 2 ^ 21) k off s1 →
  runs (UnmapRange_step pt va size off) s1 (λ r s2,
    match r with
    | inl off' => ∃ k', (k' < k)%nat ∧ unmapping s F va (size / 2 ^ 21) k' off' s2
    | inr _ => unmapping s F va (size / 2 ^ 21) 0 size s2
    end).
Proof.
  intros Hva Hvm Hsz Hsm Hve Hpres k off s1 (Eoff & Hk & Htab & Hev).
  set (n := size / 2 ^ 21) in *. pose proof pow_ialen as Hial.
  assert (Hn : size = n * 2 ^ 21) by (pose proof (Z.div_mod size (2 ^ 21)); lia).
  pose proof (gr_ok _ _ _ _ _ _ _ Hev) as Hok1. pose proof (tk_inv _ _ _ Hok1) as HI1.
  pose proof (pi_config _ _ HI1) as Hc. destruct (depth2_lvl pt Hc) as [E2 _].
  unfold UnmapRange_step. destruct k as [|k].
  { rewrite decide_False by lia. mrun. replace size with off by lia. split_and!; [done|lia|done|done]. }
  rewrite decide_True by lia.
  assert (Ha : in_range pt (va + off)) by (unfold in_range; lia).
  assert (va ⊞ off = va + off) as -> by (apply Z.mod_small; lia).
  assert (off ⊞ SIZE_2MB = off + 2 ^ 21) as -> by (apply Z.mod_small; change SIZE_2MB with (2 ^ 21); lia).
  apply runs_bind. eapply runs_of_eq; [by apply Walk_lookup|]. cbv beta. unfold entry_at.
  destruct (table_at pt (mc_mem s1) (depth2 pt) (va + off)) as [t|] eqn:Et.
  2: { exfalso. apply (Hpres (va + off)); [lia|]. by rewrite <-Htab. }
  assert (Ht : is_table_of pt (mc_mem s1) (depth2 pt) (va + off) t) by (split_and!; [lia|done|done]).
  unfold st_pte, TlbFlushVa. mrun. rewrite !set_trace_app.
  exists k. split; [lia|]. split_and!; [lia|lia| |].
  - intros a Hin. simpl. rewrite <-Htab by done. apply (table_at_other pt (mc_mem s1) HI1 _ _ _ 0 Ht); [done|lia|done|by left].
  - eapply (evolved_ext pt); [|eapply (evolved_trans pt _ _ 0 0); [exact Hev|]].
    2: { apply (store_leaf pt s1 F (depth2 pt) (va + off) t 0); try done. lia. }
    intros b Hb. cbv beta. unfold ekey, shift. rewrite E2. change (levelShift 2) with 21.
    assert (Hal : (va + off) mod 2 ^ 21 = 0) by (rewrite Eoff, Z.mod_add by done; done).
    rewrite (decide_ext (b ≫ 21 = (va + off) ≫ 21) (va + off ≤ b < va + off + 2 ^ 21))
      by (by apply same_block).
    unfold unmapped, leaf_tr. rewrite (gr_translate _ _ _ _ _ _ _ Hev b Hb). unfold unmapped.
    rewrite (decide_True (P := lvl (depth2 pt) = 2%nat)) by done.
    repeat case_decide; try done; lia.
Qed.

Lemma UnmapRange_spec s F va size :
  tables_ok pt s F → 0 ≤ va → va mod 2 ^ 21 = 0 → 0 ≤ size → size mod 2 ^ 21 = 0 → va + size ≤ 2 ^ ialen pt →
  (∀ a, va ≤ a < va + size → table_at pt (mc_mem s) (depth2 pt) a ≠ None) →
  runs (UnmapRange pt va size) s (λ _ s',
    evolved pt (unmapped (translate (mc_mem s) pt) va size) 0 s F s' F).
Proof.
  intros Hok Hva Hvm Hsz Hsm Hve Hpres. unfold UnmapRange.
  eapply (runs_loop (unmapping s F va (size / 2 ^ 21))).
  - intros k off s1 HI. eapply runs_mono; [by apply (UnmapRange_step_spec s F)|]. intros [off'|[]] s2 H.
    + exact H.
    + apply H.
  - pose proof (Z.div_pos size (2 ^ 21)). unfold unmapping. rewrite (Z2Nat.id (size / 2 ^ 21)) by lia.
    split_and!; [lia|lia|done|]. eapply evolved_ext; [|by apply grown_refl].
    intros a Ha. unfold unmapped. by rewrite decide_False by lia.
  - unfold for_fuel. change SIZE_2MB with (2 ^ 21). lia.
Qed.
End host.
