(* ===== verification/GuestMmu.v ===== *)
(** * The per-guest stage-2 MMU (core/mm/mmu/guestMmu) *)
From S2P Require Import Prelude Memory Machine Pmm Strings PageTable MmioMap HostMmu.

Definition S2PTE_S2AP_RW : Z := 3 ≪ 6.
Definition S2PTE_MEMATTR_DEVICE_nGnRnE : Z := 0x0 ≪ 2.
Definition S2PTE_MEMATTR_NORMAL_WB : Z := 0xF ≪ 2.
Definition S2PTE_SH_INNER : Z := 3 ≪ 8.
Definition S2PTE_XN_NONE : Z := 0 ≪ 53.
Definition S2PTE_XN_ALL : Z := 2 ≪ 53.

Definition kStage2StartLevel : nat := 1.
Definition kStage2T0sz : Z := 24.
Definition kStage2RootSize : Z := PAGE_SIZE * 2.
Definition kStage2RootIndexMask : Z := 0x3FF.

(** [VTCR_T0SZ(24) | SL0_L1 | TG0_4K | SH0_IS | ORGN0_WB | IRGN0_WB | PS_40BIT | RES1] *)
Definition vtcr_value : Z :=
  Z.lor (Z.lor (Z.lor (Z.lor (Z.lor (Z.lor (Z.lor
    (Z.land kStage2T0sz 0x3F) (1 ≪ 6)) (0 ≪ 14)) (3 ≪ 12)) (1 ≪ 10)) (1 ≪ 8)) (2 ≪ 16)) (1 ≪ 31).

(** [m_rootTable] mirrors [m_rootTableOwner]; both are the root of [m_table]. *)
Record GuestMmu : Set := MkGuestMmu {
  m_rootTable : Z;
  m_vmid : Z;
  m_table : PageTable;
}.

Definition buildStage2BlockDescriptor (pa : Z) (isDevice : bool) : Z :=
  let memAttr := if isDevice then S2PTE_MEMATTR_DEVICE_nGnRnE else S2PTE_MEMATTR_NORMAL_WB in
  let xn := if isDevice then S2PTE_XN_ALL else S2PTE_XN_NONE in
  Z.lor (Z.lor (Z.lor (Z.lor (Z.lor (Z.lor (Z.lor (Z.land pa PTE_ADDR_MASK) PTE_VALID) PTE_BLOCK)
    PTE_AF) S2PTE_SH_INNER) S2PTE_S2AP_RW) memAttr) xn.

Definition buildStage2PageDescriptor (pa : Z) (isDevice : bool) : Z :=
  Z.lor (buildStage2BlockDescriptor pa isDevice) PTE_TABLE.

Definition allocStage2RootTable : M machine Z :=
  pa ← AllocPages 1;
  if decide (pa = 0) then wfe_forever "[GuestMmu][ERROR] failed to allocate stage-2 root"
  else
    memset pa 0 kStage2RootSize;;
    CleanDataCacheRange pa kStage2RootSize;;
    mret pa.

(** [for (uint64_t i {}; i < SIZE_2MB / SIZE_4KB; ++i) l3[i] = (base + i * SIZE_4KB) | attributes] *)
Fixpoint fill_l3 (l3 b attributes i : Z) (n : nat) : M machine unit :=
  match n with
  | O => mret tt
  | S n' =>
      st64 (slot l3 i) (Z.lor (b ⊞ i ⊠ SIZE_4KB) attributes);;
      fill_l3 l3 b attributes (i + 1) n'
  end.

Definition split_block (l2 l3 block : Z) : M machine unit :=
  let b := Z.land block PTE_ADDR_MASK in
  let attributes := Z.lor (Z.land block (not64 PTE_ADDR_MASK)) PTE_TABLE in
  fill_l3 l3 b attributes 0 (Z.to_nat (SIZE_2MB / SIZE_4KB));;
  CleanDataCacheRange l3 SIZE_4KB;;
  st_pte l2 0;;
  CleanDataCacheRange l2 8;;
  emit EvDsbIsh;;
  hcr ← mrs HCR_EL2;
  when (bool_decide (Z.land hcr 1 ≠ 0))
    (emit EvTlbiVmalls12e1is;; emit EvDsbIsh;; emit EvIsb).

Definition walkL3 (table : PageTable) (ipa : Z) : M machine (option Z) :=
  l2 ← Walk table ipa true;
  match l2 with
  | None => mret None
  | Some l2 =>
      entry ← ld64 l2;
      when (negb (pte_is_table entry))
        (l3 ← AllocTable;
         when (pte_is_block entry) (split_block l2 l3 entry);;
         st_pte l2 (Z.lor (Z.lor l3 PTE_VALID) PTE_TABLE);;
         CleanDataCacheRange l2 8);;
      entry ← ld64 l2;
      if negb (pte_is_table entry) then mret None
      else mret (Some (slot (pte_next_table entry) (L3_INDEX ipa)))
  end.

Definition MapBlock (m_table : PageTable) (ipa pa : Z) (isDevice : bool) : M machine unit :=
  pte ← Walk m_table ipa true;
  match pte with
  | None => mret tt
  | Some pte =>
      st_pte pte (buildStage2BlockDescriptor pa isDevice);;
      CleanDataCacheRange pte 8
  end.

Definition MapPage (m_table : PageTable) (ipa pa : Z) (isDevice : bool) : M machine unit :=
  pte ← walkL3 m_table ipa;
  match pte with
  | None => mret tt
  | Some pte =>
      st_pte pte (buildStage2PageDescriptor pa isDevice);;
      CleanDataCacheRange pte 8
  end.

Definition ram_step (m_table : PageTable) (ipaBase hostPaBase sizeBytes off : Z) :
    M machine (Z + unit) :=
  if decide (off < sizeBytes) then
    MapBlock m_table (ipaBase ⊞ off) (hostPaBase ⊞ off) false;;
    mret (inl (off ⊞ SIZE_2MB))
  else mret (inr tt).

Definition window_step (m_table : PageTable) (window : MmioWindow) (off : Z) : M machine (Z + unit) :=
  let granule := if byPage window then SIZE_4KB else SIZE_2MB in
  if decide (off < size window) then
    (if byPage window then MapPage m_table (base window ⊞ off) (pa window ⊞ off) true
     else MapBlock m_table (base window ⊞ off) (pa window ⊞ off) true);;
    mret (inl (off ⊞ granule))
  else mret (inr tt).

Fixpoint map_windows (m_table : PageTable) (devices : MmioMap) : M machine unit :=
  match devices with
  | [] => mret tt
  | window :: rest =>
      loop (for_fuel (size window) (if byPage window then SIZE_4KB else SIZE_2MB))
        (window_step m_table window) 0;;
      map_windows m_table rest
  end.

Definition GuestMmu_new (ipaBase hostPaBase sizeBytes : Z) (devices : MmioMap) : M machine GuestMmu :=
  root ← allocStage2RootTable;
  let table := MkPageTable root kStage2StartLevel kStage2RootIndexMask in
  msr VTCR_EL2 vtcr_value;;
  emit EvIsb;;
  loop (for_fuel sizeBytes SIZE_2MB) (ram_step table ipaBase hostPaBase sizeBytes) 0;;
  map_windows table devices;;
  emit EvDsbIshst;;
  mret (MkGuestMmu root 0 table).

Definition TlbFlushAllGuest : M machine unit :=
  emit EvTlbiVmalls12e1is;; emit EvDsbIsh;; emit EvIsb.

Definition Enable (g : GuestMmu) (vmid : Z) : M machine GuestMmu :=
  let rootPa := m_rootTable g in
  let vttbr := Z.lor (u64 (vmid ≪ 48)) (Z.land rootPa PTE_ADDR_MASK) in
  emit EvDsbIsh;;
  msr VTTBR_EL2 vttbr;;
  emit EvIsb;;
  hcr ← mrs HCR_EL2;
  msr HCR_EL2 (Z.lor hcr (1 ≪ 0));;
  emit EvIsb;;
  TlbFlushAllGuest;;
  mret (MkGuestMmu (m_rootTable g) vmid (m_table g)).

(** [~GuestMmu]: the deleter gives back the root; tables below it stay allocated. *)
Definition GuestMmu_delete (g : GuestMmu) : M machine unit :=
  if decide (m_rootTable g ≠ 0) then FreePages (m_rootTable g) 1 else mret tt.
