(* ===== verification/WalkL3.v ===== *)
(** * The level 3 walk of the guest MMU: splitting a block keeps every translation *)
From S2P Require Import Prelude Memory Machine Pmm FreeLists PageAlloc Strings PageTable TableTree.
From S2P Require Import TableUpdate TableStore PageTableSpec WalkSpec MapSpec MmioMap HostMmu.
From S2P Require Import GuestMmu.

(** ** Filling the new level 3 table *)

Definition l3_entry (b attributes i : Z) : Z := Z.lor (b ⊞ i ⊠ SIZE_4KB) attributes.

Lemma fill_l3_spec n : ∀ s l3 b attrs i,
  0 ≤ i → i + Z.of_nat n ≤ 512 → (∀ j, fits 64 (l3_entry b attrs j)) →
  ∃ m', fill_l3 l3 b attrs i n s = Done tt (set_mem (λ _, m') s) ∧
    (∀ x, ¬ (slot l3 i ≤ x < slot l3 (i + Z.of_nat n)) → load8 m' x = load8 (mc_mem s) x) ∧
    (∀ j, i ≤ j < i + Z.of_nat n → load64 m' (slot l3 j) = l3_entry b attrs j).
Proof.
  induction n as [|n IH]; intros s l3 b attrs i Hi Hn Hf; cbn [fill_l3].
  - exists (mc_mem s). split_and!; [by destruct s|done|lia].
  - unfold mbind, M_bind, st64, modify.
    destruct (IH (set_mem (λ m, store64 m (slot l3 i) (l3_entry b attrs i)) s) l3 b attrs (i + 1))
      as (m' & E & Hout & Hin); [lia|lia|done|].
    exists m'. split_and!.
    + etransitivity; [exact E|]. by destruct s.
    + intros x Hx. rewrite Hout by (unfold slot in *; lia). simpl. apply store_frame. unfold slot in *. lia.
    + intros j Hj. destruct (decide (j = i)) as [->|Hne]; [|apply Hin; lia].
      rewrite (load_agree 8 m' (store64 (mc_mem s) (slot l3 i) (l3_entry b attrs i))).
      * by apply (load_store_eq_fits 8).
      * intros x Hx. apply Hout. unfold slot in *. lia.
Qed.

(** ** The entries of a split block map what the block mapped *)

Section split.
Context (block : Z) (Hb : fits 64 block) (Hblk : pte_is_block block = true).
Context (Hal : Z.land block PTE_ADDR_MASK mod 2 ^ 21 = 0).

Definition split_attrs : Z := Z.lor (Z.land block (not64 PTE_ADDR_MASK)) PTE_TABLE.

Lemma split_attrs_mask : Z.land split_attrs PTE_ADDR_MASK = 0.
Proof.
  apply Z.bits_inj'. intros i Hi. unfold split_attrs.
  rewrite Z.land_spec, Z.lor_spec, Z.land_spec, not64_bit, Z.bits_0 by done.
  destruct (decide (i < 12)) as [Hl|Hl].
  - assert (Z.testbit PTE_ADDR_MASK i = false) as ->; [|apply andb_false_r].
    change PTE_ADDR_MASK with ((2 ^ 36 - 1) * 2 ^ 12). rewrite Z.mul_pow2_bits_low by lia. done.
  - assert (Z.testbit PTE_TABLE i = false) as ->.
    { change PTE_TABLE with (2 ^ 1). apply Z.pow2_bits_false. lia. }
    rewrite orb_false_r. destruct (Z.testbit PTE_ADDR_MASK i); [|apply andb_false_r].
    by rewrite !andb_false_r.
Qed.

Lemma split_attrs_bits : Z.testbit split_attrs 0 = true ∧ Z.testbit split_attrs 1 = true.
Proof.
  rewrite is_block_bits in Hblk. apply andb_prop in Hblk as [H0 _].
  unfold split_attrs. rewrite !Z.lor_spec, !Z.land_spec, H0. split; [done|apply orb_true_r].
Qed.

Lemma split_attrs_leaf : Z.ldiff split_attrs 3 = leaf_attrs block.
Proof.
  apply Z.bits_inj'. intros i Hi. unfold split_attrs, leaf_attrs.
  rewrite !Z.ldiff_spec, !Z.lor_spec, Z.land_spec, not64_bit by done.
  change PTE_TABLE with (2 ^ 1). rewrite Z.pow2_bits_eqb by done.
  destruct (Z.eqb_spec 1 i) as [<-|Hne]; [simpl; by rewrite !andb_false_r|].
  rewrite orb_false_r. case_bool_decide; simpl.
  - destruct (Z.testbit block i), (Z.testbit PTE_ADDR_MASK i), (Z.testbit 3 i); done.
  - by rewrite high_bit by (unfold fits in Hb; lia).
Qed.

Lemma split_attrs_fits : fits 64 split_attrs.
Proof.
  assert (E : split_attrs = split_attrs mod 2 ^ 64); [|rewrite E; apply Z.mod_pos_bound; done].
  symmetry. apply Z.bits_inj'. intros i Hi. destruct (decide (i < 64)).
  - by rewrite Z.mod_pow2_bits_low by lia.
  - rewrite Z.mod_pow2_bits_high by lia. unfold split_attrs.
    rewrite Z.lor_spec, Z.land_spec, high_bit by (unfold fits in Hb; lia). change PTE_TABLE with (2 ^ 1).
    by rewrite Z.pow2_bits_false by lia.
Qed.

Lemma block_base_bounds : 0 ≤ Z.land block PTE_ADDR_MASK ∧ Z.land block PTE_ADDR_MASK + 2 ^ 21 ≤ 2 ^ 48.
Proof.
  assert (H0 : 0 ≤ Z.land block PTE_ADDR_MASK) by (apply Z.land_nonneg; right; done).
  split; [done|]. apply Z.mod_divide in Hal as [q Hq]; [|done]. rewrite Hq in *.
  assert (q * 2 ^ 21 < 2 ^ 48); [|change (2 ^ 48) with (2 ^ 27 * 2 ^ 21) in *; lia].
  rewrite <-Hq, land_addr_mask. pose proof (Z.mod_pos_bound block (2 ^ 48)).
  pose proof (Z.mod_pos_bound block (2 ^ 12)). lia.
Qed.

Lemma l3_entry_eq i : 0 ≤ i < 512 →
  l3_entry (Z.land block PTE_ADDR_MASK) split_attrs i =
  Z.lor (Z.land (Z.land block PTE_ADDR_MASK + i * 4096) PTE_ADDR_MASK) split_attrs.
Proof.
  intros Hi. pose proof block_base_bounds as Hbb. unfold l3_entry. f_equal.
  change SIZE_4KB with 4096.
  assert (i ⊠ 4096 = i * 4096) as -> by (apply Z.mod_small; lia).
  unfold u64. rewrite Z.mod_small by lia. symmetry. apply addr_mask_id; [lia|].
  rewrite Z.mod_add by done. apply Z.mod_divide; [done|]. apply Z.mod_divide in Hal; [|done].
  etransitivity; [|exact Hal]. by exists 512.
Qed.

Lemma l3_entry_fits j : fits 64 (l3_entry (Z.land block PTE_ADDR_MASK) split_attrs j).
Proof.
  unfold l3_entry. set (x := _ ⊞ _). assert (Hx : fits 64 x) by (apply Z.mod_pos_bound; done).
  pose proof split_attrs_fits as Ha. unfold fits in *.
  assert (E : Z.lor x split_attrs = Z.lor x split_attrs mod 2 ^ 64); [|rewrite E; apply Z.mod_pos_bound; done].
  symmetry. apply Z.bits_inj'. intros i Hi. destruct (decide (i < 64)).
  - by rewrite Z.mod_pow2_bits_low by lia.
  - by rewrite Z.mod_pow2_bits_high, Z.lor_spec, !high_bit by lia.
Qed.

Lemma split_entry_maps b : 
  let i := Z.land (b ≫ 12) 0x1FF in
  let e := l3_entry (Z.land block PTE_ADDR_MASK) split_attrs i in
  Z.testbit e 0 && Z.testbit e 1 = true ∧
  leaf_out e b 12 = leaf_out block b 21 ∧ leaf_attrs e = leaf_attrs block.
Proof.
  cbv zeta.
  assert (Ei : Z.land (b ≫ 12) 0x1FF = (b / 2 ^ 12) mod 512).
  { rewrite Z.shiftr_div_pow2 by done. by apply (Z.land_ones _ 9). }
  rewrite Ei. set (i := (b / 2 ^ 12) mod 512). assert (Hi : 0 ≤ i < 512) by (by apply Z.mod_pos_bound).
  rewrite l3_entry_eq by done. pose proof block_base_bounds as Hbb.
  set (x := Z.land block PTE_ADDR_MASK + i * 4096).
  assert (Hxm : x mod 2 ^ 12 = 0).
  { unfold x. change (2 ^ 12) with 4096. rewrite Z.mod_add by done. apply Z.mod_divide; [done|].
    apply Z.mod_divide in Hal; [|done]. etransitivity; [|exact Hal]. by exists 512. }
  assert (Hx : Z.land x PTE_ADDR_MASK = x) by (apply addr_mask_id; [unfold x; lia|done]).
  destruct split_attrs_bits as [H0 H1]. split_and!.
  - by rewrite !Z.lor_spec, H0, H1, !orb_true_r.
  - destruct (leaf_desc x split_attrs 12) as [-> _]; [done|apply split_attrs_mask|by rewrite Hx|].
    rewrite Hx. unfold leaf_out. rewrite ldiff_ones, Hal, Z.sub_0_r by done. unfold x.
    assert (b mod 2 ^ 21 = i * 4096 + b mod 2 ^ 12); [|lia].
    change (2 ^ 21) with (2 ^ 12 * 512). rewrite Z.rem_mul_r by done. fold i. change (2 ^ 12) with 4096. lia.
  - destruct (leaf_desc x split_attrs 12) as [_ ->]; [done|apply split_attrs_mask|by rewrite Hx|].
    apply split_attrs_leaf.
Qed.
End split.

Section link.
Context `{PA : !PageAllocator AllocPages FreePages} (pt : PageTable).
Abbreviation lvl n := (m_startLevel pt + n)%nat.

(** What the contents of a level 3 table at [p] give. *)
Definition l3_tr (m : gmap Z Z) (p b : Z) : option (Z * Z) :=
  let e := load64 m (slot p (Z.land (b ≫ 12) 0x1FF)) in
  if Z.testbit e 0 && Z.testbit e 1 then Some (leaf_out e b 12, leaf_attrs e) else None.

(** Below the entry of a linked level 3 table its own entries decide. *)
Lemma linked_l3 m a t p v b (Hv1 : pte_is_table v = true) (Hv2 : pte_next_table v = p) (Hv3 : fits 64 v) :
  pt_inv pt m → is_table_of pt m (depth2 pt) a t → (∀ x, p ≤ x < p + 4096 → ¬ tree_byte pt m x) →
  pt_inv pt (store64 m (slot t (index pt (depth2 pt) a)) v) → in_range pt b → ekey pt (depth2 pt) b = ekey pt (depth2 pt) a →
  translate (store64 m (slot t (index pt (depth2 pt) a)) v) pt b = l3_tr m p b.
Proof.
  intros HI Ht Hfresh HI' Hb E. pose proof (pi_config _ _ HI) as Hc. destruct (depth2_lvl pt Hc) as [E2 _].
  rewrite translate_l2 by done. pose proof Ht as (Hn & Ha & Et).
  rewrite (table_at_other pt m HI _ a t v Ht Hv3) by (auto || lia).
  rewrite (table_at_key pt Hc m _ b a) by (done || by apply ekey_tkey). rewrite Et. cbv zeta.
  rewrite (ekey_index pt Hc _ b a), (load_store_eq_fits 8) by done.
  rewrite is_table_bits in Hv1. apply andb_prop in Hv1 as [H0 H1]. rewrite H0, H1. cbn [negb].
  unfold pte_next_table in Hv2. rewrite Hv2, index3 by done. unfold l3_tr.
  assert (Hl : load64 (store64 m (slot t (index pt (depth2 pt) a)) v) (slot p (Z.land (b ≫ 12) 511)) =
    load64 m (slot p (Z.land (b ≫ 12) 511))); [|by rewrite Hl].
  apply (fresh_load pt m HI (depth2 pt) a t v Ht p); [lia|done|lia|].
  change 511 with (Z.ones 9). rewrite Z.land_ones by done. by apply Z.mod_pos_bound.
Qed.

(** Hanging a level 3 table, already filled, under a level 2 entry that is no table. *)
Lemma link_l3 s F a t p s1 F1 m2 s4 :
  tables_ok pt s F → is_table_of pt (mc_mem s) (depth2 pt) a t →
  let e := slot t (index pt (depth2 pt) a) in
  pte_is_table (load64 (mc_mem s) e) = false →
  fresh_page s F p s1 F1 →
  (∀ x, ¬ (p ≤ x < p + 4096) → load8 m2 x = load8 (mc_mem s1) x) →
  mc_mem s4 = store64 m2 e (Z.lor (Z.lor p PTE_VALID) PTE_TABLE) →
  mc_pmm s4 = mc_pmm s1 → quiet s1 s4 →
  (∀ b, in_range pt b → ekey pt (depth2 pt) b = ekey pt (depth2 pt) a →
    l3_tr m2 p b = translate (mc_mem s) pt b) →
  grown pt 1 s F s4 F1 ∧ is_table_of pt (mc_mem s4) (S (depth2 pt)) a p.
Proof.
  intros [HA HI HO HH] Ht e Hold Hfp Hm2 Hm4 Hp4 Hq4 Htr.
  pose proof (depth2_lvl pt (pi_config _ _ HI)) as [E2 _].
  destruct Hfp as [Hpage Hwas Hok Hfree Htaken Hpg Hblk Hq Hmem].
  assert (Hsep : ∀ x, tree_byte pt (mc_mem s) x → ¬ (p ≤ x < p + 4096)) by (intros x Hx Hin; by apply (HO x Hx), Hwas).
  assert (Hagree : ∀ x, tree_byte pt (mc_mem s) x → load8 m2 x = load8 (mc_mem s) x).
  { intros x Hx. rewrite Hm2 by auto. by apply Hmem, HO. }
  destruct (tree_frame pt (mc_mem s) m2 HI Hagree) as (HI2 & Hto & Hbytes). pose proof (proj2 (Hto _ _ _) Ht) as Ht2.
  destruct (table_desc p) as (Hv1 & Hv2 & Hv3); [tauto|lia|]. set (v := Z.lor (Z.lor p PTE_VALID) PTE_TABLE) in *.
  assert (He : ∀ x, e ≤ x < e + 8 → tree_byte pt (mc_mem s) x).
  { intros x Hx. by apply (slot_tree_byte pt (mc_mem s) HI (depth2 pt) a t). }
  assert (Hold2 : pte_is_table (load64 m2 e) = false).
  { rewrite <-Hold. f_equal. apply load_agree. intros x Hx. by apply Hagree, He. }
  assert (Hfresh : ∀ x, p ≤ x < p + 4096 → ¬ tree_byte pt m2 x) by (intros x Hx Hb%Hbytes; by apply (Hsep x)).
  assert (Hlv : (lvl (depth2 pt) ≤ 2)%nat) by lia.
  assert (Hz : (lvl (depth2 pt) < 2)%nat → ∀ x, p ≤ x < p + 4096 → load8 m2 x = 0) by lia.
  pose proof (link_inv pt m2 HI2 _ a t v Ht2 Hv3 p Hv1 Hv2 Hlv Hpage Hfresh Hz) as HI4.
  pose proof (link_bytes pt m2 HI2 _ a t v Ht2 Hv3 p Hv1 Hv2 Hlv Hold2 Hfresh Hz) as Hb4.
  fold e in HI4, Hb4. rewrite <-Hm4 in HI4, Hb4.
  assert (Hm41 : ∀ x, F1 x → load8 (mc_mem s4) x = load8 (mc_mem s1) x).
  { intros x Hx. rewrite Hm4, store_frame.
    - apply Hm2. intros Hin. by apply (Htaken x).
    - intros Hin%He. apply (HO x Hin), Hfree. by left. }
  destruct (pa_client s1 s4 F1 Hok Hp4 Hm41) as [HA4 Hblk4].
  assert (Htab : is_table_of pt (mc_mem s4) (S (depth2 pt)) a p).
  { rewrite Hm4. split_and!; [lia|apply Ht|]. pose proof (table_at_below pt m2 HI2 _ a t v Ht2 Hv3 a) as Hbel.
    rewrite Hv1, Hv2 in Hbel. apply Hbel; [apply Ht|done]. }
  split; [|done]. split; [|..].
  - split; [done|done| |].
    + intros x [Hx%Hbytes|Hx]%Hb4 Hf; [|by apply (Htaken x)]. apply (HO x Hx), Hfree. by left.
    + intros x Hx. apply HH, Hfree. by left.
  - intros x Hx. apply Hfree. by left.
  - exact Hpg.
  - auto.
  - by eapply quiet_trans.
  - intros x Hx. rewrite Hm4, store_frame; [|intros Hin; apply Hx; right; by apply He].
    rewrite Hm2; [apply Hmem; tauto|]. intros Hin. apply Hx. left. by apply Hwas.
  - intros x [Hx|Hx]%Hb4; [left; by apply Hbytes|right; by apply Hwas].
  - intros b Hb. destruct (decide (ekey pt (depth2 pt) b = ekey pt (depth2 pt) a)) as [E|Hne].
    + rewrite <-(Htr b Hb E), Hm4. rewrite Hm4 in HI4. by apply linked_l3.
    + rewrite Hm4 in HI4 |- *. unfold e in *.
      rewrite (translate_other pt m2 HI2 _ a t v Ht2 Hv3 HI4) by (done || lia). by apply translate_frame.
Qed.
End link.
