(* ===== verification/GuestMmuSpec.v ===== *)
(** * The per-guest stage-2 MMU: blocks, pages, construction *)
From S2P Require Import Prelude Memory Machine Pmm FreeLists PageAlloc Strings PageTable TableTree.
From S2P Require Import TableUpdate TableStore PageTableSpec WalkSpec MapSpec MmioMap HostMmu.
From S2P Require Import HostMmuSpec GuestMmu WalkL3.

(** ** Descriptors *)

Definition s2_flags (isDevice : bool) : Z :=
  Z.lor (Z.lor (Z.lor (Z.lor (Z.lor (Z.lor PTE_VALID PTE_BLOCK) PTE_AF) S2PTE_SH_INNER)
    S2PTE_S2AP_RW) (if isDevice then S2PTE_MEMATTR_DEVICE_nGnRnE else S2PTE_MEMATTR_NORMAL_WB))
    (if isDevice then S2PTE_XN_ALL else S2PTE_XN_NONE).

(** The attributes a guest access gets. *)
Definition s2_attrs (isDevice : bool) : Z := Z.ldiff (s2_flags isDevice) 3.

Lemma block_desc_eq pa d : buildStage2BlockDescriptor pa d = Z.lor (Z.land pa PTE_ADDR_MASK) (s2_flags d).
Proof. unfold buildStage2BlockDescriptor, s2_flags. cbv zeta. by rewrite <-!Z.lor_assoc. Qed.

Lemma page_desc_eq pa d :
  buildStage2PageDescriptor pa d = Z.lor (Z.land pa PTE_ADDR_MASK) (Z.lor (s2_flags d) PTE_TABLE).
Proof. unfold buildStage2PageDescriptor. by rewrite block_desc_eq, Z.lor_assoc. Qed.

Lemma s2_flags_ok d : attr_ok (s2_flags d) ∧ Z.testbit (s2_flags d) 1 = false.
Proof. unfold attr_ok, fits. by destruct d. Qed.

Lemma s2_page_flags_ok d : attr_ok (Z.lor (s2_flags d) PTE_TABLE) ∧
  Z.testbit (Z.lor (s2_flags d) PTE_TABLE) 1 = true ∧ Z.ldiff (Z.lor (s2_flags d) PTE_TABLE) 3 = s2_attrs d.
Proof. unfold attr_ok, fits. by destruct d. Qed.

(** ** Splitting a block: the exact run *)

Definition vm_on (s : machine) : bool := bool_decide (Z.land (mc_sys s HCR_EL2) 1 ≠ 0).

(** Break before make: the new table is cleaned, the entry invalidated and cleaned,
    and stale translations dropped, in this order. *)
Definition split_events (s : machine) (l2 l3 : Z) : list event :=
  cleaned s l3 SIZE_4KB ++ [EvStore l2 0] ++ cleaned s l2 8 ++ [EvDsbIsh] ++
  (if vm_on s then [EvTlbiVmalls12e1is; EvDsbIsh; EvIsb] else []).

Lemma split_block_eq s l2 l3 block : 0 ≤ l2 → l2 + 8 < 2 ^ 63 → 0 ≤ l3 → l3 + 4096 < 2 ^ 63 →
  fits 64 block → pte_is_block block = true → Z.land block PTE_ADDR_MASK mod 2 ^ 21 = 0 →
  ∃ m', split_block l2 l3 block s =
      Done tt (traced (split_events s l2 l3) (set_mem (λ _, store64 m' l2 0) s)) ∧
    (∀ x, ¬ (l3 ≤ x < l3 + 4096) → load8 m' x = load8 (mc_mem s) x) ∧
    (∀ j, 0 ≤ j < 512 → load64 m' (slot l3 j) =
      l3_entry (Z.land block PTE_ADDR_MASK) (split_attrs block) j).
Proof.
  intros H1 H2 H3 H4 Hf Hb Hal. unfold split_block. cbv zeta. fold (split_attrs block).
  change (Z.to_nat (SIZE_2MB / SIZE_4KB)) with (Z.to_nat 512).
  destruct (fill_l3_spec (Z.to_nat 512) s l3 (Z.land block PTE_ADDR_MASK) (split_attrs block) 0)
    as (m' & E & Hout & Hin); [done|done|by apply l3_entry_fits|].
  change (Z.of_nat (Z.to_nat 512)) with 512 in *. exists m'. split_and!.
  - unfold mbind at 1, M_bind at 1. rewrite E. unfold mbind at 1, M_bind at 1.
    rewrite Clean_eq by (done || (unfold SIZE_4KB; lia)). unfold st_pte, st64, emit.
    unfold mbind, M_bind, modify. rewrite Clean_eq by (done || lia).
    unfold mrs, gets. unfold split_events, vm_on. simpl. destruct (bool_decide _); unfold mret, M_ret; simpl;
      rewrite !set_trace_app; destruct s; unfold set_trace, set_mem; simpl; f_equal; f_equal;
      rewrite <-?app_assoc; done.
  - intros x Hx. apply Hout. unfold slot. lia.
  - intros j Hj. apply Hin. lia.
Qed.

Section guest.
Context `{PA : !PageAllocator AllocPages FreePages} (pt : PageTable).

Lemma l3_index_bound b : 0 ≤ Z.land (b ≫ 12) 0x1FF < 512.
Proof.
  assert (Z.land (b ≫ 12) 0x1FF = (b ≫ 12) mod 512) as -> by (by apply (Z.land_ones _ 9)).
  by apply Z.mod_pos_bound.
Qed.

Lemma translate_key m a b t : pt_inv pt m → is_table_of pt m (depth2 pt) a t → in_range pt b →
  ekey pt (depth2 pt) b = ekey pt (depth2 pt) a →
  let e := load64 m (slot t (index pt (depth2 pt) a)) in
  pte_is_table e = false →
  translate m pt b = if Z.testbit e 0 then Some (leaf_out e b 21, leaf_attrs e) else None.
Proof.
  intros HI (Hn & Ha & Et) Hb E. cbv zeta. intros Htf. pose proof (pi_config _ _ HI) as Hc.
  rewrite translate_l2 by done.
  rewrite (table_at_key pt Hc m _ b a) by (done || by apply ekey_tkey). rewrite Et. cbv zeta.
  rewrite (ekey_index pt Hc _ b a) by done. rewrite is_table_bits in Htf.
  set (e := load64 m _) in *. destruct (Z.testbit e 0); [|done]. simpl in *. by rewrite Htf.
Qed.

(** A level 3 table that has the entries of a split block, or none under an empty entry, gives
    what the level 2 entry gave. *)
Lemma split_keeps m m' ipa t p b : pt_inv pt m → is_table_of pt m (depth2 pt) ipa t → in_range pt b →
  ekey pt (depth2 pt) b = ekey pt (depth2 pt) ipa →
  let block := load64 m (slot t (index pt (depth2 pt) ipa)) in
  pte_is_table block = false → pte_is_block block = true →
  (∀ j, 0 ≤ j < 512 → load64 m' (slot p j) = l3_entry (Z.land block PTE_ADDR_MASK) (split_attrs block) j) →
  l3_tr m' p b = translate m pt b.
Proof.
  cbv zeta. intros HI Ht Hb Ek Etab Eblk Hin. pose proof (depth2_lvl pt (pi_config _ _ HI)) as [E2 _].
  rewrite (translate_key m ipa b t HI Ht Hb Ek Etab).
  unfold l3_tr. cbv zeta. rewrite Hin by apply l3_index_bound.
  destruct (split_entry_maps _ (load_range 8 _ _) Eblk (pi_block _ _ HI _ _ _ E2 Ht Eblk) b) as (-> & -> & ->).
  rewrite is_block_bits in Eblk. by apply andb_prop in Eblk as [-> _].
Qed.

Lemma empty_keeps m m' ipa t p b : pt_inv pt m → is_table_of pt m (depth2 pt) ipa t → in_range pt b →
  ekey pt (depth2 pt) b = ekey pt (depth2 pt) ipa →
  let entry := load64 m (slot t (index pt (depth2 pt) ipa)) in
  pte_is_table entry = false → pte_is_block entry = false → (∀ x, p ≤ x < p + 4096 → load8 m' x = 0) →
  l3_tr m' p b = translate m pt b.
Proof.
  cbv zeta. intros HI Ht Hb Ek Etab Eblk Hzero. rewrite (translate_key m ipa b t HI Ht Hb Ek Etab).
  unfold l3_tr. rewrite load_zero.
  2: { intros x Hx. apply Hzero. pose proof (l3_index_bound b). unfold slot in Hx. lia. }
  rewrite is_table_bits in Etab. rewrite is_block_bits in Eblk. set (e := load64 m _) in *.
  by destruct (Z.testbit e 0), (Z.testbit e 1).
Qed.

(** The store of the link to the new table [p], and the read that follows it. *)
Lemma link_and_read s F ipa t p s1 F1 s3 m2 (Q : option Z → machine → Prop) : tables_ok pt s F → is_table_of pt (mc_mem s) (depth2 pt) ipa t →
  let e := slot t (index pt (depth2 pt) ipa) in let v := Z.lor (Z.lor p PTE_VALID) PTE_TABLE in
  pte_is_table (load64 (mc_mem s) e) = false → fresh_page s F p s1 F1 → mc_pmm s3 = mc_pmm s1 → quiet s1 s3 →
  store64 (mc_mem s3) e v = store64 m2 e v → (∀ x, ¬ (p ≤ x < p + 4096) → load8 m2 x = load8 (mc_mem s1) x) →
  (∀ b, in_range pt b → ekey pt (depth2 pt) b = ekey pt (depth2 pt) ipa → l3_tr m2 p b = translate (mc_mem s) pt b) →
  (∀ s', grown pt 1 s F s' F1 → is_table_of pt (mc_mem s') (S (depth2 pt)) ipa p → Q (Some (slot p (L3_INDEX ipa))) s') →
  runs (st_pte e v;; CleanDataCacheRange e 8) s3 (λ _ s', runs (entry ← ld64 e;
    if negb (pte_is_table entry) then mret None else mret (Some (slot (pte_next_table entry) (L3_INDEX ipa)))) s' Q).
Proof.
  cbv zeta. intros Hok Ht Etab Hfp Hp3 Hq3 Hm3 Hm2 Htr HQ. pose proof (tk_inv _ _ _ Hok) as HI.
  pose proof (fp_page _ _ _ _ _ Hfp) as Hpage. destruct (table_desc p) as (Hv1 & Hv2 & Hv3); [tauto|lia|].
  set (e := slot t (index pt (depth2 pt) ipa)) in *. set (v := Z.lor (Z.lor p PTE_VALID) PTE_TABLE) in *.
  pose proof (slot_small pt _ _ _ _ HI Ht) as Hsl. fold e in Hsl.
  unfold st_pte. mrun. eapply runs_of_eq; [apply Clean_eq; lia|]. mrun. rewrite set_trace_app.
  set (s4 := traced _ _). assert (Hm4 : mc_mem s4 = store64 m2 e v) by (simpl; exact Hm3).
  match goal with |- context [load64 ?m e] => change m with (mc_mem s4) end.
  rewrite Hm4, (load_store_eq_fits 8), Hv1, Hv2 by done. simpl negb. cbv iota. mrun.
  destruct (link_l3 pt s F ipa t p s1 F1 m2 s4 Hok Ht Etab Hfp Hm2 Hm4) as [Hg4 Ht4]; try done; [|by apply HQ].
  apply quiet_traced. eapply quiet_trans; [exact Hq3|]. split; [done..|]. exists []. by rewrite app_nil_r.
Qed.

Lemma walkL3_spec s F ipa :
  tables_ok pt s F → in_range pt ipa → free_pages F 3 →
  runs (walkL3 pt ipa) s (λ r s', ∃ F' t, r = Some (slot t (index pt (S (depth2 pt)) ipa)) ∧
    grown pt 3 s F s' F' ∧ is_table_of pt (mc_mem s') (S (depth2 pt)) ipa t).
Proof.
  intros Hok Ha Hpg. pose proof (depth2_lvl pt (pi_config _ _ (tk_inv _ _ _ Hok))) as [E2 _].
  unfold walkL3. apply runs_bind.
  eapply runs_mono; [apply (Walk_spec pt s F); [done|done|eapply free_pages_le, Hpg; lia]|]. cbv beta.
  intros r s1 (F1 & t & -> & Hg & Ht). pose proof (gr_ok _ _ _ _ _ _ _ Hg) as Hok1.
  pose proof (tk_inv _ _ _ Hok1) as HI1. set (e := slot t (index pt (depth2 pt) ipa)).
  assert (Hend : ∀ F' t' s', grown pt 1 s1 F1 s' F' → is_table_of pt (mc_mem s') (S (depth2 pt)) ipa t' →
    ∃ F' t, Some (slot t' (L3_INDEX ipa)) = Some (slot t (index pt (S (depth2 pt)) ipa)) ∧
      grown pt 3 s F s' F' ∧ is_table_of pt (mc_mem s') (S (depth2 pt)) ipa t).
  { intros F' t' s' Hg' Ht'. exists F', t'. split; [by rewrite index3 by apply HI1|].
    split; [by apply (grown_grown pt 2 1 s F s1 F1)|done]. }
  mrun. destruct (pte_is_table (load64 (mc_mem s1) e)) eqn:Etab.
  { unfold when. simpl negb. cbv iota. mrun. rewrite Etab. simpl negb. cbv iota. mrun.
    apply (Hend F1); [by apply grown_refl|]. destruct Ht as (Hn & _ & Et). split_and!; [lia|done|].
    simpl. rewrite Et. fold e. by rewrite Etab. }
  unfold when at 1. simpl negb. cbv iota. mrun.
  eapply runs_mono; [apply (AllocTable_spec s1 F1 0); [apply Hok1|apply Hok1|by apply (gr_pages _ _ _ _ _ _ _ Hg)]|].
  cbv beta. intros p s2 ((F2 & Hfp) & Hzero & _). pose proof (fp_page _ _ _ _ _ Hfp) as Hpage.
  pose proof (slot_small pt _ _ _ _ HI1 Ht) as Hsl. fold e in Hsl.
  destruct (pte_is_block (load64 (mc_mem s1) e)) eqn:Eblk; unfold when at 1; apply runs_bind.
  - destruct (split_block_eq s2 e p (load64 (mc_mem s1) e)) as (m' & E & Hout & Hin); try done; try lia.
    { apply (load_range 8). }
    { by apply (pi_block _ _ HI1 _ _ _ E2 Ht). }
    eapply runs_of_eq; [exact E|]. cbv beta. apply (link_and_read s1 F1 ipa t p s2 F2 _ m'); try done.
    + apply quiet_traced. split; [done..|]. exists []. by rewrite app_nil_r.
    + simpl. apply (store_store 8).
    + intros b Hb Ek. by apply (split_keeps _ _ ipa t).
    + apply Hend.
  - mrun. apply (link_and_read s1 F1 ipa t p s2 F2 s2 (mc_mem s2)); try done; [apply quiet_refl| |apply Hend].
    intros b Hb Ek. by apply (empty_keeps _ _ ipa t).
Qed.

Lemma pow_in_range a : in_range pt a → a < 2 ^ 48.
Proof. pose proof (pow_ialen pt). unfold in_range. lia. Qed.

Lemma MapBlock_spec s F ipa p d :
  tables_ok pt s F → in_range pt ipa → free_pages F 2 →
  ipa mod 2 ^ 21 = 0 → 0 ≤ p < 2 ^ 48 → p mod 2 ^ 21 = 0 →
  runs (MapBlock pt ipa p d) s (λ _ s', ∃ F',
    evolved pt (map_range (translate (mc_mem s) pt) ipa p (2 ^ 21) (s2_attrs d)) 2 s F s' F').
Proof.
  intros Hok Ha Hpg Hal Hp Hpm. unfold MapBlock. destruct (s2_flags_ok d) as [Hf Hf1].
  apply (map_block_spec pt s F ipa p (s2_flags d)); try done.
  intros e s1 F1 Hg He He' Hmap. rewrite block_desc_eq. unfold st_pte. mrun.
  eapply runs_of_eq; [apply Clean_eq; lia|]. exists F1. rewrite set_trace_app. apply Hmap.
Qed.

Lemma MapPage_spec s F ipa p d :
  tables_ok pt s F → in_range pt ipa → free_pages F 3 →
  ipa mod 2 ^ 12 = 0 → 0 ≤ p < 2 ^ 48 → p mod 2 ^ 12 = 0 →
  runs (MapPage pt ipa p d) s (λ _ s', ∃ F',
    evolved pt (map_range (translate (mc_mem s) pt) ipa p (2 ^ 12) (s2_attrs d)) 3 s F s' F').
Proof.
  intros Hok Ha Hpg Hal Hp Hpm. unfold MapPage. destruct (s2_page_flags_ok d) as (Hf & Hf1 & Hfa).
  apply runs_bind. eapply runs_mono; [by apply (walkL3_spec s F ipa)|]. cbv beta.
  intros r s1 (F1 & t & -> & Hg & Ht). rewrite page_desc_eq. unfold st_pte. mrun.
  set (c := Z.lor (s2_flags d) PTE_TABLE) in *. set (v := Z.lor (Z.land p PTE_ADDR_MASK) c).
  pose proof (tk_inv _ _ _ (gr_ok _ _ _ _ _ _ _ Hg)) as HI1.
  destruct (depth2_lvl pt (pi_config _ _ HI1)) as [E2 _].
  pose proof (slot_small pt _ _ _ _ HI1 Ht).
  eapply runs_of_eq; [apply Clean_eq; lia|]. exists F1. rewrite set_trace_app.
  eapply (evolved_ext pt); [|eapply (grown_trans pt _ 3 0); [exact Hg|]].
  2: { apply (store_leaf pt s1 F1 (S (depth2 pt)) ipa t v); try lia; [apply Hg|done|by apply leaf_fits]. }
  intros b Hb. cbv beta. unfold map_range, ekey, shift.
  replace (m_startLevel pt + S (depth2 pt))%nat with 3%nat by lia. change (levelShift 3) with 12.
  rewrite (decide_ext (b ≫ 12 = ipa ≫ 12) (ipa ≤ b < ipa + 2 ^ 12)) by (by apply same_block).
  case_decide as Hin; [|by rewrite (gr_translate _ _ _ _ _ _ _ Hg)].
  unfold leaf_tr. rewrite decide_False by lia. unfold v.
  rewrite (leaf_bit c p 0), (leaf_bit c p 1), Hf1 by lia.
  assert (Z.testbit c 0 = true) as -> by apply Hf. simpl.
  destruct (leaf_maps c Hf p ipa 12 b) as [Ho Hat]; try done; [by apply same_block|].
  by rewrite Ho, Hat, Hfa.
Qed.

(** ** Device windows *)

Definition granule_log (w : MmioWindow) : Z := if byPage w then 12 else 21.

Definition s2_window_ok (w : MmioWindow) : Prop :=
  let g := granule_log w in
  0 ≤ base w ∧ base w mod 2 ^ g = 0 ∧ 0 ≤ pa w ∧ pa w mod 2 ^ g = 0 ∧ 0 ≤ size w ∧
  size w mod 2 ^ g = 0 ∧ base w + size w ≤ 2 ^ ialen pt ∧ pa w + size w ≤ 2 ^ 48.

Definition s2_windows_map (f : Z → option (Z * Z)) (devices : MmioMap) : Z → option (Z * Z) :=
  fold_left (λ f w, map_range f (base w) (pa w) (size w) (s2_attrs true)) devices f.

Definition s2_window_pages (devices : MmioMap) : nat :=
  sum_list ((λ w, 3 * Z.to_nat (size w / 2 ^ granule_log w))%nat <$> devices).

Lemma s2_windows_ext f g devices a : f a = g a → s2_windows_map f devices a = s2_windows_map g devices a.
Proof.
  unfold s2_windows_map. revert f g. induction devices as [|w ws IH]; intros f g E; [done|]. simpl.
  apply IH. by apply map_range_ext.
Qed.

Lemma window_loop_spec s F w :
  tables_ok pt s F → s2_window_ok w → free_pages F (3 * Z.to_nat (size w / 2 ^ granule_log w)) →
  runs (loop (for_fuel (size w) (if byPage w then SIZE_4KB else SIZE_2MB)) (window_step pt w) 0) s
    (λ _ s', ∃ F', evolved pt (map_range (translate (mc_mem s) pt) (base w) (pa w) (size w) (s2_attrs true))
      (3 * Z.to_nat (size w / 2 ^ granule_log w)) s F s' F').
Proof.
  intros Hok (Hb & Hbm & Hp & Hpm & Hs & Hsm & Hbe & Hpe) Hpg. pose proof (pow_ialen pt) as Hial.
  assert (Hgran : (if byPage w then SIZE_4KB else SIZE_2MB) = 2 ^ granule_log w ∧ 12 ≤ granule_log w ≤ 21)
    by (unfold granule_log; by destruct (byPage w)).
  destruct Hgran as [Egran Hg]. pose proof (Z.pow_pos_nonneg 2 (granule_log w)) as Hp2.
  assert (2 ^ granule_log w ≤ 2 ^ 21) by (apply Z.pow_le_mono_r; lia).
  apply map_loop; try done; [lia| | |].
  - intros s1 off Hoff. unfold window_step. by rewrite decide_False by lia.
  - intros s1 F1 off Hok1 Hpg1 H0 Hend Hal. unfold window_step. rewrite decide_True by lia. rewrite Egran.
    assert (base w ⊞ off = base w + off) as -> by (apply Z.mod_small; lia).
    assert (pa w ⊞ off = pa w + off) as -> by (apply Z.mod_small; lia).
    assert (off ⊞ 2 ^ granule_log w = off + 2 ^ granule_log w) as -> by (apply Z.mod_small; lia).
    assert (Hadd : ∀ x, x mod 2 ^ granule_log w = 0 → (x + off) mod 2 ^ granule_log w = 0).
    { intros x Hx. rewrite Z.add_mod, Hx, Hal by lia. apply Z.mod_0_l. lia. }
    pose proof (Hadd _ Hbm) as Hb1. pose proof (Hadd _ Hpm) as Hp1.
    assert (Hin : in_range pt (base w + off)) by (unfold in_range; lia).
    cbv zeta. apply runs_bind. unfold granule_log in *. destruct (byPage w).
    + eapply runs_mono; [by apply (MapPage_spec s1 F1); try lia|].
      intros [] s2 (F2 & H2). mrun. split; [done|]. by exists F2.
    + eapply runs_mono; [apply (MapBlock_spec s1 F1); try done; [eapply free_pages_le, Hpg1; lia|lia]|].
      intros [] s2 (F2 & H2). mrun. split; [done|]. exists F2.
      by apply (evolved_more pt _ 2 3); [lia|].
  - unfold for_fuel. rewrite Egran. lia.
Qed.

Lemma map_windows_spec devices : ∀ s F,
  tables_ok pt s F → Forall s2_window_ok devices → free_pages F (s2_window_pages devices) →
  runs (map_windows pt devices) s (λ _ s', ∃ F',
    evolved pt (s2_windows_map (translate (mc_mem s) pt) devices) (s2_window_pages devices) s F s' F').
Proof.
  induction devices as [|w ws IH]; intros s F Hok Hws Hpg; cbn [map_windows].
  - mrun. exists F. by apply grown_refl.
  - apply Forall_cons_1 in Hws as [Hw Hws]. apply runs_bind.
    change (s2_window_pages (w :: ws))
      with (3 * Z.to_nat (size w / 2 ^ granule_log w) + s2_window_pages ws)%nat in *.
    eapply runs_mono; [apply (window_loop_spec s F w Hok Hw); eapply free_pages_le, Hpg; lia|].
    cbv beta. intros [] s1 (F1 & H1). eapply runs_mono.
    { apply (IH s1 F1); [apply (gr_ok _ _ _ _ _ _ _ H1)|done|].
      apply (gr_pages _ _ _ _ _ _ _ H1), Hpg. }
    cbv beta. intros [] s2 (F2 & H2). exists F2.
    eapply evolved_ext; [|by eapply evolved_trans]. intros a Ha. simpl. apply s2_windows_ext.
    by apply (gr_translate _ _ _ _ _ _ _ H1).
Qed.

(** Guest RAM, in 2 MiB blocks of normal memory. *)
Lemma ram_loop_spec s F ipaBase hostPaBase sizeBytes :
  tables_ok pt s F → range_ok pt ipaBase hostPaBase sizeBytes →
  free_pages F (2 * Z.to_nat (sizeBytes / 2 ^ 21)) →
  runs (loop (for_fuel sizeBytes SIZE_2MB) (ram_step pt ipaBase hostPaBase sizeBytes) 0) s (λ _ s', ∃ F',
    evolved pt (map_range (translate (mc_mem s) pt) ipaBase hostPaBase sizeBytes (s2_attrs false))
      (2 * Z.to_nat (sizeBytes / 2 ^ 21)) s F s' F').
Proof.
  intros Hok (Hb & Hbm & Hp & Hpm & Hs & Hsm & Hbe & Hpe) Hpg. pose proof (pow_ialen pt) as Hial.
  apply map_loop; try done.
  - intros s1 off Hoff. unfold ram_step. by rewrite decide_False by lia.
  - intros s1 F1 off Hok1 Hpg1 H0 Hend Hal. unfold ram_step. rewrite decide_True by lia.
    assert (ipaBase ⊞ off = ipaBase + off) as -> by (apply Z.mod_small; lia).
    assert (hostPaBase ⊞ off = hostPaBase + off) as -> by (apply Z.mod_small; lia).
    assert (off ⊞ SIZE_2MB = off + 2 ^ 21) as -> by (apply Z.mod_small; change SIZE_2MB with (2 ^ 21); lia).
    assert (Hadd : ∀ x, x mod 2 ^ 21 = 0 → (x + off) mod 2 ^ 21 = 0).
    { intros x Hx. by rewrite Z.add_mod, Hx, Hal by done. }
    apply runs_bind. eapply runs_mono.
    { apply (MapBlock_spec s1 F1); auto; [unfold in_range; lia|lia]. }
    intros [] s2 (F2 & H2). mrun. split; [done|]. by exists F2.
  - unfold for_fuel. change SIZE_2MB with (2 ^ 21). lia.
Qed.
End guest.

(** ** The per-guest stage-2 MMU: the constructor and [Enable] *)

Definition stage2 (root : Z) : PageTable := MkPageTable root kStage2StartLevel kStage2RootIndexMask.

(** The address map a new guest should get: its RAM, then the windows in order. *)
Definition guest_map (ipaBase hostPaBase sizeBytes : Z) (devices : MmioMap) : Z → option (Z * Z) :=
  s2_windows_map (map_range (λ _, None) ipaBase hostPaBase sizeBytes (s2_attrs false)) devices.

(** What the caller must provide: aligned ranges below 2^40 (guest) and 2^48 (host). *)
Definition guest_args_ok (ipaBase hostPaBase sizeBytes : Z) (devices : MmioMap) : Prop :=
  range_ok (stage2 0) ipaBase hostPaBase sizeBytes ∧ Forall (s2_window_ok (stage2 0)) devices.

(** An upper bound on the pages the tables take. *)
Definition guest_pages (sizeBytes : Z) (devices : MmioMap) : nat :=
  2 + (2 * Z.to_nat (sizeBytes / 2 ^ 21) + s2_window_pages devices).

Section new.
Context `{PA : !PageAllocator AllocPages FreePages}.

Lemma allocStage2RootTable_spec s F k :
  pa_ok s F → (∀ x, F x → x < 2 ^ 48) → pa_avail s 1 → free_pages F (2 + k) →
  runs allocStage2RootTable s (λ p s', ∃ F', tables_ok (stage2 p) s' F' ∧ free_pages F' k ∧
    pa_block s' p 1 ∧ (∀ a, in_range (stage2 p) a → translate (mc_mem s') (stage2 p) a = None) ∧
    (∀ x, F' x → F x) ∧ (∀ x, tree_byte (stage2 p) (mc_mem s') x → F x) ∧
    quiet s s' ∧ mem_same_outside F s s').
Proof.
  intros HF Hhi Hav Hk. unfold allocStage2RootTable. apply runs_bind.
  eapply runs_mono; [apply (pa_alloc s F 1 HF); unfold MAX_ORDER; lia|]. cbv beta.
  intros p s1 [(_ & _ & Hno & _)|(Hp & Hb & Hbs & [Hon Hmem] & F' & HF' & Heq & Hdis)]; [done|].
  rewrite decide_False by done. destruct (pa_block_bounds s1 F' p 1 HF' Hb) as (Hpos & _ & Hal & _).
  change (block p 1) with (λ x, p ≤ x < p + 8192) in Heq, Hdis. cbv beta in Heq, Hdis.
  assert (Hend : p + 8192 ≤ 2 ^ 48).
  { assert (p + 8191 < 2 ^ 48); [|lia]. apply Hhi, Heq. right. lia. }
  apply runs_bind. change kStage2RootSize with 8192. eapply runs_mono; [by apply memset_spec|]. cbv beta.
  intros _ s2 (_ & [Wp Ws Wy Wt] & Hfill). change (u8 0) with 0 in Hfill. apply runs_bind.
  eapply runs_of_eq; [apply Clean_eq; lia|]. mrun. set (s3 := traced _ _).
  assert (Hcl : pa_ok s3 F' ∧ ∀ a o, pa_block s1 a o → pa_block s3 a o).
  { apply (pa_client s1 s3 F' HF' Wp). intros x Hx. change (mc_mem s3) with (mc_mem s2).
    rewrite Hfill, decide_False; [done|]. intros Hin. by apply (Hdis x). }
  assert (Hz : ∀ x, m_root (stage2 p) ≤ x < m_root (stage2 p) + tsize (stage2 p) 0 → load8 (mc_mem s3) x = 0).
  { intros x Hx. change (mc_mem s3) with (mc_mem s2). by rewrite Hfill, decide_True. }
  assert (Hroot : m_root (stage2 p) mod 4096 = 0 ∧ 0 < m_root (stage2 p) ∧
    m_root (stage2 p) + tsize (stage2 p) 0 ≤ 2 ^ 48) by (split_and!; [exact Hal|exact Hpos|exact Hend]).
  assert (Hc : pt_config (stage2 p)) by (by right).
  exists F'. split_and!.
  - split; [apply Hcl|by apply root_inv| |].
    + intros x Hx%root_bytes; try done. by apply Hdis.
    + intros x Hx. apply Hhi, Heq. by left.
  - apply (free_pages_take2 F F' p k Hal); [|done]. intros x Hx. by apply Heq.
  - apply Hcl, Hb.
  - intros a Ha. by apply root_translate.
  - intros x Hx. apply Heq. by left.
  - intros x Hx%root_bytes; try done. apply Heq. by right.
  - apply quiet_traced. eapply quiet_trans; [by apply quiet_only|]. split; [done..|].
    exists []. by rewrite app_nil_r.
  - intros x Hx. change (mc_mem s3) with (mc_mem s2). rewrite Hfill, decide_False; [by apply Hmem|].
    intros Hin. apply Hx, Heq. by right.
Qed.

Lemma GuestMmu_new_spec s F ipaBase hostPaBase sizeBytes devices k :
  pa_ok s F → (∀ x, F x → x < 2 ^ 48) → pa_avail s 1 →
  guest_args_ok ipaBase hostPaBase sizeBytes devices →
  free_pages F (guest_pages sizeBytes devices + k) →
  runs (GuestMmu_new ipaBase hostPaBase sizeBytes devices) s (λ g s', ∃ F',
    m_table g = stage2 (m_rootTable g) ∧ pa_block s' (m_rootTable g) 1 ∧
    tables_ok (m_table g) s' F' ∧ free_pages F' k ∧
    (∀ a, 0 ≤ a < 2 ^ 40 →
      translate (mc_mem s') (m_table g) a = guest_map ipaBase hostPaBase sizeBytes devices a) ∧
    (∀ x, tree_byte (m_table g) (mc_mem s') x → F x) ∧ (∀ x, F' x → F x) ∧
    mem_same_outside F s s' ∧ mc_sys s' VTCR_EL2 = vtcr_value).
Proof.
  intros HF Hhi Hav [Hram Hws] Hpg. unfold GuestMmu_new. apply runs_bind.
  eapply runs_mono.
  { apply (allocStage2RootTable_spec s F (2 * Z.to_nat (sizeBytes / 2 ^ 21) + (s2_window_pages devices + k))); try done.
    eapply free_pages_le, Hpg. unfold guest_pages. lia. }
  cbv beta. intros p s1 (F1 & Hok1 & Hpg1 & Hb1 & Htr1 & Hfr1 & Hby1 & Hq1 & Hm1).
  mrun. fold (stage2 p). set (s2 := traced _ _).
  destruct (tables_ok_regs (stage2 p) s1 s2 F1 Hok1 eq_refl eq_refl) as [Hok2 Hb2].
  eapply runs_mono.
  { apply (ram_loop_spec (stage2 p) s2 F1 ipaBase hostPaBase sizeBytes Hok2 Hram).
    eapply free_pages_le, Hpg1. lia. }
  cbv beta. intros [] s3 (F3 & H3). apply runs_bind. eapply runs_mono.
  { apply (map_windows_spec (stage2 p) devices s3 F3); [apply (gr_ok _ _ _ _ _ _ _ H3)|exact Hws|].
    eapply free_pages_le, (gr_pages _ _ _ _ _ _ _ H3), Hpg1. lia. }
  cbv beta. intros [] s4 (F4 & H4). mrun. set (s5 := traced _ _).
  destruct (tables_ok_regs (stage2 p) s4 s5 F4 (gr_ok _ _ _ _ _ _ _ H4) eq_refl eq_refl) as [Hok5 Hb5].
  exists F4. cbn [m_table m_rootTable]. fold (stage2 p). split_and!; try done.
  - apply Hb5, (gr_blocks _ _ _ _ _ _ _ H4), (gr_blocks _ _ _ _ _ _ _ H3), Hb2, Hb1.
  - apply (gr_pages _ _ _ _ _ _ _ H4), (gr_pages _ _ _ _ _ _ _ H3), Hpg1.
  - intros a Ha. change (mc_mem s5) with (mc_mem s4). rewrite (gr_translate _ _ _ _ _ _ _ H4 a Ha).
    apply s2_windows_ext. rewrite (gr_translate _ _ _ _ _ _ _ H3 a Ha).
    apply map_range_ext. by apply Htr1.
  - intros x Hx. apply (gr_bytes _ _ _ _ _ _ _ H4) in Hx as [Hx|Hx].
    + apply (gr_bytes _ _ _ _ _ _ _ H3) in Hx as [Hx|Hx]; [by apply Hby1|by apply Hfr1].
    + by apply Hfr1, (gr_free _ _ _ _ _ _ _ H3).
  - intros x Hx. by apply Hfr1, (gr_free _ _ _ _ _ _ _ H3), (gr_free _ _ _ _ _ _ _ H4).
  - intros x Hx. change (mc_mem s5) with (mc_mem s4).
    assert (Hx1 : ¬ F1 x) by (intros H; by apply Hx, Hfr1).
    assert (Hx3 : ¬ F3 x) by (intros H; by apply Hx1, (gr_free _ _ _ _ _ _ _ H3)).
    assert (Ht1 : ¬ tree_byte (stage2 p) (mc_mem s1) x) by (intros H; by apply Hx, Hby1).
    assert (Ht3 : ¬ tree_byte (stage2 p) (mc_mem s3) x).
    { intros H. apply (gr_bytes _ _ _ _ _ _ _ H3) in H as [H|H]; done. }
    rewrite (gr_mem _ _ _ _ _ _ _ H4 x) by tauto. rewrite (gr_mem _ _ _ _ _ _ _ H3 x) by tauto.
    by apply Hm1.
  - change (mc_sys s4 VTCR_EL2 = vtcr_value).
    rewrite (qu_sys _ _ (gr_quiet _ _ _ _ _ _ _ H4)), (qu_sys _ _ (gr_quiet _ _ _ _ _ _ _ H3)). done.
Qed.
End new.

(** [Enable]: translation is on before the TLB is flushed, and the tables are
    drained before VTTBR names them. *)
Lemma Enable_eq g vmid s :
  let vttbr := Z.lor (u64 (vmid ≪ 48)) (Z.land (m_rootTable g) PTE_ADDR_MASK) in
  let hcr := Z.lor (mc_sys s HCR_EL2) 1 in
  Enable g vmid s = Done (MkGuestMmu (m_rootTable g) vmid (m_table g))
    (set_trace (λ t, t ++ [EvDsbIsh; EvMsr VTTBR_EL2 vttbr; EvIsb; EvMsr HCR_EL2 hcr; EvIsb;
        EvTlbiVmalls12e1is; EvDsbIsh; EvIsb])
      (set_sys (λ r, <[HCR_EL2 := hcr]> (<[VTTBR_EL2 := vttbr]> r)) s)).
Proof.
  cbv zeta. unfold Enable. cbv zeta.
  generalize (Z.lor (u64 (vmid ≪ 48)) (Z.land (m_rootTable g) PTE_ADDR_MASK)). intros v.
  change (1 ≪ 0) with 1. destruct s as [m p sl sys tr].
  transitivity (Done (MkGuestMmu (m_rootTable g) vmid (m_table g))
    (MkMachine m p sl (<[HCR_EL2 := Z.lor (sys HCR_EL2) 1]> (<[VTTBR_EL2 := v]> sys))
      ((((((((tr ++ [EvDsbIsh]) ++ [EvMsr VTTBR_EL2 v]) ++ [EvIsb]) ++
        [EvMsr HCR_EL2 (Z.lor (sys HCR_EL2) 1)]) ++ [EvIsb]) ++
        [EvTlbiVmalls12e1is]) ++ [EvDsbIsh]) ++ [EvIsb]))); [reflexivity|].
  unfold set_trace, set_sys. cbn [mc_mem mc_pmm mc_slabs mc_sys mc_trace].
  by rewrite <-!app_assoc.
Qed.
