(* ===== verification/MmuProps.v ===== *)
(** * The MMUs: what the mapping code promises *)
From S2P Require Import Prelude Memory Machine Pmm FreeLists Bitmap Buddy PmmSpec PmmInit PmmProps.
From S2P Require Import PageAlloc Strings PageTable TableTree TableUpdate TableStore PageTableSpec.
From S2P Require Import WalkSpec MapSpec MmioMap HostMmu HostMmuSpec GuestMmu WalkL3 GuestMmuSpec.
From S2P Require Import GuestMmuSpec.

(** ** A concrete state: an empty stage-2 tree at 0x2000, 512 MiB of free memory *)

Definition F0 : Z → Prop := free_at blocks0.
Definition root0 : PageTable := stage2 0x2000.

Lemma F0_eq x : F0 x ↔ 0x40000000 ≤ x < 0x60000000.
Proof.
  unfold F0, free_at. destruct max_block as [_ Hb]. split.
  - intros (o & a & [-> Ha]%blocks0_elem & Hx). unfold block in Hx. rewrite Hb in Hx.
    destruct Ha as [-> | ->]; lia.
  - intros Hx. destruct (decide (x < 0x50000000)).
    + exists MAX_ORDER, 0x40000000. rewrite blocks0_elem. unfold block. rewrite Hb. split; [auto|lia].
    + exists MAX_ORDER, 0x50000000. rewrite blocks0_elem. unfold block. rewrite Hb. split; [auto|lia].
Qed.

Lemma pool0_pa_ok : pa_ok pool0 F0.
Proof. exists blocks0. split; [apply pool0_inv|done]. Qed.

Lemma pool0_avail : pa_avail pool0 1.
Proof. exists MAX_ORDER. split; [unfold MAX_ORDER; lia|done]. Qed.

Lemma F0_pages k : (Z.of_nat k ≤ 131072) → free_pages F0 k.
Proof.
  intros Hk. exists ((λ i, 0x40000000 + i * 4096) <$> seqZ 0 (Z.of_nat k)). split_and!.
  - apply NoDup_fmap_2; [intros i j; lia|apply NoDup_seqZ].
  - rewrite length_fmap, length_seqZ. lia.
  - intros p (i & -> & Hi%elem_of_seqZ)%list_elem_of_fmap. split; [|apply F0_eq; lia].
    by rewrite Z.mod_add.
Qed.

Lemma F0_high x : F0 x → x < 2 ^ 48.
Proof. rewrite F0_eq. lia. Qed.

Lemma pool0_zero x : 0x2000 ≤ x < 0x4000 → load8 (mc_mem pool0) x = 0.
Proof.
  intros Hx. unfold pool0. cbn [mc_mem]. by rewrite !store_frame by lia.
Qed.

Lemma pool0_tables : tables_ok root0 pool0 F0.
Proof.
  assert (Hc : pt_config root0) by (by right).
  assert (Hr : m_root root0 mod 4096 = 0 ∧ 0 < m_root root0 ∧ m_root root0 + tsize root0 0 ≤ 2 ^ 48)
    by (split_and!; done).
  split; [apply pool0_pa_ok|apply root_inv; try done; apply pool0_zero| |apply F0_high].
  intros x Hx%root_bytes; try done; [|apply pool0_zero]. rewrite F0_eq.
  change (0x2000 ≤ x < 0x4000) in Hx. lia.
Qed.

(** ** The software walk and the mapping primitives *)

(** C11: [Walk] with allocation, on a tree of tables with two free pages, always returns the
    level 2 entry of the address, adds at most two tables, and changes no translation of any
    address; only free memory and the tree are written. *)
Theorem Walk_correct pt s F addr
    (Hok : tables_ok pt s F) (Ha : in_range pt addr) (Hpg : free_pages F 2) :
  runs (Walk pt addr true) s (λ r s', ∃ F' t, r = Some (slot t (index pt (depth2 pt) addr)) ∧
    grown pt 2 s F s' F' ∧ is_table_of pt (mc_mem s') (depth2 pt) addr t).
Proof. by apply Walk_spec. Qed.

Lemma Walk_correct_witness :
  tables_ok root0 pool0 F0 ∧
  runs (Walk root0 0x8000000000 true) pool0 (λ r s', ∃ F' t,
    r = Some (slot t (index root0 (depth2 root0) 0x8000000000)) ∧
    grown root0 2 pool0 F0 s' F' ∧ is_table_of root0 (mc_mem s') (depth2 root0) 0x8000000000 t).
Proof.
  split; [apply pool0_tables|]. apply (Walk_correct root0 pool0 F0).
  - apply pool0_tables.
  - split; reflexivity || discriminate.
  - apply F0_pages. lia.
Defined.

(** C10: [MapPage] maps exactly the 4 KiB page asked for: afterwards the walk sends that page to
    [p] with stage-2 page attributes, and every other address of the guest translates as
    before, also when the page lay in a 2 MiB block that had to be split. *)
Theorem MapPage_correct pt s F ipa p isDevice
    (Hok : tables_ok pt s F) (Ha : in_range pt ipa) (Hpg : free_pages F 3)
    (Hal : ipa mod 2 ^ 12 = 0) (Hp : 0 ≤ p < 2 ^ 48) (Hpm : p mod 2 ^ 12 = 0) :
  runs (MapPage pt ipa p isDevice) s (λ _ s', ∃ F', tables_ok pt s' F' ∧
    ∀ a, in_range pt a → translate (mc_mem s') pt a =
      if decide (ipa ≤ a < ipa + 4096) then Some (p + (a - ipa), s2_attrs isDevice)
      else translate (mc_mem s) pt a).
Proof.
  eapply runs_mono; [by apply (MapPage_spec pt s F)|]. intros [] s' (F' & Hev). exists F'.
  split; [apply Hev|]. apply (gr_translate _ _ _ _ _ _ _ Hev).
Qed.

Lemma MapPage_correct_witness :
  runs (MapPage root0 0x8000000 0x9000000 true) pool0 (λ _ s', ∃ F', tables_ok root0 s' F' ∧
    ∀ a, in_range root0 a → translate (mc_mem s') root0 a =
      if decide (0x8000000 ≤ a < 0x8000000 + 4096) then Some (0x9000000 + (a - 0x8000000), s2_attrs true)
      else translate (mc_mem pool0) root0 a).
Proof.
  apply (MapPage_correct root0 pool0 F0 0x8000000 0x9000000 true pool0_tables).
  - split; reflexivity || discriminate.
  - apply F0_pages. lia.
  - reflexivity.
  - split; reflexivity || discriminate.
  - reflexivity.
Defined.



(** ** Construction of a guest's address space *)

Lemma s2_windows_inv f ws a p attrs : s2_windows_map f ws a = Some (p, attrs) →
  (∃ w, w ∈ ws ∧ pa w ≤ p < pa w + size w) ∨ f a = Some (p, attrs).
Proof.
  unfold s2_windows_map. revert f. induction ws as [|w ws IH]; intros f H; [by right|]. simpl in H.
  destruct (IH _ H) as [(w' & Hw & Hp)|Hf]; [left; exists w'; split; [set_solver|done]|].
  unfold map_range in Hf. case_decide; [|by right]. injection Hf as <- <-.
  left. exists w. split; [set_solver|lia].
Qed.

(** C9: the constructor of [GuestMmu] terminates when memory suffices, and the tables it leaves
    translate every guest address as [guest_map] says: RAM in normal memory, the device windows
    over it, and a fault everywhere else; the tables come out of the free memory. *)
Theorem GuestMmu_new_correct s F ipaBase hostPaBase sizeBytes devices
    (HF : pa_ok s F) (Hhi : ∀ x, F x → x < 2 ^ 48) (Hav : pa_avail s 1)
    (Hargs : guest_args_ok ipaBase hostPaBase sizeBytes devices)
    (Hpg : free_pages F (guest_pages sizeBytes devices)) :
  runs (GuestMmu_new ipaBase hostPaBase sizeBytes devices) s (λ g s', ∃ F',
    tables_ok (m_table g) s' F' ∧
    (∀ a, 0 ≤ a < 2 ^ 40 →
      translate (mc_mem s') (m_table g) a = guest_map ipaBase hostPaBase sizeBytes devices a) ∧
    (∀ x, tree_byte (m_table g) (mc_mem s') x → F x) ∧ mem_same_outside F s s').
Proof.
  eapply runs_mono; [apply (GuestMmu_new_spec s F ipaBase hostPaBase sizeBytes devices 0); try done|].
  { by rewrite Nat.add_0_r. }
  intros g s' (F' & _ & _ & Hok & _ & Htr & Hby & _ & Hm & _). by exists F'.
Qed.

Definition windows0 : MmioMap := [MkMmioWindow 0x8000000 0x9000000 0x2000 true].

Lemma args0 : guest_args_ok 0x40000000 0x50000000 0x8000000 windows0.
Proof.
  split; [|constructor; [|constructor]].
  - unfold range_ok. split_and!; vm_compute; try reflexivity; discriminate.
  - unfold s2_window_ok. cbv zeta. split_and!; vm_compute; try reflexivity; discriminate.
Qed.

Lemma GuestMmu_new_correct_witness :
  runs (GuestMmu_new 0x40000000 0x50000000 0x8000000 windows0) pool0 (λ g s', ∃ F',
    tables_ok (m_table g) s' F' ∧
    (∀ a, 0 ≤ a < 2 ^ 40 →
      translate (mc_mem s') (m_table g) a = guest_map 0x40000000 0x50000000 0x8000000 windows0 a) ∧
    (∀ x, tree_byte (m_table g) (mc_mem s') x → F0 x) ∧ mem_same_outside F0 pool0 s').
Proof.
  apply (GuestMmu_new_correct pool0 F0).
  - apply pool0_pa_ok.
  - apply F0_high.
  - apply pool0_avail.
  - apply args0.
  - apply F0_pages. vm_compute. discriminate.
Defined.

(** C3: guest isolation: whatever address a guest uses, stage 2 either faults or leads to the
    guest's own RAM or to one of its device windows, and never to a byte of the translation
    tables themselves, as long as RAM and windows are not free memory of the hypervisor. *)
Theorem guest_isolated s F ipaBase hostPaBase sizeBytes devices
    (HF : pa_ok s F) (Hhi : ∀ x, F x → x < 2 ^ 48) (Hav : pa_avail s 1)
    (Hargs : guest_args_ok ipaBase hostPaBase sizeBytes devices)
    (Hpg : free_pages F (guest_pages sizeBytes devices))
    (Hram : ∀ x, hostPaBase ≤ x < hostPaBase + sizeBytes → ¬ F x)
    (Hdev : ∀ w x, w ∈ devices → pa w ≤ x < pa w + size w → ¬ F x) :
  runs (GuestMmu_new ipaBase hostPaBase sizeBytes devices) s (λ g s', ∀ a p attrs,
    0 ≤ a < 2 ^ 40 → translate (mc_mem s') (m_table g) a = Some (p, attrs) →
    (hostPaBase ≤ p < hostPaBase + sizeBytes ∨ ∃ w, w ∈ devices ∧ pa w ≤ p < pa w + size w) ∧
    ¬ tree_byte (m_table g) (mc_mem s') p).
Proof.
  eapply runs_mono; [apply (GuestMmu_new_spec s F ipaBase hostPaBase sizeBytes devices 0); try done|].
  { by rewrite Nat.add_0_r. }
  intros g s' (F' & _ & _ & Hok & _ & Htr & Hby & _ & Hm & _) a p attrs Ha Ht.
  rewrite Htr in Ht by done. unfold guest_map in Ht.
  assert (Hwhere : hostPaBase ≤ p < hostPaBase + sizeBytes ∨ ∃ w, w ∈ devices ∧ pa w ≤ p < pa w + size w).
  { apply s2_windows_inv in Ht as [Hw|Hf]; [by right|left].
    unfold map_range in Hf. case_decide; [|done]. injection Hf as <- <-. lia. }
  split; [done|]. intros Hx%Hby. destruct Hwhere as [Hp|(w & Hw & Hp)]; [by apply (Hram p)|by apply (Hdev w p)].
Qed.

Lemma guest_isolated_witness :
  runs (GuestMmu_new 0x40000000 0x70000000 0x8000000 windows0) pool0 (λ g s', ∀ a p attrs,
    0 ≤ a < 2 ^ 40 → translate (mc_mem s') (m_table g) a = Some (p, attrs) →
    (0x70000000 ≤ p < 0x70000000 + 0x8000000 ∨ ∃ w, w ∈ windows0 ∧ pa w ≤ p < pa w + size w) ∧
    ¬ tree_byte (m_table g) (mc_mem s') p).
Proof.
  apply (guest_isolated pool0 F0).
  - apply pool0_pa_ok.
  - apply F0_high.
  - apply pool0_avail.
  - split; [|apply args0]. unfold range_ok. split_and!; vm_compute; try reflexivity; discriminate.
  - apply F0_pages. vm_compute. discriminate.
  - intros x Hx. rewrite F0_eq. lia.
  - intros w x Hw%list_elem_of_singleton. subst w. simpl. rewrite F0_eq. lia.
Defined.

(** ** The hypervisor's own map *)

Definition root1 : PageTable := MkPageTable 0x2000 STAGE1_START_LEVEL STAGE1_ROOT_INDEX_MASK.

Lemma pool0_tables1 : tables_ok root1 pool0 F0.
Proof.
  assert (Hc : pt_config root1) by (by left).
  assert (Hr : m_root root1 mod 4096 = 0 ∧ 0 < m_root root1 ∧ m_root root1 + tsize root1 0 ≤ 2 ^ 48)
    by (split_and!; done).
  assert (Hz : ∀ x, m_root root1 ≤ x < m_root root1 + tsize root1 0 → load8 (mc_mem pool0) x = 0).
  { intros x Hx. apply pool0_zero. change (0x2000 ≤ x < 0x3000) in Hx. lia. }
  split; [apply pool0_pa_ok|by apply root_inv| |apply F0_high].
  intros x Hx%root_bytes; try done. rewrite F0_eq. change (0x2000 ≤ x < 0x3000) in Hx. lia.
Qed.

(** C12: [HostMmu::Enable] first builds the tables and only then turns translation on: they send
    the first 16 GiB to themselves as normal memory, with the device windows over it, in order;
    MAIR, TCR and TTBR0 are set before SCTLR.M, with a DSB and ISB between, and no table is
    stored to afterwards. *)
Theorem HostMmu_Enable_correct pt s F devices
    (Hok : tables_ok pt s F) (Hl : m_startLevel pt = 0%nat) (Hws : Forall (window_ok pt) devices)
    (Hpg : free_pages F (2 * Z.to_nat 8192 + window_pages devices)) :
  runs (HostMmu.Enable pt devices) s (λ _ s', ∃ F' evs, tables_ok pt s' F' ∧
    (∀ a, in_range pt a → translate (mc_mem s') pt a =
      device_map (map_range (translate (mc_mem s) pt) 0 0 (2 ^ 34) host_attrs) devices a) ∧
    mc_sys s' SCTLR_EL2 = sctlr_on (mc_sys s SCTLR_EL2) ∧
    mc_trace s' = mc_trace s ++ [EvMsr MAIR_EL2 mair_value; EvMsr TCR_EL2 tcr_value; EvIsb] ++ evs ++
      [EvMsr TTBR0_EL2 (m_root pt); EvDsbIshst; EvIsb;
       EvMsr SCTLR_EL2 (sctlr_on (mc_sys s SCTLR_EL2)); EvIsb]).
Proof.
  eapply runs_mono; [by apply (Enable_spec pt s F)|].
  intros [] s' (F' & evs & Hok' & Htr & _ & _ & _ & Hsc & Ht & _). by exists F', evs.
Qed.

Definition uart_window : MmioMap := [MkMmioWindow 0x9000000 0x9000000 0x200000 false].

Lemma HostMmu_Enable_correct_witness :
  runs (HostMmu.Enable root1 uart_window) pool0 (λ _ s', ∃ F' evs, tables_ok root1 s' F' ∧
    (∀ a, in_range root1 a → translate (mc_mem s') root1 a =
      device_map (map_range (translate (mc_mem pool0) root1) 0 0 (2 ^ 34) host_attrs) uart_window a) ∧
    mc_sys s' SCTLR_EL2 = sctlr_on (mc_sys pool0 SCTLR_EL2) ∧
    mc_trace s' = mc_trace pool0 ++ [EvMsr MAIR_EL2 mair_value; EvMsr TCR_EL2 tcr_value; EvIsb] ++ evs ++
      [EvMsr TTBR0_EL2 (m_root root1); EvDsbIshst; EvIsb;
       EvMsr SCTLR_EL2 (sctlr_on (mc_sys pool0 SCTLR_EL2)); EvIsb]).
Proof.
  apply (HostMmu_Enable_correct root1 pool0 F0).
  - apply pool0_tables1.
  - reflexivity.
  - constructor; [|constructor]. unfold window_ok, range_ok. split_and!; vm_compute; try reflexivity; discriminate.
  - apply F0_pages. vm_compute. discriminate.
Defined.

(** [UnmapRange] on a range whose level 2 tables are all present removes exactly that
    range: every address in it faults afterwards, every other one translates as before. *)
Lemma UnmapRange_correct pt s F va size
    (Hok : tables_ok pt s F) (Hva : 0 ≤ va) (Hvm : va mod 2 ^ 21 = 0) (Hsz : 0 ≤ size)
    (Hsm : size mod 2 ^ 21 = 0) (Hve : va + size ≤ 2 ^ ialen pt)
    (Hpres : ∀ a, va ≤ a < va + size → table_at pt (mc_mem s) (depth2 pt) a ≠ None) :
  runs (UnmapRange pt va size) s (λ _ s', tables_ok pt s' F ∧
    ∀ a, in_range pt a → translate (mc_mem s') pt a =
      if decide (va ≤ a < va + size) then None else translate (mc_mem s) pt a).
Proof.
  eapply runs_mono; [by apply (UnmapRange_spec pt s F)|]. intros [] s' Hev.
  split; [apply Hev|]. apply (gr_translate _ _ _ _ _ _ _ Hev).
Qed.

(** A stage-1 tree with one block mapped, built by [MapRange] from the empty one. *)
Lemma UnmapRange_correct_witness :
  runs (MapRange root1 0x40000000 0x40000000 0x400000 PTE_NORMAL;; UnmapRange root1 0x40000000 0x200000) pool0
    (λ _ s', translate (mc_mem s') root1 0x40000000 = None ∧
      translate (mc_mem s') root1 0x40200000 = Some (0x40200000, Z.ldiff PTE_NORMAL 3)).
Proof.
  apply runs_bind. eapply runs_mono.
  { apply (MapRange_spec root1 pool0 F0 0x40000000 0x40000000 0x400000 PTE_NORMAL).
    - apply pool0_tables1.
    - unfold range_ok. split_and!; vm_compute; try reflexivity; discriminate.
    - unfold attr_ok, fits. split_and!; done.
    - reflexivity.
    - apply F0_pages. vm_compute. discriminate. }
  cbv beta. intros [] s1 (F1 & Hev). eapply runs_mono.
  { apply (UnmapRange_correct root1 s1 F1 0x40000000 0x200000).
    - apply (gr_ok _ _ _ _ _ _ _ Hev).
    - lia.
    - reflexivity.
    - lia.
    - reflexivity.
    - vm_compute. discriminate.
    - intros a Ha E. assert (Hin : in_range root1 a) by (split; [lia|change (ialen root1) with 48; lia]).
      pose proof (gr_translate _ _ _ _ _ _ _ Hev a Hin) as Ht. unfold map_range in Ht.
      rewrite decide_True, translate_l2, E in Ht by (done || lia || apply (gr_ok _ _ _ _ _ _ _ Hev)). done. }
  cbv beta. intros [] s2 [_ Htr]. split.
  - rewrite Htr by (split; [lia|change (ialen root1) with 48; lia]). by rewrite decide_True by lia.
  - assert (Hin : in_range root1 0x40200000) by (split; [lia|change (ialen root1) with 48; lia]).
    rewrite Htr by done. rewrite decide_False by lia. rewrite (gr_translate _ _ _ _ _ _ _ Hev _ Hin).
    unfold map_range. by rewrite decide_True by lia.
Defined.

(** The order the code leaves open: between the store that unmaps and the TLB invalidation
    there is no DSB, so the invalidation may run before the store is visible. *)
Lemma UnmapRange_no_barrier pt s va e :
  0 ≤ va < 2 ^ 63 → Walk pt va false s = Done (Some e) s →
  ∃ s', UnmapRange_step pt va SIZE_2MB 0 s = Done (inl SIZE_2MB) s' ∧
    mc_trace s' = mc_trace s ++ [EvStore e 0; EvTlbiVae2is (va ≫ 12); EvDsbSy; EvIsb].
Proof.
  intros Hva HW. unfold UnmapRange_step. rewrite decide_True by done.
  assert (va ⊞ 0 = va) as -> by (unfold u64; rewrite Z.add_0_r; apply Z.mod_small; lia).
  unfold mbind at 1, M_bind at 1. rewrite HW. eexists. split; [reflexivity|].
  simpl. by rewrite <-!app_assoc.
Qed.

(** ** Cache maintenance *)

(** [CleanDataCacheRange] of a range in the lower half of the address space cleans every
    cache line that holds a byte of it, cleans only lines that meet it, and ends with the
    DSB that orders the cleaning before later table walks. *)
Lemma CleanDataCacheRange_covers s addr size
    (Ha : 0 ≤ addr) (Hs : 0 < size) (He : addr + size < 2 ^ 63) :
  ∃ evs, CleanDataCacheRange addr size s = Done tt (traced (evs ++ [EvDsbIshst]) s) ∧
    (∀ x, addr ≤ x < addr + size → EvDcCvac (x - x mod line_size s) ∈ evs) ∧
    (∀ e, e ∈ evs → ∃ l, e = EvDcCvac l ∧ l mod line_size s = 0 ∧
      l < addr + size ∧ addr < l + line_size s).
Proof.
  exists (EvDcCvac <$> lines s addr size). pose proof (line_size_bounds s) as Hls.
  set (ls := line_size s) in *. split_and!.
  - rewrite Clean_eq by lia. unfold cleaned. by rewrite decide_False by lia.
  - intros x Hx. apply list_elem_of_fmap. eexists. split; [done|].
    unfold lines. cbv zeta. fold ls. apply list_elem_of_fmap.
    pose proof (Z.div_mod addr ls). pose proof (Z.div_mod x ls).
    pose proof (Z.mod_pos_bound addr ls). pose proof (Z.mod_pos_bound x ls).
    pose proof (Z.div_le_mono addr x ls).
    exists (x / ls - addr / ls). split; [lia|]. apply elem_of_seqZ. split; [lia|].
    rewrite Z.add_0_l. apply Z.lt_le_trans with (x / ls - addr / ls + 1); [lia|].
    apply Z.div_le_lower_bound; [lia|]. nia.
  - intros e (l & -> & Hl)%list_elem_of_fmap. exists l. split; [done|].
    unfold lines in Hl. cbv zeta in Hl. fold ls in Hl. apply list_elem_of_fmap in Hl as (i & -> & Hi%elem_of_seqZ).
    pose proof (Z.mod_pos_bound addr ls). pose proof (Z.div_mod addr ls).
    set (n := (addr + size - (addr - addr mod ls) + ls - 1) / ls) in *.
    assert (Hn : n * ls ≤ addr + size - (addr - addr mod ls) + ls - 1).
    { rewrite Z.mul_comm. apply Z.mul_div_le. lia. }
    split_and!; [|nia|nia].
    replace (addr - addr mod ls + i * ls) with ((addr / ls + i) * ls) by lia. apply Z.mod_mul. lia.
Qed.

Lemma CleanDataCacheRange_covers_witness :
  ∃ evs, CleanDataCacheRange 0x2003 10 pool0 = Done tt (traced (evs ++ [EvDsbIshst]) pool0) ∧
    (∀ x, 0x2003 ≤ x < 0x2003 + 10 → EvDcCvac (x - x mod line_size pool0) ∈ evs) ∧
    (∀ e, e ∈ evs → ∃ l, e = EvDcCvac l ∧ l mod line_size pool0 = 0 ∧
      l < 0x2003 + 10 ∧ 0x2003 < l + line_size pool0).
Proof. apply (CleanDataCacheRange_covers pool0 0x2003 10); reflexivity || discriminate. Defined.

(** ** What the destructor of [GuestMmu] gives back *)

(** Only the two root pages return to the allocator; every table below the root stays taken. *)
Lemma GuestMmu_delete_leaks g s F :
  m_table g = stage2 (m_rootTable g) → pa_block s (m_rootTable g) 1 → tables_ok (m_table g) s F →
  runs (GuestMmu_delete g) s (λ _ s', ∃ F', pa_ok s' F' ∧
    ∀ x, tree_byte (m_table g) (mc_mem s) x →
      F' x ↔ m_rootTable g ≤ x < m_rootTable g + 8192).
Proof.
  intros Hg Hb Hok. unfold GuestMmu_delete.
  destruct (pa_block_bounds s F _ _ (tk_alloc _ _ _ Hok) Hb) as (Hpos & _). rewrite decide_True by lia.
  assert (Hroot : ∀ x, block (m_rootTable g) 1 x → tree_byte (m_table g) (mc_mem s) x).
  { intros x Hx. exists 0%nat, 0, (m_rootTable g). rewrite Hg. split; [|exact Hx].
    split_and!; [vm_compute; lia|by split|done]. }
  eapply runs_mono; [apply (pa_free s F _ 1 (tk_alloc _ _ _ Hok) Hb)|].
  { intros x Hx. by apply (tk_owned _ _ _ Hok), Hroot. }
  intros [] s' (HF' & _). eexists. split; [exact HF'|]. intros x Hx.
  pose proof (tk_owned _ _ _ Hok x Hx). unfold block. change (bs 1) with 8192. tauto.
Qed.
