(* ===== verification/Heap.v ===== *)
(** * The kernel heap: slabs over pages, large blocks over page orders (core/mm/heap) *)
From S2P Require Import Prelude Memory Machine Pmm.

Definition SLAB_CLASSES : list Z := [16; 32; 64; 128; 256; 512; 1024].
Definition NO_SLAB_CLASS : nat := 7.
Definition MAX_SLAB_SIZE : Z := 1024.
Definition DEFAULT_NEW_ALIGN : Z := 16.
Definition SLAB_MAGIC : Z := 0x534C41425F4D4147.
Definition LARGE_MAGIC : Z := 0x4C415247455F4D47.

(** Field addresses of a [SlabHeader] (32 bytes) and of a [LargeHeader] (16 bytes). *)
Definition SlabHeader_size : Z := 32.
Definition sh_magic (h : Z) : Z := h.
Definition sh_classIdx (h : Z) : Z := h + 8.
Definition sh_inUse (h : Z) : Z := h + 12.
Definition sh_freeList (h : Z) : Z := h + 16.
Definition sh_next (h : Z) : Z := h + 24.
Definition LargeHeader_size : Z := 16.
Definition lh_magic (h : Z) : Z := h.
Definition lh_order (h : Z) : Z := h + 8.
Definition lh_userOffset (h : Z) : Z := h + 12.

(** [while (span < total)]; the loop doubles at most [MAX_ORDER] times. *)
Fixpoint orderForBytes_from (total span : Z) (order n : nat) : nat :=
  if decide (span < total) then
    if decide (MAX_ORDER ≤ order)%nat then S MAX_ORDER
    else match n with
         | O => S MAX_ORDER
         | S n' => orderForBytes_from total (u64 (span ≪ 1)) (S order) n'
         end
  else order.
Definition orderForBytes (total : Z) : nat := orderForBytes_from total PAGE_SIZE 0 MAX_ORDER.

Fixpoint first_class (classes : list Z) (need : Z) (i : nat) : nat :=
  match classes with
  | [] => NO_SLAB_CLASS
  | c :: rest => if decide (need ≤ c) then i else first_class rest need (S i)
  end.

Definition pickClass (size align : Z) : nat :=
  let need := if decide (align < size) then size else align in
  if decide (MAX_SLAB_SIZE < need) then NO_SLAB_CLASS
  else first_class SLAB_CLASSES need 0.

(** The loop that chains the slots of a fresh slab; it returns the last one. *)
Fixpoint link_slots (base slotSize i prev : Z) (n : nat) : M machine Z :=
  match n with
  | O => mret prev
  | S n' =>
      let slot := base + i * slotSize in
      st64 slot prev;;
      link_slots base slotSize (i + 1) slot n'
  end.

Definition newSlab (classIdx : nat) : M machine Z :=
  pageAddr ← AllocPages 0;
  if decide (pageAddr = 0) then mret 0
  else
    st64 (sh_magic pageAddr) SLAB_MAGIC;;
    st32 (sh_classIdx pageAddr) (u32 (Z.of_nat classIdx));;
    st32 (sh_inUse pageAddr) 0;;
    st64 (sh_next pageAddr) 0;;
    let slotSize := nth classIdx SLAB_CLASSES 0 in
    let firstSlotOffset := Z.land (SlabHeader_size ⊞ slotSize ⊟ 1) (not64 (slotSize - 1)) in
    let slotCount := (PAGE_SIZE ⊟ firstSlotOffset) / slotSize in
    prev ← link_slots (pageAddr + firstSlotOffset) slotSize 0 0 (Z.to_nat slotCount);
    st64 (sh_freeList pageAddr) prev;;
    mret pageAddr.

(** [while (hdr != nullptr && hdr->freeList == nullptr) hdr = hdr->next] *)
Definition find_slab_step (hdr : Z) : M machine (Z + Z) :=
  if decide (hdr = 0) then mret (inr hdr)
  else
    fl ← ld64 (sh_freeList hdr);
    if decide (fl = 0) then next ← ld64 (sh_next hdr); mret (inl next)
    else mret (inr hdr).

(** At most one slab header per page of the pool. *)
Definition allocFromSlab (classIdx : nat) : M machine Z :=
  slabs ← gets mc_slabs;
  fuel ← gets (λ s, list_fuel (mc_pmm s));
  hdr ← loop fuel find_slab_step (nth classIdx slabs 0);
  hdr ← (if decide (hdr = 0) then
           hdr ← newSlab classIdx;
           if decide (hdr = 0) then mret 0
           else
             slabs ← gets mc_slabs;
             st64 (sh_next hdr) (nth classIdx slabs 0);;
             modify (set_slabs (λ l, <[classIdx := hdr]> l));;
             mret hdr
         else mret hdr);
  if decide (hdr = 0) then mret 0
  else
    slot ← ld64 (sh_freeList hdr);
    next ← ld64 slot;
    st64 (sh_freeList hdr) next;;
    inUse ← ld32 (sh_inUse hdr);
    st32 (sh_inUse hdr) (u32 (inUse + 1));;
    mret slot.

Definition freeToSlab (ptr : Z) : M machine unit :=
  let hdr := page_down ptr in
  fl ← ld64 (sh_freeList hdr);
  st64 ptr fl;;
  st64 (sh_freeList hdr) ptr;;
  inUse ← ld32 (sh_inUse hdr);
  st32 (sh_inUse hdr) (u32 (inUse - 1)).

Definition allocLarge (size align : Z) : M machine Z :=
  let hdrSize := LargeHeader_size in
  let userOffset := Z.land (hdrSize ⊞ align ⊟ 1) (not64 (align - 1)) in
  let total := userOffset ⊞ size in
  let order := orderForBytes total in
  if decide (MAX_ORDER < order)%nat then mret 0
  else
    addr ← AllocPages order;
    if decide (addr = 0) then mret 0
    else
      st64 addr 0;;
      let userPtr := addr ⊞ userOffset in
      let hdr := userPtr ⊟ hdrSize in
      st64 (lh_magic hdr) LARGE_MAGIC;;
      st32 (lh_order hdr) (Z.of_nat order);;
      st32 (lh_userOffset hdr) (u32 userOffset);;
      mret userPtr.

Definition freeLarge (ptr : Z) : M machine unit :=
  let hdr := ptr ⊟ LargeHeader_size in
  magic ← ld64 (lh_magic hdr);
  if decide (magic ≠ LARGE_MAGIC) then HvPanic "[HEAP] large free: bad magic"
  else
    order ← ld32 (lh_order hdr);
    userOffset ← ld32 (lh_userOffset hdr);
    st64 (lh_magic hdr) 0;;
    let allocStart := ptr ⊟ userOffset in
    FreePages allocStart (Z.to_nat order).

Definition Allocate (size align : Z) : M machine Z :=
  let size := if decide (size = 0) then 1 else size in
  let align := if decide (align < DEFAULT_NEW_ALIGN) then DEFAULT_NEW_ALIGN else align in
  let classIdx := pickClass size align in
  if decide (classIdx < NO_SLAB_CLASS)%nat then allocFromSlab classIdx
  else allocLarge size align.

Definition Deallocate (ptr : Z) : M machine unit :=
  if decide (ptr = 0) then mret tt
  else if decide (Z.land ptr (PAGE_SIZE - 1) = 0) then freeLarge ptr
  else
    let pageAddr := page_down ptr in
    magic ← ld64 (sh_magic pageAddr);
    if decide (magic = SLAB_MAGIC) then freeToSlab ptr
    else
      magic ← ld64 (lh_magic (ptr ⊟ LargeHeader_size));
      if decide (magic = LARGE_MAGIC) then freeLarge ptr
      else HvPanic "[HEAP] free: invalid pointer (no recognised header)".

(** The global operators; the array and sized forms have the same bodies. *)
Definition operator_new (size : Z) : M machine Z :=
  p ← Allocate size DEFAULT_NEW_ALIGN;
  if decide (p = 0) then HvPanic "[HEAP] operator new failed" else mret p.

Definition operator_new_aligned (size a : Z) : M machine Z :=
  p ← Allocate size a;
  if decide (p = 0) then HvPanic "[HEAP] aligned operator new failed" else mret p.

Definition operator_delete (p : Z) : M machine unit := Deallocate p.
