(* ===== verification/HeapLarge.v ===== *)
(** * The kernel heap: size classes and large allocations *)
From S2P Require Import Prelude Memory Machine Pmm FreeLists PmmInit PageAlloc PageTableSpec.
From S2P Require Import MmioMap Heap.

(** ** Sizes *)

Lemma orderForBytes_from_spec total n : ∀ o, (o + n = 16)%nat →
  match decide (total ≤ 2 ^ 28) with
  | left _ => let r := orderForBytes_from total (bs o) o n in
      (o ≤ r ≤ 16)%nat ∧ total ≤ bs r ∧ (r = o ∨ ∃ r', r = S r' ∧ bs r' < total)
  | right _ => orderForBytes_from total (bs o) o n = S MAX_ORDER
  end.
Proof.
  assert (Hb16 : bs 16 = 2 ^ 28) by done.
  induction n as [|n IH]; intros o Ho; cbn [orderForBytes_from]; cbv zeta.
  - assert (o = 16%nat) as -> by lia. rewrite Hb16.
    destruct (decide (total ≤ 2 ^ 28)) as [Hle|Hgt].
    + rewrite decide_False by lia. split_and!; [lia|lia|lia|by left].
    + rewrite decide_True by lia. by case_decide.
  - assert (E : u64 (bs o ≪ 1) = bs (S o)).
    { rewrite Z.shiftl_mul_pow2, bs_S by lia. unfold u64. rewrite Z.mod_small; [lia|].
      pose proof (bs_pos o). pose proof (bs_max o ltac:(lia)). lia. }
    specialize (IH (S o) ltac:(lia)). rewrite E. pose proof (bs_max o ltac:(lia)).
    destruct (decide (total ≤ 2 ^ 28)) as [Hle|Hgt].
    + case_decide as Hlt; [|split_and!; [lia|lia|lia|by left]].
      rewrite decide_False by (unfold MAX_ORDER; lia). destruct IH as (H1 & H2 & H3).
      split_and!; [lia|lia|done|]. right. destruct H3 as [-> |(r' & E' & ?)]; [by exists o|by exists r'].
    + rewrite decide_True by lia. by rewrite decide_False by (unfold MAX_ORDER; lia).
Qed.

(** The smallest order that holds [total] bytes. *)
Lemma orderForBytes_spec total : total ≤ 2 ^ 28 →
  (orderForBytes total ≤ MAX_ORDER)%nat ∧ total ≤ bs (orderForBytes total) ∧
  (orderForBytes total = 0%nat ∨ ∃ r, orderForBytes total = S r ∧ bs r < total).
Proof.
  intros H. pose proof (orderForBytes_from_spec total 16 0 eq_refl) as Hs.
  unfold orderForBytes. change PAGE_SIZE with (bs 0). change MAX_ORDER with 16%nat.
  destruct (decide (total ≤ 2 ^ 28)); [|done]. cbv zeta in Hs. tauto.
Qed.

Lemma orderForBytes_too_big total : 2 ^ 28 < total → orderForBytes total = S MAX_ORDER.
Proof.
  intros H. pose proof (orderForBytes_from_spec total 16 0 eq_refl) as Hs.
  destruct (decide (total ≤ 2 ^ 28)); [lia|]. exact Hs.
Qed.

Lemma first_class_spec l need : ∀ i,
  (∃ j, (j < length l)%nat ∧ first_class l need i = (i + j)%nat ∧ need ≤ nth j l 0 ∧
    ∀ n, (n < j)%nat → nth n l 0 < need) ∨ (∀ c, c ∈ l → c < need).
Proof.
  induction l as [|c l IH]; intros i; [right; set_solver|]. cbn [first_class]. case_decide as Hc.
  - left. exists 0%nat. simpl. split_and!; [lia|lia|done|lia].
  - destruct (IH (S i)) as [(j & Hj & E & Hn & Hmin)|Hall].
    + left. exists (S j). simpl. split_and!; [lia|rewrite E; lia|done|]. intros [|n] Hlt; [lia|]. apply Hmin. lia.
    + right. intros x [->|Hx]%elem_of_cons; [lia|auto].
Qed.

(** The class chosen is the smallest one that holds the request and its alignment. *)
Lemma pickClass_spec size align : 0 < size → 16 ≤ align →
  let c := pickClass size align in
  if decide (Z.max size align ≤ 1024) then
    (c < NO_SLAB_CLASS)%nat ∧ size ≤ nth c SLAB_CLASSES 0 ∧ align ≤ nth c SLAB_CLASSES 0 ∧
    ∀ i, (i < c)%nat → nth i SLAB_CLASSES 0 < Z.max size align
  else c = NO_SLAB_CLASS.
Proof.
  intros Hs Ha. cbv zeta. unfold pickClass. cbv zeta.
  assert ((if decide (align < size) then size else align) = Z.max size align) as -> by (case_decide; lia).
  set (need := Z.max size align) in *. assert (size ≤ need ∧ align ≤ need) by lia. clearbody need.
  destruct (decide (need ≤ 1024)).
  - rewrite decide_False by (unfold MAX_SLAB_SIZE; lia).
    destruct (first_class_spec SLAB_CLASSES need 0) as [(n & Hn & -> & Hfit & Hmin)|Hall].
    + simpl in Hn. change (0 + n)%nat with n. unfold NO_SLAB_CLASS. split_and!; [lia|lia|lia|done].
    + specialize (Hall 1024). assert (1024 < need); [|lia]. apply Hall. unfold SLAB_CLASSES. set_solver.
  - by rewrite decide_True by (unfold MAX_SLAB_SIZE; lia).
Qed.

(** ** Large allocations *)

Lemma userOffset_eq k : 4 ≤ k ≤ 63 →
  Z.land (LargeHeader_size ⊞ 2 ^ k ⊟ 1) (not64 (2 ^ k - 1)) = 2 ^ k.
Proof.
  intros Hk. assert (2 ^ 4 ≤ 2 ^ k ≤ 2 ^ 63) by (split; apply Z.pow_le_mono_r; lia).
  assert (LargeHeader_size ⊞ 2 ^ k ⊟ 1 = 15 + 2 ^ k) as ->.
  { unfold LargeHeader_size, u64. rewrite Zminus_mod_idemp_l, Z.mod_small by lia. lia. }
  change (Z.land (15 + 2 ^ k) (not64 (2 ^ k - 1))) with (align_down (15 + 2 ^ k) (2 ^ k)).
  rewrite align_down_eq by (unfold fits; lia).
  replace (15 + 2 ^ k) with (15 + 1 * 2 ^ k) at 2 by lia. rewrite Z.mod_add, Z.mod_small by lia. lia.
Qed.

Section large.
Context `{PA : !PageAllocator AllocPages FreePages}.

(** A live large allocation at [p]: the block [addr] of order [o], offset [2 ^ k], and
    a header [Deallocate] will recognise. *)
Record large_live (s : machine) (p addr : Z) (o : nat) (k : Z) : Prop := {
  ll_block : pa_block s addr o;
  ll_bounds : 0 < addr ∧ addr + bs o ≤ PA_LIMIT ∧ addr mod 4096 = 0 ∧ (o ≤ MAX_ORDER)%nat;
  ll_off : 4 ≤ k ∧ 2 ^ k < bs o;
  ll_ptr : p = addr + 2 ^ k;
  ll_magic : load64 (mc_mem s) (p - 16) = LARGE_MAGIC;
  ll_order : load32 (mc_mem s) (p - 8) = Z.of_nat o;
  ll_offset : load32 (mc_mem s) (p - 4) = 2 ^ k;
  ll_probe : load64 (mc_mem s) addr ≠ SLAB_MAGIC;
}.

(** The client may write its bytes. *)
Lemma large_live_client s s' p addr o k :
  large_live s p addr o k → (∀ b n, pa_block s b n → pa_block s' b n) →
  (∀ x, addr ≤ x < p → load8 (mc_mem s') x = load8 (mc_mem s) x) →
  large_live s' p addr o k.
Proof.
  intros [Hb Hbd Hoff Hp Hm Ho Hu Hpr] Hbs Hmem. assert (2 ^ 4 ≤ 2 ^ k) by (apply Z.pow_le_mono_r; lia).
  assert (Hld : ∀ n a, addr ≤ a → a + Z.of_nat n ≤ p → load n (mc_mem s') a = load n (mc_mem s) a).
  { intros n a H1 H2. apply load_agree. intros x Hx. apply Hmem. lia. }
  split; auto; rewrite Hld by lia; done.
Qed.

Lemma allocLarge_spec s F size k :
  pa_ok s F → 0 < size → 4 ≤ k ≤ 63 → 2 ^ k + size < 2 ^ 64 →
  runs (allocLarge size (2 ^ k)) s (λ p s',
    (p = 0 ∧ s' = s) ∨
    (∃ addr o F', large_live s' p addr o k ∧ p + size ≤ addr + bs o ∧ pa_ok s' F' ∧
      (∀ x, F x ↔ F' x ∨ block addr o x) ∧ (∀ x, block addr o x → ¬ F' x) ∧
      (∀ b n, pa_block s b n → pa_block s' b n) ∧ pa_frame F s s')).
Proof.
  intros HF Hs Hk Hnw. unfold allocLarge. cbv zeta. rewrite userOffset_eq by done.
  assert (2 ^ 4 ≤ 2 ^ k) by (apply Z.pow_le_mono_r; lia).
  assert (2 ^ k ⊞ size = 2 ^ k + size) as -> by (apply Z.mod_small; lia).
  case_decide as Hbig; [mrun; by left|].
  destruct (decide (2 ^ k + size ≤ 2 ^ 28)) as [Hle|Hgt].
  2: { rewrite orderForBytes_too_big in Hbig by lia. lia. }
  destruct (orderForBytes_spec (2 ^ k + size) Hle) as (Ho & Hfit & _).
  set (o := orderForBytes (2 ^ k + size)) in *. pose proof (bs_max o Ho).
  apply runs_bind. eapply runs_mono; [by apply (pa_alloc s F o HF)|]. cbv beta.
  intros addr s1 [(-> & -> & _)|(Ha & Hb & Hbs & [Hon Hmem] & F' & HF' & Heq & Hdis)]; [mrun; by left|].
  rewrite decide_False by done. pose proof (pa_block_bounds s1 F' addr o HF' Hb) as Hbd.
  assert (addr ⊞ 2 ^ k = addr + 2 ^ k) as -> by (apply Z.mod_small; lia).
  assert (addr + 2 ^ k ⊟ LargeHeader_size = addr + 2 ^ k - 16) as ->
    by (unfold LargeHeader_size; apply Z.mod_small; lia).
  assert (u32 (2 ^ k) = 2 ^ k) as -> by (apply Z.mod_small; lia).
  unfold lh_magic, lh_order, lh_userOffset. mrun. right. set (h := addr + 2 ^ k - 16).
  set (s2 := set_mem _ _). exists addr, o, F'.
  assert (Hm2 : mc_mem s2 = store32 (store32 (store64 (store64 (mc_mem s1) addr 0) h LARGE_MAGIC)
    (h + 8) (Z.of_nat o)) (h + 12) (2 ^ k)) by done.
  assert (Hout : ∀ x, ¬ block addr o x → load8 (mc_mem s2) x = load8 (mc_mem s1) x).
  { intros x Hx. unfold block in Hx. rewrite Hm2, !store_frame by (unfold h; lia). done. }
  destruct (pa_client s1 s2 F' HF' eq_refl) as [Hok2 Hbs2].
  { intros x Hx. apply Hout. intros Hin. by apply (Hdis x). }
  split_and!; try done; [|lia|auto| ].
  - split; try done; [by apply Hbs2|lia| | | | ]; rewrite ?Hm2.
    + fold h. rewrite !load_store_ne by lia. by apply (load_store_eq_fits 8).
    + replace (addr + 2 ^ k - 8) with (h + 8) by lia. rewrite load_store_ne by lia.
      apply (load_store_eq_fits 4). unfold fits. unfold MAX_ORDER in Ho. lia.
    + replace (addr + 2 ^ k - 4) with (h + 12) by lia.
      apply (load_store_eq_fits 4). unfold fits. lia.
    + destruct (decide (k = 4)) as [->|Hne].
      * assert (Eh : h = addr) by (unfold h; lia). rewrite Eh, !load_store_ne by lia.
        by rewrite (load_store_eq_fits 8).
      * assert (2 ^ 5 ≤ 2 ^ k) by (apply Z.pow_le_mono_r; lia).
        rewrite !load_store_ne by (unfold h; lia). by rewrite (load_store_eq_fits 8).
  - split; [done|]. intros x Hx. rewrite Hout; [by apply Hmem|]. intros Hin. apply Hx, Heq. by right.
Qed.

Lemma freeLarge_spec s F p addr o k :
  pa_ok s F → large_live s p addr o k → (∀ x, block addr o x → ¬ F x) →
  runs (freeLarge p) s (λ _ s', pa_ok s' (λ x, F x ∨ block addr o x) ∧
    (∀ b n, pa_block s b n → pa_block s' b n) ∧ pa_frame (λ x, F x ∨ block addr o x) s s').
Proof.
  intros HF HL Hdis. destruct HL as [Hb Hbd Hoff Hp Hm Ho Hu Hpr].
  assert (2 ^ 4 ≤ 2 ^ k) by (apply Z.pow_le_mono_r; lia). unfold freeLarge. cbv zeta.
  assert (p ⊟ LargeHeader_size = p - 16) as -> by (unfold LargeHeader_size; apply Z.mod_small; lia).
  unfold lh_magic, lh_order, lh_userOffset. mrun. rewrite Hm. rewrite decide_False by tauto. mrun.
  replace (p - 16 + 8) with (p - 8) by lia. replace (p - 16 + 12) with (p - 4) by lia.
  rewrite Ho, Hu, Nat2Z.id. assert (p ⊟ 2 ^ k = addr) as -> by (rewrite Hp; unfold u64; rewrite Z.mod_small; lia).
  set (s1 := set_mem _ s).
  assert (Hmem : ∀ x, ¬ block addr o x → load8 (mc_mem s1) x = load8 (mc_mem s) x).
  { intros x Hx. simpl. apply store_frame. unfold block in Hx. lia. }
  destruct (pa_client s s1 F HF eq_refl) as [HF1 Hb1].
  { intros x Hx. apply Hmem. intros Hin. by apply (Hdis x). }
  eapply runs_mono; [apply (pa_free s1 F addr o HF1); auto|]. cbv beta.
  intros [] s2 (HF2 & Hb2 & [Hon2 Hm2]). split_and!; [done|auto|]. split; [done|].
  intros x Hx. rewrite Hm2 by done. apply Hmem. tauto.
Qed.

Lemma Deallocate_large_spec s F p addr o k :
  pa_ok s F → large_live s p addr o k → (∀ x, block addr o x → ¬ F x) →
  runs (Deallocate p) s (λ _ s', pa_ok s' (λ x, F x ∨ block addr o x) ∧
    (∀ b n, pa_block s b n → pa_block s' b n) ∧ pa_frame (λ x, F x ∨ block addr o x) s s').
Proof.
  intros HF HL Hdis. pose proof HL as [Hb Hbd Hoff Hp Hm Ho Hu Hpr].
  assert (2 ^ 4 ≤ 2 ^ k) by (apply Z.pow_le_mono_r; lia).
  assert (Hfree : runs (freeLarge p) s (λ _ s', pa_ok s' (λ x, F x ∨ block addr o x) ∧
    (∀ b n, pa_block s b n → pa_block s' b n) ∧ pa_frame (λ x, F x ∨ block addr o x) s s'))
    by (by eapply freeLarge_spec).
  unfold Deallocate. rewrite decide_False by lia. case_decide as Hal; [done|]. cbv zeta.
  change (Z.land p (PAGE_SIZE - 1)) with (Z.land p (bs 0 - 1)) in Hal. rewrite land_ones_zero in Hal.
  change (bs 0) with 4096 in Hal.
  assert (Hpage : page_down p = addr).
  { rewrite page_down_eq by (unfold fits; lia). rewrite Hp in Hal |- *.
    destruct (decide (k < 12)) as [Hk|Hk].
    - assert (2 ^ k < 2 ^ 12) by (apply Z.pow_lt_mono_r; lia).
      rewrite Z.add_mod, (proj1 (proj2 (proj2 Hbd))), Z.add_0_l, Z.mod_mod, Z.mod_small by lia. lia.
    - exfalso. apply Hal. rewrite Z.add_mod, (proj1 (proj2 (proj2 Hbd))) by done.
      replace k with (k - 12 + 12) by lia. rewrite Z.pow_add_r by lia. change (2 ^ 12) with 4096.
      by rewrite Z.mod_mul. }
  rewrite Hpage. unfold sh_magic, lh_magic. mrun. rewrite decide_False by done. mrun.
  assert (p ⊟ LargeHeader_size = p - 16) as -> by (unfold LargeHeader_size; apply Z.mod_small; lia).
  rewrite Hm. by rewrite decide_True.
Qed.
End large.
