(* ===== verification/HeapSlab.v ===== *)
(** * The kernel heap: slabs

    A slab is a page with a header and equal slots; the free slots are chained
    through their first bytes, the slabs of a class through their headers. *)
From S2P Require Import Prelude Memory Machine Pmm FreeLists PmmInit PageAlloc PageTableSpec.
From S2P Require Import MmioMap Heap HeapLarge.

(** ** Geometry *)

Definition slot_size (c : nat) : Z := nth c SLAB_CLASSES 0.
Definition first_off (c : nat) : Z := Z.max 32 (slot_size c).
Definition slot_count (c : nat) : nat := Z.to_nat ((4096 - first_off c) / slot_size c).
Definition slot (c : nat) (page : Z) (i : nat) : Z := page + first_off c + Z.of_nat i * slot_size c.
Definition is_slot (c : nat) (page p : Z) : Prop := ∃ i, (i < slot_count c)%nat ∧ p = slot c page i.

(** A goal over all seven classes. *)
Ltac each_class c := unfold NO_SLAB_CLASS in *; destruct c as [|[|[|[|[|[|[|?]]]]]]]; [..|lia].

Lemma slot_geometry c : (c < NO_SLAB_CLASS)%nat →
  slot_size c = 2 ^ (4 + Z.of_nat c) ∧ 16 ≤ slot_size c ≤ 1024 ∧ 32 ≤ first_off c ≤ 1024 ∧
  (slot_size c | first_off c) ∧ (slot_size c | 4096) ∧ (0 < slot_count c ≤ 254)%nat ∧
  first_off c + Z.of_nat (slot_count c) * slot_size c ≤ 4096 ∧
  Z.land (SlabHeader_size ⊞ slot_size c ⊟ 1) (not64 (slot_size c - 1)) = first_off c ∧
  Z.to_nat ((PAGE_SIZE ⊟ first_off c) / slot_size c) = slot_count c.
Proof.
  intros Hc. each_class c; (split_and!; try done; try (vm_compute; lia); try (vm_compute; by split));
    first [by exists 1 | by exists 2 | by exists 256 | by exists 128 | by exists 64 | by exists 32
      | by exists 16 | by exists 8 | by exists 4].
Qed.

Section slots.
Context (c : nat) (page : Z) (Hc : (c < NO_SLAB_CLASS)%nat) (Hpage : page mod 4096 = 0).

Lemma heap_slot_bounds p : is_slot c page p → page + 32 ≤ p ∧ p + slot_size c ≤ page + 4096 ∧ 16 ≤ slot_size c.
Proof.
  intros (i & Hi & ->). destruct (slot_geometry c Hc) as (_ & ? & ? & _ & _ & _ & Hend & _).
  unfold slot. nia.
Qed.

Lemma slot_page p : is_slot c page p → p mod 4096 ≠ 0 ∧ p - p mod 4096 = page.
Proof.
  intros Hp. pose proof (heap_slot_bounds p Hp). replace p with (page + (p - page)) by lia.
  rewrite Z.add_mod, Hpage, Z.add_0_l, Z.mod_mod, Z.mod_small by lia. lia.
Qed.

Lemma slot_aligned p : is_slot c page p → p mod slot_size c = 0.
Proof.
  intros (i & _ & ->). destruct (slot_geometry c Hc) as (_ & ? & _ & Hoff & Hd & _).
  apply Z.mod_divide; [lia|]. unfold slot. apply Z.divide_add_r; [apply Z.divide_add_r|].
  - etransitivity; [exact Hd|]. by apply Z.mod_divide.
  - done.
  - apply Z.divide_factor_r.
Qed.

Lemma slots_apart p q : is_slot c page p → is_slot c page q → p ≠ q →
  p + slot_size c ≤ q ∨ q + slot_size c ≤ p.
Proof.
  intros (i & _ & ->) (j & _ & ->) Hne. destruct (slot_geometry c Hc) as (_ & ? & _).
  unfold slot in *. destruct (Nat.lt_trichotomy i j) as [?|[->|?]]; [left; nia|done|right; nia].
Qed.

(** Distinct slots of a page are at most [slot_count]. *)
Lemma slot_count_room p l :
  NoDup l → p ∉ l → (∀ q, q ∈ p :: l → is_slot c page q) → (length l < slot_count c)%nat.
Proof.
  intros Hnd Hp Hl. assert (length (p :: l) ≤ length (slot c page <$> seq 0 (slot_count c)))%nat as Hle.
  { apply submseteq_length, NoDup_submseteq; [by constructor|]. intros q (i & Hi & ->)%Hl.
    apply list_elem_of_fmap_2, elem_of_seq. lia. }
  rewrite length_fmap, length_seq in Hle. simpl in Hle. lia.
Qed.
End slots.

(** ** Representation *)

Record slab : Set := Slab { sl_page : Z; sl_free : list Z }.

Fixpoint slab_list (m : gmap Z Z) (p : Z) (l : list slab) : Prop :=
  match l with
  | [] => p = 0
  | sl :: l' => p = sl_page sl ∧ slab_list m (load64 m (sh_next p)) l'
  end.

Section slab.
Context `{PA : !PageAllocator AllocPages FreePages}.

Record slab_ok (s : machine) (c : nat) (sl : slab) : Prop := {
  so_block : pa_block s (sl_page sl) 0;
  so_bounds : 0 < sl_page sl ∧ sl_page sl + 4096 ≤ PA_LIMIT ∧ sl_page sl mod 4096 = 0;
  so_magic : load64 (mc_mem s) (sh_magic (sl_page sl)) = SLAB_MAGIC;
  so_class : load32 (mc_mem s) (sh_classIdx (sl_page sl)) = Z.of_nat c;
  so_inUse : load32 (mc_mem s) (sh_inUse (sl_page sl)) + Z.of_nat (length (sl_free sl)) =
    Z.of_nat (slot_count c);
  so_chain : chain (mc_mem s) (load64 (mc_mem s) (sh_freeList (sl_page sl))) (sl_free sl);
  so_slots : ∀ p, p ∈ sl_free sl → is_slot c (sl_page sl) p;
  so_nodup : NoDup (sl_free sl);
}.

(** The slabs of each class, in list order. *)
Definition slab_of (H : nat → list slab) (c : nat) (sl : slab) : Prop :=
  (c < NO_SLAB_CLASS)%nat ∧ sl ∈ H c.

(** The bytes of the slabs, and those the heap itself uses: headers and links. *)
Definition slab_mem (H : nat → list slab) (x : Z) : Prop :=
  ∃ c sl, slab_of H c sl ∧ block (sl_page sl) 0 x.
Definition own_bytes (sl : slab) (x : Z) : Prop :=
  sl_page sl ≤ x < sl_page sl + 32 ∨ ∃ p, p ∈ sl_free sl ∧ p ≤ x < p + 8.
Definition slab_meta (H : nat → list slab) (x : Z) : Prop :=
  ∃ c sl, slab_of H c sl ∧ own_bytes sl x.

(** A slot handed out and not yet returned. *)
Definition slab_live (H : nat → list slab) (c : nat) (p : Z) : Prop :=
  ∃ sl, slab_of H c sl ∧ is_slot c (sl_page sl) p ∧ p ∉ sl_free sl.

Record slabs_ok (s : machine) (F : Z → Prop) (H : nat → list slab) : Prop := {
  sk_pa : pa_ok s F;
  sk_length : length (mc_slabs s) = NO_SLAB_CLASS;
  sk_list : ∀ c, (c < NO_SLAB_CLASS)%nat → slab_list (mc_mem s) (nth c (mc_slabs s) 0) (H c);
  sk_ok : ∀ c sl, slab_of H c sl → slab_ok s c sl;
  sk_used : ∀ x, slab_mem H x → ¬ F x;
  sk_uniq : ∀ c c' sl sl', slab_of H c sl → slab_of H c' sl' → sl_page sl = sl_page sl' →
    c = c' ∧ sl = sl';
  sk_nodup : ∀ c, (c < NO_SLAB_CLASS)%nat → NoDup (sl_page <$> H c);
}.

(** The heap as it boots: no slabs. *)
Lemma slabs_ok_boot s F : pa_ok s F → mc_slabs s = replicate NO_SLAB_CLASS 0 → slabs_ok s F (λ _, []).
Proof.
  intros HF E. split; rewrite ?E; try done.
  - intros c Hc. each_class c; done.
  - by intros c sl [_ ?%elem_of_nil].
  - by intros x (c & sl & [_ ?%elem_of_nil] & _).
  - by intros c c' sl sl' [_ ?%elem_of_nil].
  - intros. constructor.
Qed.

(** ** Frame *)

Lemma own_in_page s c sl x :
  slab_ok s c sl → (c < NO_SLAB_CLASS)%nat → own_bytes sl x → block (sl_page sl) 0 x.
Proof.
  intros Hok Hc Hx. unfold block. change (bs 0) with 4096. destruct Hx as [?|(p & Hp & ?)]; [lia|].
  pose proof (heap_slot_bounds c _ Hc p (so_slots _ _ _ Hok p Hp)). lia.
Qed.

(** The link to the next slab apart, a slab depends on its own bytes only. *)
Lemma slab_ok_frame_next s s' c sl :
  slab_ok s c sl → (c < NO_SLAB_CLASS)%nat → (∀ b k, pa_block s b k → pa_block s' b k) →
  (∀ x, own_bytes sl x → ¬ (sh_next (sl_page sl) ≤ x < sh_next (sl_page sl) + 8) →
    load8 (mc_mem s') x = load8 (mc_mem s) x) → slab_ok s' c sl.
Proof.
  intros [Hb Hbd Hm Hcl Hu Hch Hs Hn] Hc Hbs Hmem. unfold sh_next in Hmem.
  assert (Hld : ∀ n a, sl_page sl ≤ a → a + Z.of_nat n ≤ sl_page sl + 24 →
    load n (mc_mem s') a = load n (mc_mem s) a).
  { intros n a H1 H2. apply load_agree. intros x Hx. apply Hmem; [left|]; lia. }
  unfold sh_magic, sh_classIdx, sh_inUse, sh_freeList in *.
  split; auto; unfold sh_magic, sh_classIdx, sh_inUse, sh_freeList; rewrite Hld by lia; try done.
  eapply chain_agree; [|done]. intros a Ha. pose proof (heap_slot_bounds c _ Hc a (Hs a Ha)).
  apply load_agree. intros x Hx. apply Hmem; [right; exists a; split; [done|]|]; lia.
Qed.

Lemma meta_in_slab H x : (∀ c sl, slab_of H c sl → ∃ s, slab_ok s c sl) → slab_meta H x → slab_mem H x.
Proof.
  intros Hok (c & sl & Hsl & Hx). destruct (Hok c sl Hsl) as [s Hs]. exists c, sl. split; [done|].
  by eapply own_in_page; [|apply Hsl|].
Qed.

Lemma slab_ok_frame s s' c sl :
  slab_ok s c sl → (c < NO_SLAB_CLASS)%nat → (∀ b k, pa_block s b k → pa_block s' b k) →
  (∀ x, own_bytes sl x → load8 (mc_mem s') x = load8 (mc_mem s) x) → slab_ok s' c sl.
Proof. intros Hok Hc Hbs Hmem. apply (slab_ok_frame_next s); auto. Qed.

Lemma slab_list_frame m m' p l :
  (∀ sl, sl ∈ l → load64 m' (sh_next (sl_page sl)) = load64 m (sh_next (sl_page sl))) →
  slab_list m p l → slab_list m' p l.
Proof.
  revert p. induction l as [|sl l IH]; intros p Heq Hl; simpl in *; [done|].
  destruct Hl as [-> Hl]. split; [done|]. rewrite Heq by set_solver. apply IH; [set_solver|done].
Qed.

Lemma slab_page s F H c sl x :
  slabs_ok s F H → slab_of H c sl → block (sl_page sl) 0 x → sl_page sl = x - x mod 4096.
Proof.
  intros HK Hsl Hx. destruct (so_bounds _ _ _ (sk_ok _ _ _ HK c sl Hsl)) as (_ & _ & Hm).
  unfold block in Hx. change (bs 0) with 4096 in Hx. replace x with (sl_page sl + (x - sl_page sl)) by lia.
  rewrite Z.add_mod, Hm, Z.add_0_l, Z.mod_mod, Z.mod_small by lia. lia.
Qed.

(** The slab of a byte is unique. *)
Lemma slab_at s F H c c' sl sl' x :
  slabs_ok s F H → slab_of H c sl → slab_of H c' sl' →
  block (sl_page sl) 0 x → block (sl_page sl') 0 x → c = c' ∧ sl = sl'.
Proof.
  intros HK H1 H2 Hx Hx'. apply (sk_uniq _ _ _ HK); [done..|].
  by rewrite (slab_page s F H c sl x), (slab_page s F H c' sl' x).
Qed.

Lemma slabs_ok_frame s s' F F' H :
  slabs_ok s F H → pa_ok s' F' → (∀ b k, pa_block s b k → pa_block s' b k) →
  mc_slabs s' = mc_slabs s → (∀ x, slab_mem H x → ¬ F' x) →
  (∀ x, slab_meta H x → load8 (mc_mem s') x = load8 (mc_mem s) x) → slabs_ok s' F' H.
Proof.
  intros [Hpa Hlen Hl Hok Hus Huq Hnd] HF' Hbs Hsl Hus' Hmem. split; rewrite ?Hsl; try done.
  - intros c Hc. eapply slab_list_frame; [|by apply Hl]. intros sl Hin. apply load_agree.
    intros x Hx. apply Hmem. exists c, sl. split; [done|]. left. unfold sh_next in Hx. lia.
  - intros c sl Hin. eapply slab_ok_frame; [by apply Hok|apply Hin|done|]. intros x Hx. apply Hmem. by exists c, sl.
Qed.

Lemma live_in_slab s F H c p x : slabs_ok s F H → slab_live H c p → p ≤ x < p + slot_size c → slab_mem H x.
Proof.
  intros HK (sl & Hsl & Hp & _) Hx. exists c, sl. split; [done|].
  pose proof (heap_slot_bounds c _ (proj1 Hsl) p Hp). unfold block. change (bs 0) with 4096. lia.
Qed.

(** The heap never uses the bytes of a live slot. *)
Lemma live_not_meta s F H c p x :
  slabs_ok s F H → slab_live H c p → p ≤ x < p + slot_size c → ¬ slab_meta H x.
Proof.
  intros HK (sl & Hsl & Hp & Hnot) Hx (c' & sl' & Hsl' & Hown).
  pose proof (heap_slot_bounds c _ (proj1 Hsl) p Hp) as Hb.
  destruct (slab_at s F H c c' sl sl' x) as [<- <-]; try done.
  { unfold block. change (bs 0) with 4096. lia. }
  { apply (own_in_page s c'); [by eapply sk_ok|apply Hsl'|done]. }
  destruct Hown as [?|(q & Hq & ?)]; [lia|].
  destruct (slots_apart c (sl_page sl) (proj1 Hsl) p q) as [?|?]; [done| | |lia|lia].
  - by eapply so_slots; [eapply sk_ok|].
  - by intros <-.
Qed.

(** Live slots are disjoint. *)
Lemma live_apart s F H c p c' q :
  slabs_ok s F H → slab_live H c p → slab_live H c' q → p ≠ q →
  p + slot_size c ≤ q ∨ q + slot_size c' ≤ p.
Proof.
  intros HK (sl & Hsl & Hp & _) (sl' & Hsl' & Hq & _) Hne.
  pose proof (heap_slot_bounds c _ (proj1 Hsl) p Hp) as Hb.
  pose proof (heap_slot_bounds c' _ (proj1 Hsl') q Hq) as Hb'.
  destruct (decide (sl_page sl = sl_page sl')) as [E|E].
  - destruct (sk_uniq _ _ _ HK c c' sl sl') as [<- <-]; [done..|].
    by apply (slots_apart c (sl_page sl) (proj1 Hsl)).
  - destruct (so_bounds _ _ _ (sk_ok _ _ _ HK c sl Hsl)) as (_ & _ & Hm).
    destruct (so_bounds _ _ _ (sk_ok _ _ _ HK c' sl' Hsl')) as (_ & _ & Hm').
    apply Z.mod_divide in Hm as [a Ha]; [|done]. apply Z.mod_divide in Hm' as [b Hb2]; [|done]. nia.
Qed.

Lemma slot_in_block c page p : (c < NO_SLAB_CLASS)%nat → is_slot c page p → block page 0 p.
Proof. intros Hc Hp. pose proof (heap_slot_bounds c page Hc p Hp). unfold block. change (bs 0) with 4096. lia. Qed.

(** A slot belongs to one slab. *)
Lemma slot_unique s F H c c' sl sl' p :
  slabs_ok s F H → slab_of H c sl → slab_of H c' sl' → is_slot c (sl_page sl) p → is_slot c' (sl_page sl') p →
  c = c' ∧ sl = sl'.
Proof.
  intros HK Hsl Hsl' Hp Hp'. apply (slab_at s F H c c' sl sl' p); try done.
  - by apply (slot_in_block c); [apply Hsl|].
  - by apply (slot_in_block c'); [apply Hsl'|].
Qed.

Lemma slab_live_iff s F H c sl d p :
  slabs_ok s F H → slab_of H c sl → is_slot c (sl_page sl) p →
  slab_live H d p ↔ d = c ∧ p ∉ sl_free sl.
Proof.
  intros HK Hsl Hp. split.
  - intros (y & Hy & Hpy & Hnot). by destruct (slot_unique s F H d c y sl p) as [-> ->].
  - intros [-> Hnot]. by exists sl.
Qed.

(** Memory changed inside slabs only. *)
Definition wrote (P : Z → Prop) (s s' : machine) : Prop :=
  mem_pmm_only s s' ∧ mc_pmm s' = mc_pmm s ∧ mem_same_outside P s s'.

Lemma wrote_pa s s' F H P :
  slabs_ok s F H → wrote P s s' → (∀ x, P x → slab_mem H x) →
  pa_ok s' F ∧ ∀ b k, pa_block s b k → pa_block s' b k.
Proof.
  intros HK (_ & Hpmm & Hmem) HP. apply (pa_client s); [apply HK|done|].
  intros x Hx. apply Hmem. intros Hin. by apply (sk_used _ _ _ HK x (HP x Hin)).
Qed.

Lemma header_in_slab H c sl x :
  slab_of H c sl → sl_page sl ≤ x < sl_page sl + 32 → slab_mem H x.
Proof. intros Hsl Hx. exists c, sl. split; [done|]. unfold block. change (bs 0) with 4096. lia. Qed.
End slab.
