(* ===== verification/HeapSlabOps.v ===== *)
(** * The kernel heap: allocation from slabs and return to them *)
From S2P Require Import Prelude Memory Machine Pmm FreeLists PmmInit PageAlloc PageTableSpec.
From S2P Require Import MmioMap Heap HeapLarge HeapSlab.

Section ops.
Context `{PA : !PageAllocator AllocPages FreePages}.

(** ** Replacing one slab *)

(** [H'] is [H] with the slab [sl] of class [c] turned into [sl']. *)
Definition replaced (H : nat → list slab) (c : nat) (sl sl' : slab) (H' : nat → list slab) : Prop :=
  ∀ d x, slab_of H' d x ↔ (d = c ∧ x = sl') ∨ (slab_of H d x ∧ sl_page x ≠ sl_page sl).

Lemma replaced_insert s F H c sl sl' l1 l2 :
  slabs_ok s F H → (c < NO_SLAB_CLASS)%nat → H c = l1 ++ sl :: l2 →
  replaced H c sl sl' (<[c := l1 ++ sl' :: l2]> H).
Proof.
  intros HK Hc HL d x.
  assert (Hsl : slab_of H c sl) by (split; [done|rewrite HL; set_solver]).
  pose proof (sk_nodup _ _ _ HK c Hc) as Hnd. rewrite HL, fmap_app, fmap_cons in Hnd.
  apply list.NoDup_app in Hnd as (_ & Hd1 & Hnd2). apply list.NoDup_cons in Hnd2 as [Hd2 _].
  assert (Hother : ∀ y, y ∈ l1 ∨ y ∈ l2 → sl_page y ≠ sl_page sl).
  { intros y [Hy|Hy] E.
    - apply (Hd1 (sl_page y)); [by apply list_elem_of_fmap_2|rewrite E; set_solver].
    - apply Hd2. rewrite <-E. by apply list_elem_of_fmap_2. }
  unfold slab_of. destruct (decide (d = c)) as [->|Hne].
  - rewrite fn_lookup_insert, HL. split.
    + intros [_ Hx]. apply elem_of_app in Hx as [Hx|[->|Hx]%elem_of_cons]; [right|by left|right];
        (split; [split; [done|set_solver]|apply Hother; auto]).
    + intros [[_ ->]|[[_ Hx] Hp]]; (split; [done|]); [set_solver|].
      apply elem_of_app in Hx as [Hx|[->|Hx]%elem_of_cons]; [set_solver|done|set_solver].
  - rewrite fn_lookup_insert_ne by done. split.
    + intros Hx. right. split; [done|]. intros E.
      by destruct (sk_uniq _ _ _ HK d c x sl Hx Hsl E).
    + by intros [[]|[Hx _]].
Qed.

Lemma slab_list_replace m p l1 sl sl' l2 :
  sl_page sl' = sl_page sl → slab_list m p (l1 ++ sl :: l2) → slab_list m p (l1 ++ sl' :: l2).
Proof.
  intros E. revert p. induction l1 as [|y l1 IH]; intros p Hl; simpl in *.
  - by rewrite E.
  - destruct Hl as [-> Hl]. split; [done|]. by apply IH.
Qed.

Lemma slabs_ok_replace s s' F H c sl sl' :
  slabs_ok s F H → slab_of H c sl → sl_page sl' = sl_page sl → slab_ok s' c sl' →
  wrote (block (sl_page sl) 0) s s' →
  load64 (mc_mem s') (sh_next (sl_page sl)) = load64 (mc_mem s) (sh_next (sl_page sl)) →
  ∃ H', slabs_ok s' F H' ∧ replaced H c sl sl' H'.
Proof.
  intros HK Hsl Hpg Hok' Hw Hnext. pose proof Hw as (Hon & _ & Hmem). pose proof Hsl as [Hc Hin].
  apply list_elem_of_split in Hin as (l1 & l2 & HL).
  exists (<[c := l1 ++ sl' :: l2]> H). pose proof (replaced_insert s F H c sl sl' l1 l2 HK Hc HL) as HR.
  split; [|done]. pose proof HK as [Hpa Hlen Hl Hok Hus Huq Hnd].
  destruct (wrote_pa s s' F H _ HK Hw) as [Hpa' Hbs]; [by exists c, sl|].
  split; [done|by rewrite (proj1 Hon)| | | | |].
  - intros d Hd. rewrite (proj1 Hon).
    assert (Hl' : slab_list (mc_mem s') (nth d (mc_slabs s) 0) (H d)).
    { eapply slab_list_frame; [|by apply Hl]. intros x Hx. 
      destruct (decide (sl_page x = sl_page sl)) as [->|Hne]; [done|].
      apply load_agree. intros a Ha. apply Hmem. intros Hb. apply Hne.
      destruct (slab_at s F H d c x sl a) as [_ ->]; try done.
      unfold block, sh_next in *. change (bs 0) with 4096. lia. }
    destruct (decide (d = c)) as [->|]; [|by rewrite fn_lookup_insert_ne by done].
    rewrite fn_lookup_insert. apply (slab_list_replace _ _ _ sl); [done|]. by rewrite <-HL.
  - intros d x [[-> ->]|[Hx Hne]]%HR; [done|].
    eapply slab_ok_frame; [by apply Hok|apply Hx|done|]. intros a Ha. apply Hmem. intros Hb. apply Hne.
    pose proof (own_in_page s d x a (Hok d x Hx) (proj1 Hx) Ha).
    by destruct (slab_at s F H d c x sl a) as [_ ->].
  - intros a (d & x & [[-> ->]|[Hx _]]%HR & Ha); apply Hus; [exists c, sl|exists d, x]; by rewrite <-?Hpg.
  - intros d d' x x' [[-> ->]|[Hx Hne]]%HR [[-> ->]|[Hx' Hne']]%HR E; [done|congruence..|].
    by apply Huq.
  - intros d Hd. destruct (decide (d = c)) as [->|]; [|rewrite fn_lookup_insert_ne by done; auto].
    rewrite fn_lookup_insert. specialize (Hnd c Hd). rewrite HL in Hnd.
    by rewrite fmap_app, fmap_cons, Hpg in * |- *.
Qed.

Lemma replaced_mem H c sl sl' H' x :
  replaced H c sl sl' H' → slab_of H c sl → sl_page sl' = sl_page sl →
  slab_mem H' x ↔ slab_mem H x.
Proof.
  intros HR Hsl Hpg. split.
  - intros (d & y & [[-> ->]|[Hy _]]%HR & Hb); [exists c, sl; by rewrite <-Hpg|by exists d, y].
  - intros (d & y & Hy & Hb). destruct (decide (sl_page y = sl_page sl)) as [E|E].
    + exists c, sl'. split; [apply HR; by left|]. by rewrite Hpg, <-E.
    + exists d, y. split; [|done]. apply HR. by right.
Qed.

(** The slots handed out, when the free slots of one slab change. *)
Lemma replaced_live s F H c sl sl' H' d q :
  slabs_ok s F H → replaced H c sl sl' H' → slab_of H c sl → sl_page sl' = sl_page sl →
  slab_live H' d q ↔
    (d = c ∧ is_slot c (sl_page sl) q ∧ q ∉ sl_free sl') ∨
    (slab_live H d q ∧ ¬ (d = c ∧ is_slot c (sl_page sl) q)).
Proof.
  intros HK HR Hsl Hpg. split.
  - intros (y & [[-> ->]|[Hy Hne]]%HR & Hq & Hnot); [left; by rewrite Hpg in Hq|right].
    split; [by exists y|]. intros [-> Hq']. apply Hne. by destruct (slot_unique s F H c c y sl q) as [_ ->].
  - intros [(-> & Hq & Hnot)|[(y & Hy & Hq & Hnot) Hno]].
    + exists sl'. split; [apply HR; by left|]. by rewrite Hpg.
    + exists y. split; [|done]. apply HR. right. split; [done|]. intros E.
      destruct (sk_uniq _ _ _ HK d c y sl Hy Hsl E) as [-> ->]. by apply Hno.
Qed.

(** ** Taking and returning a slot *)

Definition takes (H H' : nat → list slab) (c : nat) (p : Z) : Prop :=
  (∀ d q, slab_live H' d q ↔ slab_live H d q ∨ (d = c ∧ q = p)) ∧ ∀ d, ¬ slab_live H d p.

(** A slot of the slab changes hands: taken, or returned. *)
Lemma replaced_takes s F H c sl p rest H' :
  slabs_ok s F H → slab_of H c sl → sl_free sl = p :: rest →
  replaced H c sl (Slab (sl_page sl) rest) H' → takes H H' c p.
Proof.
  intros HK Hsl Hfree HR. pose proof (sk_ok _ _ _ HK c sl Hsl) as Hok.
  pose proof (so_nodup _ _ _ Hok) as Hnd. rewrite Hfree in Hnd. apply list.NoDup_cons in Hnd as [Hnp _].
  assert (Hp : is_slot c (sl_page sl) p) by (apply (so_slots _ _ _ Hok); rewrite Hfree; set_solver).
  split.
  - intros d q. rewrite (replaced_live s F H c sl (Slab (sl_page sl) rest) H') by done. simpl. split.
    + intros [(-> & Hq & Hnot)|[Hq _]]; [|by left].
      destruct (decide (q = p)) as [->|]; [by right|left]. apply (slab_live_iff s F H c sl); [done..|].
      rewrite Hfree. set_solver.
    + intros [(y & Hy & Hq & Hnot)|[-> ->]]; [|by left].
      destruct (decide (sl_page y = sl_page sl)) as [E|E].
      * destruct (sk_uniq _ _ _ HK d c y sl Hy Hsl E) as [-> ->]. left. split_and!; [done..|].
        rewrite Hfree in Hnot. set_solver.
      * right. split; [by exists y|]. intros [-> Hq']. by destruct (slot_unique s F H c c y sl q) as [_ ->].
  - intros d [_ Hno]%(slab_live_iff s F H c sl); [|done..]. rewrite Hfree in Hno. set_solver.
Qed.

Lemma replaced_returns s F H c sl p H' :
  slabs_ok s F H → slab_of H c sl → is_slot c (sl_page sl) p →
  replaced H c sl (Slab (sl_page sl) (p :: sl_free sl)) H' →
  ∀ d q, slab_live H' d q ↔ slab_live H d q ∧ q ≠ p.
Proof.
  intros HK Hsl Hp HR d q. rewrite (replaced_live s F H c sl (Slab _ (p :: sl_free sl)) H') by done. simpl. split.
  - intros [(-> & Hq & Hnot)|[Hq Hno]].
    + split; [|set_solver]. apply (slab_live_iff s F H c sl); [done..|]. set_solver.
    + split; [done|]. intros ->. apply Hno. split; [|done]. by apply (slab_live_iff s F H c sl d p) in Hq as [-> _].
  - intros [(y & Hy & Hq & Hnot) Hne]. destruct (decide (sl_page y = sl_page sl)) as [E|E].
    + destruct (sk_uniq _ _ _ HK d c y sl Hy Hsl E) as [-> ->]. left. split_and!; [done..|]. set_solver.
    + right. split; [by exists y|]. intros [-> Hq']. by destruct (slot_unique s F H c c y sl q) as [_ ->].
Qed.

Lemma pop_spec s F H c sl p rest :
  slabs_ok s F H → slab_of H c sl → sl_free sl = p :: rest →
  runs (slot ← ld64 (sh_freeList (sl_page sl));
        next ← ld64 slot;
        st64 (sh_freeList (sl_page sl)) next;;
        inUse ← ld32 (sh_inUse (sl_page sl));
        st32 (sh_inUse (sl_page sl)) (u32 (inUse + 1));;
        mret slot) s
    (λ r s', r = p ∧ ∃ H', slabs_ok s' F H' ∧ takes H H' c p ∧ (∀ x, slab_mem H' x ↔ slab_mem H x) ∧
      wrote (λ x, sl_page sl ≤ x < sl_page sl + 32) s s').
Proof.
  intros HK Hsl Hfree. pose proof (sk_ok _ _ _ HK c sl Hsl) as Hok. set (page := sl_page sl) in *.
  destruct (slot_geometry c (proj1 Hsl)) as (_ & _ & _ & _ & _ & Hcnt & _).
  pose proof Hok as [Hblk Hbd Hmg Hcl Hu Hch Hs Hn]. fold page in Hblk, Hbd, Hmg, Hcl, Hu, Hch, Hs.
  rewrite Hfree in Hu, Hch, Hs, Hn. apply list.NoDup_cons in Hn as [Hp Hn].
  destruct Hch as (Ehd & Hp0 & Hch). simpl in Hu.
  assert (Hsb : ∀ q, q ∈ rest → page + 32 ≤ q).
  { intros q Hq. by apply (heap_slot_bounds c page (proj1 Hsl)), Hs, list_elem_of_further. }
  pose proof (load_range 4 (mc_mem s) (sh_inUse page)) as Hr.
  unfold sh_freeList, sh_inUse, sh_magic, sh_classIdx in *. mrun. rewrite Ehd. split; [done|].
  set (s' := set_mem _ _).
  assert (Em : mc_mem s' = store32 (store64 (mc_mem s) (page + 16) (load64 (mc_mem s) p)) (page + 12)
    (load32 (mc_mem s) (page + 12) + 1)).
  { simpl. rewrite load_store_ne by lia. f_equal. apply Z.mod_small. lia. }
  assert (Hw : wrote (λ x, page ≤ x < page + 32) s s').
  { split; [done|]. split; [done|]. intros x Hx. rewrite Em, !store_frame by lia. done. }
  clearbody s'. destruct (slabs_ok_replace s s' F H c sl (Slab page rest)) as (H' & HK' & HR).
  - done.
  - done.
  - done.
  - split; simpl; unfold sh_freeList, sh_inUse, sh_magic, sh_classIdx; try done.
    + apply (wrote_pa s s' F H _ HK Hw); [|done]. intros x Hx. by apply (header_in_slab H c sl).
    + by rewrite Em, !load_store_ne by lia.
    + by rewrite Em, !load_store_ne by lia.
    + rewrite Em, (load_store_eq_fits 4) by (unfold fits; lia). lia.
    + rewrite Em, load_store_ne, (load_store_eq_fits 8) by (apply (load_range 8) || lia).
      eapply chain_agree; [|exact Hch]. intros q Hq. specialize (Hsb q Hq). by rewrite !load_store_ne by lia.
    + intros q Hq. by apply Hs, list_elem_of_further.
  - destruct Hw as (? & ? & Hm). split_and!; [done..|]. eapply mem_same_outside_weaken; [exact Hm|].
    unfold block. change (bs 0) with 4096. fold page. lia.
  - fold page. unfold sh_next. by rewrite Em, !load_store_ne by lia.
  - exists H'. split_and!; [done|by eapply replaced_takes|intros x; by eapply replaced_mem|done].
Qed.

Lemma freeToSlab_spec s F H c p :
  slabs_ok s F H → slab_live H c p →
  runs (freeToSlab p) s (λ _ s', ∃ H', slabs_ok s' F H' ∧
    (∀ d q, slab_live H' d q ↔ slab_live H d q ∧ q ≠ p) ∧ (∀ x, slab_mem H' x ↔ slab_mem H x) ∧
    wrote (λ x, slab_meta H x ∨ p ≤ x < p + 8) s s').
Proof.
  intros HK (sl & Hsl & Hp & Hnot). pose proof (sk_ok _ _ _ HK c sl Hsl) as Hok. pose proof (proj1 Hsl) as Hc.
  destruct (slot_geometry c Hc) as (_ & _ & _ & _ & _ & Hcnt & _).
  pose proof Hok as [Hblk Hbd Hmg Hcl Hu Hch Hs Hn]. pose proof (heap_slot_bounds c _ Hc p Hp) as Hpb.
  assert (Hpg : page_down p = sl_page sl).
  { rewrite page_down_eq by (unfold fits; lia). by apply (slot_page c); [|apply Hbd|]. }
  unfold freeToSlab. cbv zeta. rewrite Hpg. set (page := sl_page sl) in *.
  assert (Hsb : ∀ q, q ∈ sl_free sl → page + 32 ≤ q ∧ (q + 8 ≤ p ∨ p + 8 ≤ q)).
  { intros q Hq. pose proof (heap_slot_bounds c page Hc q (Hs q Hq)). split; [lia|].
    destruct (slots_apart c page Hc p q Hp (Hs q Hq)); [set_solver|lia|lia]. }
  (* the slab is not empty of live slots *)
  assert (Hlt : (length (sl_free sl) < slot_count c)%nat).
  { apply (slot_count_room c page Hc p); [done|done|by intros q [->|]%elem_of_cons; auto]. }
  pose proof (load_range 4 (mc_mem s) (sh_inUse page)) as Hr. pose proof (load_range 8 (mc_mem s) (sh_freeList page)) as Hr8.
  unfold sh_freeList, sh_inUse, sh_magic, sh_classIdx in *. mrun.
  set (s' := set_mem _ _).
  assert (Em : mc_mem s' = store32 (store64 (store64 (mc_mem s) p (load64 (mc_mem s) (page + 16))) (page + 16) p)
    (page + 12) (load32 (mc_mem s) (page + 12) - 1)).
  { simpl. rewrite !load_store_ne by lia. f_equal. apply Z.mod_small. lia. }
  assert (Hw : wrote (λ x, page ≤ x < page + 32 ∨ p ≤ x < p + 8) s s').
  { split; [done|]. split; [done|]. intros x Hx. rewrite Em, !store_frame by lia. done. }
  assert (Hin : ∀ x, page ≤ x < page + 32 ∨ p ≤ x < p + 8 → block page 0 x).
  { unfold block. change (bs 0) with 4096. lia. }
  clearbody s'. destruct (slabs_ok_replace s s' F H c sl (Slab page (p :: sl_free sl))) as (H' & HK' & HR).
  - done.
  - done.
  - done.
  - split; simpl; unfold sh_freeList, sh_inUse, sh_magic, sh_classIdx; try done.
    + apply (wrote_pa s s' F H _ HK Hw); [|done]. intros x Hx. exists c, sl. auto.
    + by rewrite Em, !load_store_ne by lia.
    + by rewrite Em, !load_store_ne by lia.
    + rewrite Em, (load_store_eq_fits 4) by (unfold fits; lia). lia.
    + rewrite Em, load_store_ne, (load_store_eq_fits 8) by (unfold fits; lia). split_and!; [done|lia|].
      rewrite !load_store_ne, (load_store_eq_fits 8) by (unfold fits; lia).
      eapply chain_agree; [|exact Hch]. intros q Hq. specialize (Hsb q Hq). by rewrite !load_store_ne by lia.
    + by intros q [->|]%elem_of_cons; auto.
    + by constructor.
  - destruct Hw as (? & ? & Hm). split_and!; [done..|]. by eapply mem_same_outside_weaken.
  - fold page. unfold sh_next. by rewrite Em, !load_store_ne by lia.
  - exists H'. split_and!; [done|by eapply replaced_returns|intros x; by eapply replaced_mem|].
    destruct Hw as (? & ? & Hm). split_and!; [done..|]. eapply mem_same_outside_weaken; [exact Hm|].
    intros x [Hx|Hx]; [left|by right]. exists c, sl. split; [done|by left].
Qed.

(** [Deallocate] recognises a slot by its page's header. *)
Lemma Deallocate_slab_spec s F H c p :
  slabs_ok s F H → slab_live H c p →
  runs (Deallocate p) s (λ _ s', ∃ H', slabs_ok s' F H' ∧
    (∀ d q, slab_live H' d q ↔ slab_live H d q ∧ q ≠ p) ∧ (∀ x, slab_mem H' x ↔ slab_mem H x) ∧
    wrote (λ x, slab_meta H x ∨ p ≤ x < p + 8) s s').
Proof.
  intros HK HL. pose proof HL as (sl & Hsl & Hp & Hnot).
  destruct (sk_ok _ _ _ HK c sl Hsl) as [_ Hbd Hmg _ _ _ _ _].
  destruct (slot_page c (sl_page sl) (proj1 Hsl) (proj2 (proj2 Hbd)) p Hp) as [Hal Hpg].
  pose proof (heap_slot_bounds c _ (proj1 Hsl) p Hp).
  unfold Deallocate. rewrite decide_False by lia. rewrite decide_False.
  2: { change (PAGE_SIZE - 1) with (bs 0 - 1). by rewrite land_ones_zero. }
  cbv zeta. rewrite page_down_eq, Hpg by (unfold fits; lia). mrun. rewrite decide_True by done.
  by eapply freeToSlab_spec.
Qed.
End ops.
