(* ===== verification/HeapSlabAlloc.v ===== *)
(** * The kernel heap: finding a slab, growing a class, allocating a slot *)
From S2P Require Import Prelude Memory Machine Pmm FreeLists PmmInit PageAlloc PageTableSpec.
From S2P Require Import MmioMap Heap HeapLarge HeapSlab HeapSlabOps.

Section alloc.
Context `{PA : !PageAllocator AllocPages FreePages}.

(** The walk stops at the first slab with a free slot. *)
Lemma find_slab_spec s c fuel : ∀ l p,
  slab_list (mc_mem s) p l → (∀ sl, sl ∈ l → slab_ok s c sl) → (length l < fuel)%nat →
  runs (loop fuel find_slab_step p) s (λ r s', s' = s ∧
    ((r = 0 ∧ ∀ sl, sl ∈ l → sl_free sl = []) ∨
     (∃ sl, sl ∈ l ∧ r = sl_page sl ∧ r ≠ 0 ∧ sl_free sl ≠ []))).
Proof.
  induction fuel as [|fuel IH]; intros l p Hl Hok Hf; [lia|]. apply runs_loop_S. unfold find_slab_step at 1.
  destruct l as [|sl l]; simpl in Hl.
  - subst p. rewrite decide_True by done. mrun. split; [done|]. left. split; [done|]. by intros sl ?%elem_of_nil.
  - destruct Hl as [-> Hl]. pose proof (Hok sl ltac:(set_solver)) as [_ Hbd _ _ _ Hch _ _].
    rewrite decide_False by lia. mrun. destruct (sl_free sl) as [|q free] eqn:E; simpl in Hch.
    + rewrite decide_True by done. mrun. simpl in Hf.
      eapply runs_mono; [apply (IH l); [done|set_solver|lia]|]. cbv beta.
      intros r s' (-> & [[-> Hall]|(x & Hx & ? & ? & ?)]); (split; [done|]).
      * left. split; [done|]. intros x [->|Hx]%elem_of_cons; auto.
      * right. exists x. split_and!; [set_solver|done..].
    + rewrite decide_False by naive_solver. mrun. split; [done|]. right. exists sl.
      split_and!; [set_solver|done|lia|by rewrite E].
Qed.

(** The slots are chained last first. *)
Lemma link_slots_spec base sz n : 0 < base → 8 ≤ sz → ∀ i s prev l,
  chain (mc_mem s) prev l → fits 64 prev →
  (∀ q, q ∈ l → base ≤ q ∧ q + sz ≤ base + Z.of_nat i * sz) →
  base + Z.of_nat (i + n) * sz ≤ PA_LIMIT →
  runs (link_slots base sz (Z.of_nat i) prev n) s (λ r s',
    chain (mc_mem s') r (reverse ((λ j, base + Z.of_nat j * sz) <$> seq i n) ++ l) ∧ fits 64 r ∧
    wrote (λ x, base + Z.of_nat i * sz ≤ x < base + Z.of_nat (i + n) * sz) s s').
Proof.
  intros Hb Hsz. induction n as [|n IH]; intros i s prev l Hch Hpf Hl Hlim; cbn [link_slots]; cbv zeta.
  - mrun. split; [done|]. split; [done|]. by split.
  - mrun. set (sl := base + Z.of_nat i * sz). replace (Z.of_nat i + 1) with (Z.of_nat (S i)) by lia.
    set (s1 := set_mem _ s). assert (0 < sl ∧ base + Z.of_nat (S i) * sz = sl + sz) as [Hs0 HsS] by (unfold sl; lia).
    assert (Hle : sl + sz ≤ base + Z.of_nat (S i + n) * sz) by (unfold sl; nia).
    replace (i + S n)%nat with (S i + n)%nat in * by lia.
    eapply runs_mono; [apply (IH (S i) s1 sl (sl :: l))|]; cbv beta.
    + simpl. split_and!; [done|lia|]. rewrite load_store_eq_fits by done.
      eapply chain_agree; [|exact Hch]. intros q Hq. apply load_store_ne. specialize (Hl q Hq). fold sl in Hl. lia.
    + unfold fits. lia.
    + rewrite HsS. intros q [->|Hq]%elem_of_cons; [unfold sl; lia|]. specialize (Hl q Hq). fold sl in Hl. lia.
    + done.
    + intros r s' (Hr & Hf & Hon & Hpmm & Hm). split; [|split; [done|split; [done|split; [done|]]]].
      * cbn [seq]. rewrite fmap_cons, reverse_cons, <-app_assoc. exact Hr.
      * intros x Hx. rewrite Hm by lia. apply store_frame. lia.
Qed.

(** The slots of a slab, in the order the links put them. *)
Definition all_slots (c : nat) (page : Z) : list Z :=
  reverse ((λ j, page + first_off c + Z.of_nat j * slot_size c) <$> seq 0 (slot_count c)).

Lemma all_slots_spec c page : 0 < slot_size c →
  (∀ q, q ∈ all_slots c page ↔ is_slot c page q) ∧ NoDup (all_slots c page) ∧ length (all_slots c page) = slot_count c.
Proof.
  intros Hsz. unfold all_slots. split_and!.
  - intros q. rewrite elem_of_reverse, list_elem_of_fmap. unfold is_slot, slot. split.
    + intros (i & -> & Hi%elem_of_seq). exists i. lia.
    + intros (i & Hi & ->). exists i. rewrite elem_of_seq. lia.
  - rewrite reverse_Permutation. apply NoDup_fmap_2_strong; [|apply NoDup_seq]. intros i j _ _ E. nia.
  - by rewrite length_reverse, length_fmap, length_seq.
Qed.

(** What the header of a new slab reads. *)
Lemma fresh_header m c page : (c < NO_SLAB_CLASS)%nat →
  let m' := store64 (store32 (store32 (store64 m page SLAB_MAGIC) (page + 8) (u32 (Z.of_nat c))) (page + 12) 0) (page + 24) 0 in
  load64 m' page = SLAB_MAGIC ∧ load32 m' (page + 8) = Z.of_nat c ∧ load32 m' (page + 12) = 0.
Proof.
  intros Hc. unfold NO_SLAB_CLASS in Hc. cbv zeta. split_and!.
  - rewrite !load_store_ne by lia. by apply (load_store_eq_fits 8).
  - rewrite !load_store_ne by lia. rewrite (load_store_eq_fits 4); [apply Z.mod_small; lia|].
    unfold fits, u32. rewrite Z.mod_small by lia. lia.
  - by rewrite load_store_ne, (load_store_eq_fits 4) by (done || lia).
Qed.

Lemma newSlab_spec s F c :
  pa_ok s F → (c < NO_SLAB_CLASS)%nat →
  runs (newSlab c) s (λ r s',
    (r = 0 ∧ s' = s ∧ ∀ x, ¬ F x) ∨
    (r ≠ 0 ∧ ∃ F' free, pa_ok s' F' ∧ (∀ b k, pa_block s b k → pa_block s' b k) ∧
      (∀ x, F x ↔ F' x ∨ block r 0 x) ∧ (∀ x, block r 0 x → ¬ F' x) ∧
      slab_ok s' c (Slab r free) ∧ free ≠ [] ∧ (∀ q, is_slot c r q → q ∈ free) ∧ pa_frame F s s')).
Proof.
  intros HF Hc. unfold newSlab. apply runs_bind.
  eapply runs_mono; [apply (pa_alloc s F 0 HF); unfold MAX_ORDER; lia|]. cbv beta.
  intros page s1 [(-> & -> & _ & Hno)|(Hp & Hb & Hbs & [Hon Hmem] & F' & HF' & Heq & Hdis)].
  { rewrite decide_True by done. mrun. left. auto. }
  rewrite decide_False by done. pose proof (pa_block_bounds s1 F' page 0 HF' Hb) as Hbd. change (bs 0) with 4096 in Hbd.
  destruct (slot_geometry c Hc) as (_ & Hsz & Hoff & _ & _ & Hcnt & Hend & Efo & Ecnt).
  unfold sh_magic, sh_classIdx, sh_inUse, sh_next, sh_freeList. mrun. fold (slot_size c). cbv zeta.
  rewrite Efo, Ecnt. set (s2 := set_mem _ _).
  eapply runs_mono; [apply (link_slots_spec (page + first_off c) (slot_size c) (slot_count c)) with (i := 0%nat) (l := [])|];
    [lia|lia|done|done|by intros q ?%elem_of_nil|rewrite Nat.add_0_l; lia|]. cbv beta. rewrite Nat.add_0_l.
  rewrite Z.mul_0_l, Z.add_0_r, app_nil_r.
  intros r s3 (Hch & Hr & Hon3 & Hpmm3 & Hm3). mrun. right. set (s4 := set_mem _ s3).
  fold (all_slots c page) in Hch. destruct (all_slots_spec c page ltac:(lia)) as (Hfree & Hnd & Hlen).
  set (free := all_slots c page) in *.
  assert (Em2 : mc_mem s2 = store64 (store32 (store32 (store64 (mc_mem s1) page SLAB_MAGIC) (page + 8)
    (u32 (Z.of_nat c))) (page + 12) 0) (page + 24) 0) by done.
  destruct (fresh_header (mc_mem s1) c page Hc) as (E1 & E2 & E3).
  assert (Hld : ∀ n a, page ≤ a → a + Z.of_nat n ≤ page + 16 →
    load n (mc_mem s4) a = load n (mc_mem s2) a).
  { intros n a H1 H2. simpl. rewrite load_store_ne by lia. apply load_agree. intros x Hx. apply Hm3. lia. }
  assert (Hout : ∀ x, ¬ block page 0 x → load8 (mc_mem s4) x = load8 (mc_mem s1) x).
  { unfold block. change (bs 0) with 4096. intros x Hx. simpl. rewrite store_frame by lia.
    rewrite Hm3 by lia. rewrite Em2, !store_frame by lia. done. }
  assert (Hpmm4 : mc_pmm s4 = mc_pmm s1) by done.
  destruct (pa_client s1 s4 F' HF' Hpmm4) as [HF4 Hbs4].
  { intros x Hx. apply Hout. intros Hin. by apply (Hdis x). }
  split; [done|]. exists F', free. split_and!; [done|auto|done|done| | |apply Hfree|].
  - split; simpl sl_page; simpl sl_free; unfold sh_magic, sh_classIdx, sh_inUse, sh_freeList.
    + by apply Hbs4.
    + lia.
    + rewrite Hld, Em2 by lia. exact E1.
    + rewrite Hld, Em2 by lia. exact E2.
    + rewrite Hld, Em2, Hlen by lia. rewrite E3. done.
    + simpl. rewrite (load_store_eq_fits 8) by done. eapply chain_agree; [|exact Hch].
      intros q Hq%Hfree. pose proof (heap_slot_bounds c page Hc q Hq). apply load_store_ne. lia.
    + apply Hfree.
    + exact Hnd.
  - intros E. assert (Hin : slot c page 0 ∈ free) by (apply Hfree; exists 0%nat; split; [lia|done]).
    rewrite E in Hin. by apply elem_of_nil in Hin.
  - split.
    + by eapply mem_pmm_only_trans; [exact Hon|]; apply (mem_pmm_only_trans s1 s2 s4).
    + intros x Hx. rewrite Hout; [by apply Hmem|]. intros Hin. apply Hx, Heq. by right.
Qed.

(** ** Growing a class *)

Definition grown (H : nat → list slab) (c : nat) (sl : slab) : nat → list slab := <[c := sl :: H c]> H.

Lemma slab_of_grown H c sl d x :
  (c < NO_SLAB_CLASS)%nat → slab_of (grown H c sl) d x ↔ (d = c ∧ x = sl) ∨ slab_of H d x.
Proof.
  intros Hc. unfold slab_of, grown. destruct (decide (d = c)) as [->|Hne].
  - rewrite fn_lookup_insert, elem_of_cons. tauto.
  - rewrite fn_lookup_insert_ne by done. naive_solver.
Qed.

Lemma slabs_ok_grow s s' F F' H c sl :
  slabs_ok s F H → (c < NO_SLAB_CLASS)%nat → pa_ok s' F' → (∀ b k, pa_block s b k → pa_block s' b k) →
  (∀ x, F x ↔ F' x ∨ block (sl_page sl) 0 x) → (∀ x, block (sl_page sl) 0 x → ¬ F' x) →
  slab_ok s' c sl → mem_same_outside F s s' → mc_slabs s' = <[c := sl_page sl]> (mc_slabs s) →
  load64 (mc_mem s') (sh_next (sl_page sl)) = nth c (mc_slabs s) 0 →
  slabs_ok s' F' (grown H c sl).
Proof.
  intros HK Hc HF' Hbs Heq Hdis Hok' Hmem Hslabs Hnext. pose proof HK as [Hpa Hlen Hl Hok Hus Huq Hnd].
  assert (Hbyte : ∀ d x a, slab_of H d x → block (sl_page x) 0 a → load8 (mc_mem s') a = load8 (mc_mem s) a).
  { intros d x a Hx Ha. apply Hmem, Hus. by exists d, x. }
  assert (Hfresh : ∀ d x, slab_of H d x → sl_page x ≠ sl_page sl).
  { intros d x Hx E. apply (Hus (sl_page x)); [exists d, x; split; [done|]|apply Heq; right; rewrite E];
      unfold block; change (bs 0) with 4096; lia. }
  assert (Hlist : ∀ d, (d < NO_SLAB_CLASS)%nat → slab_list (mc_mem s') (nth d (mc_slabs s) 0) (H d)).
  { intros d Hd. eapply slab_list_frame; [|by apply Hl]. intros x Hx. apply load_agree. intros a Ha.
    apply (Hbyte d x); [done|]. unfold block, sh_next in *. change (bs 0) with 4096. lia. }
  split.
  - done.
  - by rewrite Hslabs, length_insert.
  - intros d Hd. unfold grown. rewrite Hslabs, !nth_lookup. destruct (decide (d = c)) as [->|Hne].
    + rewrite fn_lookup_insert, list_lookup_insert_eq by lia. simpl. split; [done|]. rewrite Hnext. by apply Hlist.
    + rewrite fn_lookup_insert_ne, list_lookup_insert_ne by done. rewrite <-nth_lookup. by apply Hlist.
  - intros d x [[-> ->]|Hx]%slab_of_grown; [done| |done]. eapply slab_ok_frame; [by apply Hok|apply Hx|done|].
    intros a Ha. apply (Hbyte d x); [done|]. by eapply own_in_page; [apply Hok|apply Hx|].
  - intros x (d & y & [[-> ->]|Hy]%slab_of_grown & Hx); [by apply Hdis| |done].
    intros HFx. apply (Hus x); [by exists d, y|]. apply Heq. by left.
  - intros d d' x x' [[-> ->]|Hx]%slab_of_grown [[-> ->]|Hx']%slab_of_grown E; try done.
    + exfalso. by apply (Hfresh d' x').
    + exfalso. by apply (Hfresh d x).
    + by apply Huq.
  - intros d Hd. unfold grown. destruct (decide (d = c)) as [->|Hne]; [|rewrite fn_lookup_insert_ne by done; auto].
    rewrite fn_lookup_insert, fmap_cons. constructor; [|auto].
    intros (x & E & Hx)%list_elem_of_fmap. by apply (Hfresh c x); [split|].
Qed.

Lemma grown_mem H c sl x :
  (c < NO_SLAB_CLASS)%nat → slab_mem (grown H c sl) x ↔ slab_mem H x ∨ block (sl_page sl) 0 x.
Proof.
  intros Hc. split.
  - intros (d & y & [[-> ->]|Hy]%slab_of_grown & Hx); [by right|left; by exists d, y|done].
  - intros [(d & y & Hy & Hx)|Hx]; [exists d, y|exists c, sl]; rewrite slab_of_grown by done; auto.
Qed.

(** A fresh slab has no live slot. *)
Lemma grown_live H c sl d q :
  (c < NO_SLAB_CLASS)%nat → (∀ p, is_slot c (sl_page sl) p → p ∈ sl_free sl) →
  slab_live (grown H c sl) d q ↔ slab_live H d q.
Proof.
  intros Hc Hall. split.
  - intros (y & [[-> ->]|Hy]%slab_of_grown & Hq & Hnot); [by destruct Hnot; apply Hall|by exists y|done].
  - intros (y & Hy & Hq & Hnot). exists y. rewrite slab_of_grown by done. auto.
Qed.

(** What an allocation of class [c] promises. *)
Definition slot_taken (s : machine) (F : Z → Prop) (H : nat → list slab) (c : nat) (p : Z) (s' : machine) : Prop :=
  ∃ F' H', slabs_ok s' F' H' ∧ takes H H' c p ∧
    (∀ x, F x ∨ slab_mem H x ↔ F' x ∨ slab_mem H' x) ∧ (∀ x, F' x → F x) ∧
    (∀ b k, pa_block s b k → pa_block s' b k) ∧ mem_same_outside (λ x, F x ∨ slab_meta H x) s s'.

Lemma pop_taken s F H s1 F1 H1 c sl :
  slabs_ok s1 F1 H1 → slab_of H1 c sl → sl_free sl ≠ [] →
  (∀ d q, slab_live H1 d q ↔ slab_live H d q) →
  (∀ x, F x ∨ slab_mem H x ↔ F1 x ∨ slab_mem H1 x) → (∀ x, F1 x → F x) →
  (∀ b k, pa_block s b k → pa_block s1 b k) → mem_same_outside (λ x, F x ∨ slab_meta H x) s s1 →
  (∀ x, sl_page sl ≤ x < sl_page sl + 32 → F x ∨ slab_meta H x) →
  runs (if decide (sl_page sl = 0) then mret 0
        else
          slot ← ld64 (sh_freeList (sl_page sl));
          next ← ld64 slot;
          st64 (sh_freeList (sl_page sl)) next;;
          inUse ← ld32 (sh_inUse (sl_page sl));
          st32 (sh_inUse (sl_page sl)) (u32 (inUse + 1));;
          mret slot) s1 (λ p s', p ≠ 0 ∧ slot_taken s F H c p s').
Proof.
  intros HK Hsl Hfree Hlive Hmem HF1 Hbs Hsame Hhdr.
  pose proof (sk_ok _ _ _ HK c sl Hsl) as Hok. pose proof (so_bounds _ _ _ Hok). rewrite decide_False by lia.
  destruct (sl_free sl) as [|p rest] eqn:E; [done|].
  assert (Hp : is_slot c (sl_page sl) p) by (apply (so_slots _ _ _ Hok); rewrite E; set_solver).
  pose proof (heap_slot_bounds c _ (proj1 Hsl) p Hp).
  eapply runs_mono; [by eapply pop_spec|]. cbv beta.
  intros r s' (-> & H' & HK' & [Ht Hnl] & Hm' & Hw). split; [lia|]. exists F1, H'. split_and!; try done.
  - split; [|intros d; by rewrite <-Hlive]. intros d q. by rewrite Ht, Hlive.
  - intros x. by rewrite Hmem, Hm'.
  - intros b k Hb. destruct (wrote_pa s1 s' F1 H1 _ HK Hw) as [_ Hb2]; [|auto].
    intros x Hx. by apply (header_in_slab H1 c sl).
  - eapply mem_same_outside_trans; [exact Hsame|apply Hw|done|done].
Qed.

Lemma slab_head_fits s F H c :
  slabs_ok s F H → (c < NO_SLAB_CLASS)%nat → fits 64 (nth c (mc_slabs s) 0).
Proof.
  intros HK Hc. pose proof (sk_list _ _ _ HK c Hc) as Hl. destruct (H c) as [|sl l] eqn:E; simpl in Hl.
  - by rewrite Hl.
  - destruct Hl as [-> _]. assert (Hsl : slab_of H c sl) by (split; [done|rewrite E; set_solver]).
    pose proof (so_bounds _ _ _ (sk_ok _ _ _ HK c sl Hsl)). unfold fits. lia.
Qed.

Lemma allocFromSlab_spec s F H c :
  slabs_ok s F H → (c < NO_SLAB_CLASS)%nat →
  runs (allocFromSlab c) s (λ p s',
    (p = 0 ∧ s' = s ∧ ∀ x, ¬ F x) ∨ (p ≠ 0 ∧ slot_taken s F H c p s')).
Proof.
  intros HK Hc. pose proof HK as [Hpa Hlen Hl Hok Hus Huq Hnd]. unfold allocFromSlab. mrun.
  eapply runs_mono; [apply (find_slab_spec s c _ (H c)); [by apply Hl|by intros; apply Hok|]|].
  { rewrite <-(length_fmap sl_page (H c)). apply (pa_pages s F); [done|by apply Hnd|].
    intros a (sl & -> & Hsl)%list_elem_of_fmap. by apply (so_block s c), Hok. }
  cbv beta. intros hdr s' (-> & [[-> _]|(sl & Hsl & -> & Hne & Hfree)]).
  - rewrite decide_True by done. apply runs_bind, runs_bind.
    eapply runs_mono; [by apply (newSlab_spec s F c)|]. cbv beta.
    intros page s1 [(-> & -> & Hno)|(Hp & F' & free & HF' & Hbs & Heq & Hdis & Hnew & Hfree & Hall & [Hon Hmem])].
    { rewrite decide_True by done. mrun. rewrite decide_True by done. mrun. left. auto. }
    rewrite decide_False by done. mrun. 
    set (s2 := set_slabs _ _). pose proof (so_bounds _ _ _ Hnew) as Hbd. simpl in Hbd.
    assert (Hst : ∀ x, ¬ (page + 24 ≤ x < page + 32) → load8 (mc_mem s2) x = load8 (mc_mem s1) x).
    { intros x Hx. simpl. apply store_frame. unfold sh_next. lia. }
    assert (HinF : ∀ x, page ≤ x < page + 32 → F x).
    { intros x Hx. apply Heq. right. unfold block. change (bs 0) with 4096. lia. }
    destruct (pa_client s1 s2 F' HF' eq_refl) as [HF2 Hbs2].
    { intros x Hx. apply Hst. intros Hin. apply (Hdis x); [|done]. unfold block. change (bs 0) with 4096. lia. }
    assert (Hnew2 : slab_ok s2 c (Slab page free)).
    { eapply slab_ok_frame_next; [exact Hnew|done|done|]. intros x _ Hx. apply Hst. simpl in Hx. unfold sh_next in Hx. lia. }
    assert (HK2 : slabs_ok s2 F' (grown H c (Slab page free))).
    { apply (slabs_ok_grow s s2 F); try done; [auto| | |].
      - intros x Hx. rewrite Hst; [by apply Hmem|]. intros Hin. apply Hx, HinF. lia.
      - simpl. by rewrite (proj1 Hon).
      - simpl. rewrite (load_store_eq_fits 8); [by rewrite (proj1 Hon)|]. rewrite (proj1 Hon). by eapply (slab_head_fits s F H). }
    eapply runs_mono.
    + apply (pop_taken s F H s2 F' (grown H c (Slab page free)) c (Slab page free)); try done.
      * apply slab_of_grown; [done|]. by left.
      * intros d q. by apply grown_live.
      * intros x. rewrite grown_mem by done. simpl. rewrite Heq. tauto.
      * intros x Hx. apply Heq. by left.
      * auto.
      * intros x Hx. rewrite Hst; [apply Hmem; tauto|]. intros Hin. apply Hx. left. apply HinF. lia.
      * intros x Hx. left. by apply HinF.
    + cbv beta. tauto.
  - rewrite (decide_False (P := sl_page sl = 0)) by done. mrun. eapply runs_mono.
    + apply (pop_taken s F H s F H c sl); try done. intros x Hx. right. exists c, sl. by split; [|left].
    + cbv beta. tauto.
Qed.
End alloc.
