(* ===== verification/HeapObjects.v ===== *)
(** * The kernel heap as a store of objects

    What a client sees: objects with bytes of their own, which only it changes.
    [heap_ok] relates that view to the slabs, the large blocks and the free memory. *)
From S2P Require Import Prelude Memory Machine Pmm FreeLists PmmInit PageAlloc PageTableSpec.
From S2P Require Import MmioMap Heap HeapLarge HeapSlab HeapSlabOps HeapSlabAlloc.

Abbreviation objects := (gmap Z (list Z)).

(** ** The abstract view *)

(** A request of a client; [New] asks for alignment [2 ^ k]. *)
Inductive request : Set :=
  | New (size k : Z)
  | Write (p : Z) (i : nat) (b : Z)
  | Delete (p : Z).

Definition serve (r : request) : M machine Z :=
  match r with
  | New size k => Allocate size (2 ^ k)
  | Write p i b => modify (set_mem (λ m, store8 m (p + Z.of_nat i) b));; mret 0
  | Delete p => Deallocate p;; mret 0
  end.

(** What a client may ask: no wrapping sizes, no bytes but its own, no pointer but its own. *)
Definition legal (objs : objects) (r : request) : Prop :=
  match r with
  | New size k => 0 ≤ size ∧ 0 ≤ k ≤ 63 ∧ 2 ^ Z.max k 4 + Z.max size 1 < 2 ^ 64
  | Write p i b => ∃ bytes, objs !! p = Some bytes ∧ (i < length bytes)%nat
  | Delete p => p = 0 ∨ is_Some (objs !! p)
  end.

#[export] Instance legal_dec objs r : Decision (legal objs r).
Proof.
  destruct r as [size k|p i b|p]; simpl; [apply _| |apply _].
  destruct (objs !! p) as [bytes|]; [|right; naive_solver].
  destruct (decide (i < length bytes)%nat); [left; by exists bytes|right; naive_solver].
Defined.

Definition read_bytes (m : gmap Z Z) (p : Z) (n : nat) : list Z :=
  (λ i, load8 m (p + Z.of_nat i)) <$> seq 0 n.

(** The objects after a request was answered with [v]; a new object keeps what its bytes held. *)
Definition after (objs : objects) (r : request) (v : Z) (s' : machine) : objects :=
  match r with
  | New size k =>
      if decide (v = 0) then objs
      else <[v := read_bytes (mc_mem s') v (Z.to_nat (Z.max size 1))]> objs
  | Write p i b => alter (λ bytes, <[i := u8 b]> bytes) p objs
  | Delete p => delete p objs
  end.

(** Null only for lack of memory (one free page serves every small request), or an aligned
    pointer to no existing object. *)
Definition answer (objs : objects) (F : Z → Prop) (r : request) (v : Z) : Prop :=
  match r with
  | New size k =>
      (v = 0 ∧ (Z.max size (2 ^ k) ≤ 1024 → ∀ x, ¬ F x)) ∨
      (v ≠ 0 ∧ objs !! v = None ∧ (k ≤ 12 → v mod 2 ^ k = 0))
  | _ => True
  end.

(** The runs of a client. *)
Inductive served (s0 : machine) : machine → objects → Prop :=
  | served_boot : served s0 s0 ∅
  | served_step s objs r v s' :
      served s0 s objs → legal objs r → serve r s = Done v s' →
      served s0 s' (after objs r v s').

(** A list of requests, each of which must be legal. *)
Fixpoint serve_all (rs : list request) (s : machine) (objs : objects) : option (machine * objects) :=
  match rs with
  | [] => Some (s, objs)
  | r :: rs =>
      if decide (legal objs r) then
        match serve r s with
        | Done v s' => serve_all rs s' (after objs r v s')
        | Stop _ _ => None
        end
      else None
  end.

Lemma serve_all_served s0 rs : ∀ s objs s' objs',
  served s0 s objs → serve_all rs s objs = Some (s', objs') → served s0 s' objs'.
Proof.
  induction rs as [|r rs IH]; intros s objs s' objs' Hs Hrun; simpl in Hrun; [by injection Hrun as <- <-|].
  case_decide as Hr; [|done]. destruct (serve r s) as [v s1|] eqn:E; [|done].
  apply (IH s1 (after objs r v s1)); [|done]. by eapply served_step.
Qed.

(** ** The representation *)

Section objects.
Context `{PA : !PageAllocator AllocPages FreePages}.
Abbreviation larges := (gmap Z (Z * nat * Z)).

Definition large_mem (G : larges) (x : Z) : Prop :=
  ∃ p addr o k, G !! p = Some (addr, o, k) ∧ block addr o x.

(** Where an object of [n] bytes lives. *)
Definition home (H : nat → list slab) (G : larges) (p : Z) (n : Z) : Prop :=
  (∃ c, slab_live H c p ∧ n ≤ slot_size c) ∨
  (∃ addr o k, G !! p = Some (addr, o, k) ∧ p + n ≤ addr + bs o).

Record heap_ok (s : machine) (T : Z → Prop) (objs : objects)
    (F : Z → Prop) (H : nat → list slab) (G : larges) : Prop := {
  hp_slabs : slabs_ok s F H;
  hp_large : ∀ p addr o k, G !! p = Some (addr, o, k) → large_live s p addr o k;
  hp_used : ∀ x, large_mem G x → ¬ F x ∧ ¬ slab_mem H x;
  hp_apart : ∀ p a o k q b n j x, G !! p = Some (a, o, k) → G !! q = Some (b, n, j) →
    block a o x → block b n x → p = q;
  hp_all : ∀ x, T x ↔ F x ∨ slab_mem H x ∨ large_mem G x;
  hp_home : ∀ p bytes, objs !! p = Some bytes → (0 < length bytes)%nat ∧ home H G p (Z.of_nat (length bytes));
  hp_bytes : ∀ p bytes i, objs !! p = Some bytes → (i < length bytes)%nat →
    load8 (mc_mem s) (p + Z.of_nat i) = bytes !!! i;
  hp_exact : ∀ p, (∃ c, slab_live H c p) ∨ is_Some (G !! p) → is_Some (objs !! p);
}.

Lemma heap_ok_boot s F :
  pa_ok s F → mc_slabs s = replicate NO_SLAB_CLASS 0 → heap_ok s F ∅ F (λ _, []) ∅.
Proof.
  intros HF E. split; try done.
  - by apply slabs_ok_boot.
  - by intros x (? & ? & ? & ? & ? & _).
  - intros x. split; [by left|]. intros [?|[(c & sl & [_ ?%elem_of_nil] & _)|(? & ? & ? & ? & ? & _)]]; done.
  - intros p [(c & sl & [_ ?%elem_of_nil] & _)|[? ?]]; done.
Qed.

Section rep.
Context (s : machine) (T : Z → Prop) (objs : objects) (F : Z → Prop) (H : nat → list slab) (G : larges).
Context (HP : heap_ok s T objs F H G).

Lemma large_ptr p addr o k : G !! p = Some (addr, o, k) → block addr o p ∧ addr + 16 ≤ p.
Proof.
  intros E. destruct (hp_large _ _ _ _ _ _ HP p addr o k E) as [_ Hbd [Hk Hfit] -> _ _ _ _].
  assert (2 ^ 4 ≤ 2 ^ k) by (apply Z.pow_le_mono_r; lia). unfold block. lia.
Qed.

(** The bytes of an object are the heap's, but neither free nor used by the heap itself. *)
Lemma home_bytes p n x : home H G p n → p ≤ x < p + n →
  (slab_mem H x ∨ large_mem G x) ∧ ¬ F x ∧ ¬ slab_meta H x.
Proof.
  intros [(c & Hl & Hn)|(addr & o & k & E & Hn)] Hx.
  - assert (slab_mem H x) by (apply (live_in_slab s F H c p); [apply HP|done|lia]).
  split; [by left|]. split; [by apply (sk_used _ _ _ (hp_slabs _ _ _ _ _ _ HP))|].
  apply (live_not_meta s F H c p); [apply HP|done|lia].
  - destruct (large_ptr p addr o k E) as [Hb _].
  assert (Hin : large_mem G x) by (exists p, addr, o, k; split; [done|]; unfold block in *; lia).
  destruct (hp_used _ _ _ _ _ _ HP x Hin) as [HnF Hns]. split; [by right|]. split; [done|].
  intros (c & sl & Hsl & Hown). apply Hns. exists c, sl. split; [done|].
  apply (own_in_page s c); [by apply (sk_ok _ _ _ (hp_slabs _ _ _ _ _ _ HP))|apply Hsl|done].
Qed.

Lemma homes_apart p n q k x : home H G p n → home H G q k → p ≤ x < p + n → q ≤ x < q + k → p = q.
Proof.
  intros Hp Hq Hx Hx'. destruct (decide (p = q)) as [|Hne]; [done|exfalso].
  destruct Hp as [(c & Hl & Hn)|(a & o & j & E & Hn)], Hq as [(d & Hl' & Hn')|(b & o' & j' & E' & Hn')].
  - destruct (live_apart s F H c p d q); [apply HP|done..|lia|lia].
  - destruct (large_ptr q b o' j' E') as [Hb _]. destruct (hp_used _ _ _ _ _ _ HP x) as [_ Hno].
  { exists q, b, o', j'. split; [done|]. unfold block in *. lia. }
  apply Hno, (live_in_slab s F H c p); [apply HP|done|lia].
  - destruct (large_ptr p a o j E) as [Hb _]. destruct (hp_used _ _ _ _ _ _ HP x) as [_ Hno].
  { exists p, a, o, j. split; [done|]. unfold block in *. lia. }
  apply Hno, (live_in_slab s F H d q); [apply HP|done|lia].
  - destruct (large_ptr p a o j E) as [Hb _]. destruct (large_ptr q b o' j' E') as [Hb' _].
  apply Hne, (hp_apart _ _ _ _ _ _ HP p a o j q b o' j' x); [done..| |]; unfold block in *; lia.
Qed.
End rep.
End objects.
