(* ===== verification/HeapServe.v ===== *)
(** * The kernel heap: each request against the store of objects *)
From S2P Require Import Prelude Memory Machine Pmm FreeLists PmmInit PageAlloc PageTableSpec.
From S2P Require Import MmioMap Heap HeapLarge HeapSlab HeapSlabOps HeapSlabAlloc HeapObjects.

Lemma length_read_bytes m p n : length (read_bytes m p n) = n.
Proof. unfold read_bytes. by rewrite length_fmap, length_seq. Qed.

Lemma read_bytes_lookup m p n i : (i < n)%nat → read_bytes m p n !!! i = load8 m (p + Z.of_nat i).
Proof.
  intros Hi. unfold read_bytes. apply list_lookup_total_correct.
  rewrite list_lookup_fmap, lookup_seq_lt by done. done.
Qed.

Section serve.
Context `{PA : !PageAllocator AllocPages FreePages}.

(** Objects keep their bytes when memory changes in free memory and the heap's own bytes only. *)
Lemma objects_kept s s' T objs F H G p bytes i :
  heap_ok s T objs F H G → mem_same_outside (λ x, F x ∨ slab_meta H x) s s' →
  objs !! p = Some bytes → (i < length bytes)%nat →
  load8 (mc_mem s') (p + Z.of_nat i) = bytes !!! i.
Proof.
  intros HP Hmem E Hi. rewrite <-(hp_bytes _ _ _ _ _ _ HP p bytes i E Hi).
  destruct (hp_home _ _ _ _ _ _ HP p bytes E) as [_ Hh]. apply Hmem.
  destruct (home_bytes s T objs F H G HP p _ (p + Z.of_nat i) Hh) as (_ & ? & ?); [lia|tauto].
Qed.

(** Large blocks are not disturbed by changes elsewhere. *)
Lemma larges_kept (s s' : machine) (P : Z → Prop) p addr o k :
  large_live s p addr o k → (∀ b n, pa_block s b n → pa_block s' b n) →
  mem_same_outside P s s' → (∀ x, block addr o x → ¬ P x) → large_live s' p addr o k.
Proof.
  intros HL Hbs Hmem HPx. apply (large_live_client s); [done..|]. intros x Hx. apply Hmem, HPx.
  destruct HL as [_ _ [_ Hfit] -> _ _ _ _]. unfold block. lia.
Qed.

Lemma serve_write s T objs F H G p i b bytes :
  heap_ok s T objs F H G → objs !! p = Some bytes → (i < length bytes)%nat →
  let s' := set_mem (λ m, store8 m (p + Z.of_nat i) b) s in
  heap_ok s' T (alter (λ bytes, <[i := u8 b]> bytes) p objs) F H G ∧ mem_same_outside T s s'.
Proof.
  intros HP E Hi s'. destruct (hp_home _ _ _ _ _ _ HP p bytes E) as [_ Hh]. set (a := p + Z.of_nat i).
  assert (Ha : p ≤ a < p + Z.of_nat (length bytes)) by lia.
  destruct (home_bytes s T objs F H G HP p _ a Hh Ha) as (Hmine & HnF & Hnm).
  assert (Hne : ∀ x, x ≠ a → load8 (mc_mem s') x = load8 (mc_mem s) x).
  { intros x Hx. by apply load8_store8_ne. }
  pose proof HP as [HS HL Hus Hap Hall Hhm Hby Hex].
  destruct (pa_client s s' F (sk_pa _ _ _ HS) eq_refl) as [HF' Hbs]; [intros x Hx; apply Hne; naive_solver|].
  split; [|intros x Hx; apply Hne; intros ->; apply Hx, Hall; tauto].
  assert (Hlk : ∀ q c, alter (λ bytes, <[i := u8 b]> bytes) p objs !! q = Some c →
    ∃ c0, objs !! q = Some c0 ∧ length c = length c0 ∧ c = if decide (q = p) then <[i := u8 b]> c0 else c0).
  { intros q c. destruct (decide (q = p)) as [->|Hq].
    - rewrite lookup_alter_eq, E. intros [= <-]. exists bytes. by rewrite length_insert.
    - rewrite lookup_alter_ne by done. intros Hc. by exists c. }
  split; try done.
  - apply (slabs_ok_frame s s' F); try done; [apply HS|]. intros x Hx. apply Hne. by intros ->.
  - intros q addr o k Eq. apply (large_live_client s); [by apply HL|done|]. intros x Hx. apply Hne. intros ->.
    destruct (decide (q = p)) as [->|Hqp]; [lia|]. apply Hqp. symmetry.
    destruct (large_ptr s T objs F H G HP q addr o k Eq) as [Hbq _].
    assert (Hhq : home H G q (addr + bs o - q)) by (right; exists addr, o, k; split; [done|lia]).
    assert (Hblk : block addr o a) by (unfold block in *; lia).
    destruct Hh as [(c & Hl & Hn)|(addr' & o' & k' & E' & Hn')].
    + destruct (Hus a) as [_ []]; [by exists q, addr, o, k|]. apply (live_in_slab s F H c p); [done..|lia].
    + apply (Hap p addr' o' k' q addr o k a); [done..| |done].
      destruct (large_ptr s T objs F H G HP p addr' o' k' E') as [Hbp _]. unfold block in *. lia.
  - intros q c (c0 & E0 & -> & _)%Hlk. by apply Hhm.
  - intros q c j (c0 & E0 & Hlen & ->)%Hlk Hj. rewrite Hlen in Hj. case_decide as Hq.
    + subst q. rewrite E in E0. injection E0 as <-. destruct (decide (j = i)) as [->|Hji].
      * rewrite list_lookup_total_insert_eq by done. apply load8_store8_eq.
      * rewrite list_lookup_total_insert_ne by done. rewrite Hne by (unfold a; lia). by apply Hby.
    + rewrite Hne; [by apply Hby|]. intros Ex. apply Hq. destruct (Hhm q c0 E0) as [_ Hh'].
      apply (homes_apart s T objs F H G HP q _ p _ a Hh' Hh); [lia|done].
  - intros q Hq. destruct (Hex q Hq) as [c Hc]. destruct (decide (q = p)) as [->|Hqp].
    + rewrite lookup_alter_eq, E. done.
    + rewrite lookup_alter_ne by done. by exists c.
Qed.

Lemma serve_new_small s T objs F H G c p n s' :
  heap_ok s T objs F H G → slot_taken s F H c p s' → (0 < n)%nat → Z.of_nat n ≤ slot_size c →
  (∃ F' H', heap_ok s' T (<[p := read_bytes (mc_mem s') p n]> objs) F' H' G) ∧
  objs !! p = None ∧ p mod slot_size c = 0 ∧ mem_same_outside T s s'.
Proof.
  intros HP (F' & H' & HK' & [Ht Hnew] & Heq & HF' & Hbs & Hmem) Hn Hfit.
  pose proof HP as [HS HL Hus Hap Hall Hhm Hby Hex].
  assert (Hp : slab_live H' c p) by (apply Ht; by right).
  assert (Hmeta : ∀ x, slab_meta H x → slab_mem H x).
  { intros x. apply meta_in_slab. intros d sl Hsl. exists s. by apply (sk_ok _ _ _ HS). }
  assert (Hpm : F p ∨ slab_mem H p).
  { apply Heq. right. apply (live_in_slab s' F' H' c p); [done..|]. lia. }
  assert (Hnone : objs !! p = None).
  { destruct (objs !! p) as [b|] eqn:E; [exfalso|done]. destruct (Hhm p b E) as [_ [(d & Hl & _)|(a & o & k & EG & _)]].
    - by apply (Hnew d).
    - destruct (large_ptr s T objs F H G HP p a o k EG) as [Hb _].
      destruct (Hus p) as [H1 H2]; [by exists p, a, o, k|]. tauto. }
  split_and!; [|done| |eapply mem_same_outside_weaken; [exact Hmem|]; intros x Hx; apply Hall; naive_solver].
  2: { destruct Hp as (sl & Hsl & Hq & _). apply (slot_aligned c (sl_page sl)); [apply Hsl| |done].
       by apply (so_bounds _ _ _ (sk_ok _ _ _ HK' c sl Hsl)). }
  exists F', H'. split; try done.
  - intros q a o k E. eapply larges_kept; [by apply HL|done|exact Hmem|]. intros x Hx.
    destruct (Hus x) as [? ?]; [by exists q, a, o, k|]. naive_solver.
  - intros x Hx. destruct (Hus x Hx) as [? ?]. specialize (Heq x). tauto.
  - intros x. rewrite Hall. specialize (Heq x). tauto.
  - intros q b E. destruct (decide (q = p)) as [->|Hq].
    + rewrite lookup_insert_eq in E. injection E as <-. rewrite length_read_bytes.
      split; [done|]. left. by exists c.
    + rewrite lookup_insert_ne in E by done. destruct (Hhm q b E) as [Hl0 Hh]. split; [done|].
      destruct Hh as [(d & Hl & ?)|?]; [left|by right]. exists d. rewrite Ht. auto.
  - intros q b i E Hi. destruct (decide (q = p)) as [->|Hq].
    + rewrite lookup_insert_eq in E. injection E as <-. rewrite length_read_bytes in Hi. by rewrite read_bytes_lookup.
    + rewrite lookup_insert_ne in E by done. by eapply objects_kept.
  - intros q Hq. destruct (decide (q = p)) as [->|Hne]; [by rewrite lookup_insert_eq|].
    rewrite lookup_insert_ne by done. apply Hex. destruct Hq as [[d Hd]|?]; [left; exists d|by right].
    apply Ht in Hd as [?|[]]; done.
Qed.

(** The memory of the large objects, and where they are, with one more or one less. *)
Lemma large_mem_insert G p addr o k x : G !! p = None →
  large_mem (<[p := (addr, o, k)]> G) x ↔ large_mem G x ∨ block addr o x.
Proof.
  intros HG. split.
  - intros (q & a & j & i & [[<- [= <- <- <-]]|[Hq E]]%lookup_insert_Some & Hb); [by right|]. left. by exists q, a, j, i.
  - intros [(q & a & j & i & E & Hb)|Hb]; [|exists p, addr, o, k; by rewrite lookup_insert_eq].
    exists q, a, j, i. by rewrite lookup_insert_ne by congruence.
Qed.

Lemma large_mem_delete G p addr o k x : G !! p = Some (addr, o, k) →
  (∀ q a n j, G !! q = Some (a, n, j) → block addr o x → block a n x → p = q) →
  large_mem (delete p G) x ↔ large_mem G x ∧ ¬ block addr o x.
Proof.
  intros EG Hap. split.
  - intros (q & a & j & i & [Hq E]%lookup_delete_Some & Hb). split; [by exists q, a, j, i|]. intros Hb'. apply Hq. by eapply Hap.
  - intros [(q & a & j & i & E & Hb) Hno]. exists q, a, j, i. rewrite lookup_delete_ne; [done|]. intros ->. rewrite EG in E. by injection E as <- <- <-.
Qed.

Lemma home_insert H G p q v n : q ≠ p → G !! p = None → home H G q n → home H (<[p := v]> G) q n.
Proof. intros Hq HG [?|(a & j & i & EG & ?)]; [by left|right]. exists a, j, i. by rewrite lookup_insert_ne. Qed.

Lemma serve_new_large s T objs F H G p n s' addr o k F' :
  heap_ok s T objs F H G → large_live s' p addr o k → p + Z.of_nat n ≤ addr + bs o → (0 < n)%nat →
  pa_ok s' F' → (∀ x, F x ↔ F' x ∨ block addr o x) → (∀ x, block addr o x → ¬ F' x) →
  (∀ b j, pa_block s b j → pa_block s' b j) → pa_frame F s s' →
  heap_ok s' T (<[p := read_bytes (mc_mem s') p n]> objs) F' H (<[p := (addr, o, k)]> G) ∧
  objs !! p = None ∧ mem_same_outside T s s'.
Proof.
  intros HP HLp Hfit Hn HF' Heq Hdis Hbs [Hon Hmem]. pose proof HP as [HS HL Hus Hap Hall Hhm Hby Hex].
  assert (Hpb : block addr o p).
  { destruct HLp as [_ _ [? ?] -> _ _ _ _]. pose proof (Z.pow_pos_nonneg 2 k). unfold block. lia. }
  assert (Hnone : objs !! p = None).
  { destruct (objs !! p) as [b|] eqn:E; [exfalso|done]. destruct (Hhm p b E) as [Hlb Hh].
    destruct (home_bytes s T objs F H G HP p _ p Hh) as (_ & HnF & _); [lia|]. apply HnF, Heq. by right. }
  split_and!; [|done|eapply mem_same_outside_weaken; [exact Hmem|]; intros x Hx; apply Hall; by left].
  assert (HG : G !! p = None).
  { destruct (G !! p) eqn:E; [|done]. destruct (Hex p) as [? E']; [right; by rewrite E|]. by rewrite Hnone in E'. }
  assert (Hlm := λ x, large_mem_insert G p addr o k x HG).
  split.
  - apply (slabs_ok_frame s s' F); try done; [by apply Hon| |].
    + intros x Hx HFx. apply (sk_used _ _ _ HS x Hx), Heq. by left.
    + intros x Hx. apply Hmem, (sk_used _ _ _ HS). apply meta_in_slab in Hx; [done|].
      intros d sl Hsl. exists s. by apply (sk_ok _ _ _ HS).
  - intros q a j i E. destruct (decide (q = p)) as [->|Hq].
    + rewrite lookup_insert_eq in E. by injection E as <- <- <-.
    + rewrite lookup_insert_ne in E by done. eapply larges_kept; [by apply HL|done|exact Hmem|].
      intros x Hx. apply Hus. by exists q, a, j, i.
  - intros x [Hx|Hx]%Hlm; [|split; [by apply Hdis|]].
    + destruct (Hus x Hx) as [? ?]. specialize (Heq x). tauto.
    + intros Hs. apply (sk_used _ _ _ HS x Hs), Heq. by right.
  - assert (Hno : ∀ q a j i x, G !! q = Some (a, j, i) → block a j x → ¬ block addr o x).
    { intros q a j i x E Hb Hb'. destruct (Hus x) as [HnF _]; [by exists q, a, j, i|]. apply HnF, Heq. by right. }
    intros q a j i q' a' j' i' x [[<- [= <- <- <-]]|[Hq E]]%lookup_insert_Some [[<- [= <- <- <-]]|[Hq' E']]%lookup_insert_Some Hb Hb';
      [done|by destruct (Hno q' a' j' i' x)|by destruct (Hno q a j i x)|by eapply Hap].
  - intros x. rewrite Hall, Hlm. specialize (Heq x). tauto.
  - intros q b E. destruct (decide (q = p)) as [->|Hq].
    + rewrite lookup_insert_eq in E. injection E as <-. rewrite length_read_bytes.
      split; [done|]. right. exists addr, o, k. by rewrite lookup_insert_eq.
    + rewrite lookup_insert_ne in E by done. destruct (Hhm q b E). split; [done|]. by apply home_insert.
  - intros q b i E Hi. destruct (decide (q = p)) as [->|Hq].
    + rewrite lookup_insert_eq in E. injection E as <-. rewrite length_read_bytes in Hi. by rewrite read_bytes_lookup.
    + rewrite lookup_insert_ne in E by done. eapply (objects_kept s s'); [done| |done..].
      eapply mem_same_outside_weaken; [exact Hmem|]. by left.
  - intros q Hq. destruct (decide (q = p)) as [->|Hne]; [by rewrite lookup_insert_eq|].
    rewrite !lookup_insert_ne in * by done. by apply Hex.
Qed.

Lemma serve_delete_slab s T objs F H G p c :
  heap_ok s T objs F H G → slab_live H c p →
  runs (Deallocate p) s (λ _ s', (∃ H', heap_ok s' T (delete p objs) F H' G) ∧ mem_same_outside T s s').
Proof.
  intros HP Hl. pose proof HP as [HS HL Hus Hap Hall Hhm Hby Hex].
  eapply runs_mono; [by apply (Deallocate_slab_spec s F H c p)|]. cbv beta.
  intros [] s' (H' & HK' & Hlive & Hsm & Hw).
  assert (Hsz : 16 ≤ slot_size c) by (destruct Hl as (sl & Hsl & Hp & _); apply (slot_geometry c (proj1 Hsl))).
  assert (HPm : ∀ x, slab_meta H x ∨ p ≤ x < p + 8 → slab_mem H x).
  { intros x [Hx|Hx]; [|apply (live_in_slab s F H c p); [done..|lia]].
    apply meta_in_slab in Hx; [done|]. intros d sl Hsl. exists s. by apply (sk_ok _ _ _ HS). }
  destruct (wrote_pa s s' F H _ HS Hw HPm) as [_ Hbs]. destruct Hw as (Hon & _ & Hmem).
  split; [exists H'|eapply mem_same_outside_weaken; [exact Hmem|]; intros x Hx; apply Hall; auto].
  split; try done.
  - intros q a o k E. eapply larges_kept; [by apply HL|done|exact Hmem|]. intros x Hx Hin.
    destruct (Hus x) as [_ []]; [by exists q, a, o, k|auto].
  - intros x Hx. rewrite Hsm. by apply Hus.
  - intros x. by rewrite Hsm.
  - intros q b [Hq E]%lookup_delete_Some. destruct (Hhm q b E) as [? [(d & Hd & ?)|?]]; (split; [done|]); [left|by right].
    exists d. rewrite Hlive. auto.
  - intros q b i [Hq E]%lookup_delete_Some Hi. rewrite <-(Hby q b i E Hi). apply Hmem.
    destruct (Hhm q b E) as [_ Hh].
    destruct (home_bytes s T objs F H G HP q _ (q + Z.of_nat i) Hh) as (_ & _ & Hnm); [lia|].
    intros [?|Hx]; [done|]. apply Hq. symmetry.
    apply (homes_apart s T objs F H G HP q _ p 16 (q + Z.of_nat i) Hh); [|lia..]. left. by exists c.
  - intros q Hq. assert (q ≠ p ∧ is_Some (objs !! q)) as [Hne ?]; [|by rewrite lookup_delete_ne].
    destruct Hq as [[d [Hd Hne]%Hlive]|HG]; [split; [done|apply Hex; eauto]|]. split; [|apply Hex; by right].
    intros ->. destruct HG as [[[a o] k] EG]. destruct (large_ptr s T objs F H G HP p a o k EG) as [Hb _].
    destruct (Hus p) as [_ []]; [by exists p, a, o, k|]. apply HPm. right. lia.
Qed.

Lemma serve_delete_large s T objs F H G p addr o k :
  heap_ok s T objs F H G → G !! p = Some (addr, o, k) →
  runs (Deallocate p) s (λ _ s',
    (∃ F', heap_ok s' T (delete p objs) F' H (delete p G)) ∧ mem_same_outside T s s').
Proof.
  intros HP EG. pose proof HP as [HS HL Hus Hap Hall Hhm Hby Hex].
  assert (Hblk : ∀ x, block addr o x → large_mem G x) by (intros x Hx; by exists p, addr, o, k).
  eapply runs_mono; [apply (Deallocate_large_spec s F p addr o k); [apply HS|by apply HL|]|].
  { intros x Hx. by apply Hus, Hblk. }
  cbv beta. intros [] s' (HF' & Hbs & [Hon Hmem]).
  assert (Hlm : ∀ x, large_mem (delete p G) x ↔ large_mem G x ∧ ¬ block addr o x).
  { intros x. apply (large_mem_delete G p addr o k x EG). intros q a n j E Hb Hb'. by eapply (Hap p addr o k q). }
  assert (Hdead : ∀ c, ¬ slab_live H c p).
  { intros c Hl. destruct (large_ptr s T objs F H G HP p addr o k EG) as [Hb _].
    destruct Hl as (sl & Hsl & Hp & Hno). destruct (Hus p (Hblk p Hb)) as [_ []]. exists c, sl. split; [done|].
    by apply (slot_in_block c); [apply Hsl|]. }
  split; [exists (λ x, F x ∨ block addr o x)|eapply mem_same_outside_weaken; [exact Hmem|]; intros x Hx; apply Hall; naive_solver].
  split.
  - apply (slabs_ok_frame s s' F); try done; [by apply Hon| |].
    + intros x Hx [HFx|Hb]; [by apply (sk_used _ _ _ HS x)|]. by destruct (Hus x (Hblk x Hb)).
    + intros x Hx. apply meta_in_slab in Hx.
      * apply Hmem. intros [HFx|Hb]; [by apply (sk_used _ _ _ HS x)|]. by destruct (Hus x (Hblk x Hb)).
      * intros d sl Hsl. exists s. by apply (sk_ok _ _ _ HS).
  - intros q a j i E. pose proof E as [Hq E']%lookup_delete_Some. eapply larges_kept; [by apply HL|done|exact Hmem|].
    intros x Hx. destruct (proj1 (Hlm x)) as [HG Hnb]; [by exists q, a, j, i|]. destruct (Hus x HG) as [HnF _]. tauto.
  - intros x [HG Hnb]%Hlm. destruct (Hus x HG). tauto.
  - intros q a j i q' a' j' i' x [_ E]%lookup_delete_Some [_ E']%lookup_delete_Some. by eapply Hap.
  - intros x. rewrite Hall, Hlm. assert (block addr o x ∨ ¬ block addr o x) by (unfold block; lia). specialize (Hblk x). tauto.
  - intros q b [Hq E]%lookup_delete_Some. destruct (Hhm q b E) as [? [?|(a & j & i & Ea & ?)]]; (split; [done|]); [by left|right].
    exists a, j, i. by rewrite lookup_delete_ne.
  - intros q b i [Hq E]%lookup_delete_Some Hi. rewrite <-(Hby q b i E Hi). apply Hmem.
    destruct (Hhm q b E) as [_ Hh].
    destruct (home_bytes s T objs F H G HP q _ (q + Z.of_nat i) Hh) as (_ & HnF & _); [lia|].
    intros [?|Hx]; [done|]. destruct Hh as [(d & Hd & Hn)|(a & j & l & Ea & Hn)].
    + destruct (Hus _ (Hblk _ Hx)) as [_ []]. apply (live_in_slab s F H d q); [done..|lia].
    + apply Hq. symmetry. apply (Hap q a j l p addr o k (q + Z.of_nat i)); [done..| |done].
      destruct (large_ptr s T objs F H G HP q a j l Ea). unfold block in *. lia.
  - intros q Hq. assert (q ≠ p ∧ is_Some (objs !! q)) as [Hne ?]; [|by rewrite lookup_delete_ne].
    destruct Hq as [[d Hd]|[y [Hne Ey]%lookup_delete_Some]].
    + split; [by intros ->; apply (Hdead d)|apply Hex; eauto].
    + split; [done|apply Hex; eauto].
Qed.

(** [Allocate] rounds its arguments up, then goes by the size class. *)
Lemma Allocate_rounds size k : 0 ≤ size → 0 ≤ k →
  Allocate size (2 ^ k) =
    let n := Z.max size 1 in let a := 2 ^ Z.max k 4 in
    if decide (pickClass n a < NO_SLAB_CLASS)%nat then allocFromSlab (pickClass n a) else allocLarge n a.
Proof.
  intros Hs Hk. unfold Allocate. cbv zeta.
  assert ((if decide (size = 0) then 1 else size) = Z.max size 1) as -> by (case_decide; lia).
  assert ((if decide (2 ^ k < DEFAULT_NEW_ALIGN) then DEFAULT_NEW_ALIGN else 2 ^ k) = 2 ^ Z.max k 4) as ->; [|done].
  unfold DEFAULT_NEW_ALIGN. change 16 with (2 ^ 4). destruct (decide (k < 4)) as [Hlt|Hge].
  - rewrite decide_True by (apply Z.pow_lt_mono_r; lia). by rewrite Z.max_r by lia.
  - rewrite decide_False by (apply Z.le_ngt, Z.pow_le_mono_r; lia). by rewrite Z.max_l by lia.
Qed.

(** A pointer aligned to a larger power of two. *)
Lemma aligned_pow2 p k j : 0 ≤ k ≤ j → p mod 2 ^ j = 0 → p mod 2 ^ k = 0.
Proof.
  intros Hk Hp. assert (0 < 2 ^ k ∧ 0 < 2 ^ j) as [? ?] by (split; apply Z.pow_pos_nonneg; lia).
  apply Z.mod_divide; [lia|]. apply Z.mod_divide in Hp; [|lia]. etransitivity; [|exact Hp].
  exists (2 ^ (j - k)). rewrite <-Z.pow_add_r by lia. f_equal. lia.
Qed.

Definition serves (T : Z → Prop) (objs : objects) (F : Z → Prop) (r : request) (s : machine)
    (v : Z) (s' : machine) : Prop :=
  answer objs F r v ∧ (∃ F' H' G', heap_ok s' T (after objs r v s') F' H' G') ∧ mem_same_outside T s s'.

Lemma serve_new s T objs F H G size k :
  heap_ok s T objs F H G → legal objs (New size k) →
  runs (serve (New size k)) s (serves T objs F (New size k) s).
Proof.
  intros HP (Hs & Hk & Hnw). simpl serve. rewrite Allocate_rounds by lia. cbv zeta.
  set (n := Z.max size 1) in *. set (k' := Z.max k 4) in *.
  assert (Ha : 2 ^ 4 ≤ 2 ^ k') by (apply Z.pow_le_mono_r; lia).
  pose proof (pickClass_spec n (2 ^ k') ltac:(lia) ltac:(lia)) as Hcls. cbv zeta in Hcls.
  destruct (decide (Z.max n (2 ^ k') ≤ 1024)) as [Hsm|Hbig].
  - destruct Hcls as (Hc & Hfit & Hal & _). set (c := pickClass n (2 ^ k')) in *. rewrite decide_True by done.
    eapply runs_mono; [by apply (allocFromSlab_spec s F H c); [apply HP|]|]. cbv beta. fold (slot_size c) in *.
    intros p s' [(-> & -> & Hno)|(Hp & Ht)].
    + split_and!; [by left| |done]. unfold after. rewrite decide_True by done. by exists F, H, G.
    + destruct (serve_new_small s T objs F H G c p (Z.to_nat n) s' HP Ht) as ((F' & H' & HP') & Hnone & Hmod & Hmem); [lia|lia|].
      split_and!; [right|unfold after; rewrite decide_False by done; by exists F', H', G|done]. split_and!; [done..|].
      intros _. destruct (slot_geometry c Hc) as (Hsz & _).
      destruct (decide (k ≤ 4 + Z.of_nat c)) as [Hkc|Hkc].
      { apply (aligned_pow2 p k (4 + Z.of_nat c)); [lia|]. by rewrite <-Hsz. }
      exfalso. assert (slot_size c < 2 ^ k'); [|lia]. rewrite Hsz. apply Z.pow_lt_mono_r; lia.
  - rewrite Hcls, decide_False by lia.
    eapply runs_mono; [apply (allocLarge_spec s F n k'); [apply (sk_pa _ _ _ (hp_slabs _ _ _ _ _ _ HP))|lia|lia|lia]|].
    cbv beta. intros p s' [(-> & ->)|(addr & o & F' & HL & Hfit & HF' & Heq & Hdis & Hbs & Hfr)].
    + split_and!; [left; split; [done|]| |done].
      * intros Hle. exfalso. apply Hbig. unfold n, k'. destruct (decide (k < 4)).
        -- rewrite (Z.max_r k 4) by lia. lia.
        -- rewrite (Z.max_l k 4) by lia. pose proof (Z.pow_pos_nonneg 2 k). lia.
      * unfold after. rewrite decide_True by done. by exists F, H, G.
    + pose proof (ll_bounds _ _ _ _ _ HL) as Hbd. pose proof (ll_ptr _ _ _ _ _ HL) as Hptr.
      destruct (serve_new_large s T objs F H G p (Z.to_nat n) s' addr o k' F' HP HL) as (HP' & Hnone & Hmem); try done; [lia..|].
      split_and!; [right| |done].
      * split_and!; [lia|done|]. intros Hk12. rewrite Hptr, Z.add_mod by (apply Z.pow_nonzero; lia).
        rewrite (aligned_pow2 addr k 12), (aligned_pow2 (2 ^ k') k k'); [by rewrite Z.mod_0_l; [|apply Z.pow_nonzero; lia]|lia| |lia|by apply Hbd].
        apply Z.mod_same. lia.
      * unfold after. rewrite decide_False by lia. by exists F', H, (<[p := (addr, o, k')]> G).
Qed.

Lemma serve_spec s T objs F H G r :
  heap_ok s T objs F H G → legal objs r → runs (serve r) s (serves T objs F r s).
Proof.
  intros HP. destruct r as [size k|p i b|p]; [by apply (serve_new s T objs F H G)| |]; intros Hr.
  - destruct Hr as (bytes & E & Hi). unfold serve. mrun.
    destruct (serve_write s T objs F H G p i b bytes HP E Hi) as [HP' Hmem]. split_and!; [done| |done].
    by exists F, H, G.
  - unfold serve. apply runs_bind. destruct Hr as [->|[bytes E]].
    + unfold Deallocate. rewrite decide_True by done. mrun. split_and!; [done| |done]. simpl.
      rewrite delete_id; [by exists F, H, G|]. destruct (objs !! 0) as [b|] eqn:E0; [exfalso|done].
      destruct (hp_home _ _ _ _ _ _ HP 0 b E0) as [_ [(c & (sl & Hsl & Hp & _) & _)|(a & o & k & EG & _)]].
      * pose proof (heap_slot_bounds c _ (proj1 Hsl) 0 Hp).
        pose proof (so_bounds _ _ _ (sk_ok _ _ _ (hp_slabs _ _ _ _ _ _ HP) c sl Hsl)). lia.
      * pose proof (large_ptr s T objs F H G HP 0 a o k EG).
        pose proof (ll_bounds _ _ _ _ _ (hp_large _ _ _ _ _ _ HP 0 a o k EG)). lia.
    + destruct (hp_home _ _ _ _ _ _ HP p bytes E) as [_ [(c & Hl & _)|(a & o & k & EG & _)]].
      * eapply runs_mono; [by apply (serve_delete_slab s T objs F H G p c)|]. cbv beta.
        intros [] s' ((H' & HP') & Hmem). mrun. split_and!; [done|by exists F, H', G|done].
      * eapply runs_mono; [by apply (serve_delete_large s T objs F H G p a o k)|]. cbv beta.
        intros [] s' ((F' & HP') & Hmem). mrun. split_and!; [done|by exists F', H, (delete p G)|done].
Qed.

(** Every run of a client keeps the representation. *)
Lemma served_ok s0 F0 s objs :
  pa_ok s0 F0 → mc_slabs s0 = replicate NO_SLAB_CLASS 0 → served s0 s objs →
  (∃ F H G, heap_ok s F0 objs F H G) ∧ mem_same_outside F0 s0 s.
Proof.
  intros HF E Hs. induction Hs as [|s objs r v s' Hs [(F & H & G & HP) Hmem] Hr Hrun].
  - split; [|done]. exists F0, (λ _, []), ∅. by apply heap_ok_boot.
  - pose proof (runs_det _ _ _ _ _ (serve_spec s F0 objs F H G r HP Hr) Hrun) as (_ & HP' & Hmem').
    split; [done|]. by eapply mem_same_outside_trans.
Qed.
End serve.
