(* ===== verification/HeapProps.v ===== *)
(** * The kernel heap: what its clients may rely on *)
From S2P Require Import Prelude Memory Machine Pmm FreeLists Bitmap Buddy PmmInit PmmProps.
From S2P Require Import PageAlloc PageTableSpec MmioMap Heap HeapLarge MmuProps.
From S2P Require Import HeapSlab HeapSlabOps HeapSlabAlloc HeapObjects HeapServe.


(** A small object that stays, a large one that comes and goes. *)
Definition heap0 : machine := set_slabs (λ _, replicate NO_SLAB_CLASS 0) pool0.
Definition requests0 : list request :=
  [New 24 4; New 3000 4; Write 0x40000FE0 3 7; Write 0x40001010 2999 9; Delete 0x40001010].

Lemma heap0_pa_ok : pa_ok heap0 F0.
Proof. by apply (pa_client pool0); [apply pool0_pa_ok|..]. Qed.


(** C17: a large request (over 1 KiB after rounding, power-of-two alignment) yields either null and
    no change, or a pointer whose bytes lie in one freshly taken block; and whatever the client
    then writes into its own bytes, [Deallocate] recognises the pointer and returns exactly that
    block, so the free memory is what it was before the allocation. *)
Theorem large_allocation_round_trip s F size k (write : Z → gmap Z Z → gmap Z Z)
    (HF : pa_ok s F) (Hs : 0 < size) (Hk : 4 ≤ k ≤ 63) (Hnw : 2 ^ k + size < 2 ^ 64)
    (Hbig : 1024 < Z.max size (2 ^ k))
    (Hwrite : ∀ p m x, ¬ (p ≤ x < p + size) → load8 (write p m) x = load8 m x) :
  runs (p ← Allocate size (2 ^ k);
        when (bool_decide (p ≠ 0)) (modify (set_mem (write p)));;
        Deallocate p;;
        mret p) s
    (λ p s', (∃ F', pa_ok s' F' ∧ ∀ x, F' x ↔ F x) ∧
      (p ≠ 0 → k ≤ 12 → p mod 2 ^ k = 0) ∧ (p ≠ 0 → ∀ x, p ≤ x < p + size → F x)).
Proof.
  assert (2 ^ 4 ≤ 2 ^ k) by (apply Z.pow_le_mono_r; lia).
  apply runs_bind. unfold Allocate. rewrite (decide_False (P := size = 0)) by lia.
  rewrite (decide_False (P := 2 ^ k < DEFAULT_NEW_ALIGN)) by (unfold DEFAULT_NEW_ALIGN; lia). cbv zeta.
  pose proof (pickClass_spec size (2 ^ k) Hs ltac:(lia)) as Hc. cbv zeta in Hc.
  rewrite decide_False in Hc by lia. rewrite Hc, decide_False by lia.
  eapply runs_mono; [by apply (allocLarge_spec s F size k)|]. cbv beta.
  intros p s1 [(-> & ->)|(addr & o & F' & HL & Hfit & HF' & Heq & Hdis & Hb1 & [Hon1 Hm1])].
  - unfold when. rewrite bool_decide_false by tauto. mrun. unfold Deallocate. rewrite decide_True by done.
    mrun. split_and!; [by exists F|done|done].
  - pose proof (ll_ptr _ _ _ _ _ HL) as Hp. pose proof (ll_bounds _ _ _ _ _ HL) as Hbd.
    unfold when. rewrite bool_decide_true by lia. mrun. set (s2 := set_mem (write p) s1).
    assert (Hw : ∀ x, ¬ (p ≤ x < p + size) → load8 (mc_mem s2) x = load8 (mc_mem s1) x) by (intros; by apply Hwrite).
    destruct (pa_client s1 s2 F' HF' eq_refl) as [HF2 Hb2].
    { intros x Hx. apply Hw. intros Hin. apply (Hdis x); [unfold block; lia|done]. }
    assert (HL2 : large_live s2 p addr o k).
    { apply (large_live_client s1); [done|done|]. intros x Hx. apply Hw. lia. }
    eapply runs_mono; [by apply (Deallocate_large_spec s2 F' p addr o k)|]. cbv beta.
    intros [] s3 (HF3 & _). mrun. split_and!.
    + eexists. split; [exact HF3|]. intros x. symmetry. apply Heq.
    + intros _ Hk12. rewrite Hp. rewrite Z.add_mod by lia.
      assert (addr mod 2 ^ k = 0) as ->; [|by rewrite Z.mod_same, Z.add_0_r, Z.mod_0_l by lia].
      destruct Hbd as (_ & _ & Hal & _). apply Z.mod_divide in Hal; [|done].
      apply Z.mod_divide; [lia|]. etransitivity; [|exact Hal]. exists (2 ^ (12 - k)).
      rewrite <-Z.pow_add_r by lia. change 4096 with (2 ^ 12). f_equal. lia.
    + intros _ x Hx. apply Heq. right. unfold block. lia.
Qed.

Lemma large_allocation_round_trip_witness :
  runs (p ← Allocate 5000 (2 ^ 6);
        when (bool_decide (p ≠ 0)) (modify (set_mem (λ m, store64 m p 42)));;
        Deallocate p;;
        mret p) pool0
    (λ p s', (∃ F', pa_ok s' F' ∧ ∀ x, F' x ↔ F0 x) ∧
      (p ≠ 0 → 6 ≤ 12 → p mod 2 ^ 6 = 0) ∧ (p ≠ 0 → ∀ x, p ≤ x < p + 5000 → F0 x)).
Proof.
  apply (large_allocation_round_trip pool0 F0 5000 6 (λ p m, store64 m p 42)).
  - apply pool0_pa_ok.
  - reflexivity.
  - split; discriminate.
  - reflexivity.
  - reflexivity.
  - intros p m x Hx. apply store_frame. lia.
Defined.

(** [userOffset + size] wraps: a request for nearly 2^64 bytes is served with one page. *)
Lemma allocLarge_size_wraps s F size :
  pa_ok s F → free_pages F 1 → 2 ^ 64 - 16 ≤ size < 2 ^ 64 →
  runs (Allocate size 16) s (λ p s', p ≠ 0 ∧ ∃ addr F', p = addr + 16 ∧
    (∀ x, F x ↔ F' x ∨ block addr 0 x)).
Proof.
  intros HF Hpg Hs. unfold Allocate. rewrite (decide_False (P := size = 0)) by lia.
  rewrite (decide_False (P := 16 < DEFAULT_NEW_ALIGN)) by (unfold DEFAULT_NEW_ALIGN; lia). cbv zeta.
  pose proof (pickClass_spec size 16 ltac:(lia) ltac:(lia)) as Hc. cbv zeta in Hc.
  rewrite decide_False in Hc by lia. rewrite Hc, decide_False by lia.
  unfold allocLarge. cbv zeta. 
  change (Z.land (LargeHeader_size ⊞ 16 ⊟ 1) (not64 (16 - 1))) with 16.
  assert (16 ⊞ size = 16 + size - 2 ^ 64) as ->.
  { unfold u64. replace (16 + size) with (16 + size - 2 ^ 64 + 1 * 2 ^ 64) at 1 by lia.
    rewrite Z.mod_add, Z.mod_small by lia. lia. }
  set (total := 16 + size - 2 ^ 64).
  destruct (orderForBytes_spec total) as (Ho & Hfit & Hmin); [lia|].
  assert (E0 : orderForBytes total = 0%nat).
  { destruct Hmin as [|(r & _ & Hlt)]; [done|]. pose proof (bs_pos r). lia. }
  rewrite E0. rewrite decide_False by lia. apply runs_bind.
  eapply runs_mono; [by apply (alloc_page s F 0)|]. cbv beta.
  intros addr s1 (Ha & Hb & _ & _ & F' & HF' & Heq & _). rewrite decide_False by done.
  pose proof (pa_block_bounds s1 F' addr 0 HF' Hb) as Hbd.
  assert (addr ⊞ 16 = addr + 16) as -> by (apply Z.mod_small; change (bs 0) with 4096 in *; lia).
  mrun. split; [lia|]. by exists addr, F'.
Qed.
