(* ===== verification/Vcpu.v ===== *)
(** * The virtual CPU: saved guest state and its layout (core/vcpu) *)
From S2P Require Import Prelude Memory Machine.

(** [struct GuestRegisters] *)
Record GuestRegisters : Set := MkGuestRegisters {
  x : list Z;        (** [std::array<uint64_t, 31>] *)
  pc : Z;
  pstate : Z;
  spEl0 : Z;
  spEl1 : Z;
}.

Inductive ExitReason : Set := SYNC | IRQ | FIQ | SERROR.

#[export] Instance ExitReason_eq_dec : EqDecision ExitReason.
Proof. solve_decision. Defined.

Record VcpuExit : Set := MkVcpuExit {
  reason : ExitReason;
  syndrome : Z;
  far : Z;
  hpfar : Z;
}.

(** [Vcpu::SystemRegisters]: the names of the 21 fields, in order. *)
Inductive sysfield : Set :=
  | sf_sctlr | sf_ttbr0 | sf_ttbr1 | sf_tcr | sf_mair | sf_amair | sf_vbar | sf_elr | sf_spsr | sf_esr
  | sf_far | sf_afsr0 | sf_afsr1 | sf_contextidr | sf_tpidr | sf_tpidrEl0 | sf_tpidrroEl0 | sf_cntkctl
  | sf_cpacr | sf_par | sf_csselr.

#[export] Instance sysfield_eq_dec : EqDecision sysfield.
Proof. solve_decision. Defined.

Definition sysfields : list sysfield :=
  [sf_sctlr; sf_ttbr0; sf_ttbr1; sf_tcr; sf_mair; sf_amair; sf_vbar; sf_elr; sf_spsr; sf_esr;
   sf_far; sf_afsr0; sf_afsr1; sf_contextidr; sf_tpidr; sf_tpidrEl0; sf_tpidrroEl0; sf_cntkctl;
   sf_cpacr; sf_par; sf_csselr].

Record Vcpu : Type := MkVcpu {
  m_registers : GuestRegisters;
  m_system : sysfield → Z;
}.

Definition DISABLED_CONTROLS : Z :=
  Z.lor (Z.lor (Z.lor (Z.lor (1 ≪ 0) (1 ≪ 1)) (1 ≪ 2)) (1 ≪ 3)) (1 ≪ 12).

(** The default member initialisers with [.pc = entry]. *)
Definition initial_registers (entry : Z) : GuestRegisters :=
  MkGuestRegisters (replicate 31 0) entry 0x3C5 0 0.

Definition Vcpu_new (entry : Z) : M machine Vcpu :=
  sctlr ← mrs SCTLR_EL1;
  mret (MkVcpu (initial_registers entry)
    (<[sf_sctlr := Z.land sctlr (not64 DISABLED_CONTROLS)]> (λ _, 0))).

(** ** Offsets handed to the assembly (vcpuOffsets.cpp)

    Both structs are standard layout with 8-byte members only, so a member's
    offset is 8 times its position. *)

Definition off_m_registers : Z := 0.
Definition off_x : Z := 0.
Definition off_pc : Z := off_x + 31 * 8.
Definition off_pstate : Z := off_pc + 8.
Definition off_spEl0 : Z := off_pstate + 8.
Definition off_spEl1 : Z := off_spEl0 + 8.
Definition sizeof_GuestRegisters : Z := off_spEl1 + 8.
Definition off_m_system : Z := off_m_registers + sizeof_GuestRegisters.

Fixpoint field_index (f : sysfield) (l : list sysfield) : Z :=
  match l with
  | [] => 0
  | g :: l' => if decide (f = g) then 0 else 1 + field_index f l'
  end.
Definition off_sysfield (f : sysfield) : Z := 8 * field_index f sysfields.
Definition sizeof_Vcpu : Z := off_m_system + 8 * 21.

(** What the assembly names by an offset. *)
Inductive saved : Set :=
  | VCPU_X (n : nat)
  | VCPU_PC | VCPU_PSTATE | VCPU_SP_EL0 | VCPU_SP_EL1
  | VCPU_SYS (f : sysfield).

#[export] Instance saved_eq_dec : EqDecision saved.
Proof. solve_decision. Defined.

Definition vcpu_offset (v : saved) : Z :=
  match v with
  | VCPU_X n => off_m_registers + off_x + Z.of_nat n * 8
  | VCPU_PC => off_m_registers + off_pc
  | VCPU_PSTATE => off_m_registers + off_pstate
  | VCPU_SP_EL0 => off_m_registers + off_spEl0
  | VCPU_SP_EL1 => off_m_registers + off_spEl1
  | VCPU_SYS f => off_m_system + off_sysfield f
  end.

Definition all_saved : list saved :=
  (VCPU_X <$> seq 0 31) ++ [VCPU_PC; VCPU_PSTATE; VCPU_SP_EL0; VCPU_SP_EL1] ++ (VCPU_SYS <$> sysfields).

(** [VCPU_EXIT_SYNC], ..., [VCPU_EXIT_SERROR]. *)
Definition exit_code (r : ExitReason) : Z :=
  match r with SYNC => 0 | IRQ => 1 | FIQ => 2 | SERROR => 3 end.

(** Field offsets of [VcpuExit], fixed by static assertions. *)
Definition exit_offsets : list Z := [0; 8; 16; 24].
Definition sizeof_VcpuExit : Z := 32.
