(* ===== verification/Psci.v ===== *)
(** * Traps from the guest: syndrome decoding, SMCCC, HVC and SMC (core/vmm) *)
From S2P Require Import Prelude Vcpu.

(** ** esr.h *)

Inductive EsrEc : Set :=
  | UNKNOWN | WFX_TRAP | CP15_MCR_MRC | CP15_MCRR_MRRC | CP14_MCR_MRC | CP14_LDC_STC | FP_ACCESS
  | PAC_TRAP | CP14_MRRC | BRANCH_TARGET | ILLEGAL_STATE | SVC_AARCH32 | HVC_AARCH32 | SMC_AARCH32
  | SVC_AARCH64 | HVC_AARCH64 | SMC_AARCH64 | MSR_MRS_TRAP | SVE_ACCESS | FPAC_FAILURE
  | INSTR_ABORT_LOWER | INSTR_ABORT_SAME | PC_ALIGN_FAULT | DATA_ABORT_LOWER | DATA_ABORT_SAME
  | SP_ALIGN_FAULT | FP_EXC_AARCH32 | FP_EXC_AARCH64 | EC_SERROR | BREAKPOINT_LOWER | BREAKPOINT_SAME
  | SOFT_STEP_LOWER | SOFT_STEP_SAME | WATCHPOINT_LOWER | WATCHPOINT_SAME | BKPT_AARCH32
  | VECTOR_CATCH | BRK_AARCH64.

(** The enumerator's value. *)
Definition ec_value (e : EsrEc) : Z :=
  match e with
  | UNKNOWN => 0x00 | WFX_TRAP => 0x01 | CP15_MCR_MRC => 0x03 | CP15_MCRR_MRRC => 0x04
  | CP14_MCR_MRC => 0x05 | CP14_LDC_STC => 0x06 | FP_ACCESS => 0x07 | PAC_TRAP => 0x09
  | CP14_MRRC => 0x0C | BRANCH_TARGET => 0x0D | ILLEGAL_STATE => 0x0E | SVC_AARCH32 => 0x11
  | HVC_AARCH32 => 0x12 | SMC_AARCH32 => 0x13 | SVC_AARCH64 => 0x15 | HVC_AARCH64 => 0x16
  | SMC_AARCH64 => 0x17 | MSR_MRS_TRAP => 0x18 | SVE_ACCESS => 0x19 | FPAC_FAILURE => 0x1C
  | INSTR_ABORT_LOWER => 0x20 | INSTR_ABORT_SAME => 0x21 | PC_ALIGN_FAULT => 0x22
  | DATA_ABORT_LOWER => 0x24 | DATA_ABORT_SAME => 0x25 | SP_ALIGN_FAULT => 0x26
  | FP_EXC_AARCH32 => 0x28 | FP_EXC_AARCH64 => 0x2C | EC_SERROR => 0x2F | BREAKPOINT_LOWER => 0x30
  | BREAKPOINT_SAME => 0x31 | SOFT_STEP_LOWER => 0x32 | SOFT_STEP_SAME => 0x33
  | WATCHPOINT_LOWER => 0x34 | WATCHPOINT_SAME => 0x35 | BKPT_AARCH32 => 0x38
  | VECTOR_CATCH => 0x3A | BRK_AARCH64 => 0x3C
  end.

(** The cast yields a value of the underlying type, named or not. *)
Definition GetEsrEc (esr : Z) : Z := Z.land (esr ≫ 26) 0x3F.
Definition GetEsrIss (esr : Z) : Z := u32 (Z.land esr 0x1FFFFFF).

(** ** smccc.h *)

Definition OEN_SHIFT : Z := 24.
Definition OEN_MASK : Z := 0x3F.
Definition TYPE_SHIFT : Z := 31.
Definition TYPE_MASK : Z := 0x1.
Definition TYPE_FAST : Z := 1.
Definition OWNER_STANDARD : Z := 4.
Definition NOT_SUPPORTED : Z := -1.

(** Sign extension of an [int32_t] to 64 bits. *)
Definition ToRegister (code : Z) : Z := u64 code.
Definition GetOwner (funcId : Z) : Z := Z.land (u32 (funcId ≫ OEN_SHIFT)) OEN_MASK.
Definition IsFastCall (funcId : Z) : bool :=
  bool_decide (Z.land (funcId ≫ TYPE_SHIFT) TYPE_MASK = TYPE_FAST).

(** ** hvc.cpp *)

Inductive Action : Set := RESUME | SHUTDOWN_CALL | RESET.

#[export] Instance Action_eq_dec : EqDecision Action.
Proof. solve_decision. Defined.

Definition PSCI_VERSION : Z := 0x84000000.
Definition PSCI_SYSTEM_OFF : Z := 0x84000008.
Definition PSCI_SYSTEM_RESET : Z := 0x84000009.
Definition PSCI_FEATURES : Z := 0x8400000A.
Definition PSCI_VERSION_1_0 : Z := 0x00010000.

Definition Supports (call : Z) : bool :=
  bool_decide (call = PSCI_VERSION) || bool_decide (call = PSCI_SYSTEM_OFF) ||
  bool_decide (call = PSCI_SYSTEM_RESET) || bool_decide (call = PSCI_FEATURES).

Definition xreg (r : GuestRegisters) (n : nat) : Z := x r !!! n.
Definition set_x (n : nat) (v : Z) (r : GuestRegisters) : GuestRegisters :=
  MkGuestRegisters (<[n := v]> (x r)) (pc r) (pstate r) (spEl0 r) (spEl1 r).
Definition set_pc (v : Z) (r : GuestRegisters) : GuestRegisters :=
  MkGuestRegisters (x r) v (pstate r) (spEl0 r) (spEl1 r).

Definition Hvc_Handle (registers : GuestRegisters) (immediate : Z) : GuestRegisters * Action :=
  let x0 := xreg registers 0 in
  if decide (immediate ≠ 0 ∨ GetOwner x0 ≠ OWNER_STANDARD) then
    (set_x 0 (ToRegister NOT_SUPPORTED) registers, RESUME)
  else if decide (x0 = PSCI_VERSION) then (set_x 0 PSCI_VERSION_1_0 registers, RESUME)
  else if decide (x0 = PSCI_FEATURES) then
    (set_x 0 (if Supports (xreg registers 1) then 0 else ToRegister NOT_SUPPORTED) registers, RESUME)
  else if decide (x0 = PSCI_SYSTEM_OFF) then (registers, SHUTDOWN_CALL)
  else if decide (x0 = PSCI_SYSTEM_RESET) then (registers, RESET)
  else (set_x 0 (ToRegister NOT_SUPPORTED) registers, RESUME).

(** ** smc.cpp *)

Definition Smc_Handle (registers : GuestRegisters) : GuestRegisters :=
  let registers := set_x 0 (ToRegister NOT_SUPPORTED) registers in
  set_pc (pc registers ⊞ 4) registers.
