(* ===== verification/Vmm.v ===== *)
(** * A virtual machine and the loop that runs it (core/vm, core/vmm) *)
From S2P Require Import Prelude Memory Machine Pmm MmioMap GuestMmu Vcpu Psci.

Inductive VmState : Set := READY | RUNNING | SHUTDOWN | RESET_REQUESTED | FAULTED.

#[export] Instance VmState_eq_dec : EqDecision VmState.
Proof. solve_decision. Defined.

Inductive RunError : Set := INVALID_STATE.

Record VmConfig : Set := MkVmConfig {
  name : string;
  ipaBase : Z;
  ramHostPa : Z;
  ramSize : Z;
  vmid : Z;
  entry : Z;
  dtb : Z;
}.

Record Vm : Type := MkVm {
  m_name : string;
  m_guestMmu : GuestMmu;
  m_vcpu : Vcpu;
  vm_vmid : Z;
  m_state : VmState;
  m_lastExit : VcpuExit;
}.

Definition no_exit : VcpuExit := MkVcpuExit SYNC 0 0 0.

Definition set_registers (f : GuestRegisters → GuestRegisters) (c : Vcpu) : Vcpu :=
  MkVcpu (f (m_registers c)) (m_system c).

Definition Vm_new (config : VmConfig) (devices : MmioMap) : M machine Vm :=
  g ← GuestMmu_new (ipaBase config) (ramHostPa config) (ramSize config) devices;
  c ← Vcpu_new (entry config);
  mret (MkVm (name config) g (set_registers (set_x 0 (dtb config)) c) (vmid config) READY no_exit).

(** ** Running: the hypervisor's state, the [Vm] object, and the world the guest acts on

    [vcpu_run] of vcpu.S hands the CPU to the guest until its next exception; what
    the guest does in between is a parameter. *)
Section run.
Context {W : Type}.
Context (vcpu_run : W → machine → Vcpu → W * machine * Vcpu * VcpuExit).

Record vmm : Type := MkVmm {
  v_world : W;
  v_machine : machine;
  m_vm : Vm;
}.

Definition set_vm (f : Vm → Vm) (s : vmm) : vmm := MkVmm (v_world s) (v_machine s) (f (m_vm s)).
Definition set_state (st : VmState) (v : Vm) : Vm :=
  MkVm (m_name v) (m_guestMmu v) (m_vcpu v) (vm_vmid v) st (m_lastExit v).
Definition set_vcpu (c : Vcpu) (v : Vm) : Vm :=
  MkVm (m_name v) (m_guestMmu v) c (vm_vmid v) (m_state v) (m_lastExit v).
Definition set_guestMmu (g : GuestMmu) (v : Vm) : Vm :=
  MkVm (m_name v) g (m_vcpu v) (vm_vmid v) (m_state v) (m_lastExit v).
Definition set_lastExit (e : VcpuExit) (v : Vm) : Vm :=
  MkVm (m_name v) (m_guestMmu v) (m_vcpu v) (vm_vmid v) (m_state v) e.

(** A step of the machine inside the bigger state. *)
Definition on_machine {A} (m : M machine A) : M vmm A := λ s,
  match m (v_machine s) with
  | Done a s' => Done a (MkVmm (v_world s) s' (m_vm s))
  | Stop w s' => Stop w (MkVmm (v_world s) s' (m_vm s))
  end.

Definition GetState : M vmm VmState := gets (λ s, m_state (m_vm s)).

Definition Vm_Start : M vmm unit :=
  v ← gets m_vm;
  g ← on_machine (Enable (m_guestMmu v) (vm_vmid v));
  modify (set_vm (set_guestMmu g));;
  modify (set_vm (set_state RUNNING)).

Definition Vcpu_Run : M vmm VcpuExit := λ s,
  let '(w, mc, c, e) := vcpu_run (v_world s) (v_machine s) (m_vcpu (m_vm s)) in
  Done e (MkVmm w mc (set_vcpu c (m_vm s))).

Definition Vm_Enter : M vmm VcpuExit :=
  e ← Vcpu_Run;
  modify (set_vm (set_lastExit e));;
  mret e.

Definition Vm_Stop (st : VmState) : M vmm unit := modify (set_vm (set_state st)).

Definition set_guest_registers (r : GuestRegisters) : M vmm unit :=
  modify (set_vm (λ v, set_vcpu (set_registers (λ _, r) (m_vcpu v)) v)).

(** One pass of the [for (;;)] loop. *)
Definition Run_step (_ : unit) : M vmm (unit + VmState) :=
  exit ← Vm_Enter;
  registers ← gets (λ s, m_registers (m_vcpu (m_vm s)));
  if decide (reason exit = IRQ ∨ reason exit = FIQ) then mret (inl tt)
  else if decide (reason exit = SERROR) then
    Vm_Stop FAULTED;;
    st ← GetState;
    mret (inr st)
  else
    let ec := GetEsrEc (syndrome exit) in
    (if decide (ec = ec_value HVC_AARCH64) then
       let '(registers, action) := Hvc_Handle registers (GetEsrIss (syndrome exit)) in
       set_guest_registers registers;;
       when (bool_decide (action = SHUTDOWN_CALL)) (Vm_Stop SHUTDOWN);;
       when (bool_decide (action = RESET)) (Vm_Stop RESET_REQUESTED)
     else if decide (ec = ec_value SMC_AARCH64) then set_guest_registers (Smc_Handle registers)
     else Vm_Stop FAULTED);;
    st ← GetState;
    if decide (st ≠ RUNNING) then mret (inr st) else mret (inl tt).

(** The fuel bounds the number of guest exits; a guest may run for ever. *)
Definition Run (fuel : nat) : M vmm (RunError + VmState) :=
  st ← GetState;
  if decide (st ≠ READY) then mret (inl INVALID_STATE)
  else
    Vm_Start;;
    st ← loop fuel Run_step tt;
    mret (inr st).
End run.
