(* ===== verification/VmmSpec.v ===== *)
(** * Running a guest: the abstract machine the loop implements *)
From S2P Require Import Prelude Memory Machine Pmm MmioMap GuestMmu GuestMmuSpec Vcpu Psci Vmm.

(** ** What an exit means *)

(** The registers the guest resumes with, or the state it is stopped in. *)
Definition classify (e : VcpuExit) (r : GuestRegisters) : GuestRegisters * option VmState :=
  match reason e with
  | IRQ | FIQ => (r, None)
  | SERROR => (r, Some FAULTED)
  | SYNC =>
      if decide (GetEsrEc (syndrome e) = ec_value HVC_AARCH64) then
        let '(r', action) := Hvc_Handle r (GetEsrIss (syndrome e)) in
        (r', match action with
             | RESUME => None
             | SHUTDOWN_CALL => Some SHUTDOWN
             | RESET => Some RESET_REQUESTED
             end)
      else if decide (GetEsrEc (syndrome e) = ec_value SMC_AARCH64) then (Smc_Handle r, None)
      else (r, Some FAULTED)
  end.

(** Decide what a closed proposition settles. *)
Ltac decides :=
  repeat first [ rewrite decide_True by first [done | tauto]
               | rewrite decide_False by (first [done | tauto | naive_solver]) ].

Section spec.
Context {W : Type} (vcpu_run : W → machine → Vcpu → W * machine * Vcpu * VcpuExit).
Abbreviation config := (W * machine * Vcpu)%type.

(** One turn: the guest runs to its next exit, and the exit is served. *)
Definition turn (c : config) : config * VcpuExit * option VmState :=
  let '(w, mc, v) := c in
  let '(w', mc', v', e) := vcpu_run w mc v in
  let '(r, d) := classify e (m_registers v') in
  ((w', mc', set_registers (λ _, r) v'), e, d).

(** At most [n] turns: where the guest is, its last exit, and the state it stopped in. *)
Fixpoint play (n : nat) (c : config) : option (config * VcpuExit * VmState) :=
  match n with
  | O => None
  | S n' =>
      let '(c', e, d) := turn c in
      match d with
      | Some st => Some (c', e, st)
      | None => play n' c'
      end
  end.

(** The abstract configuration of a hypervisor state. *)
Definition config_of (s : vmm) : config := (v_world s, v_machine s, m_vcpu (m_vm s)).

Definition with_config (c : config) (e : VcpuExit) (st : VmState) (s : @vmm W) : vmm :=
  let '(w, mc, v) := c in
  MkVmm w mc (MkVm (m_name (m_vm s)) (m_guestMmu (m_vm s)) v (vm_vmid (m_vm s)) st e).

Lemma set_registers_id v : set_registers (λ _, m_registers v) v = v.
Proof. by destruct v. Qed.

Lemma Run_step_turn s : m_state (m_vm s) = RUNNING →
  Run_step vcpu_run tt s =
    let '(c', e, d) := turn (config_of s) in
    match d with
    | None => Done (inl tt) (with_config c' e RUNNING s)
    | Some st => Done (inr st) (with_config c' e st s)
    end.
Proof.
  intros Hrun. destruct s as [w mc [nm g v vid st le]]. simpl in Hrun. subst st.
  unfold Run_step, Vm_Enter, Vcpu_Run, config_of, turn. cbn [v_world v_machine m_vm m_vcpu].
  unfold mbind, M_bind. cbn [v_world v_machine m_vm m_vcpu].
  destruct (vcpu_run w mc v) as [[[w' mc'] [rg sr]] e].
  unfold modify, mret, M_ret, gets, set_vm, set_lastExit, set_vcpu. cbn.
  destruct e as [rs syn fr hp]. unfold classify. cbn [reason syndrome].
  destruct rs; cbn; decides; [|done..].
  destruct (decide (GetEsrEc syn = 0x16)).
  - destruct (Hvc_Handle rg (GetEsrIss syn)) as [r act].
    destruct act; cbn; decides; done.
  - destruct (decide (GetEsrEc syn = 0x17)); cbn; decides; done.
Qed.

Lemma with_config_of c e st s : config_of (with_config c e st s) = c.
Proof. by destruct c as [[w mc] v]. Qed.

Lemma with_config_twice c e st c' e' st' s :
  with_config c' e' st' (with_config c e st s) = with_config c' e' st' s.
Proof. by destruct c as [[w mc] v], c' as [[w' mc'] v']. Qed.

Lemma loop_play n : ∀ s, m_state (m_vm s) = RUNNING →
  match play n (config_of s) with
  | Some (c', e, st) => loop n (Run_step vcpu_run) tt s = Done st (with_config c' e st s)
  | None => ∃ s', loop n (Run_step vcpu_run) tt s = Stop OutOfFuel s'
  end.
Proof.
  induction n as [|n IH]; intros s Hrun; [by eexists|]. cbn [loop play].
  rewrite Run_step_turn by done. destruct (turn (config_of s)) as [[c' e] [st|]]; [done|].
  specialize (IH (with_config c' e RUNNING s)). rewrite with_config_of in IH.
  assert (Hr : m_state (m_vm (with_config c' e RUNNING s)) = RUNNING) by (by destruct c' as [[w mc] v]).
  specialize (IH Hr). destruct (play n c') as [[[c2 e2] st2]|]; [|done].
  by rewrite IH, with_config_twice.
Qed.

(** The state [Start] leaves. *)
Definition started (s : vmm) : @vmm W :=
  let g := m_guestMmu (m_vm s) in
  let vttbr := Z.lor (u64 (vm_vmid (m_vm s) ≪ 48)) (Z.land (m_rootTable g) PageTable.PTE_ADDR_MASK) in
  let hcr := Z.lor (mc_sys (v_machine s) HCR_EL2) 1 in
  MkVmm (v_world s)
    (set_trace (λ t, t ++ [EvDsbIsh; EvMsr VTTBR_EL2 vttbr; EvIsb; EvMsr HCR_EL2 hcr; EvIsb;
        EvTlbiVmalls12e1is; EvDsbIsh; EvIsb])
      (set_sys (λ r, <[HCR_EL2 := hcr]> (<[VTTBR_EL2 := vttbr]> r)) (v_machine s)))
    (set_state RUNNING (set_guestMmu (MkGuestMmu (m_rootTable g) (vm_vmid (m_vm s)) (m_table g)) (m_vm s))).

Lemma Vm_Start_eq s : Vm_Start s = Done tt (started s).
Proof.
  unfold Vm_Start, gets, on_machine. unfold mbind, M_bind.
  rewrite Enable_eq. cbv zeta. by destruct s as [w mc v].
Qed.

Lemma Run_eq fuel s : m_state (m_vm s) = READY →
  match play fuel (config_of (started s)) with
  | Some (c', e, st) => Run vcpu_run fuel s = Done (inr st) (with_config c' e st (started s))
  | None => ∃ s', Run vcpu_run fuel s = Stop OutOfFuel s'
  end.
Proof.
  intros Hst. unfold Run, GetState. unfold gets, mbind, M_bind. rewrite Hst. rewrite decide_False by tauto.
  rewrite Vm_Start_eq. pose proof (loop_play fuel (started s)) as Hl.
  assert (m_state (m_vm (started s)) = RUNNING) as Hr by (by destruct s as [w mc v]).
  specialize (Hl Hr). destruct (play fuel (config_of (started s))) as [[[c' e] st]|].
  - by rewrite Hl.
  - destruct Hl as [s' Hl]. exists s'. by rewrite Hl.
Qed.

Lemma play_final n c c' e st : play n c = Some (c', e, st) → st = SHUTDOWN ∨ st = RESET_REQUESTED ∨ st = FAULTED.
Proof.
  revert c. induction n as [|n IH]; intros c H; [done|]. cbn [play] in H.
  destruct (turn c) as [[c1 e1] [st1|]] eqn:Et; [|by apply (IH c1)].
  injection H as <- <- <-. unfold turn in Et. destruct c as [[w mc] v].
  destruct (vcpu_run w mc v) as [[[w' mc'] v'] ev]. unfold classify in Et.
  repeat case_match; simplify_eq; auto.
Qed.

Lemma play_mono n m c r : (n ≤ m)%nat → play n c = Some r → play m c = Some r.
Proof.
  revert m c. induction n as [|n IH]; intros m c Hle H; [done|]. destruct m as [|m]; [lia|].
  cbn [play] in *. destruct (turn c) as [[c1 e1] [st1|]]; [done|]. apply IH; [lia|done].
Qed.
End spec.
