(* ===== verification/VmmProps.v ===== *)
(** * The guest's lifetime: what the run loop, the traps and stage 2 promise together *)
From S2P Require Import Prelude Memory Machine Pmm FreeLists PmmSpec PmmProps PageAlloc PageTable.
From S2P Require Import TableTree TableUpdate PageTableSpec WalkSpec MapSpec MmioMap HostMmu.
From S2P Require Import HostMmuSpec GuestMmu GuestMmuSpec MmuProps Vcpu Psci Vmm.
From S2P Require Import VmmSpec.

(** ** PSCI over HVC *)

(** What PSCI 1.0 as offered here answers to function [f] with argument [arg]: the value for
    [x0], if it is written, and what becomes of the machine. *)
Definition psci_answer (f arg : Z) : option Z * Action :=
  if decide (f = PSCI_VERSION) then (Some PSCI_VERSION_1_0, RESUME)
  else if decide (f = PSCI_SYSTEM_OFF) then (None, SHUTDOWN_CALL)
  else if decide (f = PSCI_SYSTEM_RESET) then (None, RESET)
  else if decide (f = PSCI_FEATURES) then
    (Some (if decide (arg ∈ [PSCI_VERSION; PSCI_SYSTEM_OFF; PSCI_SYSTEM_RESET; PSCI_FEATURES])
      then 0 else 2 ^ 64 - 1), RESUME)
  else (Some (2 ^ 64 - 1), RESUME).

Definition answer (r : GuestRegisters) (v : option Z) : GuestRegisters :=
  match v with Some v => set_x 0 v r | None => r end.

Lemma Supports_elem f :
  Supports f = bool_decide (f ∈ [PSCI_VERSION; PSCI_SYSTEM_OFF; PSCI_SYSTEM_RESET; PSCI_FEATURES]).
Proof.
  unfold Supports. apply eq_bool_prop_intro. rewrite !orb_True, !bool_decide_spec.
  rewrite !elem_of_cons, elem_of_nil. tauto.
Qed.

(** C15: the HVC handler is exactly the PSCI table: with immediate 0 every function gets its
    PSCI answer (unknown functions, of this owner or another, get NOT_SUPPORTED), any other
    immediate gets NOT_SUPPORTED, and nothing but [x0] ever changes. *)
Theorem Hvc_Handle_psci r imm :
  Hvc_Handle r imm =
    if decide (imm = 0) then
      let '(v, act) := psci_answer (xreg r 0) (xreg r 1) in (answer r v, act)
    else (answer r (Some (2 ^ 64 - 1)), RESUME).
Proof.
  unfold Hvc_Handle. change (ToRegister NOT_SUPPORTED) with (2 ^ 64 - 1). unfold psci_answer.
  destruct (decide (imm = 0)) as [->|Hi]; [|by rewrite decide_True by tauto].
  rewrite Supports_elem. generalize (xreg r 0) (xreg r 1). intros f arg.
  destruct (decide (f ∈ [PSCI_VERSION; PSCI_SYSTEM_OFF; PSCI_SYSTEM_RESET; PSCI_FEATURES])) as [Hin|Hout].
  - rewrite !elem_of_cons in Hin. destruct Hin as [-> |[-> |[-> |[-> |[]%elem_of_nil]]]]; try reflexivity.
    rewrite (decide_False (P := _ ∨ _)) by (intros [H|H]; by apply H).
    case_bool_decide; repeat (case_decide; try done).
  - rewrite !elem_of_cons, elem_of_nil in Hout. by repeat (case_decide; try tauto).
Qed.

(** PSCI_FEATURES tells the truth: it answers 0 for function [f] exactly when some call of
    [f] is answered with something else than NOT_SUPPORTED. *)
Lemma psci_features_truthful r f
    (Hlen : length (x r) = 31%nat) (H0 : xreg r 0 = PSCI_FEATURES) (H1 : xreg r 1 = f) :
  xreg (fst (Hvc_Handle r 0)) 0 = 0 ↔
  ∃ r', length (x r') = 31%nat ∧ xreg r' 0 = f ∧
    Hvc_Handle r' 0 ≠ (set_x 0 (ToRegister NOT_SUPPORTED) r', RESUME).
Proof.
  assert (E : xreg (fst (Hvc_Handle r 0)) 0 = if Supports f then 0 else ToRegister NOT_SUPPORTED).
  { unfold Hvc_Handle. rewrite H0, H1. simpl. unfold xreg, set_x. simpl.
    apply list_lookup_total_insert_eq. lia. }
  rewrite E, Supports_elem. split.
  - case_bool_decide as Hin; [|done]. intros _.
    exists (MkGuestRegisters (f :: PSCI_VERSION :: replicate 29 0) 0 0 0 0). split_and!; [done|done|].
    rewrite !elem_of_cons in Hin. destruct Hin as [-> |[-> |[-> |[-> |[]%elem_of_nil]]]]; vm_compute; done.
  - intros (r' & Hl & Hf & Hne). case_bool_decide as Hin; [done|]. exfalso. apply Hne.
    unfold Hvc_Handle. rewrite Hf. rewrite !elem_of_cons in Hin.
    by repeat (case_decide; try tauto).
Qed.

Lemma psci_features_truthful_witness :
  let r := MkGuestRegisters (PSCI_FEATURES :: 0x84000003 :: replicate 29 0) 0 0 0 0 in
  xreg (fst (Hvc_Handle r 0)) 0 = 0 ↔
  ∃ r', length (x r') = 31%nat ∧ xreg r' 0 = 0x84000003 ∧
    Hvc_Handle r' 0 ≠ (set_x 0 (ToRegister NOT_SUPPORTED) r', RESUME).
Proof. apply (psci_features_truthful _ 0x84000003); reflexivity. Defined.

(** ** The run loop *)

Definition final {S A} (o : outcome S A) : S := match o with Done _ s => s | Stop _ s => s end.

Section run.
Context {W : Type} (vcpu_run : W → machine → Vcpu → W * machine * Vcpu * VcpuExit).
Abbreviation config := (W * machine * Vcpu)%type.

(** The configuration before turn [n], as long as no turn stops. *)
Definition after (n : nat) (c : config) : config := Nat.iter n (λ c, fst (fst (turn vcpu_run c))) c.
Definition stops_at (n : nat) (c : config) : Prop := snd (turn vcpu_run (after n c)) ≠ None.

Lemma after_S n c : after (S n) c = after n (fst (fst (turn vcpu_run c))).
Proof. induction n as [|n IH]; [done|]. unfold after in *. simpl in *. by rewrite IH. Qed.

Lemma play_stops n : ∀ c, play vcpu_run n c ≠ None ↔ ∃ k, (k < n)%nat ∧ stops_at k c.
Proof.
  induction n as [|n IH]; intros c; cbn [play]; [split; [done|intros (k & ? & _); lia]|].
  destruct (turn vcpu_run c) as [[c1 e1] [st|]] eqn:Et.
  - split; [|done]. intros _. exists 0%nat. split; [lia|]. unfold stops_at. simpl. by rewrite Et.
  - rewrite IH. split.
    + intros (k & Hk & Hs). exists (S k). split; [lia|]. unfold stops_at in *. by rewrite after_S, Et.
    + intros ([|k] & Hk & Hs).
      * unfold stops_at in Hs. simpl in Hs. by rewrite Et in Hs.
      * exists k. split; [lia|]. unfold stops_at in *. by rewrite after_S, Et in Hs.
Qed.

(** Whatever the outcome, an invariant of the turns holds in the last state. *)
Lemma loop_keeps (P : machine → Prop) : (∀ w mc v, P mc → P (snd (fst (fst (fst (turn vcpu_run (w, mc, v))))))) →
  ∀ n s, m_state (m_vm s) = RUNNING → P (v_machine s) →
  let s' := final (loop n (Run_step vcpu_run) tt s) in
  P (v_machine s') ∧ m_guestMmu (m_vm s') = m_guestMmu (m_vm s).
Proof.
  intros HP. induction n as [|n IH]; intros s Hr Hs; [done|]. cbn [loop].
  rewrite Run_step_turn by done. specialize (HP (v_world s) (v_machine s) (m_vcpu (m_vm s)) Hs).
  unfold config_of. destruct (turn vcpu_run _) as [[[[w mc] v] e] [st|]]; [done|].
  by destruct (IH (with_config (w, mc, v) e RUNNING s) eq_refl HP).
Qed.
End run.

(** A guest for the examples: each run consumes one exit of a script. *)
Definition scripted (script : list (GuestRegisters * VcpuExit)) (mc : machine) (c : Vcpu) :
    list (GuestRegisters * VcpuExit) * machine * Vcpu * VcpuExit :=
  match script with
  | (r, e) :: rest => (rest, mc, MkVcpu r (m_system c), e)
  | [] => ([], mc, c, MkVcpuExit SERROR 0 0 0)
  end.

Definition hvc_exit : VcpuExit := MkVcpuExit SYNC 0x5A000000 0 0.
Definition irq_exit : VcpuExit := MkVcpuExit IRQ 0 0 0.
Definition regs_calling (f : Z) : GuestRegisters := MkGuestRegisters (f :: replicate 30 0) 0x40000000 0x3C5 0 0.
Definition script0 : list (GuestRegisters * VcpuExit) :=
  [(regs_calling 0, irq_exit); (regs_calling PSCI_VERSION, hvc_exit); (regs_calling PSCI_SYSTEM_OFF, hvc_exit)].
Definition vm0 : vmm :=
  MkVmm script0 pool0 (MkVm "guest" (MkGuestMmu 0x2000 0 root0) (MkVcpu (initial_registers 0x40000000) (λ _, 0))
    1 READY no_exit).

(** C13: running a guest: on a VM that is not READY, [Run] reports INVALID_STATE and touches
    nothing; on a READY one it enables stage 2 and then behaves as the abstract machine [play],
    turn by turn: it returns at the first terminal exit, with the state that exit calls for
    (SHUTDOWN, RESET_REQUESTED or FAULTED), which is also the VM's state and whose exit is its
    last exit, so that running it again reports INVALID_STATE. *)
Theorem Run_refines_play {W} (vcpu_run : W → machine → Vcpu → W * machine * Vcpu * VcpuExit) fuel s :
  if decide (m_state (m_vm s) = READY) then
    match play vcpu_run fuel (config_of (started s)) with
    | Some (c, e, st) => ∃ s', Run vcpu_run fuel s = Done (inr st) s' ∧ config_of s' = c ∧
        m_lastExit (m_vm s') = e ∧ m_state (m_vm s') = st ∧
        st ∈ [SHUTDOWN; RESET_REQUESTED; FAULTED] ∧
        ∀ fuel', Run vcpu_run fuel' s' = Done (inl INVALID_STATE) s'
    | None => ∃ s', Run vcpu_run fuel s = Stop OutOfFuel s'
    end
  else Run vcpu_run fuel s = Done (inl INVALID_STATE) s.
Proof.
  case_decide as Hst; [|unfold Run, GetState, gets, mbind, M_bind; by rewrite decide_True].
  pose proof (Run_eq vcpu_run fuel s Hst) as HR. destruct (play _ _ _) as [[[c e] st]|] eqn:Ep; [|done].
  exists (with_config c e st (started s)). apply play_final in Ep. destruct c as [[w mc] v].
  split_and!; try done.
  - destruct Ep as [-> |[-> | ->]]; set_solver.
  - intros fuel'. unfold Run, GetState, gets, mbind, M_bind. rewrite decide_True; [done|].
    destruct Ep as [-> |[-> | ->]]; done.
Qed.

Lemma Run_more {W} (vcpu_run : W → machine → Vcpu → W * machine * Vcpu * VcpuExit) s n fuel :
  m_state (m_vm s) = READY → stops_at vcpu_run n (config_of (started s)) → (n < fuel)%nat →
  Run vcpu_run fuel s = Run vcpu_run (S n) s ∧ ∃ st s', Run vcpu_run fuel s = Done (inr st) s'.
Proof.
  intros Hst Hn Hf.
  assert (Hp : play vcpu_run (S n) (config_of (started s)) ≠ None) by (apply play_stops; exists n; split; [lia|done]).
  pose proof (Run_eq vcpu_run (S n) s Hst) as H1. pose proof (Run_eq vcpu_run fuel s Hst) as H2.
  destruct (play vcpu_run (S n) _) as [[[c e] st']|] eqn:E; [|done].
  rewrite (play_mono vcpu_run (S n) fuel _ _ ltac:(lia) E) in H2. split; [congruence|by eexists _, _].
Qed.

(** C14: [Run] returns, given enough fuel, exactly when the guest some day makes an exit that
    stops it; the first one decides, and more fuel changes nothing. *)
Theorem Run_returns_iff {W} (vcpu_run : W → machine → Vcpu → W * machine * Vcpu * VcpuExit) s
    (Hst : m_state (m_vm s) = READY) :
  (∃ fuel st s', Run vcpu_run fuel s = Done (inr st) s') ↔
  ∃ n, stops_at vcpu_run n (config_of (started s)) ∧
    ∀ fuel, (n < fuel)%nat → Run vcpu_run fuel s = Run vcpu_run (S n) s.
Proof.
  split.
  - intros (fuel & st & s' & HR). pose proof (Run_eq vcpu_run fuel s Hst) as HE.
    assert (Hp : play vcpu_run fuel (config_of (started s)) ≠ None).
    { intros E. rewrite E in HE. destruct HE as [s2 HE]. congruence. }
    apply play_stops in Hp as (n & _ & Hn). exists n. split; [done|]. intros fuel' Hf. by apply Run_more.
  - intros (n & Hn & _). exists (S n). apply (Run_more vcpu_run s n); [done|done|lia].
Qed.

Lemma Run_returns_iff_witness :
  m_state (m_vm vm0) = READY ∧ ∃ fuel st s', Run scripted fuel vm0 = Done (inr st) s'.
Proof.
  split; [reflexivity|]. destruct (Run_returns_iff scripted vm0 eq_refl) as [_ H]. apply H. exists 2%nat. split; [vm_compute; discriminate|].
  intros fuel Hf. apply Run_more; [reflexivity|vm_compute; discriminate|exact Hf].
Defined.

(** ** Confinement *)

Definition reachable (m : gmap Z Z) (pt : PageTable) (p : Z) : Prop :=
  ∃ a attrs, 0 ≤ a < 2 ^ 40 ∧ translate m pt a = Some (p, attrs).

(** What stage 2 does to a guest, as the architecture has it: while HCR_EL2.VM is set, a guest
    writes no byte that the tables under VTTBR_EL2 do not lead to; and EL1 reaches neither the
    registers of EL2 nor the hypervisor's objects. *)
Definition obeys_stage2 {W} (vcpu_run : W → machine → Vcpu → W * machine * Vcpu * VcpuExit) : Prop :=
  ∀ w mc c, let mc' := snd (fst (fst (vcpu_run w mc c))) in
    mc_sys mc' = mc_sys mc ∧ mc_pmm mc' = mc_pmm mc ∧ mc_slabs mc' = mc_slabs mc ∧
    (vm_on mc = true →
      mem_same_outside (reachable (mc_mem mc) (stage2 (Z.land (mc_sys mc VTTBR_EL2) PTE_ADDR_MASK))) mc mc').

(** The state of the machine while the guest is held: stage 2 is on with this tree. *)
Record held (root : Z) (mc0 mc : machine) : Prop := {
  hd_on : vm_on mc = true;
  hd_root : Z.land (mc_sys mc VTTBR_EL2) PTE_ADDR_MASK = root;
  hd_pmm : mc_pmm mc = mc_pmm mc0;
  hd_slabs : mc_slabs mc = mc_slabs mc0;
  hd_mem : mem_same_outside (reachable (mc_mem mc0) (stage2 root)) mc0 mc;
}.

Section held.
Context (root : Z) (mc0 : machine).
Hypothesis HI : pt_inv (stage2 root) (mc_mem mc0).
Hypothesis Hsafe : ∀ p, reachable (mc_mem mc0) (stage2 root) p → ¬ tree_byte (stage2 root) (mc_mem mc0) p.

Lemma held_translate mc : held root mc0 mc → ∀ a, 0 ≤ a < 2 ^ 40 →
  translate (mc_mem mc) (stage2 root) a = translate (mc_mem mc0) (stage2 root) a.
Proof.
  intros H a Ha. assert (Hf : ∀ x, tree_byte (stage2 root) (mc_mem mc0) x → load8 (mc_mem mc) x = load8 (mc_mem mc0) x).
  { intros x Hx. apply (hd_mem _ _ _ H). intros Hr. by apply (Hsafe x). }
  pose proof (pt_inv_frame _ _ _ HI Hf) as HI'.
  apply (translate_frame _ _ _ HI HI' Hf). split; [lia|]. change (ialen (stage2 root)) with 40. lia.
Qed.

Lemma held_turn {W} vcpu_run (w : W) mc v : obeys_stage2 vcpu_run → held root mc0 mc →
  held root mc0 (snd (fst (fst (fst (turn vcpu_run (w, mc, v)))))).
Proof.
  intros Hob H. specialize (Hob w mc v). unfold turn. cbv zeta in Hob.
  destruct (vcpu_run w mc v) as [[[w' mc'] v'] e]. cbn in Hob. destruct Hob as (Hs & Hp & Hl & Hm).
  destruct (classify e (m_registers v')) as [r d]. cbn.
  specialize (Hm (hd_on _ _ _ H)). rewrite (hd_root _ _ _ H) in Hm. split.
  - unfold vm_on. rewrite Hs. apply (hd_on _ _ _ H).
  - rewrite Hs. apply (hd_root _ _ _ H).
  - rewrite Hp. apply (hd_pmm _ _ _ H).
  - rewrite Hl. apply (hd_slabs _ _ _ H).
  - intros x Hx. rewrite Hm; [by apply (hd_mem _ _ _ H)|].
    intros (a & attrs & Ha & Ht). apply Hx. exists a, attrs. by rewrite <-(held_translate mc H).
Qed.
End held.

Lemma vttbr_root vmid root : 0 ≤ root < 2 ^ 48 → root mod 4096 = 0 →
  Z.land (Z.lor (u64 (vmid ≪ 48)) (Z.land root PTE_ADDR_MASK)) PTE_ADDR_MASK = root.
Proof.
  intros Hr Ha. rewrite (addr_mask_id root) by done. rewrite Z.land_lor_distr_l, (addr_mask_id root) by done.
  rewrite land_addr_mask. unfold u64. rewrite Z.shiftl_mul_pow2 by lia.
  assert (Hm : (vmid * 2 ^ 48) mod 2 ^ 64 = (vmid mod 2 ^ 16) * 2 ^ 48).
  { change (2 ^ 64) with (2 ^ 16 * 2 ^ 48). by rewrite Z.mul_mod_distr_r. }
  rewrite Hm, Z_mod_mult. change (2 ^ 48) with (2 ^ 36 * 2 ^ 12). by rewrite Z.mul_assoc, Z_mod_mult.
Qed.

Lemma Vm_Start_held {W} (s : @vmm W) root : root mod 4096 = 0 → 0 ≤ root < 2 ^ 48 → m_rootTable (m_guestMmu (m_vm s)) = root →
  held root (v_machine s) (v_machine (started s)).
Proof.
  intros Ha Hr Hg. split; try done.
  - unfold vm_on, started. cbn. apply bool_decide_eq_true. rewrite fn_lookup_insert, Z.land_lor_distr_l.
    change (Z.land 1 1) with 1. intros [_ H]%Z.lor_eq_0_iff. done.
  - unfold started. cbn. rewrite fn_lookup_insert_ne, fn_lookup_insert, Hg by done. by apply vttbr_root.
Qed.

Lemma Vm_new_eq config devices s Q :
  runs (GuestMmu_new (ipaBase config) (ramHostPa config) (ramSize config) devices) s
    (λ g s', ∀ v, m_guestMmu v = g → m_state v = READY → Q v s') →
  runs (Vm_new config devices) s Q.
Proof.
  intros H. unfold Vm_new. apply runs_bind. eapply runs_mono; [exact H|]. cbv beta. intros g s' Hq.
  unfold Vcpu_new. mrun. by apply Hq.
Qed.

(** Bytes of guest RAM or of a device window. *)
Definition guest_owned (config : VmConfig) (devices : MmioMap) (x : Z) : Prop :=
  ramHostPa config ≤ x < ramHostPa config + ramSize config ∨
  ∃ w, w ∈ devices ∧ pa w ≤ x < pa w + size w.

(** The guest of [Vm_new] under [Run]; building it stores to free memory only. *)
Lemma Vm_confined {W} (vcpu_run : W → machine → Vcpu → W * machine * Vcpu * VcpuExit) s F config devices
    (Hob : obeys_stage2 vcpu_run)
    (HF : pa_ok s F) (Hhi : ∀ x, F x → x < 2 ^ 48) (Hav : pa_avail s 1)
    (Hargs : guest_args_ok (ipaBase config) (ramHostPa config) (ramSize config) devices)
    (Hpg : free_pages F (guest_pages (ramSize config) devices))
    (Hown : ∀ x, guest_owned config devices x → ¬ F x) :
  runs (Vm_new config devices) s (λ v s1, mem_same_outside F s s1 ∧ ∀ w fuel,
    let s2 := v_machine (final (Run vcpu_run fuel (MkVmm w s1 v))) in
    mem_same_outside (guest_owned config devices) s1 s2 ∧ mc_pmm s2 = mc_pmm s1 ∧
    ∀ a, 0 ≤ a < 2 ^ 40 → translate (mc_mem s2) (m_table (m_guestMmu v)) a =
      guest_map (ipaBase config) (ramHostPa config) (ramSize config) devices a).
Proof.
  apply Vm_new_eq. eapply runs_mono.
  { apply (GuestMmu_new_spec s F _ _ _ devices 0); try done. by rewrite Nat.add_0_r. }
  intros g s1 (F1 & Hg & Hb & Hok & _ & Htr & Hby & _ & Hsame & _) v Hv Hst. split; [exact Hsame|]. intros w fuel. rewrite Hv.
  set (root := m_rootTable g) in *. rewrite Hg in Hok, Htr, Hby |- *.
  destruct (pi_bounds _ _ (tk_inv _ _ _ Hok) 0 0 root) as (Hal & Hpos & Hend);
    [by split_and!; [vm_compute; lia|split|]|]. change (tsize (stage2 root) 0) with 8192 in Hend.
  assert (Hreach : ∀ p, reachable (mc_mem s1) (stage2 root) p → guest_owned config devices p).
  { intros p (a & attrs & Ha & Ht). rewrite Htr in Ht by done. apply s2_windows_inv in Ht as [Hw|Hf]; [by right|left].
    unfold map_range in Hf. case_decide; [|done]. injection Hf as <- <-. lia. }
  assert (Hsafe : ∀ p, reachable (mc_mem s1) (stage2 root) p → ¬ tree_byte (stage2 root) (mc_mem s1) p).
  { intros p Hp%Hreach%Hown Hx. by apply Hp, Hby. }
  set (s0 := MkVmm w s1 v).
  assert (Hheld : held root s1 (v_machine (final (Run vcpu_run fuel s0)))).
  { unfold Run, GetState. unfold gets, mbind, M_bind. cbn [m_state m_vm s0]. rewrite Hst, decide_False by tauto.
    rewrite Vm_Start_eq. destruct (loop_keeps vcpu_run (held root s1)) with (n := fuel) (s := started s0) as [H _].
    - intros w' mc v' H. by apply (held_turn root s1 (tk_inv _ _ _ Hok) Hsafe).
    - done.
    - apply (Vm_Start_held s0 root); [done|lia|]. simpl. by rewrite Hv.
    - by destruct (loop fuel (Run_step vcpu_run) tt (started s0)). }
  cbv zeta. split_and!.
  - eapply mem_same_outside_weaken; [apply (hd_mem _ _ _ Hheld)|exact Hreach].
  - apply (hd_pmm _ _ _ Hheld).
  - intros a Ha. rewrite (held_translate root s1 (tk_inv _ _ _ Hok) Hsafe _ Hheld a Ha). by apply Htr.
Qed.

(** C2: the whole promise of the hypervisor to the rest of the machine: build a VM, run it for
    as long as it lasts, and whatever the guest does, no byte outside its RAM and its device
    windows changes, the page allocator is untouched, and its address space stays the map the
    VM was built with, as long as the CPU obeys stage 2. *)
Theorem guest_confined {W} (vcpu_run : W → machine → Vcpu → W * machine * Vcpu * VcpuExit) s F config devices
    (Hob : obeys_stage2 vcpu_run)
    (HF : pa_ok s F) (Hhi : ∀ x, F x → x < 2 ^ 48) (Hav : pa_avail s 1)
    (Hargs : guest_args_ok (ipaBase config) (ramHostPa config) (ramSize config) devices)
    (Hpg : free_pages F (guest_pages (ramSize config) devices))
    (Hown : ∀ x, guest_owned config devices x → ¬ F x) :
  runs (Vm_new config devices) s (λ v s1, ∀ w fuel,
    let s2 := v_machine (final (Run vcpu_run fuel (MkVmm w s1 v))) in
    mem_same_outside (guest_owned config devices) s1 s2 ∧ mc_pmm s2 = mc_pmm s1 ∧
    ∀ a, 0 ≤ a < 2 ^ 40 → translate (mc_mem s2) (m_table (m_guestMmu v)) a =
      guest_map (ipaBase config) (ramHostPa config) (ramSize config) devices a).
Proof.
  eapply runs_mono; [by apply (Vm_confined vcpu_run s F)|]. by intros v s1 [_ H].
Qed.

(** A guest that stores one byte through its own address space and asks to be shut down. *)
Definition storing {W} (a v : Z) (w : W) (mc : machine) (c : Vcpu) : W * machine * Vcpu * VcpuExit :=
  let pt := stage2 (Z.land (mc_sys mc VTTBR_EL2) PTE_ADDR_MASK) in
  (w, match translate (mc_mem mc) pt a with
      | Some (p, _) => if vm_on mc then set_mem <[p := v]> mc else mc
      | None => mc
      end, MkVcpu (regs_calling PSCI_SYSTEM_OFF) (m_system c), hvc_exit).

Lemma storing_obeys {W} a v : 0 ≤ a < 2 ^ 40 → obeys_stage2 (storing (W := W) a v).
Proof.
  intros Ha w mc c. unfold storing. cbv zeta. cbn [fst snd].
  destruct (translate (mc_mem mc) (stage2 (Z.land (mc_sys mc VTTBR_EL2) PTE_ADDR_MASK)) a)
    as [[p attrs]|] eqn:Et; [|split_and!; [done..|by intros _ x _]].
  destruct (vm_on mc) eqn:Ev; [|by split_and!]. split_and!; try done. intros _ x Hx.
  unfold load8. simpl. rewrite lookup_insert_ne; [done|]. intros ->. apply Hx. by exists a, attrs.
Qed.

Definition config0 : VmConfig := MkVmConfig "guest" 0x40000000 0x70000000 0x8000000 1 0x40000000 0.

Lemma guest_confined_witness :
  runs (Vm_new config0 windows0) pool0 (λ v s1, ∀ (w : unit) fuel,
    let s2 := v_machine (final (Run (storing 0x40000008 7) fuel (MkVmm w s1 v))) in
    mem_same_outside (guest_owned config0 windows0) s1 s2 ∧ mc_pmm s2 = mc_pmm s1 ∧
    ∀ a, 0 ≤ a < 2 ^ 40 → translate (mc_mem s2) (m_table (m_guestMmu v)) a =
      guest_map (ipaBase config0) (ramHostPa config0) (ramSize config0) windows0 a).
Proof.
  apply (guest_confined (storing 0x40000008 7) pool0 F0).
  - apply storing_obeys. lia.
  - apply pool0_pa_ok.
  - apply F0_high.
  - apply pool0_avail.
  - split; [|apply args0]. unfold range_ok. split_and!; vm_compute; try reflexivity; discriminate.
  - apply F0_pages. vm_compute. discriminate.
  - intros x [Hx|(w & Hw%list_elem_of_singleton & Hx)]; rewrite F0_eq; [simpl in Hx; lia|].
    subst w. simpl in Hx. lia.
Defined.

(** ** The layout the context switch relies on *)

(** The offsets handed to the assembly place every saved register, [x0] to [x30], PC,
    PSTATE, the stack pointers and the 21 system registers, in an 8-byte slot of its own, the
    slots follow each other without gaps and fill [Vcpu] exactly; and the exit codes number the
    exit reasons without clashes. *)
Lemma vcpu_layout :
  vcpu_offset <$> all_saved = (λ i, 8 * i) <$> seqZ 0 56 ∧ sizeof_Vcpu = 8 * 56 ∧
  (∀ f, VCPU_SYS f ∈ all_saved) ∧ (∀ n, (n < 31)%nat → VCPU_X n ∈ all_saved) ∧
  (∀ r1 r2, exit_code r1 = exit_code r2 → r1 = r2).
Proof.
  split_and!; [by vm_compute..| | |].
  - intros f. unfold all_saved. rewrite !elem_of_app. right. right. apply list_elem_of_fmap.
    exists f. split; [done|]. destruct f; set_solver.
  - intros n Hn. unfold all_saved. rewrite !elem_of_app. left. apply list_elem_of_fmap.
    exists n. split; [done|]. apply elem_of_seq. lia.
  - intros [] []; done.
Qed.
