(* ===== verification/Cpio.v ===== *)
(** * The boot archive: a reader of newc cpio archives (lib/cpio) *)
From Stdlib Require Import Ascii String.
From S2P Require Import Prelude Memory Machine Strings.

(** ** Characters and literals *)

Definition str (s : string) : list Z := (λ c, Z.of_nat (nat_of_ascii c)) <$> String.list_ascii_of_string s.

(** A string literal: its bytes and the terminating NUL. *)
Definition lit (s : string) : list Z := cstr (str s) [].

Definition DOT : Z := 46.
Definition SLASH : Z := 47.

(** ** Data *)

Inductive Error : Set :=
  | NONE | INVALID_REGION | TRUNCATED | BAD_MAGIC | BAD_FIELD | BAD_NAME | UNSUPPORTED_TYPE
  | DUPLICATE_PATH | MISSING_TRAILER | BAD_TRAILER.

#[export] Instance Error_eq_dec : EqDecision Error.
Proof. solve_decision. Defined.

Record File : Set := MkFile {
  data : Z;
  f_size : Z;
}.
Definition no_file : File := MkFile 0 0.

(** A [const char*] into the archive is the list of the bytes from it to the end of the
    archive; the null pointer of an empty entry is the empty list. *)
Record Entry : Set := MkEntry {
  e_name : list Z;
  file : File;
  isDirectory : bool;
}.
Definition no_entry : Entry := MkEntry [] no_file false.

(** [bytes] are the [m_size] bytes at [m_data], alive and immutable while the archive is. *)
Record Archive : Set := MkArchive {
  m_data : Z;
  bytes : list Z;
  m_end : Z;
  m_error : Error;
}.
Definition ar_size (a : Archive) : Z := Z.of_nat (length (bytes a)).

(** ** Reading

    The results are options: [None] is a read outside the archive, or a loop without end. *)

Definition byte_at (d : list Z) (i : Z) : option Z :=
  if decide (0 ≤ i) then d !! Z.to_nat i else None.

Fixpoint normalize (name : list Z) : option (list Z) :=
  match name with
  | [] => None
  | c0 :: rest =>
      if decide (c0 = DOT) then
        match rest with
        | [] => None
        | c1 :: rest' => if decide (c1 = SLASH) then normalize rest' else Some name
        end
      else Some name
  end.

(** [while ( *name && *name != '/') ++name], with the bytes passed over. *)
Fixpoint component (name : list Z) : option (list Z * list Z) :=
  match name with
  | [] => None
  | c :: rest =>
      if decide (c ≠ 0 ∧ c ≠ SLASH) then
        '(passed, stop) ← component rest;
        Some (c :: passed, stop)
      else Some ([], name)
  end.

Fixpoint path_components (fuel : nat) (name : list Z) : option bool :=
  match fuel with
  | O => None
  | S fuel' =>
      c ← head name;
      if decide (c = 0) then Some true
      else
        '(start, name) ← component name;
        if decide (start = [] ∨ start = [DOT] ∨ start = [DOT; DOT]) then Some false
        else
          match name with
          | [] => None
          | c :: next =>
              if decide (c = 0) then path_components fuel' name
              else
                c' ← head next;
                if decide (c' = 0) then Some false else path_components fuel' next
          end
  end.

Definition validPath (name : list Z) : option bool :=
  c ← head name;
  if decide (c = 0 ∨ c = SLASH) then Some false
  else
    dot ← StrEq name (lit ".");
    if (dot : bool) then Some true else path_components (S (length name)) name.

Fixpoint same_bytes (d : list Z) (pos : Z) (want : list Z) : option bool :=
  match want with
  | [] => Some true
  | w :: want' =>
      c ← byte_at d pos;
      if decide (c ≠ w) then Some false else same_bytes d (pos + 1) want'
  end.

Definition hex_digit (c : Z) : option Z :=
  if decide (48 ≤ c ≤ 57) then Some (c - 48)
  else if decide (97 ≤ c ≤ 102) then Some (c - 97 + 10)
  else if decide (65 ≤ c ≤ 70) then Some (c - 65 + 10)
  else None.

(** The inner [None] is BAD_FIELD. *)
Fixpoint read_field (d : list Z) (pos : Z) (n : nat) (acc : Z) : option (option Z) :=
  match n with
  | O => Some (Some acc)
  | S n' =>
      c ← byte_at d pos;
      match hex_digit c with
      | None => Some None
      | Some digit => read_field d (pos + 1) n' (Z.lor (u32 (acc ≪ 4)) digit)
      end
  end.

Fixpoint read_fields (d : list Z) (pos : Z) (n : nat) : option (option (list Z)) :=
  match n with
  | O => Some (Some [])
  | S n' =>
      f ← read_field d pos 8 0;
      match f with
      | None => Some None
      | Some v =>
          rest ← read_fields d (pos + 8) n';
          Some (match rest with Some vs => Some (v :: vs) | None => None end)
      end
  end.

(** [while (length < nameSize && name[length]) ++length], from [length] on. *)
Fixpoint name_length (d : list Z) (name len nameSize : Z) (n : nat) : option Z :=
  match n with
  | O => Some len
  | S n' =>
      c ← byte_at d (name + len);
      if decide (c ≠ 0) then name_length d name (len + 1) nameSize n' else Some len
  end.

(** No byte from [pos] on, for [n] of them, is set. *)
Fixpoint all_zero (d : list Z) (pos : Z) (n : nat) : option bool :=
  match n with
  | O => Some true
  | S n' =>
      c ← byte_at d pos;
      if decide (c ≠ 0) then Some false else all_zero d (pos + 1) n'
  end.

Definition padding (cursor : Z) : Z := Z.land (4 ⊟ Z.land cursor 3) 3.
Definition type_of (mode : Z) : Z := Z.land mode 0xF000.
Definition is_trailer (name : list Z) : option bool := StrEq name (lit "TRAILER!!!").

Definition read (a : Archive) (cursor : Z) (entry : Entry) : option (Error * Z * Entry) :=
  let d := bytes a in
  let m_size := ar_size a in
  if decide (m_size < cursor ∨ m_size ⊟ cursor < 110) then Some (TRUNCATED, cursor, entry)
  else
    magic ← same_bytes d cursor (str "070701");
    if negb magic then Some (BAD_MAGIC, cursor, entry)
    else
      fs ← read_fields d (cursor + 6) 13;
      match fs with
      | None => Some (BAD_FIELD, cursor, entry)
      | Some fields =>
          if decide (fields !!! 12%nat ≠ 0) then Some (BAD_FIELD, cursor, entry)
          else
            let cursor := cursor ⊞ 110 in
            let nameSize := fields !!! 11%nat in
            if decide (nameSize = 0 ∨ m_size ⊟ cursor < nameSize) then Some (BAD_NAME, cursor, entry)
            else
              len ← name_length d cursor 0 nameSize (Z.to_nat nameSize);
              if decide (len = nameSize) then Some (BAD_NAME, cursor, entry)
              else
                zero ← all_zero d (cursor + len) (Z.to_nat (nameSize - len));
                if negb zero then Some (BAD_NAME, cursor, entry)
                else
                  name ← normalize (drop (Z.to_nat cursor) d);
                  valid ← validPath name;
                  if negb valid then Some (BAD_NAME, cursor, entry)
                  else
                    let cursor := cursor ⊞ nameSize in
                    if decide (m_size ⊟ cursor < padding cursor) then Some (TRUNCATED, cursor, entry)
                    else
                      let cursor := cursor ⊞ padding cursor in
                      let fileSize := fields !!! 6%nat in
                      if decide (m_size ⊟ cursor < fileSize) then Some (TRUNCATED, cursor, entry)
                      else
                        let entry := MkEntry name (MkFile (m_data a ⊞ cursor) fileSize)
                          (bool_decide (type_of (fields !!! 1%nat) = 0x4000)) in
                        let cursor := cursor ⊞ fileSize in
                        if decide (m_size ⊟ cursor < padding cursor) then Some (TRUNCATED, cursor, entry)
                        else
                          let cursor := cursor ⊞ padding cursor in
                          trailer ← is_trailer name;
                          if (trailer : bool) then
                            Some (if decide (fileSize ≠ 0) then BAD_TRAILER else NONE, cursor, entry)
                          else if isDirectory entry then
                            Some (if decide (fileSize ≠ 0) then BAD_FIELD else NONE, cursor, entry)
                          else
                            dot ← StrEq name (lit ".");
                            Some (if decide (type_of (fields !!! 1%nat) ≠ 0x8000 ∨
                                    fields !!! 4%nat ≠ 1 ∨ dot = true) then UNSUPPORTED_TYPE
                                  else NONE, cursor, entry)
      end.

(** ** Validation *)

(** The inner loop: the entries before [start] against [entry]. *)
Fixpoint check_duplicates (fuel : nat) (a : Archive) (start : Z) (entry : Entry) (previous : Z) : option Error :=
  match fuel with
  | O => None
  | S fuel' =>
      if decide (previous < start) then
        '(error, previous, other) ← read a previous no_entry;
        if decide (error ≠ NONE) then Some error
        else
          same ← StrEq (e_name other) (e_name entry);
          if (same : bool) then Some DUPLICATE_PATH else check_duplicates fuel' a start entry previous
      else Some NONE
  end.

(** The error and the value of [m_end]. *)
Fixpoint validate_from (fuel : nat) (a : Archive) (cursor : Z) : option (Error * Z) :=
  match fuel with
  | O => None
  | S fuel' =>
      if decide (cursor < ar_size a) then
        let start := cursor in
        '(error, cursor, entry) ← read a cursor no_entry;
        if decide (error ≠ NONE) then Some (error, m_end a)
        else
          trailer ← is_trailer (e_name entry);
          if (trailer : bool) then
            zero ← all_zero (bytes a) cursor (Z.to_nat (ar_size a - cursor));
            Some (if (zero : bool) then (NONE, start) else (BAD_TRAILER, m_end a))
          else
            error ← check_duplicates (S (length (bytes a))) a start entry 0;
            if decide (error ≠ NONE) then Some (error, m_end a) else validate_from fuel' a cursor
      else Some (MISSING_TRAILER, m_end a)
  end.

(** An entry takes at least one byte, so [S m_size] passes are enough for either loop. *)
Definition validate (a : Archive) : option (Error * Z) := validate_from (S (length (bytes a))) a 0.

Definition UINTPTR_MAX : Z := 2 ^ 64 - 1.

(** The constructor: [data] is the address of [d]. *)
Definition Archive_new (data : Z) (d : list Z) : option Archive :=
  let a := MkArchive data d 0 INVALID_REGION in
  if decide (data ≠ 0 ∧ ar_size a ≤ UINTPTR_MAX ⊟ data) then
    '(error, end_) ← validate a;
    Some (MkArchive data d end_ error)
  else Some a.

(** ** Iteration and lookup *)

Definition Next (a : Archive) (cursor : Z) : option (bool * Z * Entry) :=
  if decide (m_error a ≠ NONE ∨ m_end a ≤ cursor) then Some (false, cursor, no_entry)
  else
    '(error, cursor, entry) ← read a cursor no_entry;
    Some (bool_decide (error = NONE), cursor, entry).

Fixpoint find_from (fuel : nat) (a : Archive) (path : list Z) (cursor : Z) : option (bool * File) :=
  match fuel with
  | O => None
  | S fuel' =>
      '(more, cursor, entry) ← Next a cursor;
      if (more : bool) then
        same ← (if isDirectory entry then Some false else StrEq (e_name entry) path);
        if (same : bool) then Some (true, file entry) else find_from fuel' a path cursor
      else Some (false, no_file)
  end.

(** A null [path] is the empty list. *)
Definition Find (a : Archive) (path : list Z) : option (bool * File) :=
  match path with
  | [] => Some (false, no_file)
  | _ =>
      path ← normalize path;
      find_from (S (length (bytes a))) a path 0
  end.
