(* ===== verification/CpioSpec.v ===== *)
(** * The cpio reader against its format: paths, single entries, chains of entries *)
From S2P Require Import Prelude Memory Machine Strings Cpio.

(** ** Paths *)

(** The canonical name: leading "./" removed. *)
Fixpoint canon (s : list Z) : list Z :=
  match s with
  | c0 :: ((c1 :: rest) as tl) => if decide (c0 = DOT ∧ c1 = SLASH) then canon rest else c0 :: tl
  | _ => s
  end.

(** The components of a path. *)
Fixpoint split (s : list Z) : list (list Z) :=
  match s with
  | [] => [[]]
  | c :: rest =>
      if decide (c = SLASH) then [] :: split rest
      else match split rest with
           | [] => [[c]]
           | w :: ws => (c :: w) :: ws
           end
  end.

Definition proper (w : list Z) : Prop := w ≠ [] ∧ w ≠ [DOT] ∧ w ≠ [DOT; DOT].

(** A path that stays below the root of the archive. *)
Definition path_ok (s : list Z) : Prop := s = [DOT] ∨ Forall proper (split s).

#[export] Instance proper_dec w : Decision (proper w).
Proof. unfold proper. apply _. Defined.
#[export] Instance path_ok_dec s : Decision (path_ok s).
Proof. unfold path_ok. apply _. Defined.

Lemma split_nonempty s : split s ≠ [].
Proof. destruct s as [|c s]; simpl; [done|]. case_decide; [done|]. by destruct (split s). Qed.

Lemma no_nul_canon s : no_nul s → no_nul (canon s).
Proof.
  remember (length s) as n eqn:Hn. revert s Hn. induction n as [n IH] using lt_wf_ind. intros s -> Hs.
  destruct s as [|c0 [|c1 s]]; [done..|]. cbn [canon]. case_decide; [|done].
  apply (IH (length s)); [simpl; lia|done|]. by inversion_clear Hs as [|?? ? Hs']; inversion_clear Hs'.
Qed.

Lemma normalize_cstr s rest : no_nul s → normalize (cstr s rest) = Some (cstr (canon s) rest).
Proof.
  remember (length s) as n eqn:Hn. revert s Hn. induction n as [n IH] using lt_wf_ind. intros s -> Hs.
  unfold cstr. destruct s as [|c0 [|c1 s]]; cbn [app canon].
  - done.
  - cbn [normalize]. case_decide; [|done]. by rewrite decide_False.
  - inversion_clear Hs as [|?? ? Hs']; inversion_clear Hs'. cbn [normalize].
    destruct (decide (c0 = DOT)) as [->|]; [|by rewrite decide_False by tauto].
    destruct (decide (c1 = SLASH)) as [->|]; [|by rewrite decide_False by tauto].
    rewrite decide_True by done. apply (IH (length s)); [simpl; lia|done|done].
Qed.

(** A path up to its first separator, and what follows. *)
Lemma component_cstr s rest : no_nul s → ∃ w tl,
  component (cstr s rest) = Some (w, cstr tl rest) ∧ s = w ++ tl ∧ no_nul tl ∧
  (tl = [] ∨ ∃ tl', tl = SLASH :: tl') ∧ head (split s) = Some w ∧
  tail (split s) = match tl with [] => [] | _ :: tl' => split tl' end.
Proof.
  induction s as [|c s IH]; intros Hs; unfold cstr; cbn [app component].
  - rewrite decide_False by tauto. exists [], []. split_and!; try done. by left.
  - inversion_clear Hs as [|?? Hc Hs']. cbn [split]. destruct (decide (c = SLASH)) as [->|Hne].
    + rewrite decide_False by tauto. exists [], (SLASH :: s). split_and!; try done; [by constructor|]. right. by exists s.
    + rewrite decide_True by done. destruct (IH Hs') as (w & tl & E & -> & Htl & Hor & Hh & Ht).
      fold (cstr (w ++ tl) rest). rewrite E. simpl. exists (c :: w), tl.
      destruct (split (w ++ tl)) as [|w' ws]; [done|]. simpl in *. injection Hh as ->. by split_and!.
Qed.

Lemma path_components_cstr fuel : ∀ s rest, no_nul s → (length s < fuel)%nat → s ≠ [] →
  path_components fuel (cstr s rest) = Some (bool_decide (Forall proper (split s))).
Proof.
  induction fuel as [|fuel IH]; intros s rest Hs Hf Hne; [lia|]. destruct s as [|c s]; [done|].
  cbn [path_components]. change (head (cstr (c :: s) rest)) with (Some c). cbn [mbind option_bind].
  rewrite decide_False by (by inversion Hs).
  destruct (component_cstr (c :: s) rest Hs) as (w & tl & -> & Heq & Htl & Hor & Hh & Ht). cbn [mbind option_bind].
  destruct (split (c :: s)) as [|w' ws]; [done|]. injection Hh as ->. cbn [tail] in Ht. subst ws.
  destruct (decide (w = [] ∨ w = [DOT] ∨ w = [DOT; DOT])) as [Hbad|Hok].
  { f_equal. symmetry. apply bool_decide_eq_false. intros [Hp _]%Forall_cons_1. unfold proper in Hp. tauto. }
  assert (Hp : proper w) by (unfold proper; tauto).
  destruct Hor as [-> |(tl' & ->)]; unfold cstr; cbn [app].
  - rewrite decide_True by done. destruct fuel as [|fuel]; [simpl in Hf; lia|]. cbn [path_components list.head mbind option_bind].
    rewrite decide_True by done. f_equal. symmetry. apply bool_decide_eq_true. by constructor; [|constructor].
  - rewrite decide_False by done. assert (Hl : (length tl' < fuel)%nat).
    { apply (f_equal length) in Heq. rewrite length_app in Heq. simpl in Heq, Hf. lia. }
    destruct tl' as [|c' tl']; cbn [app list.head mbind option_bind].
    + rewrite decide_True by done. f_equal. symmetry. apply bool_decide_eq_false.
      intros [_ H]%Forall_cons_1. by inversion_clear H as [|?? [? _]].
    + inversion_clear Htl as [|?? _ Htl']. rewrite decide_False by (by inversion Htl').
      fold (cstr (c' :: tl') rest). change (c' :: tl' ++ 0 :: rest) with (cstr (c' :: tl') rest).
      rewrite IH by done. f_equal. apply bool_decide_ext.
      split; [by constructor|by inversion 1].
Qed.

Lemma validPath_cstr s rest : no_nul s → validPath (cstr s rest) = Some (bool_decide (path_ok s)).
Proof.
  intros Hs. unfold validPath. destruct s as [|c s].
  { unfold cstr. cbn [app list.head mbind option_bind]. by rewrite decide_True by tauto. }
  change (head (cstr (c :: s) rest)) with (Some c). cbn [mbind option_bind].
  destruct (decide (c = 0 ∨ c = SLASH)) as [[->| ->]|Hc].
  { by inversion Hs. }
  { done. }
  unfold lit. rewrite StrEq_cstr; [|done|by repeat constructor]. cbn [mbind option_bind].
  change (str ".") with [DOT]. case_bool_decide as E.
  - f_equal. symmetry. apply bool_decide_eq_true. by left.
  - rewrite path_components_cstr; [|done|unfold cstr; rewrite length_app; simpl; lia|done].
    f_equal. apply bool_decide_ext. unfold path_ok. tauto.
Qed.

(** ** Reading bytes *)

Lemma byte_at_in d i : 0 ≤ i < Z.of_nat (length d) → ∃ c, byte_at d i = Some c.
Proof. intros Hi. unfold byte_at. rewrite decide_True by lia. apply lookup_lt_is_Some. lia. Qed.

Lemma byte_at_drop d i c : byte_at d i = Some c →
  0 ≤ i ∧ drop (Z.to_nat i) d = c :: drop (Z.to_nat (i + 1)) d.
Proof.
  unfold byte_at. case_decide; [|done]. intros Hc. split; [done|].
  replace (Z.to_nat (i + 1)) with (S (Z.to_nat i)) by lia. by apply drop_S.
Qed.

Lemma same_bytes_total want d : ∀ pos, 0 ≤ pos → pos + Z.of_nat (length want) ≤ Z.of_nat (length d) →
  ∃ b, same_bytes d pos want = Some b.
Proof.
  induction want as [|w want IH]; intros pos Hp Hl; cbn [same_bytes]; [by eexists|]. simpl in Hl.
  destruct (byte_at_in d pos) as [c ->]; [lia|]. cbn [mbind option_bind]. case_decide; [by eexists|]. apply IH; lia.
Qed.

Lemma all_zero_total n d : ∀ pos, 0 ≤ pos → pos + Z.of_nat n ≤ Z.of_nat (length d) →
  ∃ b, all_zero d pos n = Some b.
Proof.
  induction n as [|n IH]; intros pos Hp Hl; cbn [all_zero]; [by eexists|].
  destruct (byte_at_in d pos) as [c ->]; [lia|]. cbn [mbind option_bind]. case_decide; [by eexists|]. apply IH; lia.
Qed.

Lemma hex_digit_range c v : hex_digit c = Some v → 0 ≤ v < 16.
Proof. unfold hex_digit. repeat case_decide; intros; simplify_eq; lia. Qed.

Lemma read_field_total n d : ∀ pos acc, 0 ≤ pos → pos + Z.of_nat n ≤ Z.of_nat (length d) → 0 ≤ acc < 2 ^ 32 →
  ∃ r, read_field d pos n acc = Some r ∧ ∀ v, r = Some v → 0 ≤ v < 2 ^ 32.
Proof.
  induction n as [|n IH]; intros pos acc Hp Hl Ha; cbn [read_field]; [eexists; split; [done|by intros ? [= ->]]|].
  destruct (byte_at_in d pos) as [c ->]; [lia|]. cbn [mbind option_bind].
  destruct (hex_digit c) as [v|] eqn:E; [|by eexists]. apply IH; [lia..|]. apply hex_digit_range in E.
  unfold u32. rewrite Z.shiftl_mul_pow2 by lia. change (2 ^ 32) with (2 ^ 28 * 2 ^ 4).
  rewrite Z.mul_mod_distr_r by lia. pose proof (Z.mod_pos_bound acc (2 ^ 28)).
  rewrite (lor_low _ _ 4); [lia|lia|by rewrite Z.mod_mul|lia].
Qed.

Lemma read_fields_total n d : ∀ pos, 0 ≤ pos → pos + 8 * Z.of_nat n ≤ Z.of_nat (length d) →
  ∃ r, read_fields d pos n = Some r ∧
    ∀ vs, r = Some vs → length vs = n ∧ Forall (λ v, 0 ≤ v < 2 ^ 32) vs.
Proof.
  induction n as [|n IH]; intros pos Hp Hl; cbn [read_fields]; [eexists; split; [done|by intros ? [= <-]]|].
  destruct (read_field_total 8 d pos 0) as (r & -> & Hr); [lia..|]. cbn [mbind option_bind].
  destruct r as [v|]; [|by eexists]. destruct (IH (pos + 8)) as (r & -> & Hrs); [lia..|]. cbn [mbind option_bind].
  destruct r as [vs|]; (eexists; split; [done|]); [|done]. intros ? [= <-].
  destruct (Hrs vs eq_refl) as [<- Hvs]. split; [done|]. constructor; [by apply Hr|done].
Qed.

Lemma name_length_spec n d name ns : ∀ len, 0 ≤ name + len → name + len + Z.of_nat n ≤ Z.of_nat (length d) →
  ∃ s rest, name_length d name len ns n = Some (len + Z.of_nat (length s)) ∧ no_nul s ∧
    (length s ≤ n)%nat ∧ drop (Z.to_nat (name + len)) d = s ++ rest ∧
    ((length s < n)%nat → ∃ rest', rest = 0 :: rest').
Proof.
  induction n as [|n IH]; intros len Hp Hl; cbn [name_length].
  { exists [], (drop (Z.to_nat (name + len)) d). split_and!; try done; [by rewrite Z.add_0_r|constructor|simpl; lia]. }
  destruct (byte_at_in d (name + len)) as [c Ec]; [lia|]. rewrite Ec. cbn [mbind option_bind].
  apply byte_at_drop in Ec as [_ Ed]. case_decide as Hc.
  - destruct (IH (len + 1)) as (s & rest & -> & Hs & Hle & Hd & Hr); [lia..|].
    exists (c :: s), rest. split_and!.
    + f_equal. simpl. lia.
    + by constructor.
    + simpl. lia.
    + rewrite Ed. simpl. rewrite <-Hd. do 2 f_equal. lia.
    + simpl. intros. apply Hr. lia.
  - exists [], (c :: drop (Z.to_nat (name + len + 1)) d). split_and!; [by rewrite Z.add_0_r|constructor|simpl; lia|done|].
    intros _. assert (c = 0) as -> by lia. by eexists.
Qed.

Lemma padding_range c : 0 ≤ padding c ≤ 3.
Proof. unfold padding. rewrite (Z.land_ones _ 2) by lia. change (2 ^ 2) with 4. pose proof (Z.mod_pos_bound (4 ⊟ Z.land c 3) 4). lia. Qed.

Lemma padding_eq c : (c + padding c) mod 4 = 0.
Proof.
  unfold padding. rewrite !(Z.land_ones _ 2) by lia. change (2 ^ 2) with 4. unfold u64.
  pose proof (Z.mod_pos_bound c 4). rewrite (Z.mod_small _ (2 ^ 64)) by lia.
  pose proof (Z.div_mod c 4). pose proof (Z.mod_pos_bound (4 - c mod 4) 4).
  destruct (decide (c mod 4 = 0)) as [E|E].
  - rewrite E. change ((4 - 0) mod 4) with 0. by rewrite Z.add_0_r.
  - rewrite (Z.mod_small (4 - c mod 4)) by lia. replace (c + (4 - c mod 4)) with ((c / 4 + 1) * 4) by lia.
    apply Z.mod_mul. lia.
Qed.

(** ** One entry *)

(** The bytes of a C string. *)
Fixpoint cname (l : list Z) : list Z :=
  match l with [] => [] | c :: l' => if decide (c = 0) then [] else c :: cname l' end.

Lemma cname_cstr s rest : no_nul s → cname (cstr s rest) = s.
Proof.
  unfold cstr. induction s as [|c s IH]; intros Hs; cbn [app cname]; [done|].
  inversion_clear Hs. rewrite decide_False by done. by rewrite IH.
Qed.

Definition TRAILER : list Z := str "TRAILER!!!".

Lemma trailer_no_nul : no_nul TRAILER.
Proof. by repeat constructor. Qed.

Lemma dot_no_nul : no_nul (str ".").
Proof. by repeat constructor. Qed.

Lemma is_trailer_cstr s rest : no_nul s → is_trailer (cstr s rest) = Some (bool_decide (s = TRAILER)).
Proof. intros Hs. apply StrEq_cstr; [done|apply trailer_no_nul]. Qed.

(** What a successful read of an entry at [c] guarantees. *)
Record read_ok (a : Archive) (c c' : Z) (e : Entry) : Prop := {
  ro_cursor : c + 111 ≤ c' ≤ ar_size a;
  ro_name : ∃ rest, e_name e = cstr (cname (e_name e)) rest;
  ro_nul : no_nul (cname (e_name e));
  ro_path : path_ok (cname (e_name e));
  ro_file : ∃ off, data (file e) = m_data a ⊞ off ∧ c < off ∧ 0 ≤ f_size (file e) ∧ off + f_size (file e) ≤ c';
}.

Lemma ar_sub a x y : ar_size a < 2 ^ 64 → 0 ≤ y ≤ x → x ≤ ar_size a → x ⊟ y = x - y.
Proof. intros. unfold u64. apply Z.mod_small. lia. Qed.
Lemma ar_add a x y : ar_size a < 2 ^ 64 → 0 ≤ x → 0 ≤ y → x + y ≤ ar_size a → x ⊞ y = x + y.
Proof. intros. unfold u64. apply Z.mod_small. lia. Qed.

Lemma field_range fields i : Forall (λ v, 0 ≤ v < 2 ^ 32) fields → 0 ≤ fields !!! i < 2 ^ 32.
Proof.
  intros Hf. rewrite list_lookup_total_alt. destruct (fields !! i) as [v|] eqn:E; [|done].
  by apply (Forall_lookup_1 _ _ _ _ Hf E).
Qed.

(** An early return with an error. *)
Ltac read_error := by eexists _, _, _; split; [reflexivity|].

(** Reading never leaves the archive, whatever its bytes, and what it accepts is well formed. *)
Lemma read_spec a c entry : 0 ≤ c → ar_size a < 2 ^ 64 →
  ∃ err c' e, read a c entry = Some (err, c', e) ∧ (err = NONE → read_ok a c c' e).
Proof.
  intros Hc Hs. unfold read. cbv zeta. pose proof (ar_sub a) as Hsub. pose proof (ar_add a) as Hadd.
  assert (Hsz : Z.of_nat (length (bytes a)) = ar_size a) by done. set (m := ar_size a) in *.
  case_decide as G1; [read_error|]. rewrite Hsub in G1 by lia.
  destruct (same_bytes_total (str "070701") (bytes a) c) as ([] & ->); [done|simpl; lia| |read_error].
  cbn [mbind option_bind negb].
  destruct (read_fields_total 13 (bytes a) (c + 6)) as (r & -> & Hr); [lia..|]. cbn [mbind option_bind].
  destruct r as [fields|]; [|read_error]. destruct (Hr fields eq_refl) as [_ Hf]. clear Hr.
  case_decide; [read_error|]. rewrite (Hadd c 110) by lia.
  pose proof (field_range fields 11 Hf) as Hn. set (ns := fields !!! 11%nat) in *.
  case_decide as G2; [read_error|]. rewrite Hsub in G2 by lia.
  destruct (name_length_spec (Z.to_nat ns) (bytes a) (c + 110) ns 0) as (s & rest & -> & Hnul & Hle & Hd & Hrest); [lia..|].
  cbn [mbind option_bind]. rewrite Z.add_0_l, Z.add_0_r in *.
  case_decide as G3; [read_error|]. destruct Hrest as [rest' ->]; [lia|].
  destruct (all_zero_total (Z.to_nat (ns - Z.of_nat (length s))) (bytes a) (c + 110 + Z.of_nat (length s))) as ([] & ->);
    [lia|lia| |read_error]. cbn [mbind option_bind negb].
  rewrite Hd. fold (cstr s rest'). rewrite normalize_cstr by done. cbn [mbind option_bind].
  pose proof (no_nul_canon s Hnul) as Hnul'. rewrite validPath_cstr by done. cbn [mbind option_bind].
  case_bool_decide as Hpath; [|read_error]. cbn [negb].
  rewrite (Hadd (c + 110) ns) by lia. pose proof (padding_range (c + 110 + ns)).
  case_decide as G4; [read_error|]. rewrite Hsub in G4 by lia. rewrite (Hadd _ (padding (c + 110 + ns))) by lia.
  set (c2 := c + 110 + ns + padding (c + 110 + ns)) in *.
  pose proof (field_range fields 6 Hf) as Hfs. set (fs := fields !!! 6%nat) in *.
  case_decide as G5; [read_error|]. rewrite Hsub in G5 by lia. rewrite (Hadd c2 fs) by lia.
  pose proof (padding_range (c2 + fs)).
  case_decide as G6; [read_error|]. rewrite Hsub in G6 by lia. rewrite (Hadd _ (padding (c2 + fs))) by lia.
  assert (Hok : ∀ d, read_ok a c (c2 + fs + padding (c2 + fs)) (MkEntry (cstr (canon s) rest') (MkFile (m_data a ⊞ c2) fs) d)).
  { intros d. split; cbn [e_name file data f_size]; rewrite ?cname_cstr by done; try done; [lia|by eexists|].
    exists c2. split_and!; [done|lia..]. }
  rewrite is_trailer_cstr by done. cbn [mbind option_bind].
  case_bool_decide; [by eexists _, _, _|]. cbn [isDirectory]. case_bool_decide; [by eexists _, _, _|].
  unfold lit. rewrite StrEq_cstr by (done || apply dot_no_nul). cbn [mbind option_bind]. by eexists _, _, _.
Qed.

(** ** Whole archives: validation, iteration and lookup *)

(** Entries follow each other from one cursor to another. *)
Inductive chain (a : Archive) : Z → list Entry → Z → Prop :=
  | chain_nil c : chain a c [] c
  | chain_cons c c' e l end_ : read a c no_entry = Some (NONE, c', e) → chain a c' l end_ → chain a c (e :: l) end_.

Definition name_of (e : Entry) : list Z := cname (e_name e).
Definition names (l : list Entry) : list (list Z) := name_of <$> l.

(** What validation establishes: entries up to the trailer, under names of their own. *)
Record well_formed (a : Archive) (l : list Entry) : Prop := {
  wf_size : ar_size a < 2 ^ 64;
  wf_chain : chain a 0 l (m_end a);
  wf_names : NoDup (names l);
  wf_trailer : TRAILER ∉ names l;
  wf_end : m_end a < ar_size a;
}.

Section chains.
Context (a : Archive).
Hypothesis Hsize : ar_size a < 2 ^ 64.

Lemma read_good c c' e : 0 ≤ c → read a c no_entry = Some (NONE, c', e) → read_ok a c c' e.
Proof.
  intros Hc E. destruct (read_spec a c no_entry Hc Hsize) as (err & c1 & e1 & E1 & Hok).
  rewrite E in E1. injection E1 as <- <- <-. by apply Hok.
Qed.

Lemma chain_app c1 l1 c2 l2 c3 : chain a c1 l1 c2 → chain a c2 l2 c3 → chain a c1 (l1 ++ l2) c3.
Proof. intros H1 H2. induction H1; [done|]. by econstructor; [|apply IHchain]. Qed.

Lemma chain_bounds c l end_ : chain a c l end_ → 0 ≤ c → c + 111 * Z.of_nat (length l) ≤ end_ ∧
  (l ≠ [] → end_ ≤ ar_size a).
Proof.
  induction 1 as [c|c c' e l end_ Hr Hl IH]; intros Hc; [split; [simpl; lia|done]|].
  pose proof (ro_cursor _ _ _ _ (read_good _ _ _ Hc Hr)). destruct IH as [IH1 IH2]; [lia|].
  split; [simpl; lia|]. intros _. destruct l; [inversion Hl; subst; lia|by apply IH2].
Qed.

Lemma chain_good c l end_ : chain a c l end_ → 0 ≤ c →
  Forall (λ e, ∃ c1 c2, c ≤ c1 ∧ c2 ≤ end_ ∧ read_ok a c1 c2 e) l.
Proof.
  induction 1 as [c|c c' e l end_ Hr Hl IH]; intros Hc; [constructor|].
  pose proof (read_good _ _ _ Hc Hr) as Hok. pose proof (ro_cursor _ _ _ _ Hok).
  pose proof (chain_bounds _ _ _ Hl ltac:(lia)). constructor.
  - exists c, c'. split_and!; [lia|lia|done].
  - eapply list.Forall_impl; [apply IH; lia|]. intros e' (c1 & c2 & ? & ? & ?). exists c1, c2. split_and!; [lia|lia|done].
Qed.

(** Comparing names of entries that were read. *)
Lemma StrEq_names e s rest : (∃ c1 c2, read_ok a c1 c2 e) → no_nul s →
  StrEq (e_name e) (cstr s rest) = Some (bool_decide (name_of e = s)).
Proof.
  intros (c1 & c2 & Hok) Hs. destruct (ro_name _ _ _ _ Hok) as [r ->].
  by rewrite StrEq_cstr by (done || apply Hok).
Qed.

Lemma check_duplicates_spec e fuel : (∃ c1 c2, read_ok a c1 c2 e) → ∀ c l start,
  chain a c l start → 0 ≤ c → (Z.to_nat (start - c) < fuel)%nat →
  check_duplicates fuel a start e c = Some (if decide (name_of e ∈ names l) then DUPLICATE_PATH else NONE).
Proof.
  intros He. induction fuel as [|fuel IH]; intros c l start Hl Hc Hf; [lia|]. cbn [check_duplicates].
  destruct Hl as [c|c c' e' l start Hr Hl].
  { rewrite decide_False by lia. by rewrite decide_False by apply not_elem_of_nil. }
  pose proof (read_good _ _ _ Hc Hr) as Hok. pose proof (ro_cursor _ _ _ _ Hok).
  pose proof (chain_bounds _ _ _ Hl ltac:(lia)) as [Hb _].
  rewrite decide_True, Hr by lia. cbn [mbind option_bind]. rewrite decide_False by tauto.
  destruct He as (c1 & c2 & He). destruct (ro_name _ _ _ _ He) as [r Er]. rewrite Er.
  rewrite StrEq_names by (eauto || apply He). cbn [mbind option_bind]. fold (name_of e).
  case_bool_decide as En.
  - rewrite decide_True; [done|]. unfold names. cbn. rewrite En. apply elem_of_cons. by left.
  - rewrite (IH c' l start) by (done || lia). f_equal. apply decide_ext.
    unfold names. cbn [fmap list_fmap]. rewrite elem_of_cons. naive_solver.
Qed.

Lemma validate_from_spec fuel : ∀ c l, chain a 0 l c → NoDup (names l) → TRAILER ∉ names l → 0 ≤ c →
  (Z.to_nat (ar_size a - c) < fuel)%nat →
  ∃ err end_, validate_from fuel a c = Some (err, end_) ∧
    (err = NONE → ∃ l', chain a 0 l' end_ ∧ NoDup (names l') ∧ TRAILER ∉ names l' ∧ end_ < ar_size a).
Proof.
  induction fuel as [|fuel IH]; intros c l Hl Hnd Htr Hc Hf; [lia|]. cbn [validate_from].
  case_decide as G; [|by eexists _, _; split; [reflexivity|]].
  destruct (read_spec a c no_entry Hc Hsize) as (err & c' & e & Er & Hok). rewrite Er. cbn [mbind option_bind].
  case_decide as G1; [by eexists _, _; split; [reflexivity|]|].
  assert (err = NONE) as -> by (by destruct (decide (err = NONE))). specialize (Hok eq_refl).
  pose proof (ro_cursor _ _ _ _ Hok) as Hb. destruct (ro_name _ _ _ _ Hok) as [r En].
  unfold is_trailer, lit. rewrite (StrEq_names e) by (eauto || apply trailer_no_nul). cbn [mbind option_bind].
  fold TRAILER. case_bool_decide as Et.
  { destruct (all_zero_total (Z.to_nat (ar_size a - c')) (bytes a) c') as ([] & ->); [lia|unfold ar_size in *; lia|..];
      cbn [mbind option_bind]; (eexists _, _; split; [reflexivity|]); [|done]. intros _. by exists l. }
  rewrite (check_duplicates_spec e (S (length (bytes a))) ltac:(eauto) 0 l c Hl) by (unfold ar_size in *; lia).
  cbn [mbind option_bind]. destruct (decide (name_of e ∈ names l)) as [Hin|Hin].
  { rewrite decide_True by done. by eexists _, _; split; [reflexivity|]. }
  rewrite decide_False by tauto. apply (IH c' (l ++ [e])); [|..|lia|lia].
  - eapply chain_app; [exact Hl|]. econstructor; [exact Er|constructor].
  - unfold names. rewrite fmap_app. apply list.NoDup_app. split_and!; [done| |apply list.NoDup_singleton].
    intros x Hx Hy%list_elem_of_singleton. by subst x.
  - unfold names. rewrite fmap_app, elem_of_app. intros [?|Hx%list_elem_of_singleton]; [done|]. by apply Et.
Qed.
End chains.

(** The chain depends on the bytes and their address only. *)
Lemma chain_ext a a' c l end_ : m_data a' = m_data a → bytes a' = bytes a → chain a c l end_ → chain a' c l end_.
Proof.
  intros Hd Hb. induction 1 as [|c c' e l end_ Hr Hl IH]; [constructor|]. econstructor; [|exact IH].
  destruct a, a'. simpl in *. by subst.
Qed.

Lemma Archive_new_spec dat d : Z.of_nat (length d) < 2 ^ 64 →
  ∃ a, Archive_new dat d = Some a ∧ m_data a = dat ∧ bytes a = d ∧ (m_error a = NONE → ∃ l, well_formed a l).
Proof.
  intros Hs. unfold Archive_new. case_decide; [|by eexists]. set (a := MkArchive dat d 0 INVALID_REGION).
  destruct (validate_from_spec a Hs (S (length d)) 0 []) as (err & end_ & E & Hok);
    [constructor|constructor|apply not_elem_of_nil|done|unfold ar_size; simpl; lia|].
  unfold validate. change (bytes a) with d. rewrite E. cbn [mbind option_bind]. eexists. split_and!; [done..|].
  cbn [m_error]. intros ->. destruct (Hok eq_refl) as (l & Hl & Hnd & Htr & He). exists l.
  split; try done. by apply (chain_ext a).
Qed.

(** ** Lookup *)

(** [e] is the regular file [p]. *)
Definition is_file (p : list Z) (e : Entry) : Prop := isDirectory e = false ∧ name_of e = p.
#[export] Instance is_file_dec p e : Decision (is_file p e).
Proof. unfold is_file. apply _. Defined.

Definition found (o : option Entry) : bool * File :=
  match o with Some e => (true, file e) | None => (false, no_file) end.

Section lookup.
Context (a : Archive) (Hsize : ar_size a < 2 ^ 64) (Herr : m_error a = NONE).

Lemma find_from_spec p rest fuel : no_nul p → ∀ c l, chain a c l (m_end a) → 0 ≤ c →
  (Z.to_nat (m_end a - c) < fuel)%nat →
  find_from fuel a (cstr p rest) c = Some (found (head (filter (is_file p) l))).
Proof.
  intros Hp. induction fuel as [|fuel IH]; intros c l Hl Hc Hf; [lia|]. cbn [find_from]. unfold Next.
  inversion Hl as [c0|c0 c' e l' end_ Hr Hl']; subst.
  { rewrite decide_True by (right; lia). done. }
  pose proof (read_good a Hsize _ _ _ Hc Hr) as Hok. pose proof (ro_cursor _ _ _ _ Hok).
  pose proof (chain_bounds a Hsize _ _ _ Hl' ltac:(lia)) as [Hb _].
  rewrite decide_False by (intros [?|?]; [done|lia]). rewrite Hr. cbn [mbind option_bind].
  rewrite bool_decide_true by done. rewrite (StrEq_names a e p rest) by eauto.
  assert (Hrec : find_from fuel a (cstr p rest) c' = Some (found (head (filter (is_file p) l')))).
  { apply IH; [done|lia|lia]. }
  rewrite filter_cons. destruct (isDirectory e) eqn:Ed; cbn [mbind option_bind].
  - rewrite decide_False; [done|]. intros [? _]. congruence.
  - case_bool_decide as En.
    + by rewrite decide_True.
    + rewrite decide_False; [done|]. by intros [_ ?].
Qed.

Lemma Find_spec l p rest : well_formed a l → no_nul p →
  Find a (cstr p rest) = Some (found (head (filter (is_file (canon p)) l))).
Proof.
  intros Hwf Hp. unfold Find. pose proof (chain_bounds a Hsize _ _ _ (wf_chain _ _ Hwf) ltac:(lia)) as [Hb _].
  destruct (cstr p rest) eqn:E; [by destruct p|]. rewrite <-E. rewrite normalize_cstr by done. cbn [mbind option_bind].
  apply find_from_spec; [by apply no_nul_canon|apply Hwf|done|].
  pose proof (wf_end _ _ Hwf). unfold ar_size in *. lia.
Qed.

(** Names are unique, so what is found is the only regular file of that name. *)
Lemma found_unique l p e : NoDup (names l) → e ∈ l → is_file p e → head (filter (is_file p) l) = Some e.
Proof.
  induction l as [|e' l IH]; intros Hnd Hin Hp; [by apply not_elem_of_nil in Hin|].
  unfold names in Hnd. cbn in Hnd. apply list.NoDup_cons in Hnd as [Hn Hnd]. rewrite filter_cons.
  apply elem_of_cons in Hin as [->|Hin]; [by rewrite decide_True|].
  rewrite decide_False; [by apply IH|]. intros [_ E]. apply Hn. rewrite E. destruct Hp as [_ <-].
  by apply list_elem_of_fmap_2.
Qed.

Lemma found_none l p : (∀ e, e ∈ l → ¬ is_file p e) → head (filter (is_file p) l) = None.
Proof.
  intros H. destruct (filter (is_file p) l) as [|e l'] eqn:E; [done|]. exfalso.
  assert (Hin : e ∈ filter (is_file p) l) by (rewrite E; apply elem_of_cons; by left).
  apply list_elem_of_filter in Hin as [Hp Hin]. by apply (H e).
Qed.
End lookup.
