(* ===== verification/CpioEncode.v ===== *)
(** * Writing archives: what the reader accepts, it reads back *)
From S2P Require Import Prelude Memory Machine Strings Cpio CpioSpec.

(** ** The newc format *)

Definition hex_char (v : Z) : Z := if decide (v < 10) then 48 + v else 87 + v.
Fixpoint hex_enc (n : nat) (v : Z) : list Z :=
  match n with O => [] | S n' => hex_char (v / 16 ^ Z.of_nat n') :: hex_enc n' (v mod 16 ^ Z.of_nat n') end.

(** An item of an archive; [it_meta] holds the fields the reader ignores. *)
Record item : Set := MkItem {
  it_name : list Z;
  it_mode : Z;
  it_nlink : Z;
  it_meta : list Z;
  it_data : list Z;
}.

Definition fields_of (i : item) : list Z :=
  let m k := it_meta i !!! k in
  [m 0%nat; it_mode i; m 1%nat; m 2%nat; it_nlink i; m 3%nat; Z.of_nat (length (it_data i));
   m 4%nat; m 5%nat; m 6%nat; m 7%nat; Z.of_nat (length (it_name i)) + 1; 0].

Definition pad_after (n : nat) : list Z := replicate (Z.to_nat (padding (Z.of_nat n))) 0.
Definition enc_head (i : item) : list Z := str "070701" ++ (fields_of i ≫= hex_enc 8) ++ it_name i ++ [0].
Definition enc_item (i : item) : list Z :=
  enc_head i ++ pad_after (length (enc_head i)) ++ it_data i ++ pad_after (length (it_data i)).

Definition trailer : item := MkItem TRAILER 0 1 [] [].
Definition encode (l : list item) (extra : nat) : list Z :=
  concat (enc_item <$> l) ++ enc_item trailer ++ replicate extra 0.

(** Values fit their fields, and the path is proper. *)
Record item_wf (i : item) : Prop := {
  iw_nul : no_nul (it_name i);
  iw_path : path_ok (canon (it_name i));
  iw_fields : Forall (λ v, 0 ≤ v < 2 ^ 32) (fields_of i);
}.

(** An item the reader accepts: a directory without data, or a regular file with one link. *)
Record item_ok (i : item) : Prop := {
  io_wf : item_wf i;
  io_name : canon (it_name i) ≠ TRAILER;
  io_type : (type_of (it_mode i) = 0x4000 ∧ it_data i = []) ∨
    (type_of (it_mode i) = 0x8000 ∧ it_nlink i = 1 ∧ canon (it_name i) ≠ str ".");
}.

(** ** Reading at a position of a concatenation *)

Lemma byte_at_app pre c post : byte_at (pre ++ c :: post) (Z.of_nat (length pre)) = Some c.
Proof.
  unfold byte_at. rewrite decide_True by lia. rewrite Nat2Z.id. rewrite lookup_app_r by lia.
  by rewrite Nat.sub_diag.
Qed.

Lemma shift_app {A} (pre : list A) x post : pre ++ x :: post = (pre ++ [x]) ++ post.
Proof. by rewrite <-app_assoc. Qed.

Lemma same_bytes_app want : ∀ pre post, same_bytes (pre ++ want ++ post) (Z.of_nat (length pre)) want = Some true.
Proof.
  induction want as [|w want IH]; intros pre post; cbn [same_bytes app]; [done|].
  rewrite byte_at_app. cbn [mbind option_bind]. rewrite decide_False by tauto. rewrite shift_app.
  replace (Z.of_nat (length pre) + 1) with (Z.of_nat (length (pre ++ [w]))); [apply IH|].
  rewrite length_app. simpl. lia.
Qed.

Lemma hex_digit_char v : 0 ≤ v < 16 → hex_digit (hex_char v) = Some v.
Proof. intros Hv. unfold hex_digit, hex_char. repeat case_decide; try lia; f_equal; lia. Qed.

Lemma read_field_enc n : ∀ v acc pre post, 0 ≤ v < 16 ^ Z.of_nat n → 0 ≤ acc →
  acc * 16 ^ Z.of_nat n + v < 2 ^ 32 →
  read_field (pre ++ hex_enc n v ++ post) (Z.of_nat (length pre)) n acc = Some (Some (acc * 16 ^ Z.of_nat n + v)).
Proof.
  induction n as [|n IH]; intros v acc pre post Hv Ha Hb.
  { cbn [read_field]. do 2 f_equal. change (16 ^ Z.of_nat 0) with 1 in *. lia. }
  rewrite Nat2Z.inj_succ, Z.pow_succ_r in Hv, Hb |- * by lia. cbn [read_field hex_enc app].
  set (p := 16 ^ Z.of_nat n) in *. assert (0 < p) by (apply Z.pow_pos_nonneg; lia).
  pose proof (Z.mod_pos_bound v p). pose proof (Z.div_mod v p).
  assert (Hd : 0 ≤ v / p < 16) by (split; [apply Z.div_pos; lia|apply Z.div_lt_upper_bound; lia]).
  rewrite byte_at_app. cbn [mbind option_bind]. rewrite hex_digit_char by done. rewrite shift_app.
  replace (Z.of_nat (length pre) + 1) with (Z.of_nat (length (pre ++ [hex_char (v / p)])))
    by (rewrite length_app; simpl; lia).
  assert (E : Z.lor (u32 (acc ≪ 4)) (v / p) = acc * 16 + v / p).
  { unfold u32. rewrite Z.shiftl_mul_pow2 by lia. rewrite Z.mod_small by (change (2 ^ 4) with 16; nia).
    apply (lor_low _ _ 4); [lia|by rewrite Z.mod_mul|lia]. }
  rewrite E, IH; [do 2 f_equal; nia|lia|lia|fold p; nia].
Qed.

Lemma read_fields_enc vs : ∀ pre post, Forall (λ v, 0 ≤ v < 2 ^ 32) vs →
  read_fields (pre ++ (vs ≫= hex_enc 8) ++ post) (Z.of_nat (length pre)) (length vs) = Some (Some vs).
Proof.
  induction vs as [|v vs IH]; intros pre post Hv; [done|]. cbn [length read_fields].
  apply Forall_cons_1 in Hv as [Hv Hvs]. change ((v :: vs) ≫= hex_enc 8) with (hex_enc 8 v ++ (vs ≫= hex_enc 8)).
  rewrite <-app_assoc. change (2 ^ 32) with (16 ^ Z.of_nat 8) in Hv.
  rewrite read_field_enc; [|exact Hv|lia|rewrite Z.mul_0_l, Z.add_0_l; apply Hv]. cbn [mbind option_bind].
  rewrite app_assoc. replace (Z.of_nat (length pre) + 8) with (Z.of_nat (length (pre ++ hex_enc 8 v)))
    by (rewrite length_app; simpl; lia).
  by rewrite IH.
Qed.

Lemma name_length_enc s : ∀ pre len post ns n, no_nul s → (length s < n)%nat → 0 ≤ len →
  name_length (pre ++ s ++ 0 :: post) (Z.of_nat (length pre) - len) len ns n = Some (len + Z.of_nat (length s)).
Proof.
  induction s as [|c s IH]; intros pre len post ns n Hs Hn Hl; (destruct n as [|n]; [simpl in Hn; lia|]);
    cbn [name_length app]; replace (Z.of_nat (length pre) - len + len) with (Z.of_nat (length pre)) by lia;
    rewrite byte_at_app; cbn [mbind option_bind].
  - rewrite decide_False by tauto. f_equal. simpl. lia.
  - inversion_clear Hs. rewrite decide_True by done. rewrite shift_app.
    replace (Z.of_nat (length pre) - len) with (Z.of_nat (length (pre ++ [c])) - (len + 1))
      by (rewrite length_app; simpl; lia).
    rewrite IH; [f_equal; simpl; lia|done|simpl in Hn; lia|lia].
Qed.

Lemma all_zero_enc n : ∀ pre post, all_zero (pre ++ replicate n 0 ++ post) (Z.of_nat (length pre)) n = Some true.
Proof.
  induction n as [|n IH]; intros pre post; cbn [all_zero replicate app]; [done|].
  rewrite byte_at_app. cbn [mbind option_bind]. rewrite decide_False by tauto. rewrite shift_app.
  replace (Z.of_nat (length pre) + 1) with (Z.of_nat (length (pre ++ [0]))); [apply IH|].
  rewrite length_app. simpl. lia.
Qed.

(** ** One item *)

Lemma padding_shift c n : c mod 4 = 0 → padding (c + n) = padding n.
Proof.
  intros Hc. unfold padding. rewrite !(Z.land_ones _ 2) by lia. change (2 ^ 2) with 4.
  assert ((c + n) mod 4 = n mod 4) as ->; [|done].
  rewrite <-Zplus_mod_idemp_l, Hc. done.
Qed.

Lemma length_hex n v : length (hex_enc n v) = n.
Proof. revert v. induction n as [|n IH]; intros v; simpl; [done|]. by rewrite IH. Qed.

Lemma length_hex_fields vs : length (vs ≫= hex_enc 8) = (8 * length vs)%nat.
Proof.
  induction vs as [|v vs IH]; [done|]. change ((v :: vs) ≫= hex_enc 8) with (hex_enc 8 v ++ (vs ≫= hex_enc 8)).
  rewrite length_app, length_hex, IH. simpl. lia.
Qed.

Lemma length_enc_head i : length (enc_head i) = (111 + length (it_name i))%nat.
Proof. unfold enc_head. rewrite !length_app, length_hex_fields. simpl. lia. Qed.

Lemma length_pad n : Z.of_nat (length (pad_after n)) = padding (Z.of_nat n).
Proof. unfold pad_after. rewrite length_replicate. pose proof (padding_range (Z.of_nat n)). lia. Qed.

(** What reading an encoded item reports. *)
Definition verdict (i : item) : Error :=
  if decide (canon (it_name i) = TRAILER) then if decide (it_data i = []) then NONE else BAD_TRAILER
  else if decide (type_of (it_mode i) = 0x4000) then if decide (it_data i = []) then NONE else BAD_FIELD
  else if decide (type_of (it_mode i) ≠ 0x8000 ∨ it_nlink i ≠ 1 ∨ canon (it_name i) = str ".") then UNSUPPORTED_TYPE
  else NONE.

(** [e] is the entry of [i] in an archive of bytes [d] at [dat]. *)
Record entry_of (dat : Z) (d : list Z) (i : item) (e : Entry) : Prop := {
  eo_name : name_of e = canon (it_name i);
  eo_dir : isDirectory e = bool_decide (type_of (it_mode i) = 0x4000);
  eo_size : f_size (file e) = Z.of_nat (length (it_data i));
  eo_data : ∃ off, data (file e) = dat ⊞ off ∧ 0 ≤ off ∧ take (length (it_data i)) (drop (Z.to_nat off) d) = it_data i;
}.

Section item.
Context (a : Archive) (i : item) (pre post : list Z).
Hypothesis Hsize : ar_size a < 2 ^ 64.
Hypothesis Hd : bytes a = pre ++ enc_item i ++ post.
Hypothesis Hwf : item_wf i.
Abbreviation c := (Z.of_nat (length pre)).
Abbreviation nl := (Z.of_nat (length (it_name i))).
Abbreviation dl := (Z.of_nat (length (it_data i))).

Lemma enc_shape : ∃ r, bytes a = (pre ++ str "070701" ++ (fields_of i ≫= hex_enc 8)) ++ it_name i ++ 0 :: r ∧
  r = pad_after (length (enc_head i)) ++ it_data i ++ pad_after (length (it_data i)) ++ post.
Proof. eexists. split; [|reflexivity]. rewrite Hd. unfold enc_item, enc_head. by rewrite <-!app_assoc. Qed.

Lemma enc_size : c + Z.of_nat (length (enc_item i)) ≤ ar_size a ∧
  Z.of_nat (length (enc_item i)) = 111 + nl + padding (111 + nl) + dl + padding dl.
Proof.
  assert (E : Z.of_nat (length (enc_item i)) = 111 + nl + padding (111 + nl) + dl + padding dl).
  { unfold enc_item. rewrite !length_app, !Nat2Z.inj_add, !length_pad, length_enc_head.
    rewrite !Nat2Z.inj_add. change (Z.of_nat 111) with 111. lia. }
  split; [|done]. unfold ar_size. rewrite Hd, !length_app. lia.
Qed.

Abbreviation upto := (pre ++ str "070701" ++ (fields_of i ≫= hex_enc 8)).

Lemma len_upto : Z.of_nat (length upto) = c + 110.
Proof. rewrite !length_app, length_hex_fields. simpl. lia. Qed.

(** The pieces [read] looks at, where they lie. *)
Lemma enc_magic : same_bytes (bytes a) c (str "070701") = Some true.
Proof. destruct enc_shape as (r & -> & _). rewrite <-!app_assoc. apply same_bytes_app. Qed.

Lemma enc_fields : read_fields (bytes a) (c + 6) 13 = Some (Some (fields_of i)).
Proof.
  assert (Hp1 : Z.of_nat (length (pre ++ str "070701")) = c + 6) by (rewrite length_app; simpl; lia).
  destruct enc_shape as (r & -> & _). rewrite (app_assoc pre), <-(app_assoc _ _ (it_name i ++ _)), <-Hp1.
  apply (read_fields_enc (fields_of i)), Hwf.
Qed.

Lemma enc_name_length : name_length (bytes a) (c + 110) 0 (nl + 1) (Z.to_nat (nl + 1)) = Some nl.
Proof.
  destruct enc_shape as (r & -> & _). rewrite <-len_upto.
  pose proof (name_length_enc (it_name i) upto 0 r (nl + 1) (Z.to_nat (nl + 1))) as E.
  rewrite Z.sub_0_r in E. rewrite E; [done|apply Hwf|lia|lia].
Qed.

Lemma enc_name_zero : all_zero (bytes a) (c + 110 + nl) (Z.to_nat 1) = Some true.
Proof.
  destruct enc_shape as (r & -> & _). rewrite app_assoc.
  replace (c + 110 + nl) with (Z.of_nat (length (upto ++ it_name i)))
    by (rewrite length_app, Nat2Z.inj_add, len_upto; done).
  apply (all_zero_enc 1).
Qed.

Lemma enc_name : ∃ r, drop (Z.to_nat (c + 110)) (bytes a) = cstr (it_name i) r.
Proof.
  destruct enc_shape as (r & -> & _). exists r. rewrite <-len_upto, Nat2Z.id. by rewrite drop_app_length.
Qed.

Abbreviation off := (c + (111 + nl) + padding (111 + nl)).

Lemma enc_data : take (length (it_data i)) (drop (Z.to_nat off) (bytes a)) = it_data i.
Proof.
  destruct enc_shape as (r & -> & ->). pose proof (padding_range (111 + nl)).
  set (p := upto ++ it_name i ++ 0 :: pad_after (length (enc_head i))).
  replace (Z.to_nat off) with (length p).
  - replace (upto ++ it_name i ++ 0 :: _) with (p ++ it_data i ++ pad_after (length (it_data i)) ++ post)
      by (unfold p; rewrite <-!app_assoc; done).
    by rewrite drop_app_length, take_app_length.
  - apply Nat2Z.inj. rewrite Z2Nat.id by lia. unfold p.
    rewrite length_app, Nat2Z.inj_add, len_upto, length_app, Nat2Z.inj_add. cbn [length].
    rewrite Nat2Z.inj_succ, length_pad, length_enc_head, Nat2Z.inj_add. change (Z.of_nat 111) with 111. lia.
Qed.

(** The checks after the name, on the entry that was read. *)
Lemma verdict_eq r (cursor : Z) (e : Entry) :
  isDirectory e = bool_decide (type_of (it_mode i) = 0x4000) →
  (trailer ← is_trailer (cstr (canon (it_name i)) r);
   if (trailer : bool) then Some (if decide (dl ≠ 0) then BAD_TRAILER else NONE, cursor, e)
   else if isDirectory e then Some (if decide (dl ≠ 0) then BAD_FIELD else NONE, cursor, e)
   else dot ← StrEq (cstr (canon (it_name i)) r) (lit ".");
     Some (if decide (type_of (it_mode i) ≠ 0x8000 ∨ it_nlink i ≠ 1 ∨ dot = true) then UNSUPPORTED_TYPE
           else NONE, cursor, e)) = Some (verdict i, cursor, e).
Proof.
  intros ->. pose proof (no_nul_canon _ (iw_nul _ Hwf)) as Hn.
  rewrite is_trailer_cstr by done. cbn [mbind option_bind].
  assert (Hnil : it_data i = [] ↔ ¬ dl ≠ 0) by (destruct (it_data i); simpl; split; (done || lia)).
  unfold verdict. case_bool_decide as Ht.
  { rewrite (decide_True (P := _ = TRAILER)) by done; repeat case_decide; try done; tauto. }
  rewrite (decide_False (P := _ = TRAILER)) by done. case_bool_decide as Ed.
  { rewrite (decide_True (P := type_of _ = _)) by done; repeat case_decide; try done; tauto. }
  rewrite (decide_False (P := type_of _ = _)) by done. unfold lit. rewrite StrEq_cstr by (done || apply dot_no_nul).
  cbn [mbind option_bind]. do 3 f_equal. apply decide_ext. by rewrite bool_decide_eq_true.
Qed.

Lemma read_encoded : c mod 4 = 0 → ∃ e,
  read a c no_entry = Some (verdict i, c + Z.of_nat (length (enc_item i)), e) ∧
  entry_of (m_data a) (bytes a) i e.
Proof.
  intros Hal. destruct enc_size as [Hm Hlen]. destruct enc_name as (r & Hname). unfold read. cbv zeta.
  set (m := ar_size a) in *. pose proof (padding_range (111 + nl)). pose proof (padding_range dl).
  pose proof (ar_sub a) as Hsub. pose proof (ar_add a) as Hadd. fold m in Hsub, Hadd.
  rewrite decide_False by (rewrite Hsub by lia; lia).
  rewrite enc_magic, enc_fields. cbn [mbind option_bind negb].
  change (fields_of i !!! 12%nat) with 0. rewrite decide_False by tauto.
  change (fields_of i !!! 11%nat) with (nl + 1). change (fields_of i !!! 6%nat) with dl.
  change (fields_of i !!! 1%nat) with (it_mode i). change (fields_of i !!! 4%nat) with (it_nlink i).
  rewrite (Hadd c 110) by lia. rewrite decide_False by (rewrite Hsub by lia; lia).
  rewrite enc_name_length. cbn [mbind option_bind]. rewrite decide_False by lia.
  replace (nl + 1 - nl) with 1 by lia. rewrite enc_name_zero, Hname. cbn [mbind option_bind negb].
  rewrite normalize_cstr by apply Hwf. cbn [mbind option_bind].
  pose proof (no_nul_canon _ (iw_nul _ Hwf)) as Hn. rewrite validPath_cstr by done. cbn [mbind option_bind].
  rewrite bool_decide_true by apply Hwf. cbn [negb].
  rewrite (Hadd (c + 110) (nl + 1)) by lia. replace (c + 110 + (nl + 1)) with (c + (111 + nl)) by lia.
  rewrite (padding_shift c) by done. rewrite decide_False by (rewrite Hsub by lia; lia).
  rewrite (Hadd _ (padding (111 + nl))) by lia. rewrite decide_False by (rewrite Hsub by lia; lia).
  rewrite (Hadd off dl) by lia.
  assert (Hoff : off mod 4 = 0).
  { rewrite <-Z.add_assoc, <-Zplus_mod_idemp_l, Hal. rewrite Z.add_0_l. apply padding_eq. }
  rewrite (padding_shift off) by done. rewrite decide_False by (rewrite Hsub by lia; lia).
  rewrite (Hadd _ (padding dl)) by lia.
  replace (off + dl + padding dl) with (c + Z.of_nat (length (enc_item i))) by lia.
  set (e := MkEntry _ _ _). exists e. split; [by apply verdict_eq|].
  split; [by apply cname_cstr|done|done|]. exists off. split_and!; [done|lia|apply enc_data].
Qed.
End item.

(** ** Whole archives *)

Lemma enc_item_aligned i : Z.of_nat (length (enc_item i)) mod 4 = 0.
Proof.
  unfold enc_item. rewrite app_assoc, length_app, Nat2Z.inj_add. rewrite <-Zplus_mod_idemp_l.
  rewrite length_app, Nat2Z.inj_add, length_pad, padding_eq, Z.add_0_l.
  rewrite length_app, Nat2Z.inj_add, length_pad. apply padding_eq.
Qed.

Lemma verdict_ok i : item_ok i → verdict i = NONE.
Proof.
  intros Hi. unfold verdict. rewrite decide_False by apply Hi. destruct (io_type _ Hi) as [[Ht Hn]|(Ht & Hl & Hdot)].
  - by rewrite Ht, Hn, !decide_True.
  - rewrite Ht. rewrite decide_False by done. rewrite decide_False; [done|]. tauto.
Qed.

Section archive.
Context (a : Archive) (Hsize : ar_size a < 2 ^ 64).

Lemma chain_encoded l : ∀ pre post, bytes a = pre ++ concat (enc_item <$> l) ++ post → Forall item_ok l →
  Z.of_nat (length pre) mod 4 = 0 →
  ∃ es, chain a (Z.of_nat (length pre)) es (Z.of_nat (length pre + length (concat (enc_item <$> l)))) ∧
    Forall2 (entry_of (m_data a) (bytes a)) l es.
Proof.
  induction l as [|i l IH]; intros pre post Hb Hl Hal.
  { exists []. split; [|constructor]. simpl. rewrite Nat.add_0_r. constructor. }
  apply Forall_cons_1 in Hl as [Hi Hl]. cbn [fmap list_fmap concat] in Hb |- *. rewrite <-app_assoc in Hb.
  destruct (read_encoded a i pre _ Hsize Hb (io_wf _ Hi) Hal) as (e & Hr & He). rewrite verdict_ok in Hr by done.
  destruct (IH (pre ++ enc_item i) post) as (es & Hes & Hf); [by rewrite <-!app_assoc|done| |].
  { rewrite length_app, Nat2Z.inj_add, <-Zplus_mod_idemp_l, Hal. apply enc_item_aligned. }
  exists (e :: es). split; [|by constructor]. econstructor.
  - exact Hr.
  - rewrite length_app, Nat2Z.inj_add in Hes. rewrite length_app.
    replace (length pre + (length (enc_item i) + length (concat (enc_item <$> l))))%nat
      with (length pre + length (enc_item i) + length (concat (enc_item <$> l)))%nat by lia.
    exact Hes.
Qed.

Lemma validate_chain l : ∀ fuel c l0 end_ c2 e2, chain a 0 l0 c → chain a c l end_ → 0 ≤ c →
  NoDup (names (l0 ++ l)) → TRAILER ∉ names (l0 ++ l) → end_ < ar_size a →
  read a end_ no_entry = Some (NONE, c2, e2) → name_of e2 = TRAILER →
  all_zero (bytes a) c2 (Z.to_nat (ar_size a - c2)) = Some true →
  (length l < fuel)%nat → validate_from fuel a c = Some (NONE, end_).
Proof.
  induction l as [|e l IH]; intros fuel c l0 end_ c2 e2 H0 Hl Hc Hnd Htr Hend Hr2 Hn2 Hz Hf;
    (destruct fuel as [|fuel]; [simpl in Hf; lia|]); cbn [validate_from]; inversion Hl; subst.
  - rewrite decide_True by done. rewrite Hr2. cbn [mbind option_bind]. rewrite decide_False by tauto.
    unfold is_trailer, lit. rewrite (StrEq_names a e2) by (apply trailer_no_nul || eauto using read_good).
    cbn [mbind option_bind]. fold TRAILER. by rewrite Hn2, bool_decide_true, Hz.
  - match goal with H : read a c no_entry = Some (NONE, ?c', e), H2 : chain a ?c' l end_ |- _ =>
      rename H into Hr; rename H2 into Hl'; rename c' into c1 end.
    pose proof (read_good a Hsize _ _ _ Hc Hr) as Hok. pose proof (ro_cursor _ _ _ _ Hok).
    pose proof (chain_bounds a Hsize _ _ _ Hl' ltac:(lia)) as [Hb _].
    rewrite decide_True, Hr by lia. cbn [mbind option_bind]. rewrite decide_False by tauto.
    unfold names in Hnd, Htr. rewrite fmap_app in Hnd, Htr. cbn [fmap list_fmap] in Hnd, Htr.
    unfold is_trailer, lit. rewrite (StrEq_names a e) by (apply trailer_no_nul || eauto).
    cbn [mbind option_bind]. fold TRAILER.
    rewrite bool_decide_false by (intros E; apply Htr; rewrite <-E; set_solver).
    rewrite (check_duplicates_spec a Hsize e (S (length (bytes a))) ltac:(eauto) 0 l0 c H0)
      by (unfold ar_size in *; lia).
    cbn [mbind option_bind]. rewrite (decide_False (P := name_of e ∈ _))
      by (intros Hin; apply list.NoDup_app in Hnd as (_ & Hnd & _); by apply (Hnd (name_of e)); [|set_solver]).
    rewrite decide_False by tauto. apply (IH fuel c1 (l0 ++ [e]) end_ c2 e2); try done.
    + eapply chain_app; [exact H0|]. econstructor; [exact Hr|constructor].
    + lia.
    + unfold names. by rewrite <-app_assoc, fmap_app.
    + unfold names. by rewrite <-app_assoc, fmap_app.
    + simpl in Hf. lia.
Qed.
End archive.
