(* ===== verification/CpioProps.v ===== *)
(** * The boot archive: what the reader promises *)
From S2P Require Import Prelude Memory Machine Strings Cpio CpioSpec CpioEncode.

(** [f] lies inside the archive. *)
Definition file_inside (a : Archive) (f : File) : Prop :=
  ∃ off, data f = m_data a ⊞ off ∧ 0 ≤ off ∧ 0 ≤ f_size f ∧ off + f_size f ≤ ar_size a.

Lemma head_filter_elem p l e : head (filter (is_file p) l) = Some e → e ∈ l ∧ is_file p e.
Proof.
  intros H. destruct (filter (is_file p) l) as [|e' l'] eqn:E; [done|]. injection H as ->.
  assert (Hin : e ∈ filter (is_file p) l) by (rewrite E; apply elem_of_cons; by left).
  apply list_elem_of_filter in Hin. tauto.
Qed.

Lemma wf_inside a l e : well_formed a l → e ∈ l → file_inside a (file e).
Proof.
  intros Hwf He. pose proof (chain_good a (wf_size _ _ Hwf) _ _ _ (wf_chain _ _ Hwf) ltac:(lia)) as Hg.
  rewrite list.Forall_forall in Hg. destruct (Hg e He) as (c1 & c2 & Hc1 & Hc2 & Hok).
  destruct (ro_file _ _ _ _ Hok) as (off & Hd & Ho & Hs & Hl). exists off.
  pose proof (wf_end _ _ Hwf). split_and!; [done|lia|done|lia].
Qed.



(** C26: the path check accepts exactly the relative paths that stay below the root: "." alone,
    or components none of which is empty, "." or "..". *)
Theorem validPath_correct s rest (Hs : no_nul s) :
  validPath (cstr s rest) = Some (bool_decide (s = str "." ∨
    Forall (λ w, w ≠ [] ∧ w ≠ str "." ∧ w ≠ str "..") (split s))).
Proof. by apply validPath_cstr. Qed.

Lemma validPath_correct_witness :
  validPath (lit "linux/../Image") = Some (bool_decide (str "linux/../Image" = str "." ∨
    Forall (λ w, w ≠ [] ∧ w ≠ str "." ∧ w ≠ str "..") (split (str "linux/../Image")))).
Proof. apply (validPath_correct (str "linux/../Image") []). by repeat constructor. Defined.

(** The archive a set of items makes. *)
Definition items_ok (dat : Z) (l : list item) (extra : nat) : Prop :=
  dat ≠ 0 ∧ Forall item_ok l ∧ NoDup ((λ i, canon (it_name i)) <$> l) ∧
  0 < dat ∧ Z.of_nat (length (encode l extra)) ≤ UINTPTR_MAX - dat.

Lemma trailer_wf : item_wf trailer.
Proof.
  split.
  - apply trailer_no_nul.
  - right. vm_compute. repeat constructor; done.
  - by repeat constructor.
Qed.

Lemma names_entries dat d l es : Forall2 (entry_of dat d) l es → names es = (λ i, canon (it_name i)) <$> l.
Proof. induction 1 as [|i e l es He Hl IH]; [done|]. unfold names in *. cbn. by rewrite (eo_name _ _ _ _ He), IH. Qed.

Lemma encode_aligned l : Z.of_nat (length (concat (enc_item <$> l))) mod 4 = 0.
Proof.
  induction l as [|i l IH]; [done|]. cbn [fmap list_fmap concat].
  rewrite length_app, Nat2Z.inj_add, <-Zplus_mod_idemp_l, enc_item_aligned. exact IH.
Qed.

Lemma encode_zeros l extra (b := encode l extra)
    (n := (length (concat (enc_item <$> l)) + length (enc_item trailer))%nat) :
  all_zero b (Z.of_nat n) (Z.to_nat (Z.of_nat (length b) - Z.of_nat n)) = Some true.
Proof.
  unfold b, n, encode. rewrite app_assoc, <-length_app. set (p := _ ++ enc_item trailer).
  rewrite length_app, length_replicate, <-Nat2Z.inj_sub, Nat2Z.id by lia.
  replace (length p + extra - length p)%nat with extra by lia.
  rewrite <-(app_nil_r (replicate extra 0)). apply all_zero_enc.
Qed.

Lemma encode_valid dat l extra : items_ok dat l extra →
  ∃ a es, Archive_new dat (encode l extra) = Some a ∧ m_error a = NONE ∧ well_formed a es ∧
    Forall2 (entry_of dat (encode l extra)) l es.
Proof.
  intros (Hne & Hl & Hnd & Hpos & Hmax). set (d := encode l extra) in *.
  set (a := MkArchive dat d 0 INVALID_REGION). unfold UINTPTR_MAX in Hmax.
  assert (Hsize : ar_size a < 2 ^ 64) by (change (Z.of_nat (length d) < 2 ^ 64); lia).
  destruct (chain_encoded a Hsize l [] (enc_item trailer ++ replicate extra 0)) as (es & Hch & Hf); [done..|].
  set (end_ := Z.of_nat (length [] + length (concat (enc_item <$> l)))) in *.
  pose proof (encode_aligned l) as Halg. change (Z.of_nat (length (concat (enc_item <$> l)))) with end_ in Halg.
  destruct (read_encoded a trailer (concat (enc_item <$> l)) (replicate extra 0) Hsize eq_refl trailer_wf Halg)
    as (e2 & Hr2 & He2).
  change (verdict trailer) with NONE in Hr2. change (Z.of_nat (length (concat (enc_item <$> l)))) with end_ in Hr2.
  pose proof (names_entries _ _ _ _ Hf) as Hnames.
  assert (Htr : TRAILER ∉ names es).
  { rewrite Hnames. intros (i & Ei & Hi)%list_elem_of_fmap. rewrite list.Forall_forall in Hl.
    by apply (io_name _ (Hl i Hi)). }
  assert (Hend : end_ < ar_size a).
  { pose proof (ro_cursor _ _ _ _ (read_good a Hsize end_ _ _ ltac:(lia) Hr2)). lia. }
  assert (Hvalid : validate a = Some (NONE, end_)).
  { apply (validate_chain a Hsize es (S (length d)) 0 [] end_ (end_ + Z.of_nat (length (enc_item trailer))) e2
      (chain_nil _ _) Hch ltac:(lia)); try done.
    - by rewrite app_nil_l, Hnames.
    - by apply He2.
    - unfold end_. rewrite <-Nat2Z.inj_add. apply encode_zeros.
    - pose proof (chain_bounds a Hsize _ _ _ Hch ltac:(simpl; lia)) as [Hcb _]. simpl in Hcb.
      unfold ar_size in Hend. cbn [bytes a] in Hend. lia. }
  unfold Archive_new. fold a. rewrite decide_True.
  2: { split; [done|]. change (ar_size a ≤ UINTPTR_MAX ⊟ dat). unfold UINTPTR_MAX, u64. change (ar_size a) with (Z.of_nat (length d)).
       rewrite Z.mod_small by lia. lia. }
  rewrite Hvalid. cbn [mbind option_bind]. exists (MkArchive dat d end_ NONE), es. split_and!; [done..| |done].
  split; [done| | | |done].
  - by apply (chain_ext a).
  - by rewrite Hnames.
  - done.
Qed.

Lemma entry_is_file dat d i e p : entry_of dat d i e →
  is_file p e ↔ type_of (it_mode i) ≠ 0x4000 ∧ canon (it_name i) = p.
Proof.
  intros He. unfold is_file. rewrite (eo_name _ _ _ _ He), (eo_dir _ _ _ _ He).
  by rewrite bool_decide_eq_false.
Qed.

(** C25: what an archiver writes, the reader finds: an archive of items with proper, distinct
    paths validates, looking up the path of a regular file (written with or without "./")
    yields exactly its bytes, and looking up any other path yields nothing. *)
Theorem archive_round_trip dat l extra (Hok : items_ok dat l extra) :
  ∃ a, Archive_new dat (encode l extra) = Some a ∧ m_error a = NONE ∧ ∀ p rest, no_nul p →
    (∀ i, i ∈ l → type_of (it_mode i) = 0x8000 → canon p = canon (it_name i) →
      ∃ off, Find a (cstr p rest) = Some (true, MkFile (dat ⊞ off) (Z.of_nat (length (it_data i)))) ∧
        take (length (it_data i)) (drop (Z.to_nat off) (encode l extra)) = it_data i) ∧
    ((∀ i, i ∈ l → type_of (it_mode i) = 0x8000 → canon p ≠ canon (it_name i)) →
      Find a (cstr p rest) = Some (false, no_file)).
Proof.
  destruct (encode_valid dat l extra Hok) as (a & es & E & He & Hwf & Hf). exists a. split_and!; [done..|].
  intros p rest Hp. pose proof (wf_size _ _ Hwf) as Hsize. rewrite (Find_spec a Hsize He es p rest Hwf Hp).
  destruct Hok as (_ & Hl & _). rewrite list.Forall_forall in Hl. split.
  - intros i Hi Ht Hn. apply list_elem_of_lookup in Hi as [k Hk].
    destruct (Forall2_lookup_l _ _ _ _ _ Hf Hk) as (e & Hek & Hee).
    rewrite (found_unique es _ e (wf_names _ _ Hwf)); [|by eapply list_elem_of_lookup_2|].
    2: { apply (entry_is_file _ _ _ _ _ Hee). split; [by rewrite Ht|done]. }
    destruct (eo_data _ _ _ _ Hee) as (off & Hd & _ & Htake). exists off. split; [|done].
    cbn [found]. do 2 f_equal. destruct (file e) as [da sz] eqn:Ef. simpl in *.
    pose proof (eo_size _ _ _ _ Hee) as Hs. rewrite Ef in Hs. simpl in Hs. by rewrite Hd, Hs.
  - intros Hno. rewrite found_none; [done|]. intros e He' Hfe. apply list_elem_of_lookup in He' as [k Hk].
    destruct (Forall2_lookup_r _ _ _ _ _ Hf Hk) as (i & Hik & Hee).
    destruct (proj1 (entry_is_file _ _ _ _ _ Hee) Hfe) as [Ht Hn]. pose proof (list_elem_of_lookup_2 _ _ _ Hik) as Hi.
    apply (Hno i Hi); [|by symmetry]. destruct (io_type _ (Hl i Hi)) as [[? _]|[? _]]; done.
Qed.

(** A directory and a file, the way [find . | cpio -o -H newc] names them. *)
Definition linux_items : list item :=
  [MkItem (str "./linux") 0x41ED 2 [17] []; MkItem (str "./linux/Image") 0x81A4 1 [18; 1000] [1; 2; 3; 4; 5]].

Lemma linux_items_ok : items_ok 0x48000000 linux_items 200.
Proof.
  split_and!; try done.
  - constructor; [|constructor; [|constructor]].
    + split; [split| |by left].
      * by repeat constructor.
      * right. vm_compute. by repeat constructor.
      * by repeat constructor.
      * vm_compute. discriminate.
    + split; [split| |right; split_and!; [done|done|vm_compute; discriminate]].
      * by repeat constructor.
      * right. vm_compute. by repeat constructor.
      * by repeat constructor.
      * vm_compute. discriminate.
  - vm_compute. repeat constructor; set_solver.
Qed.

Lemma archive_round_trip_witness :
  ∃ a, Archive_new 0x48000000 (encode linux_items 200) = Some a ∧
    ∃ off, Find a (lit "linux/Image") = Some (true, MkFile (0x48000000 ⊞ off) 5) ∧
      take 5 (drop (Z.to_nat off) (encode linux_items 200)) = [1; 2; 3; 4; 5].
Proof.
  destruct (archive_round_trip 0x48000000 linux_items 200 linux_items_ok) as (a & E & _ & H). exists a.
  split; [exact E|]. destruct (H (str "linux/Image") []) as [H1 _]; [by repeat constructor|].
  apply (H1 (MkItem (str "./linux/Image") 0x81A4 1 [18; 1000] [1; 2; 3; 4; 5])).
  - apply elem_of_cons. right. by apply list_elem_of_singleton.
  - reflexivity.
  - reflexivity.
Defined.
