(* ===== verification/Fdt.v ===== *)
(** * The flattened device tree format (core/deviceTree/fdt.h) *)
From S2P Require Import Prelude Memory Machine.

(** The tokens' values. *)
Definition FDT_MAGIC : Z := 0xD00DFEED.
Definition FDT_BEGIN_NODE : Z := 1.
Definition FDT_END_NODE : Z := 2.
Definition FDT_PROP : Z := 3.
Definition FDT_NOP : Z := 4.
Definition FDT_END : Z := 9.

(** [std::byteswap] of a value of [n] bytes. *)
Fixpoint byteswap (n : nat) (x : Z) : Z :=
  match n with
  | O => 0
  | S n' => Z.lor (Z.shiftl (Z.land x 0xFF) (8 * Z.of_nat n')) (byteswap n' (x ≫ 8))
  end.
Definition Be32 (x : Z) : Z := byteswap 4 x.
Definition Be64 (x : Z) : Z := byteswap 8 x.

(** [struct FdtHeader]: ten 32-bit fields. *)
Definition FdtHeader_size : Z := 40.
Definition fh_magic (h : Z) : Z := h.
Definition fh_totalSize (h : Z) : Z := h + 4.
Definition fh_structOff (h : Z) : Z := h + 8.
Definition fh_stringsOff (h : Z) : Z := h + 12.
Definition fh_memRsvMapOff (h : Z) : Z := h + 16.
Definition fh_sizeStrings (h : Z) : Z := h + 32.
Definition fh_sizeStructs (h : Z) : Z := h + 36.

(** [struct FdtProp] *)
Definition FdtProp_size : Z := 8.

(** A big endian cell in memory. *)
Definition be32 (m : gmap Z Z) (a : Z) : Z := Be32 (load32 m a).
Definition ld_be32 (a : Z) : M machine Z := gets (λ s, be32 (mc_mem s) a).

Definition FdtAlign (ptr bytes : Z) : Z := Z.land (ptr ⊞ bytes ⊞ 3) (not64 3).

(** [while (n < limit && p[n] != 0) ++n], started at 0. *)
Fixpoint strnlen (m : gmap Z Z) (p : Z) (limit : nat) : Z :=
  match limit with
  | O => 0
  | S limit' => if decide (load8 m p = 0) then 0 else 1 + strnlen m (p + 1) limit'
  end.
Definition ld_strnlen (p limit : Z) : M machine Z := gets (λ s, strnlen (mc_mem s) p (Z.to_nat limit)).

(** The bytes from [p], [n] of them: what a pointer into a buffer can read. *)
Fixpoint bytes_at (m : gmap Z Z) (p : Z) (n : nat) : list Z :=
  match n with O => [] | S n' => load8 m p :: bytes_at m (p + 1) n' end.
Definition ld_bytes (p n : Z) : M machine (list Z) := gets (λ s, bytes_at (mc_mem s) p (Z.to_nat n)).

(** A result that [None] leaves undefined. *)
Definition defined {S A} (o : option A) : M S A :=
  match o with Some a => mret a | None => stop Undefined end.

(** ** Facts about the format *)

Lemma byteswap_range n : ∀ x, 0 ≤ byteswap n x < 2 ^ (8 * Z.of_nat n).
Proof.
  induction n as [|n IH]; intros x; [done|]. cbn [byteswap]. specialize (IH (x ≫ 8)).
  change 0xFF with (Z.ones 8). rewrite Z.land_ones, Z.shiftl_mul_pow2 by lia.
  pose proof (Z.mod_pos_bound x (2 ^ 8)). rewrite (lor_low _ _ (8 * Z.of_nat n)); [|lia|by rewrite Z.mod_mul by lia|lia].
  replace (8 * Z.of_nat (S n)) with (8 + 8 * Z.of_nat n) by lia. rewrite Z.pow_add_r by lia. nia.
Qed.

Lemma be32_range m a : 0 ≤ be32 m a < 2 ^ 32.
Proof. apply (byteswap_range 4). Qed.

Lemma strnlen_bounds m n : ∀ p, 0 ≤ strnlen m p n ≤ Z.of_nat n.
Proof. induction n as [|n IH]; intros p; cbn [strnlen]; [lia|]. case_decide; [lia|]. specialize (IH (p + 1)). lia. Qed.

(** Found before the limit, the string ends there, and its bytes are a C string. *)
Lemma strnlen_nul m n : ∀ p, strnlen m p n < Z.of_nat n → load8 m (p + strnlen m p n) = 0.
Proof.
  induction n as [|n IH]; intros p; cbn [strnlen]; [lia|]. case_decide as E.
  - intros _. by rewrite Z.add_0_r.
  - intros H. replace (p + (1 + strnlen m (p + 1) n)) with (p + 1 + strnlen m (p + 1) n) by lia. apply IH. lia.
Qed.

Lemma length_bytes_at m n : ∀ p, length (bytes_at m p n) = n.
Proof. induction n as [|n IH]; intros p; cbn [bytes_at length]; [done|]. by rewrite IH. Qed.

Lemma bytes_at_app m n1 n2 : ∀ p, bytes_at m p (n1 + n2) = bytes_at m p n1 ++ bytes_at m (p + Z.of_nat n1) n2.
Proof.
  induction n1 as [|n1 IH]; intros p; cbn [bytes_at app Nat.add]; [by rewrite Z.add_0_r|].
  rewrite IH. do 3 f_equal. lia.
Qed.

Lemma bytes_at_agree m m' n : ∀ p, (∀ x, p ≤ x < p + Z.of_nat n → load8 m' x = load8 m x) →
  bytes_at m' p n = bytes_at m p n.
Proof.
  induction n as [|n IH]; intros p H; cbn [bytes_at]; [done|]. rewrite (H p), IH; [done| |lia]. intros x Hx. apply H. lia.
Qed.

Lemma strnlen_no_nul m n : ∀ p, Forall (λ c, c ≠ 0) (bytes_at m p (Z.to_nat (strnlen m p n))).
Proof.
  induction n as [|n IH]; intros p; cbn [strnlen]; [constructor|]. case_decide as E; [constructor|].
  pose proof (strnlen_bounds m n (p + 1)). rewrite Z2Nat.inj_add, (Nat.add_1_l) by lia. by constructor.
Qed.

(** The string of [strnlen] bytes at [p], in a buffer of [n]. *)
Lemma bytes_cstr m p n : strnlen m p n < Z.of_nat n →
  ∃ rest, bytes_at m p n = bytes_at m p (Z.to_nat (strnlen m p n)) ++ 0 :: rest.
Proof.
  intros H. pose proof (strnlen_bounds m n p). pose proof (strnlen_nul m n p H) as Hz.
  set (k := strnlen m p n) in *. exists (bytes_at m (p + k + 1) (n - Z.to_nat k - 1)).
  replace n with (Z.to_nat k + S (n - Z.to_nat k - 1))%nat at 1 by lia. rewrite bytes_at_app. cbn [bytes_at].
  rewrite Z2Nat.id by lia. by rewrite Hz.
Qed.

Lemma FdtAlign_eq p n : 0 ≤ p → 0 ≤ n → p + n + 3 < 2 ^ 64 →
  p + n ≤ FdtAlign p n < p + n + 4 ∧ FdtAlign p n mod 4 = 0.
Proof.
  intros Hp Hn Hb. unfold FdtAlign, u64. rewrite (Z.mod_small (p + n)), (Z.mod_small (p + n + 3)) by lia.
  assert (E : Z.land (p + n + 3) (not64 3) = p + n + 3 - (p + n + 3) mod 4).
  { unfold not64. replace (2 ^ 64 - 1 - 3) with (Z.ldiff (Z.ones 64) (Z.ones 2)) by done.
    change 4 with (2 ^ 2). rewrite <-ldiff_ones, !Z.ldiff_land, Z.land_assoc by lia.
    f_equal. rewrite Z.land_ones by lia. apply Z.mod_small. lia. }
  rewrite E. pose proof (Z.mod_pos_bound (p + n + 3) 4). split; [lia|].
  rewrite Zminus_mod_idemp_r, Z.sub_diag. done.
Qed.
