(* ===== verification/BootLoader.v ===== *)
(** * Loading the Linux guest from the archive (core/bootLoader) *)
From S2P Require Import Prelude Memory Machine Pmm Strings PageTable HostMmu Cpio Fdt.

Definition GUEST_IPA_BASE : Z := 0x40000000.
Definition GUEST_RAM_SIZE : Z := 256 * 1024 * 1024.
Definition KERNEL_LOAD_IPA : Z := GUEST_IPA_BASE + 0x200000.

Definition ALIGN_64K : Z := 64 * 1024.
Definition ALIGN_2MB : Z := 2 * 1024 * 1024.

(** [std::bit_width(x)]: the bits needed to write [x]. *)
Definition bit_width (x : Z) : Z := if decide (x = 0) then 0 else Z.log2 x + 1.
Definition GUEST_RAM_ORDER : nat := Z.to_nat (bit_width ((GUEST_RAM_SIZE ≫ PAGE_SHIFT) - 1)).

Definition align4 (value : Z) : Z := Z.land (value ⊞ 3) (not64 3).
Definition alignDown (value alignment : Z) : Z := Z.land value (not64 (alignment - 1)).

Definition storeBe64 (dst value : Z) : M machine unit := st64 dst (Be64 value).

Record GuestFiles : Set := MkGuestFiles {
  g_kernel : File;
  g_dtb : File;
  g_initrd : File;
}.

Record GuestLayout : Set := MkGuestLayout {
  l_ramHostPa : Z;
  kernelIpa : Z;
  kernelSize : Z;
  dtbIpa : Z;
  l_dtbSize : Z;
  initrdIpa : Z;
  initrdSize : Z;
}.
Definition no_layout : GuestLayout := MkGuestLayout 0 0 0 0 0 0 0.

Definition IpaToHostPa (l : GuestLayout) (ipa : Z) : Z := l_ramHostPa l ⊞ (ipa ⊟ GUEST_IPA_BASE).

(** ** The guest tree patcher *)

Inductive Node : Set := OTHER | MEMORY | CHOSEN.
#[export] Instance Node_eq_dec : EqDecision Node.
Proof. solve_decision. Defined.

Record Placeholder : Set := MkPlaceholder {
  ph_node : Node;
  ph_name : list Z;
  ph_length : Z;
  ph_values : list Z;
  ph_found : bool;
}.

Record DtbPatcher : Set := MkDtbPatcher {
  dp_base : Z;
  dp_dtbSize : Z;
  dp_cursor : Z;
  dp_structEnd : Z;
  dp_stringsOff : Z;
  dp_stringsSize : Z;
  dp_depth : Z;
  dp_hasRoot : bool;
  dp_node : Node;
  dp_placeholders : list Placeholder;
}.

Definition set_blocks (c e o sz : Z) (p : DtbPatcher) : DtbPatcher :=
  MkDtbPatcher (dp_base p) (dp_dtbSize p) c e o sz (dp_depth p) (dp_hasRoot p) (dp_node p) (dp_placeholders p).
Definition set_cursor (c : Z) (p : DtbPatcher) : DtbPatcher :=
  set_blocks c (dp_structEnd p) (dp_stringsOff p) (dp_stringsSize p) p.
Definition set_walk (d : Z) (r : bool) (n : Node) (p : DtbPatcher) : DtbPatcher :=
  MkDtbPatcher (dp_base p) (dp_dtbSize p) (dp_cursor p) (dp_structEnd p) (dp_stringsOff p) (dp_stringsSize p)
    d r n (dp_placeholders p).
Definition set_placeholders (l : list Placeholder) (p : DtbPatcher) : DtbPatcher :=
  MkDtbPatcher (dp_base p) (dp_dtbSize p) (dp_cursor p) (dp_structEnd p) (dp_stringsOff p) (dp_stringsSize p)
    (dp_depth p) (dp_hasRoot p) (dp_node p) l.

Definition DtbPatcher_new (dtb : Z) (layout : GuestLayout) : DtbPatcher :=
  MkDtbPatcher dtb (l_dtbSize layout) 0 0 0 0 0 false OTHER
    [MkPlaceholder MEMORY (lit "reg") 16 [GUEST_IPA_BASE; GUEST_RAM_SIZE] false;
     MkPlaceholder CHOSEN (lit "linux,initrd-start") 8 [initrdIpa layout; 0] false;
     MkPlaceholder CHOSEN (lit "linux,initrd-end") 8 [initrdIpa layout ⊞ initrdSize layout; 0] false].

(** The operations return [None] where the code returns [false]. *)

Definition inBounds (total off sz : Z) : bool :=
  bool_decide (FdtHeader_size ≤ off) && bool_decide (off ≤ total) && bool_decide (sz ≤ total ⊟ off).

Definition readHeader (p : DtbPatcher) : M machine (option DtbPatcher) :=
  if decide (dp_dtbSize p < FdtHeader_size) then mret None
  else
    let h := dp_base p in
    magic ← ld_be32 (fh_magic h);
    total ← ld_be32 (fh_totalSize h);
    structOff ← ld_be32 (fh_structOff h);
    structSize ← ld_be32 (fh_sizeStructs h);
    stringsOff ← ld_be32 (fh_stringsOff h);
    stringsSize ← ld_be32 (fh_sizeStrings h);
    if decide (magic ≠ FDT_MAGIC ∨ total < FdtHeader_size ∨ dp_dtbSize p < total) then mret None
    else if negb (inBounds total structOff structSize) || bool_decide (Z.land structOff 3 ≠ 0) ||
        negb (inBounds total stringsOff stringsSize) then mret None
    else
      let structEnd := structOff ⊞ structSize in
      let p := set_blocks structOff structEnd stringsOff stringsSize p in
      if decide (stringsOff ⊞ stringsSize ≤ structOff ∨ structEnd ≤ stringsOff) then mret (Some p)
      else mret None.

(** Which node a name at depth 1 is. *)
Definition node_of (name : list Z) : option Node :=
  memory ← StrEq name (lit "memory");
  if (memory : bool) then Some MEMORY
  else
    at_ ← StrStartsWith name (lit "memory@");
    if (at_ : bool) then Some MEMORY
    else
      chosen ← StrEq name (lit "chosen");
      Some (if (chosen : bool) then CHOSEN else OTHER).

Definition beginNode (p : DtbPatcher) : M machine (option DtbPatcher) :=
  let nameOff := dp_cursor p in
  len ← ld_strnlen (dp_base p ⊞ nameOff) (dp_structEnd p - nameOff);
  let cursor := nameOff ⊞ len in
  if decide (cursor = dp_structEnd p) then mret None
  else
    name ← ld_bytes (dp_base p ⊞ nameOff) (dp_structEnd p - nameOff);
    w ← (if decide (dp_depth p = 0) then
           c ← defined (head name);
           mret (if decide (dp_hasRoot p = true ∨ c ≠ 0) then None else Some (true, dp_node p))
         else if decide (dp_depth p = 1) then
           n ← defined (node_of name);
           mret (Some (dp_hasRoot p, n))
         else mret (Some (dp_hasRoot p, dp_node p)));
    match w with
    | None => mret None
    | Some (root, node) =>
        mret (Some (set_cursor (align4 (cursor ⊞ 1)) (set_walk (u32 (dp_depth p + 1)) root node p)))
    end.

(** [for (i = 0; i < length / 8; ++i) storeBe64(value + 8 * i, values[i])] *)
Fixpoint store_values (value i : Z) (values : list Z) (n : nat) : M machine unit :=
  match n with
  | O => mret tt
  | S n' =>
      v ← defined (values !! Z.to_nat i);
      storeBe64 (value ⊞ i ⊠ 8) v;;
      store_values value (i + 1) values n'
  end.

Fixpoint patch (node : Node) (name : list Z) (value len : Z) (l : list Placeholder) :
    M machine (option (list Placeholder)) :=
  match l with
  | [] => mret (Some [])
  | ph :: rest =>
      same ← (if decide (ph_node ph ≠ node) then mret false else defined (StrEq name (ph_name ph)));
      if negb same then
        r ← patch node name value len rest;
        mret (match r with Some l' => Some (ph :: l') | None => None end)
      else if decide (ph_found ph = true ∨ len ≠ ph_length ph) then mret None
      else
        store_values value 0 (ph_values ph) (Z.to_nat (len / 8));;
        mret (Some (MkPlaceholder (ph_node ph) (ph_name ph) (ph_length ph) (ph_values ph) true :: rest))
  end.

Definition property (p : DtbPatcher) : M machine (option DtbPatcher) :=
  if decide (dp_depth p = 0 ∨ dp_structEnd p ⊟ dp_cursor p < FdtProp_size) then mret None
  else
    len ← ld_be32 (dp_base p ⊞ dp_cursor p);
    nameOff ← ld_be32 (dp_base p ⊞ dp_cursor p ⊞ 4);
    let cursor := dp_cursor p ⊞ FdtProp_size in
    if decide (dp_structEnd p ⊟ cursor < len ∨ dp_stringsSize p ≤ nameOff) then mret None
    else
      let name_at := dp_base p ⊞ dp_stringsOff p ⊞ nameOff in
      nameLen ← ld_strnlen name_at (dp_stringsSize p - nameOff);
      if decide (nameOff + nameLen = dp_stringsSize p) then mret None
      else
        name ← ld_bytes name_at (dp_stringsSize p - nameOff);
        let value := dp_base p ⊞ cursor in
        let p := set_cursor (align4 (cursor ⊞ len)) p in
        if decide (dp_depth p ≠ 2) then mret (Some p)
        else
          r ← patch (dp_node p) name value len (dp_placeholders p);
          mret (match r with Some l => Some (set_placeholders l p) | None => None end).

Definition finish (p : DtbPatcher) : bool :=
  dp_hasRoot p && bool_decide (dp_depth p = 0) && forallb ph_found (dp_placeholders p).

Definition continue_with (r : option DtbPatcher) : DtbPatcher + bool :=
  match r with Some p => inl p | None => inr false end.

Definition patch_step (p : DtbPatcher) : M machine (DtbPatcher + bool) :=
  if decide (dp_cursor p ≤ dp_structEnd p ∧ 4 ≤ dp_structEnd p ⊟ dp_cursor p) then
    token ← ld_be32 (dp_base p ⊞ dp_cursor p);
    let p := set_cursor (dp_cursor p ⊞ 4) p in
    if decide (token = FDT_BEGIN_NODE) then r ← beginNode p; mret (continue_with r)
    else if decide (token = FDT_END_NODE) then
      if decide (dp_depth p = 0) then mret (inr false)
      else
        let depth := dp_depth p - 1 in
        mret (inl (set_walk depth (dp_hasRoot p) (if decide (depth = 1) then OTHER else dp_node p) p))
    else if decide (token = FDT_PROP) then r ← property p; mret (continue_with r)
    else if decide (token = FDT_NOP) then mret (inl p)
    else if decide (token = FDT_END) then mret (inr (finish p))
    else mret (inr false)
  else mret (inr false).

(** Every pass moves the cursor by a token at least. *)
Definition DtbPatcher_Run (p : DtbPatcher) : M machine bool :=
  r ← readHeader p;
  match r with
  | None => mret false
  | Some p => loop (S (Z.to_nat (dp_structEnd p))) patch_step p
  end.

(** ** The loader *)

Definition ReadFiles (archive : Archive) : option (bool * GuestFiles) :=
  let none := MkGuestFiles no_file no_file no_file in
  if decide (m_error archive ≠ NONE) then Some (false, none)
  else
    '(ok, kernel) ← Find archive (lit "linux/Image");
    if negb ok || bool_decide (f_size kernel = 0) then Some (false, MkGuestFiles kernel no_file no_file)
    else
      '(ok, dtb) ← Find archive (lit "linux/guest.dtb");
      if negb ok || bool_decide (f_size dtb = 0) then Some (false, MkGuestFiles kernel dtb no_file)
      else
        '(ok, initrd) ← Find archive (lit "linux/initrd");
        Some (negb (ok && bool_decide (f_size initrd = 0)), MkGuestFiles kernel dtb initrd).

Definition CalculateLayout (files : GuestFiles) : bool * GuestLayout :=
  if decide (f_size (g_kernel files) = 0 ∨ f_size (g_dtb files) = 0) then (false, no_layout)
  else if decide (2 ^ 64 ≤ KERNEL_LOAD_IPA + f_size (g_kernel files)) then (false, no_layout)
  else
    let kernelEnd := KERNEL_LOAD_IPA + f_size (g_kernel files) in
    let top := GUEST_IPA_BASE + GUEST_RAM_SIZE in
    let initrd :=
      if decide (f_size (g_initrd files) ≠ 0) then
        if decide (top < f_size (g_initrd files)) then None
        else
          let initrdIpa := alignDown (top ⊟ f_size (g_initrd files)) ALIGN_2MB in
          if decide (initrdIpa < kernelEnd) then None else Some (initrdIpa, initrdIpa)
      else Some (0, top) in
    match initrd with
    | None => (false, no_layout)
    | Some (initrdIpa, top) =>
        if decide (top < f_size (g_dtb files)) then (false, no_layout)
        else
          let dtbIpa := alignDown (top ⊟ f_size (g_dtb files)) ALIGN_64K in
          if decide (dtbIpa < kernelEnd) then (false, no_layout)
          else (true, MkGuestLayout 0 KERNEL_LOAD_IPA (f_size (g_kernel files)) dtbIpa (f_size (g_dtb files))
                 initrdIpa (f_size (g_initrd files)))
    end.

Definition with_ram (pa : Z) (l : GuestLayout) : GuestLayout :=
  MkGuestLayout pa (kernelIpa l) (kernelSize l) (dtbIpa l) (l_dtbSize l) (initrdIpa l) (initrdSize l).

Definition copyToGuest (layout : GuestLayout) (ipa : Z) (file : File) : M machine unit :=
  let dest := PaToVa (IpaToHostPa layout ipa) in
  memcpy dest (data file) (f_size file);;
  CleanDataCacheRange dest (f_size file).

(** The [unique_ptr] gives guest RAM back on the failing path. *)
Definition Load (archive : Archive) : M machine (bool * GuestLayout) :=
  '(ok, files) ← defined (ReadFiles archive);
  let '(fits, layout) := CalculateLayout files in
  if negb (ok && fits) then mret (false, no_layout)
  else
    ram ← AllocPages GUEST_RAM_ORDER;
    let layout := with_ram ram layout in
    if decide (ram = 0) then mret (false, no_layout)
    else
      copyToGuest layout (kernelIpa layout) (g_kernel files);;
      copyToGuest layout (dtbIpa layout) (g_dtb files);;
      let guestDtb := PaToVa (IpaToHostPa layout (dtbIpa layout)) in
      patched ← DtbPatcher_Run (DtbPatcher_new guestDtb layout);
      if negb patched then FreePages ram GUEST_RAM_ORDER;; mret (false, no_layout)
      else
        CleanDataCacheRange guestDtb (l_dtbSize layout);;
        when (bool_decide (f_size (g_initrd files) ≠ 0))
          (copyToGuest layout (initrdIpa layout) (g_initrd files));;
        mret (true, layout).
