(* ===== verification/LayoutSpec.v ===== *)
(** * Where the guest's files may go, and what [CalculateLayout] chooses *)
From S2P Require Import Prelude Memory Machine Pmm Strings PageTable MmioMap HostMmu Cpio Fdt.
From S2P Require Import BootLoader.

Definition guest_top : Z := GUEST_IPA_BASE + GUEST_RAM_SIZE.
Definition kernel_end (files : GuestFiles) : Z := KERNEL_LOAD_IPA + f_size (g_kernel files).

(** The sizes are unsigned 64-bit. *)
Definition sizes_fit (files : GuestFiles) : Prop :=
  fits 64 (f_size (g_kernel files)) ∧ fits 64 (f_size (g_dtb files)) ∧ fits 64 (f_size (g_initrd files)).

(** A legal placement: kernel at its load address, then the tree at a 64 KiB boundary, then the
    initrd, if there is one, at a 2 MiB boundary, one after the other inside guest RAM. *)
Record placed (files : GuestFiles) (l : GuestLayout) : Prop := {
  pl_kernel : kernelIpa l = KERNEL_LOAD_IPA ∧ kernelSize l = f_size (g_kernel files) ∧ 0 < kernelSize l;
  pl_dtb : l_dtbSize l = f_size (g_dtb files) ∧ 0 < l_dtbSize l ∧ dtbIpa l mod ALIGN_64K = 0;
  pl_initrd : initrdSize l = f_size (g_initrd files) ∧ initrdIpa l mod ALIGN_2MB = 0;
  pl_before_dtb : kernelIpa l + kernelSize l ≤ dtbIpa l;
  pl_after_dtb : dtbIpa l + l_dtbSize l ≤ if decide (initrdSize l = 0) then guest_top else initrdIpa l;
  pl_top : if decide (initrdSize l = 0) then initrdIpa l = 0 else initrdIpa l + initrdSize l ≤ guest_top;
}.

Lemma alignDown_eq x n : 0 ≤ n ≤ 64 → fits 64 x → alignDown x (2 ^ n) = x - x mod 2 ^ n.
Proof. exact (align_down_eq x n). Qed.

(** The highest aligned address at or below [x]. *)
Lemma aligned_below x y n : 0 ≤ n → y mod 2 ^ n = 0 → y ≤ x → y ≤ x - x mod 2 ^ n.
Proof.
  intros Hn Hy Hle. pose proof (Z.pow_pos_nonneg 2 n). pose proof (Z.div_mod x (2 ^ n)).
  pose proof (Z.div_mod y (2 ^ n)). pose proof (Z.mod_pos_bound x (2 ^ n)).
  pose proof (Z.div_le_mono y x (2 ^ n)). nia.
Qed.

Lemma aligned_sub_mod x n : 0 ≤ n → (x - x mod 2 ^ n) mod 2 ^ n = 0.
Proof. intros Hn. pose proof (Z.pow_pos_nonneg 2 n). by rewrite Zminus_mod_idemp_r, Z.sub_diag. Qed.

(** Placing one file of [sz] bytes under [top], above [low]. *)
Lemma place_under top sz low n : 0 ≤ n ≤ 64 → 0 ≤ sz ≤ top → top < 2 ^ 64 → 0 ≤ low →
  let a := alignDown (top ⊟ sz) (2 ^ n) in
  a mod 2 ^ n = 0 ∧ a + sz ≤ top ∧ (a < low → ∀ b, b mod 2 ^ n = 0 → b + sz ≤ top → b < low) ∧
  (∀ b, b mod 2 ^ n = 0 → b + sz ≤ top → b ≤ a).
Proof.
  intros Hn Hs Ht Hl a. assert (Ha : a = (top - sz) - (top - sz) mod 2 ^ n).
  { unfold a, u64. rewrite Z.mod_small by lia. apply alignDown_eq; [done|unfold fits; lia]. }
  pose proof (Z.pow_pos_nonneg 2 n). pose proof (Z.mod_pos_bound (top - sz) (2 ^ n)).
  assert (Hbest : ∀ b, b mod 2 ^ n = 0 → b + sz ≤ top → b ≤ a).
  { intros b Hb Hle. rewrite Ha. apply aligned_below; lia. }
  split_and!; [rewrite Ha; apply aligned_sub_mod; lia|lia| |done].
  intros Hlow b Hb Hle. specialize (Hbest b Hb Hle). lia.
Qed.

(** The facts of a legal placement [l'] of files with a given initrd size. *)
Ltac open_placement :=
  intros l' [(? & ? & _) (? & ? & Hal') (? & Hal) ? Ha Hb];
  cbn [snd g_kernel g_initrd g_dtb f_size dtbIpa initrdIpa] in *;
  first [rewrite decide_False in Ha by lia; rewrite decide_False in Hb by lia
        |rewrite decide_True in Ha by lia; rewrite decide_True in Hb by lia];
  repeat match goal with
    | H : ∀ b, b mod ALIGN_2MB = 0 → _ |- _ => specialize (H (initrdIpa l') Hal)
    | H : ∀ b, b mod ALIGN_64K = 0 → _ |- _ => specialize (H (dtbIpa l') Hal')
    end;
  lia.
(** No legal placement at all: the code returns [false]. *)
Ltac no_placement := split; [done|open_placement].
Ltac legal_placement :=
  split; cbn [snd g_kernel g_initrd g_dtb f_size kernelIpa kernelSize l_dtbSize dtbIpa initrdIpa initrdSize];
  first [rewrite ?decide_False by lia; split_and?; (done || lia)|rewrite ?decide_True by lia; split_and?; (done || lia)].

(** [CalculateLayout] succeeds when there is a legal placement, with the highest one. *)
Definition layout_chosen (files : GuestFiles) (r : bool * GuestLayout) : Prop :=
  if r.1 then
    placed files r.2 ∧ l_ramHostPa r.2 = 0 ∧
    ∀ l', placed files l' → dtbIpa l' ≤ dtbIpa r.2 ∧ initrdIpa l' ≤ initrdIpa r.2
  else r.2 = no_layout ∧ ∀ l', ¬ placed files l'.

Lemma CalculateLayout_spec files : sizes_fit files → layout_chosen files (CalculateLayout files).
Proof.
  destruct files as [[kd k] [dd d] [rd r]]. unfold sizes_fit, fits. cbn [g_kernel g_dtb g_initrd f_size].
  intros (Hk & Hd & Hr). unfold CalculateLayout, layout_chosen. cbn [g_kernel g_dtb g_initrd f_size].
  assert (Hlow : KERNEL_LOAD_IPA = 0x40200000) by done. assert (Htop : guest_top = 0x50000000) by done.
  fold guest_top. case_decide as E0.
  { split; [done|]. intros l' [(_ & ? & ?) (? & ? & _) _ _ _ _]. cbn [g_kernel g_dtb f_size] in *. lia. }
  case_decide as E1.
  { split; [done|]. intros l' [(? & ? & _) (? & ? & _) (? & _) ? Ha Hb]. cbn [g_kernel g_initrd f_size] in *.
    repeat case_decide; lia. }
  destruct (decide (r = 0)) as [-> |Er].
  - rewrite (decide_False (P := 0 ≠ 0)) by tauto. case_decide as E4; [no_placement|].
    destruct (place_under guest_top d (KERNEL_LOAD_IPA + k) 16) as (Hm' & Hfit' & Hno' & Hbest'); [lia..|].
    change (2 ^ 16) with ALIGN_64K in *. set (da := alignDown (guest_top ⊟ d) ALIGN_64K) in *.
    case_decide as E5; [specialize (Hno' E5); no_placement|].
    split_and!; [legal_placement|done|]. open_placement.
  - rewrite (decide_True (P := r ≠ 0)) by done. case_decide as E2; [no_placement|].
    destruct (place_under guest_top r (KERNEL_LOAD_IPA + k) 21) as (Hm & Hfit & Hno & Hbest); [lia..|].
    change (2 ^ 21) with ALIGN_2MB in *. set (ra := alignDown (guest_top ⊟ r) ALIGN_2MB) in *.
    case_decide as E3; [specialize (Hno E3); no_placement|]. case_decide as E4; [no_placement|].
    destruct (place_under ra d (KERNEL_LOAD_IPA + k) 16) as (Hm' & Hfit' & Hno' & Hbest'); [lia..|].
    change (2 ^ 16) with ALIGN_64K in *. set (da := alignDown (ra ⊟ d) ALIGN_64K) in *.
    case_decide as E5; [specialize (Hno' E5); no_placement|].
    split_and!; [legal_placement|done|]. open_placement.
Qed.
