(* ===== verification/PatchSpec.v ===== *)
(** * The guest tree patcher against the tokens of the structure block *)
From S2P Require Import Prelude Memory Machine Pmm Strings PageTable HostMmu Cpio Fdt BootLoader.
From S2P Require Import LayoutSpec.

(** ** The tokens of a structure block, as data *)

(** A property keeps its name and where its value lies. *)
Record prop : Set := MkProp {
  p_name : list Z;
  p_off : Z;
  p_len : Z;
}.

Inductive token : Set :=
  | TBegin (name : list Z)
  | TEnd
  | TProp (p : prop)
  | TNop
  | TStop.

#[export] Instance prop_eq_dec : EqDecision prop.
Proof. solve_decision. Defined.
#[export] Instance token_eq_dec : EqDecision token.
Proof. solve_decision. Defined.

(** A validated blob: offsets from [b_base], the structure block ends at [b_end]. *)
Record blob : Set := MkBlob {
  b_base : Z;
  b_struct : Z;
  b_end : Z;
  b_strings : Z;
  b_stringsSize : Z;
}.

Record blob_ok (b : blob) : Prop := {
  bo_base : 0 ≤ b_base b;
  bo_struct : 0 ≤ b_struct b ≤ b_end b;
  bo_strings : 0 ≤ b_strings b ∧ 0 ≤ b_stringsSize b;
  bo_small : b_end b < 2 ^ 33 ∧ b_strings b + b_stringsSize b < 2 ^ 33;
  bo_top : b_base b + b_end b < 2 ^ 64 ∧ b_base b + b_strings b + b_stringsSize b < 2 ^ 64;
  bo_apart : b_strings b + b_stringsSize b ≤ b_struct b ∨ b_end b ≤ b_strings b;
}.

(** [x] rounded up to a multiple of 4. *)
Definition up4 (x : Z) : Z := x + (- x) mod 4.

Lemma up4_bounds x : x ≤ up4 x < x + 4.
Proof. unfold up4. pose proof (Z.mod_pos_bound (- x) 4). lia. Qed.

Lemma align4_eq x : 0 ≤ x → x + 3 < 2 ^ 64 → align4 x = up4 x.
Proof.
  intros Hx Hb. unfold align4, u64. rewrite Z.mod_small by lia.
  change (Z.land (x + 3) (not64 3)) with (alignDown (x + 3) (2 ^ 2)).
  rewrite alignDown_eq by (unfold fits; lia). unfold up4. change (2 ^ 2) with 4.
  pose proof (Z.div_mod (x + 3) 4). pose proof (Z.mod_pos_bound (x + 3) 4). pose proof (Z.mod_pos_bound (- x) 4).
  assert ((- x) mod 4 = 3 - (x + 3) mod 4); [|lia].
  symmetry. apply Z.mod_unique with (q := - ((x + 3) / 4)); lia.
Qed.

Section tokens.
Context (m : gmap Z Z) (b : blob).

(** The NUL terminated string at [off], which must end before [limit]. *)
Definition name_at (off limit : Z) : option (list Z) :=
  let n := strnlen m (b_base b + off) (Z.to_nat (limit - off)) in
  if decide (off + n = limit) then None else Some (bytes_at m (b_base b + off) (Z.to_nat n)).

(** The token at [off] and the offset of the next one. *)
Definition next_token (off : Z) : option (token * Z) :=
  if decide (b_end b < off + 4) then None
  else
    let t := be32 m (b_base b + off) in
    let c := off + 4 in
    if decide (t = FDT_BEGIN_NODE) then
      name ← name_at c (b_end b); Some (TBegin name, up4 (c + Z.of_nat (length name) + 1))
    else if decide (t = FDT_END_NODE) then Some (TEnd, c)
    else if decide (t = FDT_PROP) then
      if decide (b_end b < c + FdtProp_size) then None
      else
        let len := be32 m (b_base b + c) in
        let nameOff := be32 m (b_base b + c + 4) in
        let v := c + FdtProp_size in
        if decide (b_end b < v + len ∨ b_stringsSize b ≤ nameOff) then None
        else
          name ← name_at (b_strings b + nameOff) (b_strings b + b_stringsSize b);
          Some (TProp (MkProp name v len), up4 (v + len))
    else if decide (t = FDT_NOP) then Some (TNop, c)
    else if decide (t = FDT_END) then Some (TStop, c)
    else None.

(** The tokens from [off] up to the end token; every one takes four bytes at least. *)
Fixpoint read_tokens (fuel : nat) (off : Z) : option (list token) :=
  match fuel with
  | O => None
  | S n =>
      '(t, off') ← next_token off;
      match t with TStop => Some [TStop] | _ => cons t <$> read_tokens n off' end
  end.
End tokens.

(** ** The walk over the tokens *)

(** What a node at depth 1 is, by its name. *)
Definition node_named (name : list Z) : Node :=
  if decide (name = str "memory" ∨ str "memory@" `prefix_of` name) then MEMORY
  else if decide (name = str "chosen") then CHOSEN
  else OTHER.

Record walk : Set := MkWalk {
  w_depth : nat;
  w_root : bool;
  w_node : Node;
  w_slots : list Placeholder;
}.

Definition matches (node : Node) (name : list Z) (ph : Placeholder) : Prop :=
  ph_node ph = node ∧ cstr name [] = ph_name ph.
#[export] Instance matches_dec node name ph : Decision (matches node name ph).
Proof. unfold matches. apply _. Defined.

Definition fill (ph : Placeholder) : Placeholder :=
  MkPlaceholder (ph_node ph) (ph_name ph) (ph_length ph) (ph_values ph) true.

(** A property of a node takes the first slot it matches, if it is still empty and of the
    property's length; the cells to write are the slot's values. *)
Fixpoint take_slot (node : Node) (p : prop) (l : list Placeholder) : option (list Placeholder * list (Z * Z)) :=
  match l with
  | [] => Some ([], [])
  | ph :: rest =>
      if decide (matches node (p_name p) ph) then
        if decide (ph_found ph = true ∨ p_len p ≠ ph_length ph) then None
        else Some (fill ph :: rest, imap (λ i v, (p_off p + 8 * Z.of_nat i, v)) (take (Z.to_nat (p_len p / 8)) (ph_values ph)))
      else
        '(l', ws) ← take_slot node p rest; Some (ph :: l', ws)
  end.

Definition walk_token (w : walk) (t : token) : option (walk * list (Z * Z)) :=
  match t with
  | TBegin name =>
      match w_depth w with
      | O => if decide (w_root w = true ∨ name ≠ []) then None
             else Some (MkWalk 1 true (w_node w) (w_slots w), [])
      | 1%nat => Some (MkWalk 2 (w_root w) (node_named name) (w_slots w), [])
      | d => Some (MkWalk (S d) (w_root w) (w_node w) (w_slots w), [])
      end
  | TEnd =>
      match w_depth w with
      | O => None
      | 2%nat => Some (MkWalk 1 (w_root w) OTHER (w_slots w), [])
      | S d => Some (MkWalk d (w_root w) (w_node w) (w_slots w), [])
      end
  | TProp p =>
      match w_depth w with
      | O => None
      | 2%nat =>
          '(l, ws) ← take_slot (w_node w) p (w_slots w);
          Some (MkWalk 2 (w_root w) (w_node w) l, ws)
      | _ => Some (w, [])
      end
  | TNop => Some (w, [])
  | TStop => None
  end.

Definition walk_done (w : walk) : bool :=
  w_root w && bool_decide (w_depth w = 0%nat) && forallb ph_found (w_slots w).

(** The cells to write, when the whole block is accepted. *)
Fixpoint walk_tokens (w : walk) (ts : list token) : option (list (Z * Z)) :=
  match ts with
  | [] => None
  | TStop :: _ => if walk_done w then Some [] else None
  | t :: rest =>
      '(w', ws) ← walk_token w t; ws' ← walk_tokens w' rest; Some (ws ++ ws')
  end.

Definition write_cells (base : Z) (ws : list (Z * Z)) (m : gmap Z Z) : gmap Z Z :=
  foldl (λ m '(off, v), store64 m (base + off) (Be64 v)) m ws.

(** Every cell written lies in [lo, hi). *)
Definition cells_in (lo hi : Z) (ws : list (Z * Z)) : Prop :=
  Forall (λ c, lo ≤ c.1 ∧ c.1 + 8 ≤ hi) ws.

Lemma write_cells_outside base lo hi ws : ∀ m x, cells_in lo hi ws →
  ¬ (base + lo ≤ x < base + hi) → load8 (write_cells base ws m) x = load8 m x.
Proof.
  induction ws as [|[off v] ws IH]; intros m x Hw Hx; [done|]. cbn [write_cells foldl].
  apply Forall_cons_1 in Hw as [[? ?] Hw]. cbn [fst] in *. fold (write_cells base ws (store64 m (base + off) (Be64 v))).
  rewrite IH by done. apply store_frame. lia.
Qed.

Lemma write_cells_app base ws1 ws2 m : write_cells base (ws1 ++ ws2) m = write_cells base ws2 (write_cells base ws1 m).
Proof. apply foldl_app. Qed.
