(* ===== verification/PatchSim.v ===== *)
(** * The patcher's run follows the walk over the tokens *)
From S2P Require Import Prelude Memory Machine Pmm Strings PageTable HostMmu Cpio Fdt BootLoader.
From S2P Require Import LayoutSpec PatchSpec.

(** ** Reading is a matter of the bytes read *)

Lemma strnlen_agree m m' n : ∀ p, (∀ x, p ≤ x < p + Z.of_nat n → load8 m' x = load8 m x) →
  strnlen m' p n = strnlen m p n.
Proof.
  induction n as [|n IH]; intros p H; cbn [strnlen]; [done|]. rewrite (H p) by lia.
  case_decide; [done|]. rewrite IH; [done|]. intros x Hx. apply H. lia.
Qed.

Lemma be32_agree m m' a : (∀ x, a ≤ x < a + 4 → load8 m' x = load8 m x) → be32 m' a = be32 m a.
Proof. intros H. unfold be32. f_equal. by apply load_agree. Qed.

Section agree.
Context (m m' : gmap Z Z) (b : blob).

Lemma name_at_agree off limit : off ≤ limit →
  (∀ x, b_base b + off ≤ x < b_base b + limit → load8 m' x = load8 m x) →
  name_at m' b off limit = name_at m b off limit.
Proof.
  intros Hle H. unfold name_at.
  rewrite (strnlen_agree m m') by (intros x Hx; apply H; lia). case_decide; [done|].
  pose proof (strnlen_bounds m (Z.to_nat (limit - off)) (b_base b + off)).
  f_equal. apply bytes_at_agree. intros x Hx. apply H. lia.
Qed.

(** What lies from [off] on in the structure block, and the strings. *)
Definition same_from (off : Z) : Prop :=
  (∀ x, b_base b + off ≤ x < b_base b + b_end b → load8 m' x = load8 m x) ∧
  (∀ x, b_base b + b_strings b ≤ x < b_base b + b_strings b + b_stringsSize b → load8 m' x = load8 m x).

Lemma next_token_agree off : same_from off → next_token m' b off = next_token m b off.
Proof.
  intros [Hs Ht]. unfold next_token. case_decide; [done|].
  rewrite (be32_agree m m') by (intros x Hx; apply Hs; lia).
  case_decide; [rewrite name_at_agree; [done|lia|intros x Hx; apply Hs; lia]|].
  case_decide; [done|]. case_decide; [|done]. unfold FdtProp_size in *. case_decide; [done|].
  rewrite !(be32_agree m m') by (intros x Hx; apply Hs; lia).
  case_decide as E; [done|]. pose proof (be32_range m (b_base b + (off + 4) + 4)).
  rewrite name_at_agree; [done|lia|]. intros x Hx. apply Ht. lia.
Qed.
End agree.

Lemma next_token_moves m b off t off' : next_token m b off = Some (t, off') → off + 4 ≤ off' ∧ off + 4 ≤ b_end b.
Proof.
  unfold next_token. case_decide; [done|].
  case_decide; [intros (name & E & E')%bind_Some; simplify_eq/=; pose proof (up4_bounds (off + 4 + Z.of_nat (length name) + 1)); lia|].
  case_decide; [intros; simplify_eq; lia|]. case_decide.
  2: { case_decide; [intros; simplify_eq; lia|]. case_decide; intros; simplify_eq; lia. }
  case_decide; [done|]. case_decide; [done|]. intros (name & E & E')%bind_Some. simplify_eq.
  pose proof (be32_range m (b_base b + (off + 4))). unfold FdtProp_size.
  pose proof (up4_bounds (off + 4 + 8 + be32 m (b_base b + (off + 4)))). lia.
Qed.

Lemma read_tokens_agree m m' b n : ∀ off, same_from m m' b off →
  read_tokens m' b n off = read_tokens m b n off.
Proof.
  induction n as [|n IH]; intros off H; cbn [read_tokens]; [done|].
  rewrite (next_token_agree m m') by done. destruct (next_token m b off) as [[t off']|] eqn:E; [|done]. cbn [mbind option_bind].
  apply next_token_moves in E as [? ?]. assert (same_from m m' b off').
  { destruct H as [Hs Ht]. split; [intros x Hx; apply Hs; lia|done]. }
  destruct t; try done; by rewrite IH.
Qed.

(** ** Names *)

Lemma str_no_nul_dec s : Forall (λ c, c ≠ 0) (str s) ↔ bool_decide (Forall (λ c, c ≠ 0) (str s)) = true.
Proof. by rewrite bool_decide_eq_true. Qed.

Lemma node_of_named name rest : no_nul name → node_of (cstr name rest) = Some (node_named name).
Proof.
  intros Hn. unfold node_of, node_named, lit. rewrite !StrEq_cstr, StrStartsWith_cstr by (done || by apply str_no_nul_dec).
  cbn [mbind option_bind]. destruct (decide (name = str "memory")) as [E|E].
  { rewrite bool_decide_true by done. by rewrite decide_True by tauto. }
  rewrite bool_decide_false by done. destruct (decide (str "memory@" `prefix_of` name)) as [E'|E'].
  { rewrite bool_decide_true by done. by rewrite decide_True by tauto. }
  rewrite bool_decide_false by done. rewrite (decide_False (P := name = str "memory" ∨ _)) by tauto.
  destruct (decide (name = str "chosen")); [by rewrite bool_decide_true by done|by rewrite bool_decide_false by done].
Qed.

(** The string the code reads at [off] before [limit]. *)
Lemma name_at_cstr m b off limit : off ≤ limit →
  match name_at m b off limit with
  | None => off + strnlen m (b_base b + off) (Z.to_nat (limit - off)) = limit
  | Some name =>
      no_nul name ∧ strnlen m (b_base b + off) (Z.to_nat (limit - off)) = Z.of_nat (length name) ∧
      off + Z.of_nat (length name) < limit ∧
      ∃ rest, bytes_at m (b_base b + off) (Z.to_nat (limit - off)) = cstr name rest
  end.
Proof.
  intros Hle. unfold name_at. pose proof (strnlen_bounds m (Z.to_nat (limit - off)) (b_base b + off)) as Hn.
  set (n := strnlen m _ _) in *. case_decide as E; [done|]. rewrite length_bytes_at, Z2Nat.id by lia.
  split_and!; [apply strnlen_no_nul|done|lia|]. apply bytes_cstr. fold n. lia.
Qed.

(** ** Slots *)

Record slot_ok (ph : Placeholder) : Prop := {
  so_name : ∃ n, no_nul n ∧ ph_name ph = cstr n [];
  so_length : 0 ≤ ph_length ph;
  so_values : ph_length ph ≤ 8 * Z.of_nat (length (ph_values ph));
}.

Lemma fill_ok ph : slot_ok ph → slot_ok (fill ph).
Proof. by intros [? ? ?]. Qed.

Lemma cstr_inj n1 n2 : no_nul n1 → no_nul n2 → cstr n1 [] = cstr n2 [] ↔ n1 = n2.
Proof. intros _ _. unfold cstr. split; [by intros [? _]%app_inj_tail|by intros ->]. Qed.

Lemma wrote_refl s : wrote s s.
Proof. done. Qed.
Lemma wrote_trans s1 s2 s3 : wrote s1 s2 → wrote s2 s3 → wrote s1 s3.
Proof. intros [] []. split; congruence. Qed.
Lemma wrote_set_mem f s : wrote s (set_mem f s).
Proof. done. Qed.
#[export] Hint Resolve wrote_refl wrote_set_mem fill_ok : core.

(** The memory after some cells of a blob at [base] were written, and nothing else. *)
Definition wrote_cells (base : Z) (ws : list (Z * Z)) (s s' : machine) : Prop :=
  wrote s s' ∧ mc_mem s' = write_cells base ws (mc_mem s).

Lemma wrote_cells_nil base s : wrote_cells base [] s s.
Proof. done. Qed.
#[export] Hint Resolve wrote_cells_nil : core.

Lemma wrote_cells_app base ws1 ws2 s1 s2 s3 :
  wrote_cells base ws1 s1 s2 → wrote_cells base ws2 s2 s3 → wrote_cells base (ws1 ++ ws2) s1 s3.
Proof.
  intros [Hw1 Hm1] [Hw2 Hm2]. split; [by eapply wrote_trans|]. by rewrite write_cells_app, Hm2, Hm1.
Qed.

(** The cells of the values from index [i] on. *)
Definition cells (off : Z) (i : nat) (vs : list Z) : list (Z * Z) :=
  imap (λ j v, (off + 8 * Z.of_nat (i + j), v)) vs.

Lemma cells_cons off i v vs : cells off i (v :: vs) = (off + 8 * Z.of_nat i, v) :: cells off (S i) vs.
Proof. unfold cells. rewrite imap_cons, Nat.add_0_r. f_equal. apply imap_ext. intros j x _. simpl. do 2 f_equal. lia. Qed.

Lemma cells_bound off vs : ∀ i, cells_in off (off + 8 * Z.of_nat (i + length vs)) (cells off i vs).
Proof.
  induction vs as [|v vs IH]; intros i; [constructor|]. rewrite cells_cons. constructor; [simpl; lia|].
  specialize (IH (S i)). replace (S i + length vs)%nat with (i + length (v :: vs))%nat in IH by (simpl; lia). done.
Qed.

Lemma store_values_spec base off vs k n : 0 ≤ base + off → base + off + 8 * Z.of_nat k ≤ 2 ^ 64 →
  (k ≤ length vs)%nat → ∀ i, (i + n = k)%nat → ∀ s, runs (store_values (base + off) (Z.of_nat i) vs n) s
    (λ _ s', wrote_cells base (cells off i (take n (drop i vs))) s s').
Proof.
  intros H0 Hb Hk. induction n as [|n IH]; intros i Hi s; cbn [store_values].
  - by run.
  - destruct (lookup_lt_is_Some_2 vs i) as [v Hv]; [lia|]. rewrite Nat2Z.id, Hv. unfold defined, storeBe64. mrun.
    assert (base + off ⊞ Z.of_nat i ⊠ 8 = base + (off + 8 * Z.of_nat i)) as ->.
    { unfold u64. rewrite (Z.mod_small (Z.of_nat i * 8)), Z.mod_small by lia. lia. }
    replace (Z.of_nat i + 1) with (Z.of_nat (S i)) by lia.
    eapply runs_mono; [apply IH; lia|]. cbv beta. intros [] s' Hw. rewrite (drop_S vs v) by done. rewrite firstn_cons, cells_cons.
    eapply (wrote_cells_app _ [_]); [|exact Hw]. done.
Qed.

Lemma patch_spec node name rest p base l : Forall slot_ok l → no_nul name → p_name p = name →
  0 ≤ p_off p → 0 ≤ p_len p → 0 ≤ base → base + p_off p + p_len p < 2 ^ 64 → ∀ s,
  runs (patch node (cstr name rest) (base + p_off p) (p_len p) l) s (λ r s',
    match take_slot node p l with
    | None => r = None ∧ s' = s
    | Some (l', ws) => r = Some l' ∧ Forall slot_ok l' ∧ wrote_cells base ws s s' ∧ cells_in (p_off p) (p_off p + p_len p) ws
    end).
Proof.
  intros Hl Hn Hp H0 Hlen Hbase Hb s. induction Hl as [|ph l Hph Hl IH]; cbn [patch take_slot].
  { run. split_and!; [done|constructor|done|constructor]. }
  pose proof Hph as [(k & Hk & Hname) H1 Hlv].
  assert (Hm : matches node (p_name p) ph ↔ ph_node ph = node ∧ name = k).
  { unfold matches. rewrite Hp, Hname. by rewrite cstr_inj. }
  assert (Hsame : (if decide (ph_node ph ≠ node) then mret false else defined (StrEq (cstr name rest) (ph_name ph))) =
      mret (M := M machine) (bool_decide (matches node (p_name p) ph))).
  { case_decide as E; [by rewrite bool_decide_false by (rewrite Hm; tauto)|]. rewrite Hname, StrEq_cstr by done.
    unfold defined. f_equal. apply bool_decide_ext. rewrite Hm. tauto. }
  rewrite Hsame. run. destruct (decide (matches node (p_name p) ph)) as [E|E].
  - rewrite bool_decide_true by done. cbn [negb]. destruct (decide (ph_found ph = true ∨ p_len p ≠ ph_length ph)) as [E'|E']; [by run|].
    assert (p_len p = ph_length ph) as Elen by lia. apply runs_bind.
    set (q := Z.to_nat (p_len p / 8)). pose proof (Z.mul_div_le (p_len p) 8). pose proof (Z.div_pos (p_len p) 8).
    eapply runs_mono; [apply (store_values_spec base (p_off p) (ph_values ph) q q) with (i := 0%nat); lia|].
    cbv beta. intros [] s' Hw. run. rewrite drop_0 in Hw. split_and!; [done|constructor; auto|done|].
    eapply list.Forall_impl; [apply (cells_bound (p_off p) (take q (ph_values ph)) 0)|].
    rewrite length_take. intros c. simpl. lia.
  - rewrite bool_decide_false by done. cbn [negb]. apply runs_bind. eapply runs_mono; [apply IH|]. cbv beta. intros r s' Hr.
    destruct (take_slot node p l) as [[l' ws]|]; cbn [mbind option_bind]; run.
    + destruct Hr as (-> & ? & ? & ?). split_and!; [done|by constructor|done..].
    + destruct Hr as [-> ->]. done.
Qed.
