(* ===== verification/PatchRun.v ===== *)
(** * The patcher's loop against the walk over the tokens *)
From S2P Require Import Prelude Memory Machine Pmm Strings PageTable HostMmu Cpio Fdt BootLoader.
From S2P Require Import LayoutSpec PatchSpec PatchSim.

(** The patcher at an offset of the blob, in a state of the walk. *)
Definition patcher_at (b : blob) (sz off : Z) (w : walk) : DtbPatcher :=
  MkDtbPatcher (b_base b) sz off (b_end b) (b_strings b) (b_stringsSize b)
    (Z.of_nat (w_depth w)) (w_root w) (w_node w) (w_slots w).

(** Nodes cannot nest deeper than their tokens allow. *)
Record walk_ok (b : blob) (off : Z) (w : walk) : Prop := {
  wo_off : b_struct b ≤ off;
  wo_depth : 4 * Z.of_nat (w_depth w) ≤ off;
  wo_slots : Forall slot_ok (w_slots w);
}.

Section step.
Context (b : blob) (Hb : blob_ok b) (sz : Z).
Implicit Types (w : walk) (s : machine).

Lemma base_off x : 0 ≤ x → b_base b + x < 2 ^ 64 → b_base b ⊞ x = b_base b + x.
Proof. intros. pose proof (bo_base _ Hb). apply Z.mod_small. lia. Qed.

Lemma end_sub x : 0 ≤ x ≤ b_end b → b_end b ⊟ x = b_end b - x.
Proof. intros. pose proof (bo_small _ Hb). apply Z.mod_small. lia. Qed.

Lemma small_add x k : 0 ≤ x → 0 ≤ k → x + k < 2 ^ 64 → x ⊞ k = x + k.
Proof. intros. apply Z.mod_small. lia. Qed.

(** What a step does, given the token it sees. *)
Definition step_post (off : Z) (w : walk) (s : machine) (o : option (token * Z)) (r : option DtbPatcher) (s' : machine) : Prop :=
  match o with
  | None => r = None ∧ s' = s
  | Some (t, off') =>
      match walk_token w t with
      | None => r = None ∧ s' = s
      | Some (w', ws) =>
          r = Some (patcher_at b sz off' w') ∧ walk_ok b off' w' ∧
          wrote_cells (b_base b) ws s s' ∧ cells_in off (Z.min off' (b_end b)) ws
      end
  end.

Local Ltac step_done := split_and!; [done|split; cbn [w_depth w_slots length] in *; lia || done|done|constructor].

Lemma beginNode_spec off w s : walk_ok b off w → off + 4 ≤ b_end b →
  runs (beginNode (patcher_at b sz (off + 4) w)) s (step_post off w s
    (name ← name_at (mc_mem s) b (off + 4) (b_end b); Some (TBegin name, up4 (off + 4 + Z.of_nat (length name) + 1)))).
Proof.
  intros [Ho Hd Hs] He. pose proof (bo_struct _ Hb). pose proof (bo_top _ Hb). pose proof (bo_small _ Hb).
  pose proof (name_at_cstr (mc_mem s) b (off + 4) (b_end b) He) as Hname.
  unfold beginNode, ld_strnlen, ld_bytes. cbn [patcher_at dp_base dp_structEnd dp_cursor dp_depth dp_hasRoot dp_node].
  mrun. rewrite base_off by lia. destruct (name_at _ _ _ _) as [name|]; cbn [mbind option_bind].
  2: { pose proof (strnlen_bounds (mc_mem s) (Z.to_nat (b_end b - (off + 4))) (b_base b + (off + 4))).
       rewrite small_add by lia. rewrite decide_True by done. by run. }
  destruct Hname as (Hn & Hlen & Hlt & rest & Hbytes). rewrite Hlen, small_add by lia.
  rewrite decide_False by lia. mrun. rewrite Hbytes.
  pose proof (up4_bounds (off + 4 + Z.of_nat (length name) + 1)).
  rewrite small_add, align4_eq by lia. unfold step_post. cbn [walk_token].
  assert (u32 (Z.of_nat (w_depth w) + 1) = Z.of_nat (S (w_depth w))) as -> by (unfold u32; rewrite Z.mod_small; lia).
  destruct w as [d root node slots]. cbn [w_depth w_root w_node w_slots] in *. destruct d as [|[|d]].
  - rewrite decide_True by done. unfold cstr, defined. destruct name as [|c name]; cbn [app head].
    + mrun. destruct root.
      * rewrite decide_True by tauto. rewrite decide_True by tauto. by mrun.
      * rewrite decide_False by (intros [?|?]; done). rewrite decide_False by (intros [?|?]; done). mrun.
        step_done.
    + apply Forall_cons_1 in Hn as [Hc _]. mrun. rewrite !decide_True by (by right). by mrun.
  - rewrite decide_False by lia. rewrite decide_True by done. rewrite node_of_named by done. unfold defined. mrun.
    step_done.
  - rewrite !decide_False by lia. mrun. step_done.
Qed.

Lemma next_token_prop m off : be32 m (b_base b + off) = FDT_PROP →
  next_token m b off = None ∨ ∃ p off', next_token m b off = Some (TProp p, off').
Proof.
  intros Ht. unfold next_token. rewrite Ht. cbn [FDT_PROP]. repeat (case_decide; [try (by left); try done|]); try done.
  - destruct (name_at _ _ _ _); [right; eauto|by left].
Qed.

Lemma name_at_none off limit m : off ≤ limit → name_at m b off limit = None →
  off + strnlen m (b_base b + off) (Z.to_nat (limit - off)) = limit.
Proof. intros Hle E. pose proof (name_at_cstr m b off limit Hle) as H. by rewrite E in H. Qed.

Lemma name_at_some off limit m name : off ≤ limit → name_at m b off limit = Some name →
  no_nul name ∧ strnlen m (b_base b + off) (Z.to_nat (limit - off)) = Z.of_nat (length name) ∧
  off + Z.of_nat (length name) < limit ∧
  ∃ rest, bytes_at m (b_base b + off) (Z.to_nat (limit - off)) = cstr name rest.
Proof. intros Hle E. pose proof (name_at_cstr m b off limit Hle) as H. by rewrite E in H. Qed.

(** A property whose name and value are in bounds. *)
Lemma property_found off w s name : let m := mc_mem s in
  let len := be32 m (b_base b + (off + 4)) in
  let p := MkProp name (off + 12) len in
  walk_ok b off w → (0 < w_depth w)%nat → no_nul name → off + 12 + len ≤ b_end b → ∀ rest,
  runs (if decide (Z.of_nat (w_depth w) ≠ 2) then mret (Some (patcher_at b sz (up4 (off + 12 + len)) w))
        else
          r ← patch (w_node w) (cstr name rest) (b_base b + (off + 12)) len (w_slots w);
          mret (match r with Some l => Some (set_placeholders l (patcher_at b sz (up4 (off + 12 + len)) w)) | None => None end))
    s (step_post off w s (Some (TProp p, up4 (off + 12 + len)))).
Proof.
  intros m len p [Ho Hd Hs] Hdep Hn Hfit rest. pose proof (bo_base _ Hb). pose proof (bo_struct _ Hb). pose proof (bo_top _ Hb).
  pose proof (be32_range m (b_base b + (off + 4))) as Hlen. fold len in Hlen. pose proof (up4_bounds (off + 12 + len)).
  destruct w as [d root node slots]. cbn [w_depth w_root w_node w_slots] in *. unfold step_post.
  destruct (decide (d = 2%nat)) as [->|Hd2].
  - rewrite decide_False by (intros E; by apply E). cbn [walk_token w_depth w_node w_slots]. apply runs_bind.
    eapply runs_mono; [apply (patch_spec node name rest p); (done || cbn [p p_off p_len]; lia)|]. cbv beta.
    intros r s' Hr. destruct (take_slot node p slots) as [[l ws]|]; cbn [mbind option_bind].
    + destruct Hr as (-> & Hl & Hw & Hin). mrun. split_and!; [done|split; cbn [w_depth w_slots]; (lia || done)|done|].
      eapply list.Forall_impl; [exact Hin|]. cbn [p p_off p_len]. intros c. lia.
    + destruct Hr as [-> ->]. by mrun.
  - rewrite decide_True by lia. assert (walk_token (MkWalk d root node slots) (TProp p) = Some (MkWalk d root node slots, [])) as ->.
    { do 3 (destruct d as [|d]; try done; try lia). }
    mrun. step_done.
Qed.

Lemma property_spec off w s : walk_ok b off w → off + 4 ≤ b_end b → be32 (mc_mem s) (b_base b + off) = FDT_PROP →
  runs (property (patcher_at b sz (off + 4) w)) s (step_post off w s (next_token (mc_mem s) b off)).
Proof.
  intros Hw He Ht. pose proof Hw as [Ho Hd Hs]. pose proof (bo_struct _ Hb). pose proof (bo_top _ Hb). pose proof (bo_small _ Hb).
  pose proof (bo_strings _ Hb). pose proof (bo_base _ Hb).
  unfold property, ld_be32, ld_strnlen, ld_bytes. cbv zeta.
  cbn [patcher_at dp_base dp_structEnd dp_cursor dp_depth dp_hasRoot dp_node dp_stringsOff dp_stringsSize].
  rewrite end_sub by lia. destruct (decide (w_depth w = 0%nat)) as [E0|E0].
  { rewrite decide_True by lia. run. destruct (next_token_prop (mc_mem s) off Ht) as [-> | (p & off' & ->)]; [done|].
    unfold step_post, walk_token. by rewrite E0. }
  unfold next_token. rewrite Ht. cbv zeta. rewrite (decide_False (P := b_end b < off + 4)) by lia.
  rewrite (decide_False (P := FDT_PROP = FDT_BEGIN_NODE)), (decide_False (P := FDT_PROP = FDT_END_NODE)) by done.
  rewrite (decide_True (P := FDT_PROP = FDT_PROP)) by done. unfold FdtProp_size.
  destruct (decide (b_end b < off + 4 + 8)) as [E|E]; [rewrite decide_True by lia; by run|].
  rewrite decide_False by lia. mrun. rewrite !base_off, !small_add by lia. rewrite base_off, end_sub by lia.
  replace (off + 4 + 8) with (off + 12) by lia.
  set (len := be32 (mc_mem s) (b_base b + (off + 4))). set (no := be32 (mc_mem s) (b_base b + (off + 4) + 4)).
  pose proof (be32_range (mc_mem s) (b_base b + (off + 4))) as Hlen. fold len in Hlen.
  pose proof (be32_range (mc_mem s) (b_base b + (off + 4) + 4)) as Hno. fold no in Hno.
  destruct (decide (b_end b < off + 12 + len ∨ b_stringsSize b ≤ no)) as [E1|E1]; [rewrite decide_True by lia; by run|].
  rewrite decide_False by lia. mrun.
  assert (b_base b ⊞ b_strings b ⊞ no = b_base b + (b_strings b + no)) as ->.
  { rewrite base_off by lia. rewrite small_add by lia. lia. }
  replace (b_stringsSize b - no) with (b_strings b + b_stringsSize b - (b_strings b + no)) by lia.
  destruct (name_at (mc_mem s) b (b_strings b + no) (b_strings b + b_stringsSize b)) as [name|] eqn:En; cbn [mbind option_bind].
  2: { apply name_at_none in En; [|lia]. rewrite decide_True by lia. by run. }
  apply name_at_some in En as (Hn & Hl & Hlt & rest & Hbytes); [|lia]. rewrite Hl, decide_False by lia. mrun.
  rewrite Hbytes, small_add, align4_eq by lia. apply (property_found off w s name); (done || lia).
Qed.

(** One pass of [Run]. *)
Lemma patch_step_spec off w s : walk_ok b off w →
  runs (patch_step (patcher_at b sz off w)) s (λ r s',
    match next_token (mc_mem s) b off with
    | Some (TStop, _) => r = inr (walk_done w) ∧ s' = s
    | o => ∃ q, r = continue_with q ∧ step_post off w s o q s'
    end).
Proof.
  intros Hw. pose proof Hw as [Ho Hd Hs]. pose proof (bo_struct _ Hb). pose proof (bo_top _ Hb). pose proof (bo_small _ Hb).
  unfold patch_step, ld_be32. cbn [patcher_at dp_base dp_structEnd dp_cursor].
  destruct (decide (b_end b < off + 4)) as [E|E].
  { rewrite decide_False. 2: { intros [? H']. rewrite end_sub in H' by lia. lia. }
    unfold next_token. rewrite decide_True by done. run. by exists None. }
  rewrite decide_True by (rewrite end_sub by lia; lia). mrun. rewrite base_off, small_add by lia.
  fold (patcher_at b sz off w). change (set_cursor (off + 4) (patcher_at b sz off w)) with (patcher_at b sz (off + 4) w).
  destruct (decide (be32 (mc_mem s) (b_base b + off) = FDT_PROP)) as [EP|EP].
  { rewrite decide_False by (rewrite EP; done). rewrite decide_False by (rewrite EP; done).
    apply runs_bind.
    eapply runs_mono; [by apply property_spec; [| lia|]|]. cbv beta. intros q s' Hq. run.
    destruct (next_token_prop (mc_mem s) off EP) as [E'|(p & off' & E')]; rewrite E' in *; by exists q. }
  unfold next_token. rewrite (decide_False (P := b_end b < off + 4)) by done. cbv zeta.
  destruct (decide (be32 (mc_mem s) (b_base b + off) = FDT_BEGIN_NODE)) as [EB|EB].
  { apply runs_bind. eapply runs_mono; [by apply beginNode_spec; [|lia]|]. cbv beta. intros q s' Hq. run.
    destruct (name_at _ _ _ _); cbn [mbind option_bind] in *; by exists q. }
  destruct (decide (be32 (mc_mem s) (b_base b + off) = FDT_END_NODE)) as [EE|EE].
  { destruct w as [d root node slots]. cbn [patcher_at dp_depth w_depth w_slots] in *. unfold step_post. destruct d as [|d]; cbn [walk_token w_depth].
    - rewrite decide_True by done. run. by exists None.
    - rewrite decide_False by lia. mrun. destruct d as [|[|d]].
      + eexists (Some _). split; [done|]. step_done.
      + eexists (Some _). split; [done|]. step_done.
      + rewrite decide_False by lia. eexists (Some _). split; [|step_done].
        cbn [continue_with]. unfold patcher_at, set_walk. cbn. do 2 f_equal. lia. }
  rewrite (decide_False (P := be32 (mc_mem s) (b_base b + off) = FDT_PROP)) by done.
  destruct (decide (be32 (mc_mem s) (b_base b + off) = FDT_NOP)) as [EN|EN].
  { run. eexists (Some _). split; [done|]. step_done. }
  destruct (decide (be32 (mc_mem s) (b_base b + off) = FDT_END)) as [ES|ES]; run; [|by exists None].
  split; [|done]. unfold finish, walk_done. cbn. do 3 f_equal. apply bool_decide_ext. lia.
Qed.
End step.

(** ** The whole run *)

Section walk_run.
Context (b : blob) (Hb : blob_ok b) (sz : Z).

(** What a walk from [off] must do: all its cells, or stop somewhere having written only
    properties of the block. *)
Definition walked (off : Z) (w : walk) (n : nat) (s : machine) (ok : bool) (s' : machine) : Prop :=
  match (ts ← read_tokens (mc_mem s) b n off; walk_tokens w ts) with
  | Some ws => ok = true ∧ wrote_cells (b_base b) ws s s' ∧ cells_in off (b_end b) ws
  | None => ok = false ∧ ∃ ws, wrote_cells (b_base b) ws s s' ∧ cells_in off (b_end b) ws
  end.

Lemma cells_in_weaken lo lo' hi hi' ws : cells_in lo hi ws → lo' ≤ lo → hi ≤ hi' → cells_in lo' hi' ws.
Proof. intros H Hlo Hhi. eapply list.Forall_impl; [exact H|]. intros c. simpl. lia. Qed.

Lemma wrote_cells_same_from ws off off' s s' : wrote_cells (b_base b) ws s s' →
  cells_in off (Z.min off' (b_end b)) ws → b_struct b ≤ off →
  same_from (mc_mem s) (mc_mem s') b off'.
Proof.
  intros [_ Hm] Hin Ho. rewrite Hm. pose proof (bo_apart _ Hb). split; intros x Hx.
  - apply (write_cells_outside _ off off'); [eapply cells_in_weaken; [done|lia..]|lia].
  - apply (write_cells_outside _ off (b_end b)); [eapply cells_in_weaken; [done|lia..]|lia].
Qed.

(** The walk after one token. *)
Lemma walked_step off w n t off' w' ws s s1 ok s2 :
  next_token (mc_mem s) b off = Some (t, off') → t ≠ TStop → walk_token w t = Some (w', ws) →
  wrote_cells (b_base b) ws s s1 → cells_in off (Z.min off' (b_end b)) ws → walk_ok b off w →
  walked off' w' n s1 ok s2 → walked off w (S n) s ok s2.
Proof.
  intros Ht Hne Hwt Hw Hin [Ho _ _] H. pose proof (next_token_moves _ _ _ _ _ Ht) as [Hm _].
  assert (E : read_tokens (mc_mem s1) b n off' = read_tokens (mc_mem s) b n off').
  { apply read_tokens_agree. by eapply wrote_cells_same_from. }
  unfold walked in *. rewrite E in H. cbn [read_tokens]. rewrite Ht. cbn [mbind option_bind].
  assert (Hts : match t with TStop => Some [TStop] | _ => cons t <$> read_tokens (mc_mem s) b n off' end =
    cons t <$> read_tokens (mc_mem s) b n off') by (by destruct t).
  rewrite Hts. clear Hts E.
  assert (Hjoin : ∀ ws', wrote_cells (b_base b) ws' s1 s2 → cells_in off' (b_end b) ws' →
    wrote_cells (b_base b) (ws ++ ws') s s2 ∧ cells_in off (b_end b) (ws ++ ws')).
  { intros ws' Hw' Hin'. split; [by eapply wrote_cells_app|]. apply list.Forall_app. split.
    - eapply cells_in_weaken; [done|lia..].
    - eapply cells_in_weaken; [done|lia..]. }
  destruct (read_tokens (mc_mem s) b n off') as [ts|]; cbn [fmap option_fmap option_map mbind option_bind] in *.
  2: { destruct H as (-> & ws' & ? & ?). split; [done|]. exists (ws ++ ws'). by apply Hjoin. }
  assert (walk_tokens w (t :: ts) = ws' ← walk_tokens w' ts; Some (ws ++ ws')) as ->.
  { destruct t; try done; cbn [walk_tokens]; by rewrite Hwt. }
  destruct (walk_tokens w' ts) as [ws'|]; cbn [mbind option_bind].
  - destruct H as (-> & ? & ?). split; [done|]. by apply Hjoin.
  - destruct H as (-> & ws' & ? & ?). split; [done|]. exists (ws ++ ws'). by apply Hjoin.
Qed.

Lemma walk_loop n : ∀ off w s, walk_ok b off w → Z.max 0 (b_end b - off) < Z.of_nat n →
  runs (loop n patch_step (patcher_at b sz off w)) s (walked off w n s).
Proof.
  induction n as [|n IH]; intros off w s Hw Hn; [lia|]. apply runs_loop_S.
  eapply runs_mono; [by apply patch_step_spec|]. cbv beta. intros r s1 Hr.
  assert (Hstop : ∀ r s', r = inr false ∧ s' = s → (ts ← read_tokens (mc_mem s) b (S n) off; walk_tokens w ts) = None →
    match r with inl a => runs (loop n patch_step a) s' (walked off w (S n) s) | inr ok => walked off w (S n) s ok s' end).
  { intros ? ? [-> ->] E. unfold walked. rewrite E. split; [done|]. exists []. by split; [|constructor]. }
  destruct (next_token (mc_mem s) b off) as [[t off']|] eqn:Ht.
  2: { destruct Hr as (q & -> & -> & ->). apply Hstop; [done|]. cbn [read_tokens]. by rewrite Ht. }
  pose proof (next_token_moves _ _ _ _ _ Ht) as [Hm He]. destruct (decide (t = TStop)) as [-> |Hne].
  { destruct Hr as [-> ->]. unfold walked. cbn [read_tokens]. rewrite Ht. cbn [mbind option_bind walk_tokens].
    destruct (walk_done w); split; try done; [by split; [|constructor]|]. exists []. by split; [|constructor]. }
  assert (∃ q, r = continue_with q ∧ step_post b sz off w s (Some (t, off')) q s1) as (q & -> & Hq) by (by destruct t).
  clear Hr. unfold step_post in Hq. destruct (walk_token w t) as [[w' ws]|] eqn:Hwt.
  - destruct Hq as (-> & Hw' & Hwc & Hin). cbn [continue_with]. eapply runs_mono; [apply IH; [done|lia]|].
    intros ok s2 H. by eapply walked_step.
  - destruct Hq as [-> ->]. apply Hstop; [done|]. cbn [read_tokens]. rewrite Ht. cbn [mbind option_bind].
    assert (∀ ts, walk_tokens w (t :: ts) = None) as Hno by (intros ts; destruct t; try done; cbn [walk_tokens]; by rewrite Hwt).
    assert (Hnone : ∀ o : option (list token), (ts ← cons t <$> o; walk_tokens w ts) = None) by (intros [ts|]; [apply Hno|done]).
    destruct t; try done; apply Hnone.
Qed.
End walk_run.

(** ** The header *)

(** The blocks a header describes, when they are sound. *)
Definition read_blob (m : gmap Z Z) (base size : Z) : option blob :=
  let total := be32 m (fh_totalSize base) in
  let so := be32 m (fh_structOff base) in
  let ss := be32 m (fh_sizeStructs base) in
  let to := be32 m (fh_stringsOff base) in
  let ts := be32 m (fh_sizeStrings base) in
  if decide (FdtHeader_size ≤ total ≤ size ∧ be32 m (fh_magic base) = FDT_MAGIC ∧
    (FdtHeader_size ≤ so ∧ so + ss ≤ total ∧ so mod 4 = 0) ∧ (FdtHeader_size ≤ to ∧ to + ts ≤ total) ∧
    (to + ts ≤ so ∨ so + ss ≤ to))
  then Some (MkBlob base so (so + ss) to ts) else None.

Lemma inBounds_eq total off sz : fits 32 total → fits 32 off → fits 32 sz →
  inBounds total off sz = bool_decide (FdtHeader_size ≤ off ∧ off + sz ≤ total).
Proof.
  unfold fits, inBounds. intros Ht Ho Hs. destruct (decide (off ≤ total)) as [E|E].
  - unfold u64. rewrite Z.mod_small by lia. rewrite (bool_decide_true (off ≤ total)) by done. rewrite andb_true_r.
    rewrite <-bool_decide_and. apply bool_decide_ext. lia.
  - rewrite (bool_decide_false (off ≤ total)) by done. rewrite andb_false_r. cbn [andb].
    symmetry. apply bool_decide_false. lia.
Qed.

Lemma read_blob_ok m base size b : 0 ≤ base → base + size < 2 ^ 64 → read_blob m base size = Some b →
  blob_ok b ∧ b_base b = base ∧ 40 ≤ b_struct b ∧ b_end b ≤ size.
Proof.
  intros H0 Hs. unfold read_blob. case_decide as E; [|done]. intros [= <-].
  pose proof (be32_range m (fh_structOff base)). pose proof (be32_range m (fh_sizeStructs base)).
  pose proof (be32_range m (fh_stringsOff base)). pose proof (be32_range m (fh_sizeStrings base)).
  pose proof (be32_range m (fh_totalSize base)). unfold FdtHeader_size in E.
  split_and!; [split; cbn [b_base b_struct b_end b_strings b_stringsSize]; lia|done|cbn [b_struct b_end]; lia..].
Qed.

Lemma read_blob_struct m base size b : read_blob m base size = Some b → 0 ≤ b_struct b.
Proof. unfold read_blob. case_decide as E; [|done]. intros [= <-]. cbn [b_struct]. unfold FdtHeader_size in E. lia. Qed.

Lemma land_low3 x : Z.land x 3 = x mod 4.
Proof. exact (Z.land_ones x 2 ltac:(lia)). Qed.

Lemma readHeader_spec p s :
  runs (readHeader p) s (λ r s', s' = s ∧
    r = match read_blob (mc_mem s) (dp_base p) (dp_dtbSize p) with
        | Some b => Some (set_blocks (b_struct b) (b_end b) (b_strings b) (b_stringsSize b) p)
        | None => None
        end).
Proof.
  unfold readHeader, read_blob, ld_be32. cbv zeta. set (base := dp_base p). set (m := mc_mem s).
  pose proof (be32_range m (fh_totalSize base)) as Htot. pose proof (be32_range m (fh_structOff base)) as Hso.
  pose proof (be32_range m (fh_sizeStructs base)) as Hss. pose proof (be32_range m (fh_stringsOff base)) as Hto.
  pose proof (be32_range m (fh_sizeStrings base)) as Hts.
  destruct (decide (dp_dtbSize p < FdtHeader_size)) as [E|E]; [run; split; [done|]; by rewrite decide_False by lia|].
  mrun. fold m. set (total := be32 m (fh_totalSize base)) in *. set (so := be32 m (fh_structOff base)) in *.
  set (ss := be32 m (fh_sizeStructs base)) in *. set (to := be32 m (fh_stringsOff base)) in *.
  set (tz := be32 m (fh_sizeStrings base)) in *. set (magic := be32 m (fh_magic base)) in *.
  case_decide as E1; [run; split; [done|]; rewrite decide_False; [done|lia]|].
  rewrite !inBounds_eq by done. rewrite land_low3. destruct (decide (FdtHeader_size ≤ so ∧ so + ss ≤ total ∧ so mod 4 = 0 ∧ FdtHeader_size ≤ to ∧ to + tz ≤ total)) as [E2|E2].
  - rewrite (bool_decide_true (FdtHeader_size ≤ so ∧ _)), (bool_decide_true (FdtHeader_size ≤ to ∧ _)), bool_decide_false by lia.
    cbn [negb orb].
    assert (to ⊞ tz = to + tz) as -> by (apply Z.mod_small; lia). assert (so ⊞ ss = so + ss) as -> by (apply Z.mod_small; lia).
    destruct (decide (to + tz ≤ so ∨ so + ss ≤ to)) as [E3|E3]; run; (split; [done|]).
    + rewrite decide_True; [done|]. split_and!; try lia.
    + by rewrite decide_False by lia.
  - assert (negb (bool_decide (FdtHeader_size ≤ so ∧ so + ss ≤ total)) || bool_decide (so mod 4 ≠ 0)
      || negb (bool_decide (FdtHeader_size ≤ to ∧ to + tz ≤ total)) = true) as ->.
    { rewrite <-!bool_decide_not, <-!bool_decide_or. apply bool_decide_true. lia. }
    run. split; [done|]. by rewrite decide_False by lia.
Qed.

(** The walk starts outside every node, with the three slots empty. *)
Definition slots_of (layout : GuestLayout) : list Placeholder := dp_placeholders (DtbPatcher_new 0 layout).
Definition walk_start (layout : GuestLayout) : walk := MkWalk 0 false OTHER (slots_of layout).

Lemma slots_of_ok layout : Forall slot_ok (slots_of layout).
Proof.
  unfold slots_of. cbn [DtbPatcher_new dp_placeholders].
  do 3 (constructor; [split; [eexists; split; [|reflexivity]; by apply str_no_nul_dec|cbn; lia|done]|]). constructor.
Qed.

(** The cells the patcher must write in the tree at [base], or [None] if it must refuse it. *)
Definition patch_plan (m : gmap Z Z) (base : Z) (layout : GuestLayout) : option (list (Z * Z)) :=
  b ← read_blob m base (l_dtbSize layout);
  ts ← read_tokens m b (S (Z.to_nat (b_end b))) (b_struct b);
  walk_tokens (walk_start layout) ts.

Lemma DtbPatcher_Run_spec dtb layout s : 0 ≤ dtb → dtb + l_dtbSize layout < 2 ^ 64 →
  runs (DtbPatcher_Run (DtbPatcher_new dtb layout)) s (λ ok s', ∃ ws,
    wrote_cells dtb ws s s' ∧ cells_in 40 (l_dtbSize layout) ws ∧
    match patch_plan (mc_mem s) dtb layout with
    | Some plan => ok = true ∧ ws = plan
    | None => ok = false
    end).
Proof.
  intros H0 Hs. unfold DtbPatcher_Run. apply runs_bind. eapply runs_mono; [by apply readHeader_spec|].
  cbv beta. intros r s1 [-> ->]. cbn [DtbPatcher_new dp_base dp_dtbSize]. unfold patch_plan.
  destruct (read_blob (mc_mem s) dtb (l_dtbSize layout)) as [b|] eqn:Eb; cbn [mbind option_bind].
  2: { run. exists []. split_and!; [done|constructor|done]. }
  apply read_blob_ok in Eb as (Hb & Hbase & Hst & Hend); [|done..]. pose proof (bo_struct _ Hb).
  assert (set_blocks (b_struct b) (b_end b) (b_strings b) (b_stringsSize b) (DtbPatcher_new dtb layout) =
    patcher_at b (l_dtbSize layout) (b_struct b) (walk_start layout)) as -> by (unfold patcher_at; by rewrite Hbase).
  cbn [patcher_at dp_structEnd]. eapply runs_mono; [apply walk_loop; [done| |lia]|].
  { split; cbn; [lia|lia|apply slots_of_ok]. }
  cbv beta. intros ok s' H'. unfold walked in H'. rewrite Hbase in H'.
  destruct (read_tokens _ _ _ _) as [ts|]; cbn [mbind option_bind] in *; [destruct (walk_tokens _ ts) as [plan|]|].
  - destruct H' as (-> & ? & ?). exists plan. split_and!; [done|eapply cells_in_weaken; [done|lia..]|done..].
  - destruct H' as (-> & ws & ? & ?). exists ws. split_and!; [done|eapply cells_in_weaken; [done|lia..]|done].
  - destruct H' as (-> & ws & ? & ?). exists ws. split_and!; [done|eapply cells_in_weaken; [done|lia..]|done].
Qed.
