(* ===== verification/PatchTree.v ===== *)
(** * The patcher on a guest tree: which trees it accepts, and what it writes *)
From S2P Require Import Prelude Memory Machine Pmm Strings PageTable HostMmu Cpio Fdt BootLoader.
From S2P Require Import LayoutSpec PatchSpec PatchSim PatchRun.

Inductive tree : Set := DtNode (name : list Z) (props : list prop) (kids : list tree).
Definition t_name (t : tree) : list Z := let '(DtNode n _ _) := t in n.
Definition t_props (t : tree) : list prop := let '(DtNode _ ps _) := t in ps.
Definition t_kids (t : tree) : list tree := let '(DtNode _ _ ks) := t in ks.

(** A node in the structure block: its properties, then its children. *)
Fixpoint flatten (t : tree) : list token :=
  match t with
  | DtNode n ps ks => TBegin n :: map TProp ps ++ flat_map flatten ks ++ [TEnd]
  end.

Section tree_ind.
Context (P : tree → Prop) (Hnode : ∀ n ps ks, Forall P ks → P (DtNode n ps ks)).
Fixpoint tree_ind' (t : tree) : P t :=
  match t with
  | DtNode n ps ks =>
      Hnode n ps ks ((fix go (l : list tree) : Forall P l :=
        match l with [] => List.Forall_nil P | t :: l' => @List.Forall_cons _ P t l' (tree_ind' t) (go l') end) ks)
  end.
End tree_ind.

(** Below depth 2 nothing matters. *)
Lemma walk_below t : ∀ w rest, (2 ≤ w_depth w)%nat → walk_tokens w (flatten t ++ rest) = walk_tokens w rest.
Proof.
  induction t as [n ps ks IH] using tree_ind'. intros [d r nd l] rest Hd. cbn [w_depth] in Hd.
  destruct d as [|[|d]]; [lia..|]. cbn [flatten app walk_tokens walk_token w_depth]. rewrite <-!app_assoc. cbn [app].
  set (w := MkWalk (S (S (S d))) r nd l).
  assert (Hend : walk_tokens w (TEnd :: rest) = walk_tokens (MkWalk (S (S d)) r nd l) rest).
  { cbn [walk_tokens walk_token w_depth w]. cbn [mbind option_bind]. by destruct (walk_tokens _ rest). }
  assert (Hkids : ∀ rest, walk_tokens w (flat_map flatten ks ++ rest) = walk_tokens w rest).
  { intros rest'. induction IH as [|k ks Hk _ IH']; [done|]. cbn [flat_map]. rewrite <-app_assoc, Hk by (cbn; lia). apply IH'. }
  assert (Hprops : walk_tokens w (map TProp ps ++ flat_map flatten ks ++ TEnd :: rest) =
    walk_tokens (MkWalk (S (S d)) r nd l) rest).
  { induction ps as [|p ps IHp]; cbn [map app]; [rewrite Hkids; exact Hend|].
    cbn [walk_tokens walk_token w_depth w]. cbn [mbind option_bind]. rewrite IHp. by destruct (walk_tokens _ rest). }
  cbn [mbind option_bind]. fold w. cbn [w_root w_node w_slots]. fold w. rewrite Hprops. by destruct (walk_tokens _ rest).
Qed.

Lemma walk_all_below ks w rest : (2 ≤ w_depth w)%nat → walk_tokens w (flat_map flatten ks ++ rest) = walk_tokens w rest.
Proof.
  intros Hd. induction ks as [|k ks IH]; [done|]. cbn [flat_map]. by rewrite <-app_assoc, walk_below.
Qed.

(** The properties that count, with the kind of their node. *)
Definition hits (t : tree) : list (Node * prop) :=
  flat_map (λ k, (λ p, (node_named (t_name k), p)) <$> t_props k) (t_kids t).

Fixpoint fill_slots (l : list Placeholder) (hs : list (Node * prop)) : option (list Placeholder * list (Z * Z)) :=
  match hs with
  | [] => Some (l, [])
  | (node, p) :: hs' =>
      '(l1, ws) ← take_slot node p l; '(l2, ws') ← fill_slots l1 hs'; Some (l2, ws ++ ws')
  end.

(** Continue a walk once some slots are filled. *)
Definition after (o : option (list Placeholder * list (Z * Z))) (k : list Placeholder → option (list (Z * Z))) :
    option (list (Z * Z)) :=
  '(l, ws) ← o; ws' ← k l; Some (ws ++ ws').

Lemma fill_slots_app hs1 hs2 l k :
  after (fill_slots l (hs1 ++ hs2)) k = after (fill_slots l hs1) (λ l1, after (fill_slots l1 hs2) k).
Proof.
  revert l. induction hs1 as [|[node p] hs1 IH]; intros l; cbn [app fill_slots].
  - unfold after at 2. cbn [mbind option_bind]. by destruct (after _ _).
  - destruct (take_slot node p l) as [[l1 ws]|]; [|done]. cbn [mbind option_bind].
    specialize (IH l1). unfold after in *.
    destruct (fill_slots l1 (hs1 ++ hs2)) as [[l2 ws2]|], (fill_slots l1 hs1) as [[l3 ws3]|]; cbn [mbind option_bind] in *; try done.
    + destruct (k l2) as [ws4|]; cbn [mbind option_bind] in *.
      * destruct (fill_slots l3 hs2) as [[l5 ws5]|]; cbn [mbind option_bind] in *; [|done].
        destruct (k l5); cbn [mbind option_bind] in *; simplify_eq. by rewrite <-!app_assoc, IH.
      * destruct (fill_slots l3 hs2) as [[l5 ws5]|]; cbn [mbind option_bind] in *; [|done].
        by destruct (k l5).
    + by destruct (k l2).
    + destruct (fill_slots l3 hs2) as [[l5 ws5]|]; cbn [mbind option_bind] in *; [|done]. by destruct (k l5).
Qed.

Lemma walk_props r nd ps : ∀ l rest,
  walk_tokens (MkWalk 2 r nd l) (map TProp ps ++ rest) =
  after (fill_slots l ((λ p, (nd, p)) <$> ps)) (λ l', walk_tokens (MkWalk 2 r nd l') rest).
Proof.
  induction ps as [|p ps IH]; intros l rest; [unfold after; cbn; by destruct (walk_tokens _ _)|].
  cbn [map app walk_tokens walk_token w_depth w_node w_slots w_root fmap list_fmap fill_slots].
  destruct (take_slot nd p l) as [[l1 ws]|]; [|done]. cbn [mbind option_bind]. rewrite IH. unfold after.
  change (list_fmap _ _ (λ p0, (nd, p0)) ps) with ((λ p0, (nd, p0)) <$> ps).
  destruct (fill_slots l1 _) as [[l2 ws2]|]; [|done]. cbn [mbind option_bind].
  destruct (walk_tokens _ rest); [|done]. cbn [mbind option_bind]. by rewrite app_assoc.
Qed.

Lemma after_ext o k1 k2 : (∀ l, k1 l = k2 l) → after o k1 = after o k2.
Proof. intros H. unfold after. destruct o as [[l ws]|]; [|done]. cbn [mbind option_bind]. by rewrite H. Qed.

Lemma bind_id {A} (o : option A) : (o ≫= λ x, Some x) = o.
Proof. by destruct o. Qed.

Definition all_found (l : list Placeholder) : option (list (Z * Z)) := if forallb ph_found l then Some [] else None.

Lemma walk_kids ks : ∀ nd l,
  walk_tokens (MkWalk 1 true nd l) (flat_map flatten ks ++ [TEnd; TStop]) =
  after (fill_slots l (flat_map (λ k, (λ p, (node_named (t_name k), p)) <$> t_props k) ks)) all_found.
Proof.
  induction ks as [|[n ps ks'] ks IH]; intros nd l; cbn [flat_map].
  { unfold after, all_found. cbn. change (walk_done _) with (forallb ph_found l). by destruct (forallb ph_found l). }
  cbn [flatten t_name t_props]. rewrite <-!app_assoc. cbn [app walk_tokens walk_token w_depth w_root w_slots mbind option_bind].
  rewrite <-!app_assoc. cbn [app]. rewrite walk_props, fill_slots_app. rewrite (after_ext _ _ (λ l1, after (fill_slots l1
    (flat_map (λ k, (λ p, (node_named (t_name k), p)) <$> t_props k) ks)) all_found)); [apply bind_id|].
  intros l1. rewrite walk_all_below by (cbn; lia). cbn [walk_tokens walk_token w_depth w_root w_slots mbind option_bind].
  rewrite IH. apply bind_id.
Qed.

Lemma walk_root_props nd l ps rest : walk_tokens (MkWalk 1 true nd l) (map TProp ps ++ rest) = walk_tokens (MkWalk 1 true nd l) rest.
Proof.
  induction ps as [|p ps IH]; [done|]. cbn [map app walk_tokens walk_token w_depth mbind option_bind]. cbn [mbind option_bind]. rewrite IH. apply bind_id.
Qed.

(** The walk over a whole tree. *)
Lemma walk_tree layout t :
  walk_tokens (walk_start layout) (flatten t ++ [TStop]) =
  if decide (t_name t = []) then after (fill_slots (slots_of layout) (hits t)) all_found else None.
Proof.
  destruct t as [n ps ks]. cbn [flatten app t_name walk_tokens walk_token walk_start w_depth w_root w_slots].
  destruct (decide (n = [])) as [-> |E]; [|by rewrite decide_True by (by right)].
  rewrite decide_False by naive_solver. cbn [mbind option_bind].
  rewrite <-!app_assoc, walk_root_props. cbn [app]. rewrite walk_kids. apply bind_id.
Qed.

(** ** Which trees are accepted *)

(** The properties a slot matches. *)
Definition hits_of (ph : Placeholder) (hs : list (Node * prop)) : list (Node * prop) :=
  filter (λ h, matches h.1 (p_name h.2) ph) hs.

(** A slot is filled in the end: it is now, and nothing more matches it, or one property of
    the right length does. *)
Definition slot_done (ph : Placeholder) (hs : list (Node * prop)) : Prop :=
  if ph_found ph then hits_of ph hs = []
  else ∃ h, hits_of ph hs = [h] ∧ p_len h.2 = ph_length ph.

(** No two slots match the same property. *)
Definition distinct_slots (l : list Placeholder) : Prop := NoDup ((λ ph, (ph_node ph, ph_name ph)) <$> l).

(** The cells a property takes from a slot. *)
Definition slot_cells (ph : Placeholder) (p : prop) : list (Z * Z) :=
  imap (λ i v, (p_off p + 8 * Z.of_nat i, v)) (take (Z.to_nat (p_len p / 8)) (ph_values ph)).

Lemma take_slot_none node p l : (∀ ph, ph ∈ l → ¬ matches node (p_name p) ph) → take_slot node p l = Some (l, []).
Proof.
  induction l as [|ph l IH]; intros H; [done|]. cbn [take_slot]. rewrite decide_False by (apply H; set_solver).
  rewrite IH; [done|]. set_solver.
Qed.

Lemma take_slot_some node p l1 ph l2 : (∀ ph, ph ∈ l1 → ¬ matches node (p_name p) ph) → matches node (p_name p) ph →
  take_slot node p (l1 ++ ph :: l2) =
    if decide (ph_found ph = true ∨ p_len p ≠ ph_length ph) then None
    else Some (l1 ++ fill ph :: l2, slot_cells ph p).
Proof.
  intros H Hm. induction l1 as [|ph1 l1 IH]; cbn [app take_slot].
  - by rewrite decide_True by done.
  - rewrite decide_False by (apply H; set_solver). rewrite IH by set_solver. by case_decide.
Qed.

Lemma matches_or node p l : distinct_slots l →
  (∀ ph, ph ∈ l → ¬ matches node (p_name p) ph) ∨
  ∃ l1 ph l2, l = l1 ++ ph :: l2 ∧ matches node (p_name p) ph ∧ ∀ ph', ph' ∈ l1 ++ l2 → ¬ matches node (p_name p) ph'.
Proof.
  intros Hd. induction l as [|ph l IH]; [left; set_solver|].
  apply list.NoDup_cons in Hd as [Hni Hd]. destruct (decide (matches node (p_name p) ph)) as [Hm|Hm].
  - right. exists [], ph, l. split_and!; [done..|]. intros ph' Hin Hm'. apply Hni. apply list_elem_of_fmap. exists ph'.
    destruct Hm as [-> E], Hm' as [-> E']. split; [congruence|done].
  - destruct (IH Hd) as [H|(l1 & ph1 & l2 & -> & Hm1 & H)]; [left; set_solver|].
    right. exists (ph :: l1), ph1, l2. split_and!; [done..|]. set_solver.
Qed.

Lemma hits_of_cons ph h hs : hits_of ph (h :: hs) = (if decide (matches h.1 (p_name h.2) ph) then [h] else []) ++ hits_of ph hs.
Proof. unfold hits_of. rewrite filter_cons. by case_decide. Qed.

Lemma slot_done_other node p ph hs : ¬ matches node (p_name p) ph → slot_done ph ((node, p) :: hs) ↔ slot_done ph hs.
Proof. intros H. unfold slot_done. by rewrite hits_of_cons, decide_False by done. Qed.

Lemma slot_done_fill node p ph hs : matches node (p_name p) ph → ¬ (ph_found ph = true ∨ p_len p ≠ ph_length ph) →
  slot_done ph ((node, p) :: hs) ↔ slot_done (fill ph) hs.
Proof.
  intros Hm Hgood. unfold slot_done. rewrite hits_of_cons, decide_True by done. change (hits_of (fill ph) hs) with (hits_of ph hs).
  change (ph_found (fill ph)) with true. cbv iota.
  destruct (ph_found ph); [tauto|]. split; [by intros (h & [= _ ->] & _)|].
  intros ->. exists (node, p). split; [done|]. simpl. destruct (decide (p_len p = ph_length ph)); tauto.
Qed.

Lemma slot_done_bad node p ph hs : matches node (p_name p) ph → ph_found ph = true ∨ p_len p ≠ ph_length ph →
  ¬ slot_done ph ((node, p) :: hs).
Proof.
  intros Hm Hbad H. unfold slot_done in H. rewrite hits_of_cons, decide_True in H by done.
  destruct (ph_found ph); [done|]. destruct H as (h & [= <- _] & H). simpl in H. by destruct Hbad.
Qed.

(** Filling the slots from some point on. *)
Definition filled (l : list Placeholder) (hs : list (Node * prop)) : Prop :=
  ∃ l' ws, fill_slots l hs = Some (l', ws) ∧ forallb ph_found l' = true.

Lemma filled_cons node p hs l l1 ws1 : take_slot node p l = Some (l1, ws1) → filled l ((node, p) :: hs) ↔ filled l1 hs.
Proof.
  intros E. unfold filled. cbn [fill_slots]. rewrite E. cbn [mbind option_bind]. split; intros (l' & ws & H1 & H2).
  - apply bind_Some in H1 as ([l2 ws2] & H1 & H3). simplify_eq. eauto.
  - exists l', (ws1 ++ ws). by rewrite H1.
Qed.

Lemma filled_iff hs : ∀ l, distinct_slots l → filled l hs ↔ ∀ ph, ph ∈ l → slot_done ph hs.
Proof.
  induction hs as [|[node p] hs IH]; intros l Hd.
  - assert (E : forallb ph_found l = true ↔ ∀ ph, ph ∈ l → ph_found ph = true).
    { rewrite forallb_forall. by setoid_rewrite <-list_elem_of_In. }
    unfold filled, slot_done. cbn [fill_slots]. split.
    + intros (l' & ws & [= <- <-] & Hf) ph Hin. by rewrite (proj1 E Hf ph Hin).
    + intros H. eexists _, _. split; [done|]. apply E. intros ph Hin. specialize (H ph Hin).
      destruct (ph_found ph); [done|]. by destruct H as (? & ? & _).
  - destruct (matches_or node p l Hd) as [Hno|(l1 & ph & l2 & -> & Hm & Hno)].
    + rewrite (filled_cons _ _ _ _ l []), IH by (done || by apply take_slot_none).
      apply forall_proper. intros ph. split; intros H Hin; apply (slot_done_other node p); auto.
    + pose proof (take_slot_some node p l1 ph l2 ltac:(intros; apply Hno; set_solver) Hm) as Et.
      destruct (decide (ph_found ph = true ∨ p_len p ≠ ph_length ph)) as [Hbad|Hgood].
      * split; [unfold filled; cbn [fill_slots]; rewrite Et; by intros (? & ? & ? & _)|].
        intros H. by destruct (slot_done_bad node p ph hs Hm Hbad (H ph ltac:(set_solver))).
      * rewrite (filled_cons _ _ _ _ _ _ Et), IH by (unfold distinct_slots in *; rewrite fmap_app, fmap_cons in *; done).
        pose proof (slot_done_fill node p ph hs Hm Hgood) as Hph.
        assert (Hoth : ∀ ph', ph' ∈ l1 ++ l2 → slot_done ph' ((node, p) :: hs) ↔ slot_done ph' hs).
        { intros ph' Hin. apply slot_done_other. auto. }
        split; intros H ph' Hin.
        -- assert (ph' = ph ∨ ph' ∈ l1 ++ l2) as [-> |Hin'] by set_solver; [apply Hph|apply Hoth; [done|]]; apply H; set_solver.
        -- assert (ph' = fill ph ∨ ph' ∈ l1 ++ l2) as [-> |Hin'] by set_solver; [apply Hph|apply Hoth; [done|]]; apply H; set_solver.
Qed.

(** ** Which cells are written *)

Lemma fill_slots_cells hs : ∀ l l' ws c, distinct_slots l → fill_slots l hs = Some (l', ws) →
  c ∈ ws ↔ ∃ h ph, h ∈ hs ∧ ph ∈ l ∧ matches h.1 (p_name h.2) ph ∧ c ∈ slot_cells ph h.2.
Proof.
  induction hs as [|[node p] hs IH]; intros l l' ws c Hd E; cbn [fill_slots] in E.
  { simplify_eq. set_solver. }
  apply bind_Some in E as ([l1 ws1] & E1 & E). apply bind_Some in E as ([l2 ws2] & E2 & E). simplify_eq.
  destruct (matches_or node p l Hd) as [Hno|(k1 & ph & k2 & -> & Hm & Hno)].
  - rewrite take_slot_none in E1 by done. simplify_eq. cbn [app]. rewrite (IH _ _ _ c Hd E2). split.
    + intros (h & ph & ? & ? & ? & ?). exists h, ph. set_solver.
    + intros (h & ph & [-> |?]%elem_of_cons & ? & Hm & ?); [by destruct (Hno ph)|eauto 10].
  - rewrite take_slot_some in E1 by (done || intros; apply Hno; set_solver). case_decide; [done|]. simplify_eq.
    assert (Hd1 : distinct_slots (k1 ++ fill ph :: k2)) by (unfold distinct_slots in *; rewrite fmap_app, fmap_cons in *; done).
    rewrite elem_of_app, (IH _ _ _ c Hd1 E2).
    assert (Hfill : ∀ ph', ph' ∈ k1 ++ fill ph :: k2 ↔ ph' = fill ph ∨ ph' ∈ k1 ++ k2) by set_solver.
    split.
    + intros [Hc|(h & ph' & ? & [-> |?]%Hfill & ? & ?)].
      * exists (node, p), ph. set_solver.
      * exists h, ph. set_solver.
      * exists h, ph'. set_solver.
    + intros (h & ph' & [-> |?]%elem_of_cons & Hin & Hm' & ?).
      * assert (ph' = ph ∨ ph' ∈ k1 ++ k2) as [-> |Hin'] by set_solver; [by left|by destruct (Hno ph')].
      * right. assert (ph' = ph ∨ ph' ∈ k1 ++ k2) as [-> |Hin'] by set_solver; [exists h, (fill ph)|exists h, ph']; set_solver.
Qed.

(** ** The cells do not overlap *)

(** Cells in increasing order between [lo] and [hi]. *)
Fixpoint ordered (lo hi : Z) (ws : list (Z * Z)) : Prop :=
  match ws with
  | [] => lo ≤ hi
  | (o, _) :: ws => lo ≤ o ∧ ordered (o + 8) hi ws
  end.

Lemma ordered_le lo hi ws : ordered lo hi ws → lo ≤ hi.
Proof. revert lo. induction ws as [|[o v] ws IH]; intros lo; cbn; [done|]. intros [? H]. specialize (IH _ H). lia. Qed.

Lemma ordered_weaken lo lo' hi hi' ws : ordered lo hi ws → lo' ≤ lo → hi ≤ hi' → ordered lo' hi' ws.
Proof. revert lo lo'. induction ws as [|[o v] ws IH]; intros lo lo'; cbn; [lia|]. intros [? H] ? ?. split; [lia|]. eapply IH; eauto. lia. Qed.

Lemma ordered_app lo mid hi ws1 ws2 : ordered lo mid ws1 → ordered mid hi ws2 → ordered lo hi (ws1 ++ ws2).
Proof.
  revert lo. induction ws1 as [|[o v] ws1 IH]; intros lo; cbn; [|naive_solver].
  intros ? H. eapply ordered_weaken; [exact H|done|lia].
Qed.

Lemma ordered_in lo hi ws : ordered lo hi ws → cells_in lo hi ws.
Proof.
  revert lo. induction ws as [|[o v] ws IH]; intros lo; cbn; [constructor|]. intros [? H]. constructor.
  - simpl. pose proof (ordered_le _ _ _ H). lia.
  - eapply cells_in_weaken; [by apply IH|lia..].
Qed.

Lemma ordered_load base lo hi ws o v : ordered lo hi ws → (o, v) ∈ ws → ∀ m,
  load64 (write_cells base ws m) (base + o) = Be64 v.
Proof.
  revert lo. induction ws as [|[o' v'] ws IH]; intros lo; [set_solver|]. cbn [ordered]. intros [? H] Hin m.
  change (write_cells base ((o', v') :: ws) m) with (write_cells base ws (store64 m (base + o') (Be64 v'))).
  apply elem_of_cons in Hin as [[= -> ->]|Hin]; [|by eapply IH].
  rewrite (load_agree 8 _ (store64 m (base + o') (Be64 v'))).
  - apply load_store_eq_fits. exact (byteswap_range 8 v').
  - intros x Hx. apply (write_cells_outside base (o' + 8) hi); [by apply ordered_in|lia].
Qed.

Lemma cells_ordered off vs : ∀ i, ordered (off + 8 * Z.of_nat i) (off + 8 * Z.of_nat (i + length vs)) (cells off i vs).
Proof.
  induction vs as [|v vs IH]; intros i; [cbn; rewrite Nat.add_0_r; lia|]. rewrite cells_cons. cbn [ordered]. split; [lia|].
  specialize (IH (S i)). cbn [length]. eapply ordered_weaken; [exact IH|lia..].
Qed.

Lemma slot_cells_ordered ph p : 0 ≤ p_len p → ordered (p_off p) (p_off p + p_len p) (slot_cells ph p).
Proof.
  intros Hp. unfold slot_cells. eapply ordered_weaken; [apply (cells_ordered (p_off p) (take _ (ph_values ph)) 0)|lia|].
  rewrite length_take. pose proof (Z.mul_div_le (p_len p) 8). pose proof (Z.div_pos (p_len p) 8). lia.
Qed.

Lemma take_slot_ordered node p l l' ws : 0 ≤ p_len p → take_slot node p l = Some (l', ws) →
  ordered (p_off p) (p_off p + p_len p) ws.
Proof.
  intros Hp. revert l' ws. induction l as [|ph l IH]; intros l' ws; cbn [take_slot]; [intros [= <- <-]; cbn; lia|].
  case_decide; [case_decide; [done|]; intros [= <- <-]; by apply slot_cells_ordered|].
  intros ([l1 ws1] & E & [= <- <-])%bind_Some. by eapply IH.
Qed.

Lemma walk_token_ordered m b off t off' w w' ws : 0 ≤ off → next_token m b off = Some (t, off') →
  walk_token w t = Some (w', ws) → ordered off off' ws.
Proof.
  intros H0 Ht Hw. pose proof (next_token_moves _ _ _ _ _ Ht) as [Hm _].
  assert (Hnil : ws = [] → ordered off off' ws) by (intros ->; cbn; lia).
  destruct t as [name| |p| |]; cbn [walk_token] in Hw; repeat case_match; simplify_eq; try by apply Hnil.
  apply bind_Some in Hw as ([l ws1] & E & [= <- <-]).
  assert (off ≤ p_off p ∧ 0 ≤ p_len p ∧ p_off p + p_len p ≤ off') as (H1 & H2 & H3).
  { unfold next_token in Ht. repeat case_decide; simplify_eq; try (apply bind_Some in Ht as (name & _ & Ht); simplify_eq).
    cbn [p_off p_len]. unfold FdtProp_size in *. pose proof (be32_range m (b_base b + (off + 4))).
    pose proof (up4_bounds (off + 4 + 8 + be32 m (b_base b + (off + 4)))). lia. }
  eapply ordered_weaken; [by eapply take_slot_ordered|lia..].
Qed.

Lemma plan_ordered m b n : ∀ off w ts ws, 0 ≤ off → read_tokens m b n off = Some ts → walk_tokens w ts = Some ws →
  ∃ hi, ordered off hi ws.
Proof.
  induction n as [|n IH]; intros off w ts ws H0 Hr Hw; cbn [read_tokens] in Hr; [done|].
  apply bind_Some in Hr as ([t off'] & Ht & Hr). pose proof (next_token_moves _ _ _ _ _ Ht) as [Hm _].
  destruct (decide (t = TStop)) as [-> |Hne].
  { simplify_eq. cbn [walk_tokens] in Hw. case_match; simplify_eq. exists off. cbn. lia. }
  assert (∃ ts', ts = t :: ts' ∧ read_tokens m b n off' = Some ts') as (ts' & -> & Hr').
  { destruct t; try done; apply fmap_Some in Hr as (ts' & ? & ->); eauto. }
  assert (∃ w' ws1 ws2, walk_token w t = Some (w', ws1) ∧ walk_tokens w' ts' = Some ws2 ∧ ws = ws1 ++ ws2)
    as (w' & ws1 & ws2 & Hw1 & Hw2 & ->).
  { destruct t; try done; cbn [walk_tokens] in Hw; apply bind_Some in Hw as ([w' ws1] & E1 & Hw);
      apply bind_Some in Hw as (ws2 & E2 & Hw); simplify_eq; eauto 10. }
  destruct (IH off' w' ts' ws2) as [hi Hhi]; [lia|done|done|]. exists hi.
  eapply ordered_app; [|exact Hhi]. by eapply walk_token_ordered.
Qed.

(** ** A guest tree reads the same wherever its bytes are *)

(** [n] bytes at [p'] in [m'] are those at [p] in [m]. *)
Definition moved (m m' : gmap Z Z) (p p' n : Z) : Prop :=
  ∀ i, 0 ≤ i < n → load8 m' (p' + i) = load8 m (p + i).

Lemma moved_part m m' p p' n k l : moved m m' p p' n → 0 ≤ k → k + l ≤ n → moved m m' (p + k) (p' + k) l.
Proof. intros H Hk Hl i Hi. rewrite <-!Z.add_assoc. apply H. lia. Qed.

Lemma load_moved m m' n : ∀ p p', moved m m' p p' (Z.of_nat n) → load n m' p' = load n m p.
Proof.
  induction n as [|n IH]; intros p p' H; [done|]. rewrite !load_S.
  pose proof (H 0 ltac:(lia)) as H0. rewrite !Z.add_0_r in H0. rewrite H0. do 2 f_equal. apply IH.
  apply (moved_part _ _ _ _ _ 1 _ H); lia.
Qed.

Lemma strnlen_moved m m' n : ∀ p p', moved m m' p p' (Z.of_nat n) → strnlen m' p' n = strnlen m p n.
Proof.
  induction n as [|n IH]; intros p p' H; cbn [strnlen]; [done|].
  pose proof (H 0 ltac:(lia)) as H0. rewrite !Z.add_0_r in H0. rewrite H0. case_decide; [done|].
  f_equal. apply IH. apply (moved_part _ _ _ _ _ 1 _ H); lia.
Qed.

Lemma bytes_at_moved m m' n : ∀ p p', moved m m' p p' (Z.of_nat n) → bytes_at m' p' n = bytes_at m p n.
Proof.
  induction n as [|n IH]; intros p p' H; cbn [bytes_at]; [done|].
  pose proof (H 0 ltac:(lia)) as H0. rewrite !Z.add_0_r in H0. rewrite H0. f_equal.
  apply IH. apply (moved_part _ _ _ _ _ 1 _ H); lia.
Qed.

Lemma be32_moved m m' p p' : moved m m' p p' 4 → be32 m' p' = be32 m p.
Proof. intros H. unfold be32. f_equal. by apply load_moved. Qed.

Definition rebase (base : Z) (b : blob) : blob := MkBlob base (b_struct b) (b_end b) (b_strings b) (b_stringsSize b).

Section moved.
Context (m m' : gmap Z Z) (base base' size : Z) (Hm : moved m m' base base' size).

Lemma be32_at k : 0 ≤ k → k + 4 ≤ size → be32 m' (base' + k) = be32 m (base + k).
Proof. intros. apply be32_moved. by apply (moved_part _ _ _ _ size). Qed.

Lemma read_blob_moved : read_blob m' base' size = rebase base' <$> read_blob m base size.
Proof.
  unfold read_blob. destruct (decide (size < FdtHeader_size)) as [E|E].
  { rewrite !decide_False by lia. done. }
  unfold FdtHeader_size in E. unfold fh_totalSize, fh_structOff, fh_sizeStructs, fh_stringsOff, fh_sizeStrings, fh_magic.
  rewrite !be32_at by lia. assert (be32 m' base' = be32 m base) as ->.
  { pose proof (be32_at 0 ltac:(lia) ltac:(lia)) as H. by rewrite !Z.add_0_r in H. }
  by case_decide.
Qed.

Context (b : blob) (Hb : b_base b = base) (Hend : b_end b ≤ size).
Context (Hstr : 0 ≤ b_strings b ∧ b_strings b + b_stringsSize b ≤ size).

Lemma name_at_moved off limit : 0 ≤ off ≤ limit → limit ≤ size →
  name_at m' (rebase base' b) off limit = name_at m b off limit.
Proof.
  intros Ho Hl. unfold name_at. cbn [rebase b_base]. rewrite Hb.
  assert (H : moved m m' (base + off) (base' + off) (limit - off)) by (apply (moved_part _ _ _ _ size); [done|lia..]).
  rewrite (strnlen_moved m m' _ (base + off)) by (by rewrite Z2Nat.id by lia). case_decide; [done|].
  pose proof (strnlen_bounds m (Z.to_nat (limit - off)) (base + off)).
  f_equal. apply bytes_at_moved. intros i Hi. apply H. lia.
Qed.

Lemma next_token_moved off : 0 ≤ off → next_token m' (rebase base' b) off = next_token m b off.
Proof.
  intros Ho. unfold next_token. cbn [rebase b_base b_end b_strings b_stringsSize]. rewrite Hb.
  case_decide; [done|]. rewrite be32_at by lia. case_decide; [rewrite name_at_moved; [done|lia..]|].
  case_decide; [done|]. case_decide; [|done]. unfold FdtProp_size in *. case_decide; [done|].
  rewrite <-!Z.add_assoc. rewrite !be32_at by lia. case_decide as E; [done|].
  pose proof (be32_range m (base + (off + (4 + 4)))). rewrite name_at_moved; [done|lia..].
Qed.

Lemma read_tokens_moved n : ∀ off, 0 ≤ off → read_tokens m' (rebase base' b) n off = read_tokens m b n off.
Proof.
  induction n as [|n IH]; intros off Ho; cbn [read_tokens]; [done|]. rewrite next_token_moved by done.
  destruct (next_token m b off) as [[t off']|] eqn:E; [|done]. cbn [mbind option_bind].
  apply next_token_moves in E as [? _]. destruct t; try done; by rewrite IH by lia.
Qed.
End moved.

Lemma patch_plan_moved m m' base base' layout : moved m m' base base' (l_dtbSize layout) →
  patch_plan m' base' layout = patch_plan m base layout.
Proof.
  intros Hm. unfold patch_plan. rewrite (read_blob_moved m m' base) by done.
  destruct (read_blob m base (l_dtbSize layout)) as [b|] eqn:E; [|done]. cbn [fmap option_fmap option_map mbind option_bind].
  unfold read_blob in E. case_decide as H; [|done]. injection E as <-. cbn [rebase b_end b_struct].
  unfold FdtHeader_size in H. pose proof (be32_range m (fh_sizeStructs base)). pose proof (be32_range m (fh_sizeStrings base)).
  rewrite <-(read_tokens_moved m m' base base' (l_dtbSize layout)); [done|done|done|cbn [b_end]; lia|cbn [b_strings b_stringsSize]; lia|lia].
Qed.
