(* ===== verification/LoadSpec.v ===== *)
(** * Loading: copies into guest RAM and what the loader leaves behind *)
From S2P Require Import Prelude Memory Machine Pmm FreeLists Bitmap Buddy PageAlloc Strings.
From S2P Require Import PageTable PageTableSpec HostMmu Cpio CpioSpec CpioProps.
From S2P Require Import Fdt BootLoader LayoutSpec PatchSpec PatchSim PatchRun PatchTree.

(** ** The files *)

(** Where [f] lies, in an archive of [n] bytes at [dat]. *)
Definition file_range (dat n : Z) (f : File) : Prop :=
  f = no_file ∨ dat ≤ data f ∧ 0 ≤ f_size f ∧ data f + f_size f ≤ dat + n.

Lemma file_inside_range a f : 0 ≤ m_data a → m_data a + ar_size a < 2 ^ 64 → file_inside a f →
  file_range (m_data a) (ar_size a) f.
Proof.
  intros H0 H1 (off & Hd & Ho & Hs & Hl). right. rewrite Hd. unfold u64. rewrite Z.mod_small by lia. lia.
Qed.

Section files.
Context (dat : Z) (d : list Z) (a : Archive) (Ha : Archive_new dat d = Some a).
Context (H0 : 0 ≤ dat) (H1 : dat + Z.of_nat (length d) < 2 ^ 64).

Lemma Find_range p : no_nul p → m_error a = NONE → ∃ b f, Find a (cstr p []) = Some (b, f) ∧
  file_range dat (Z.of_nat (length d)) f ∧ (b = false → f = no_file).
Proof.
  intros Hp He. destruct (Archive_new_spec dat d ltac:(lia)) as (a' & Ha' & Hd & Hb & Hwf). simplify_eq.
  assert (Hsz : ar_size a < 2 ^ 64) by (unfold ar_size; rewrite ?Hb; lia).
  destruct (Hwf He) as [l Hl]. rewrite (Find_spec a Hsz He l p [] Hl Hp).
  destruct (head (filter (is_file (canon p)) l)) as [e|] eqn:Ee; cbn [found].
  - apply head_filter_elem in Ee as [Hin _]. exists true, (file e). split_and!; [done| |done].
    assert (Z.of_nat (length (bytes a)) = ar_size a) as -> by done. apply file_inside_range; [done| |by eapply wf_inside].
    unfold ar_size. lia.
  - exists false, no_file. split_and!; [done|by left|done].
Qed.

(** [ReadFiles] always answers; on success the kernel and the tree are not empty and every
    file lies in the archive. *)
Lemma ReadFiles_spec : ∃ ok files, ReadFiles a = Some (ok, files) ∧ (ok = true →
  sizes_fit files ∧ 0 < f_size (g_kernel files) ∧ 0 < f_size (g_dtb files) ∧
  file_range dat (Z.of_nat (length d)) (g_kernel files) ∧ file_range dat (Z.of_nat (length d)) (g_dtb files) ∧
  file_range dat (Z.of_nat (length d)) (g_initrd files)).
Proof.
  unfold ReadFiles. case_decide as He'; [by eexists _, _|].
  assert (Hfit : ∀ f, file_range dat (Z.of_nat (length d)) f → fits 64 (f_size f)).
  { intros f [-> |?]; unfold fits; cbn; lia. }
  assert (Hpos : ∀ f, file_range dat (Z.of_nat (length d)) f → f_size f ≠ 0 → 0 < f_size f).
  { intros f Hf Hne. specialize (Hfit f Hf). unfold fits in Hfit. lia. }
  unfold lit.
  destruct (Find_range (str "linux/Image")) as (b1 & k & E1 & Hk & _); [by apply str_no_nul_dec|done|].
  rewrite E1. cbn [mbind option_bind]. destruct (negb b1 || bool_decide (f_size k = 0)) eqn:C1; [by eexists _, _|].
  destruct (Find_range (str "linux/guest.dtb")) as (b2 & t & E2 & Ht & _); [by apply str_no_nul_dec|done|].
  rewrite E2. cbn [mbind option_bind]. destruct (negb b2 || bool_decide (f_size t = 0)) eqn:C2; [by eexists _, _|].
  destruct (Find_range (str "linux/initrd")) as (b3 & r & E3 & Hr & _); [by apply str_no_nul_dec|done|].
  rewrite E3. cbn [mbind option_bind]. eexists _, _. split; [done|]. intros _. cbn [g_kernel g_dtb g_initrd].
  apply orb_false_iff in C1 as [_ C1%bool_decide_eq_false]. apply orb_false_iff in C2 as [_ C2%bool_decide_eq_false].
  split_and!; [split_and!; by apply Hfit|by apply Hpos|by apply Hpos|done..].
Qed.
End files.

(** ** Copies *)

(** Nothing but memory inside [P] and the trace differs. *)
Record only_in (P : Z → Prop) (s s' : machine) : Prop := {
  oi_pmm : mc_pmm s' = mc_pmm s;
  oi_slabs : mc_slabs s' = mc_slabs s;
  oi_sys : mc_sys s' = mc_sys s;
  oi_mem : mem_same_outside P s s';
}.

Lemma only_in_refl P s : only_in P s s.
Proof. done. Qed.
Lemma only_in_trans P s1 s2 s3 : only_in P s1 s2 → only_in P s2 s3 → only_in P s1 s3.
Proof. intros [] []. split; try congruence. by eapply mem_same_outside_trans. Qed.
Lemma only_in_weaken (P Q : Z → Prop) s s' : only_in P s s' → (∀ x, P x → Q x) → only_in Q s s'.
Proof. intros [] H. split; try done. by eapply mem_same_outside_weaken. Qed.

(** [f] was copied to [dest] and its lines cleaned. *)
Record copied (dest : Z) (f : File) (s s' : machine) : Prop := {
  cp_only : only_in (λ x, dest ≤ x < dest + f_size f) s s';
  cp_bytes : ∀ i, 0 ≤ i < f_size f → load8 (mc_mem s') (dest + i) = load8 (mc_mem s) (data f + i);
  cp_trace : mc_trace s' = mc_trace s ++ cleaned s dest (f_size f);
}.

Lemma copyToGuest_spec l ipa f s dest : IpaToHostPa l ipa = dest → 0 ≤ dest → 0 ≤ f_size f → dest + f_size f < 2 ^ 63 →
  data f + f_size f ≤ dest ∨ dest + f_size f ≤ data f →
  runs (copyToGuest l ipa f) s (λ _ s', copied dest f s s').
Proof.
  intros Hd H0 Hs Hb Hdis. unfold copyToGuest, PaToVa. rewrite Hd. apply runs_bind.
  eapply runs_mono; [by apply memcpy_spec|]. cbv beta. intros p s1 (-> & [Hp Hsl Hsy Ht] & Hm).
  eapply runs_of_eq; [by apply Clean_eq|].
  assert (Hc : cleaned s1 dest (f_size f) = cleaned s dest (f_size f)).
  { unfold cleaned, lines, line_size. by rewrite Hsy. }
  split.
  - split; [done..|]. intros x Hx. cbn [mc_mem set_trace]. by rewrite Hm, decide_False by done.
  - intros i Hi. cbn [mc_mem set_trace]. rewrite Hm, decide_True by lia. do 2 f_equal. lia.
  - cbn [mc_trace set_trace]. by rewrite Ht, Hc.
Qed.

Lemma Clean_spec dest size s : 0 ≤ dest → 0 ≤ size → dest + size < 2 ^ 63 →
  runs (CleanDataCacheRange dest size) s (λ _ s', only_in (λ _, False) s s' ∧ mc_mem s' = mc_mem s ∧
    mc_trace s' = mc_trace s ++ cleaned s dest size).
Proof. intros. eapply runs_of_eq; [by apply Clean_eq|]. done. Qed.

(** Two ranges with no byte in common lie one after the other. *)
Lemma ranges_apart a n b k : 0 < n → 0 < k → (∀ x, a ≤ x < a + n → ¬ (b ≤ x < b + k)) → a + n ≤ b ∨ b + k ≤ a.
Proof. intros Hn Hk H. pose proof (H a). pose proof (H b). lia. Qed.

(** A byte after some writes depends on that byte before. *)
Lemma store_same n : ∀ m m' a v x, load8 m x = load8 m' x → load8 (store n m a v) x = load8 (store n m' a v) x.
Proof.
  induction n as [|n IH]; intros m m' a v x H; [done|]. rewrite !store_S. apply IH.
  destruct (decide (a = x)) as [-> |]; [by rewrite !load8_store8_eq|by rewrite !load8_store8_ne].
Qed.

Lemma write_cells_same base ws : ∀ m m' x, load8 m x = load8 m' x → load8 (write_cells base ws m) x = load8 (write_cells base ws m') x.
Proof. induction ws as [|[o v] ws IH]; intros m m' x H; [done|]. apply IH. by apply store_same. Qed.

(** ** Inside guest RAM *)

Definition guest_at (l : GuestLayout) (ipa : Z) : Z := l_ramHostPa l + (ipa - GUEST_IPA_BASE).

Lemma guest_ram_order : bs GUEST_RAM_ORDER = GUEST_RAM_SIZE ∧ (GUEST_RAM_ORDER ≤ MAX_ORDER)%nat.
Proof. split; [done|]. vm_compute. lia. Qed.

Lemma IpaToHostPa_eq l ipa : GUEST_IPA_BASE ≤ ipa ≤ guest_top → 0 ≤ l_ramHostPa l → l_ramHostPa l + GUEST_RAM_SIZE ≤ PA_LIMIT →
  IpaToHostPa l ipa = guest_at l ipa.
Proof.
  intros Hi H0 H1. assert (GUEST_IPA_BASE = 0x40000000 ∧ guest_top = 0x50000000) by done.
  unfold IpaToHostPa, guest_at, u64. rewrite (Z.mod_small (ipa - _)) by lia. apply Z.mod_small.
  unfold PA_LIMIT, GUEST_RAM_SIZE in *. lia.
Qed.

(** The tree's cells were written over the copy of the tree at [dest]. *)
Record patched (dest : Z) (f : File) (plan : list (Z * Z)) (m m' : gmap Z Z) : Prop := {
  pa_plan : cells_in 40 (f_size f) plan;
  pa_bytes : ∀ m1, moved m m1 (data f) dest (f_size f) →
    ∀ x, dest ≤ x < dest + f_size f → load8 m' x = load8 (write_cells dest plan m1) x;
}.

(** Guest RAM as the loader leaves it: every file in its place, the tree patched, and every
    line of it cleaned. *)
Record guest_loaded (files : GuestFiles) (l : GuestLayout) (plan : list (Z * Z)) (s s' : machine) : Prop := {
  gl_kernel : moved (mc_mem s) (mc_mem s') (data (g_kernel files)) (guest_at l (kernelIpa l)) (f_size (g_kernel files));
  gl_initrd : moved (mc_mem s) (mc_mem s') (data (g_initrd files)) (guest_at l (initrdIpa l)) (f_size (g_initrd files));
  gl_dtb : patched (guest_at l (dtbIpa l)) (g_dtb files) plan (mc_mem s) (mc_mem s');
  gl_trace : mc_trace s' = mc_trace s ++ cleaned s (guest_at l (kernelIpa l)) (f_size (g_kernel files)) ++
    cleaned s (guest_at l (dtbIpa l)) (f_size (g_dtb files)) ++ cleaned s (guest_at l (dtbIpa l)) (f_size (g_dtb files)) ++
    cleaned s (guest_at l (initrdIpa l)) (f_size (g_initrd files));
}.

Lemma cleaned_sys s s' a n : mc_sys s' = mc_sys s → cleaned s' a n = cleaned s a n.
Proof. intros H. unfold cleaned, lines, line_size. by rewrite H. Qed.

Lemma only_at P s s' x : only_in P s s' → ¬ P x → load8 (mc_mem s') x = load8 (mc_mem s) x.
Proof. intros H Hx. by apply (oi_mem _ _ _ H). Qed.

Lemma only_range lo hi s s' x : only_in (λ x, lo ≤ x < hi) s s' → ¬ (lo ≤ x < hi) → load8 (mc_mem s') x = load8 (mc_mem s) x.
Proof. intros H Hx. by apply (only_at _ _ _ _ H). Qed.

(** The run of the loader from the fresh guest RAM on. *)
Section fill.
Context (files : GuestFiles) (l : GuestLayout) (Hl : placed files l).
Context (H0 : 0 < l_ramHostPa l) (H1 : l_ramHostPa l + GUEST_RAM_SIZE ≤ PA_LIMIT).
Let ram (x : Z) : Prop := block (l_ramHostPa l) GUEST_RAM_ORDER x.
Let outside (f : File) : Prop := ∀ x, data f ≤ x < data f + f_size f → ¬ ram x.
Context (Hk : outside (g_kernel files)) (Ht : outside (g_dtb files)) (Hr : outside (g_initrd files)).
Context (Hpos : 0 ≤ f_size (g_initrd files)).
Let kd := guest_at l (kernelIpa l).
Let td := guest_at l (dtbIpa l).
Let rd := guest_at l (initrdIpa l).

(** The three places, one after the other in guest RAM. *)
Lemma places : l_ramHostPa l ≤ kd ∧ 0 < f_size (g_kernel files) ∧ kd + f_size (g_kernel files) ≤ td ∧ 0 < f_size (g_dtb files) ∧
  td + f_size (g_dtb files) ≤ l_ramHostPa l + GUEST_RAM_SIZE ∧
  (f_size (g_initrd files) ≠ 0 → td + f_size (g_dtb files) ≤ rd ∧ rd + f_size (g_initrd files) ≤ l_ramHostPa l + GUEST_RAM_SIZE).
Proof.
  destruct Hl as [(Hki & Hks & ?) (Hds & ? & _) (His & _) ? Ha Hb]. unfold kd, td, rd, guest_at.
  assert (E1 : KERNEL_LOAD_IPA = 0x40200000) by done. assert (E2 : guest_top = 0x50000000) by done.
  assert (E3 : GUEST_RAM_SIZE = 0x10000000) by done. assert (E4 : GUEST_IPA_BASE = 0x40000000) by done.
  destruct (decide (initrdSize l = 0)); lia.
Qed.

Lemma in_ram_iff x : ram x ↔ l_ramHostPa l ≤ x < l_ramHostPa l + GUEST_RAM_SIZE.
Proof. unfold ram, block. by destruct guest_ram_order as [-> _]. Qed.

(** A source outside guest RAM lies apart from any range inside it. *)
Lemma source_apart f dest n : outside f → 0 < f_size f → 0 < n → l_ramHostPa l ≤ dest → dest + n ≤ l_ramHostPa l + GUEST_RAM_SIZE →
  data f + f_size f ≤ dest ∨ dest + n ≤ data f.
Proof.
  intros Ho Hf Hn Hd He. apply ranges_apart; [done..|]. intros x Hx Hin. apply (Ho x Hx), in_ram_iff. lia.
Qed.

Lemma copy_in ipa f s : outside f → 0 < f_size f → GUEST_IPA_BASE ≤ ipa ≤ guest_top →
  guest_at l ipa + f_size f ≤ l_ramHostPa l + GUEST_RAM_SIZE →
  runs (copyToGuest l ipa f) s (λ _ s', copied (guest_at l ipa) f s s').
Proof.
  intros Ho Hf Hi Hfit. unfold PA_LIMIT in *.
  apply copyToGuest_spec; [apply IpaToHostPa_eq; (done || lia)|unfold guest_at; lia|lia|lia|].
  apply source_apart; [done..|unfold guest_at; lia|done].
Qed.

(** Kernel and tree in place, the tree patched or refused. *)
Record prepared (s s' : machine) (ok : bool) : Prop := {
  pr_only : only_in ram s s';
  pr_kernel : moved (mc_mem s) (mc_mem s') (data (g_kernel files)) kd (f_size (g_kernel files));
  pr_plan : match patch_plan (mc_mem s) (data (g_dtb files)) l with
            | Some plan => ok = true ∧ patched td (g_dtb files) plan (mc_mem s) (mc_mem s')
            | None => ok = false
            end;
  pr_trace : mc_trace s' = mc_trace s ++ cleaned s kd (f_size (g_kernel files)) ++ cleaned s td (f_size (g_dtb files));
}.

Lemma prepare_spec s :
  runs (copyToGuest l (kernelIpa l) (g_kernel files);; copyToGuest l (dtbIpa l) (g_dtb files);;
        DtbPatcher_Run (DtbPatcher_new (PaToVa (IpaToHostPa l (dtbIpa l))) l)) s (λ ok s', prepared s s' ok).
Proof.
  pose proof places as (P1 & P2 & P3 & P4 & P5 & P6). destruct (pl_dtb _ _ Hl) as (Hds & _).
  assert (GUEST_IPA_BASE = 0x40000000 ∧ guest_top = 0x50000000 ∧ GUEST_RAM_SIZE = 0x10000000) as (E1 & E2 & E3) by done.
  assert (Hki : GUEST_IPA_BASE ≤ kernelIpa l ≤ guest_top) by (unfold kd, td, guest_at in *; lia).
  assert (Hdi : GUEST_IPA_BASE ≤ dtbIpa l ≤ guest_top) by (unfold kd, td, guest_at in *; lia).
  apply runs_bind. eapply runs_mono; [apply (copy_in (kernelIpa l) (g_kernel files)); (done || fold kd; lia)|].
  fold kd. intros [] s1 [Ho1 Hb1 Ht1]. apply runs_bind.
  eapply runs_mono; [apply (copy_in (dtbIpa l) (g_dtb files)); (done || fold td; lia)|]. fold td. intros [] s2 [Ho2 Hb2 Ht2].
  rewrite IpaToHostPa_eq by (done || lia). fold td. unfold PaToVa.
  eapply runs_mono; [apply (DtbPatcher_Run_spec td l s2); unfold PA_LIMIT in *; lia|]. cbv beta.
  intros ok s3 (ws & [Hw3 Hm3] & Hin & Hplan). rewrite Hds in Hin.
  assert (Hd1 : moved (mc_mem s) (mc_mem s2) (data (g_dtb files)) td (f_size (g_dtb files))).
  { intros i Hi. rewrite Hb2 by done. apply (only_at _ _ _ _ Ho1). intros Hx.
    apply (Ht (data (g_dtb files) + i)); [lia|apply in_ram_iff; lia]. }
  assert (Hm : patch_plan (mc_mem s2) td l = patch_plan (mc_mem s) (data (g_dtb files)) l).
  { apply patch_plan_moved. by rewrite Hds. }
  rewrite Hm in Hplan.
  assert (Ho3 : only_in (λ x, td ≤ x < td + f_size (g_dtb files)) s2 s3).
  { split; [apply Hw3..|]. intros x Hx. rewrite Hm3. apply (write_cells_outside td 40 (f_size (g_dtb files))); [done|lia]. }
  split.
  - eapply only_in_trans; [|eapply only_in_trans]; eapply only_in_weaken; [exact Ho1| |exact Ho2| |exact Ho3|];
      intros x Hx; cbv beta in Hx; apply in_ram_iff; lia.
  - intros i Hi. rewrite (only_range _ _ _ _ _ Ho3), (only_range _ _ _ _ _ Ho2) by lia. by apply Hb1.
  - destruct (patch_plan _ _ _) as [plan|]; [|done]. destruct Hplan as [-> ->]. split; [done|]. split; [done|].
    intros m1 Hm1 x Hx. rewrite Hm3. apply write_cells_same.
    replace x with (td + (x - td)) by lia. by rewrite Hm1, Hd1 by lia.
  - rewrite (wr_trace _ _ Hw3), Ht2, Ht1, <-app_assoc. by rewrite (cleaned_sys s s1) by apply Ho1.
Qed.

(** The rest, once the tree is patched. *)
Lemma finish_spec s s1 plan : prepared s s1 true → patch_plan (mc_mem s) (data (g_dtb files)) l = Some plan →
  runs (CleanDataCacheRange (PaToVa (IpaToHostPa l (dtbIpa l))) (l_dtbSize l);;
        when (bool_decide (f_size (g_initrd files) ≠ 0)) (copyToGuest l (initrdIpa l) (g_initrd files))) s1
    (λ _ s', only_in ram s s' ∧ guest_loaded files l plan s s').
Proof.
  intros [Ho Hkm Hp Htr] Ep. rewrite Ep in Hp. destruct Hp as [_ [Hp1 Hp2]].
  pose proof places as (P1 & P2 & P3 & P4 & P5 & P6). destruct (pl_dtb _ _ Hl) as (Hds & _).
  assert (GUEST_IPA_BASE = 0x40000000 ∧ guest_top = 0x50000000 ∧ GUEST_RAM_SIZE = 0x10000000) as (E1 & E2 & E3) by done.
  assert (Hdi : GUEST_IPA_BASE ≤ dtbIpa l ≤ guest_top) by (unfold kd, td, guest_at in *; lia).
  rewrite IpaToHostPa_eq by (done || lia). fold td. unfold PaToVa. rewrite Hds. apply runs_bind.
  eapply runs_mono; [apply Clean_spec; unfold PA_LIMIT in *; lia|]. cbv beta. intros [] s2 (Ho2 & Hm2 & Ht2).
  assert (Hsys2 : mc_sys s2 = mc_sys s) by (etransitivity; [apply Ho2|apply Ho]).
  assert (Ho12 : only_in ram s s2).
  { eapply only_in_trans; [exact Ho|]. by eapply only_in_weaken. }
  destruct (decide (f_size (g_initrd files) = 0)) as [Er|Er].
  - rewrite bool_decide_false by tauto. unfold when. run. split; [done|]. split; rewrite ?Hm2; try done.
    + intros i Hi. lia.
    + fold kd td. rewrite Ht2, Htr, (cleaned_sys s s1) by apply Ho. unfold cleaned at 7. rewrite decide_True by done.
      by rewrite app_nil_r, <-!app_assoc.
  - rewrite bool_decide_true by done. unfold when. destruct (P6 Er) as [P7 P8].
    assert (Hri : GUEST_IPA_BASE ≤ initrdIpa l ≤ guest_top) by (unfold kd, td, rd, guest_at in *; lia).
    eapply runs_mono; [apply (copy_in (initrdIpa l) (g_initrd files)); (done || fold rd; lia)|]. fold rd.
    intros [] s3 [Ho3 Hb3 Ht3]. split; [|split].
    + eapply only_in_trans; [exact Ho12|]. eapply only_in_weaken; [exact Ho3|]. intros x Hx. cbv beta in Hx. apply in_ram_iff. lia.
    + fold kd. intros i Hi. rewrite (only_range _ _ _ _ _ Ho3) by lia. rewrite Hm2. by apply Hkm.
    + fold rd. intros i Hi. rewrite Hb3 by done. apply (only_at _ _ _ _ Ho12). apply Hr. lia.
    + split; [done|]. intros m1 Hm1 x Hx. fold td in Hx |- *. rewrite (only_range _ _ _ _ _ Ho3) by lia. rewrite Hm2. by apply Hp2.
    + fold kd td rd. rewrite Ht3, Ht2, Htr, (cleaned_sys s s1), (cleaned_sys s s2) by (done || apply Ho). by rewrite <-!app_assoc.
Qed.
End fill.
