(* ===== verification/BootLoaderProps.v ===== *)
(** * The boot loader: layout, the guest tree, loading *)
From S2P Require Import Prelude Memory Machine Pmm FreeLists Bitmap Buddy PageAlloc Strings.
From S2P Require Import PageTable PageTableSpec HostMmu PmmProps MmuProps Cpio CpioEncode CpioProps.
From S2P Require Import Fdt BootLoader LayoutSpec PatchSpec PatchSim PatchRun PatchTree.
From S2P Require Import LoadSpec.

(** ** Layout *)

(** C29: [CalculateLayout] places the files whenever they can be placed: it fails exactly when
    no layout puts the kernel at its load address, the tree above it at a 64 KiB boundary and
    the initrd above that at a 2 MiB boundary, all inside guest RAM without overlap; else it
    chooses the highest such layout. *)
Theorem CalculateLayout_correct files (Hs : sizes_fit files) :
  let '(ok, l) := CalculateLayout files in
  if ok : bool then placed files l ∧ (∀ l', placed files l' → dtbIpa l' ≤ dtbIpa l ∧ initrdIpa l' ≤ initrdIpa l)
  else l = no_layout ∧ ∀ l', ¬ placed files l'.
Proof.
  pose proof (CalculateLayout_spec files Hs) as H. unfold layout_chosen in H. destruct (CalculateLayout files) as [[|] l]; simpl in H.
  - by destruct H as (? & _ & ?).
  - done.
Qed.

Definition linux_files : GuestFiles := MkGuestFiles (MkFile 0x88000000 20000000) (MkFile 0x8a000000 1500) (MkFile 0x8a001000 5000000).

Lemma CalculateLayout_correct_witness :
  let '(ok, l) := CalculateLayout linux_files in
  if ok : bool then placed linux_files l ∧ (∀ l', placed linux_files l' → dtbIpa l' ≤ dtbIpa l ∧ initrdIpa l' ≤ initrdIpa l)
  else l = no_layout ∧ ∀ l', ¬ placed linux_files l'.
Proof. apply (CalculateLayout_correct linux_files). vm_compute. intuition discriminate. Defined.

Example linux_layout : CalculateLayout linux_files =
  (true, MkGuestLayout 0 0x40200000 20000000 0x4f9f0000 1500 0x4fa00000 5000000).
Proof. vm_compute. reflexivity. Qed.

(** ** The guest tree *)

(** C30: the patcher ends on any bytes whatsoever, and writes nowhere but inside the tree it was
    given, behind the header: memory outside, the allocator and the registers are untouched. *)
Theorem patcher_confined dtb layout s (H0 : 0 ≤ dtb) (Hs : dtb + l_dtbSize layout < 2 ^ 64) :
  runs (DtbPatcher_Run (DtbPatcher_new dtb layout)) s (λ _ s',
    wrote s s' ∧ mem_same_outside (λ x, dtb + 40 ≤ x < dtb + l_dtbSize layout) s s').
Proof.
  eapply runs_mono; [by apply DtbPatcher_Run_spec|]. cbv beta. intros ok s' (ws & [Hw Hm] & Hin & _). split; [done|].
  intros x Hx. rewrite Hm. by apply (write_cells_outside dtb 40 (l_dtbSize layout)).
Qed.

Lemma patcher_confined_witness :
  runs (DtbPatcher_Run (DtbPatcher_new 0x48000000 (MkGuestLayout 0 0 0 0 1500 0 0))) pool0 (λ _ s',
    wrote pool0 s' ∧ mem_same_outside (λ x, 0x48000000 + 40 ≤ x < 0x48000000 + 1500) pool0 s').
Proof. apply (patcher_confined 0x48000000 (MkGuestLayout 0 0 0 0 1500 0 0) pool0); [discriminate|reflexivity]. Defined.

(** The tree at [dtb]: a sound header, and a structure block that is the tree's tokens. *)
Definition tree_at (m : gmap Z Z) (dtb size : Z) (t : tree) : Prop :=
  ∃ b, read_blob m dtb size = Some b ∧
    read_tokens m b (S (Z.to_nat (b_end b))) (b_struct b) = Some (flatten t ++ [TStop]).

(** A tree with exactly one place for each value. *)
Definition patchable (layout : GuestLayout) (t : tree) : Prop :=
  t_name t = [] ∧ ∀ ph, ph ∈ slots_of layout → ∃ h, hits_of ph (hits t) = [h] ∧ p_len h.2 = ph_length ph.

(** The cell at [off] of the tree takes the value [v]. *)
Definition takes (layout : GuestLayout) (t : tree) (off v : Z) : Prop :=
  ∃ h ph, h ∈ hits t ∧ ph ∈ slots_of layout ∧ matches h.1 (p_name h.2) ph ∧ (off, v) ∈ slot_cells ph h.2.

Lemma slots_distinct layout : distinct_slots (slots_of layout).
Proof. unfold distinct_slots, slots_of. apply (bool_decide_unpack _). by vm_compute. Qed.

Lemma slots_empty layout ph : ph ∈ slots_of layout → ph_found ph = false.
Proof. unfold slots_of. cbn. set_solver. Qed.

Lemma write_cells_other base ws x : ∀ m, (∀ o v, (o, v) ∈ ws → ¬ (base + o ≤ x < base + o + 8)) →
  load8 (write_cells base ws m) x = load8 m x.
Proof.
  induction ws as [|[o v] ws IH]; intros m H; [done|]. change (load8 (write_cells base ws (store64 m (base + o) (Be64 v))) x = load8 m x).
  rewrite IH by set_solver. apply store_frame. apply (H o v). set_solver.
Qed.

(** What the walk over a tree comes to. *)
Lemma tree_plan m dtb layout t : tree_at m dtb (l_dtbSize layout) t →
  (is_Some (patch_plan m dtb layout) ↔ patchable layout t) ∧
  ∀ plan, patch_plan m dtb layout = Some plan → (∃ lo hi, ordered lo hi plan) ∧ ∀ off v, (off, v) ∈ plan ↔ takes layout t off v.
Proof.
  intros (b & Eb & Ets). unfold patch_plan. rewrite Eb. cbn [mbind option_bind]. rewrite Ets. cbn [mbind option_bind].
  pose proof (slots_distinct layout) as Hd. split.
  - rewrite walk_tree. unfold patchable. case_decide as En; [|split; [by intros [? ?]|tauto]].
    assert (Hf : is_Some (after (fill_slots (slots_of layout) (hits t)) all_found) ↔ filled (slots_of layout) (hits t)).
    { unfold after, filled, all_found. destruct (fill_slots _ _) as [[l' ws]|]; cbn [mbind option_bind].
      - destruct (forallb ph_found l') eqn:El; cbn [mbind option_bind].
        + split; [intros _; by eexists _, _|done].
        + split; [by intros [? ?]|]. intros (? & ? & ? & ?). simplify_eq. congruence.
      - split; [by intros [? ?]|by intros (? & ? & ? & _)]. }
    rewrite Hf, filled_iff by done. unfold slot_done. split.
    + intros H. split; [done|]. intros ph Hin. specialize (H ph Hin). by rewrite (slots_empty layout ph Hin) in H.
    + intros [_ H] ph Hin. rewrite (slots_empty layout ph Hin). by apply H.
  - intros plan E. split.
    { apply read_blob_struct in Eb. destruct (plan_ordered _ _ _ _ _ _ _ Eb Ets E) as [hi ?]. by exists (b_struct b), hi. }
    rewrite walk_tree in E. case_decide; [|done]. unfold after in E. apply bind_Some in E as ([l' ws] & E1 & E).
    apply bind_Some in E as (ws' & E2 & E). unfold all_found in E2. destruct (forallb _ _); [|done]. simplify_eq.
    rewrite app_nil_r. intros off v. by apply (fill_slots_cells _ _ _ _ _ Hd E1).
Qed.

(** C28: on a well formed tree the patcher does exactly what it is for: it accepts the tree if
    and only if /memory's reg and /chosen's linux,initrd-start and linux,initrd-end are each
    there once and of the right size; then those cells hold guest RAM and the initrd's range,
    big endian, and every other byte of memory is as it was. *)
Theorem patcher_correct dtb layout s t (H0 : 0 ≤ dtb) (Hs : dtb + l_dtbSize layout < 2 ^ 64)
    (Ht : tree_at (mc_mem s) dtb (l_dtbSize layout) t) :
  runs (DtbPatcher_Run (DtbPatcher_new dtb layout)) s (λ ok s',
    (ok = true ↔ patchable layout t) ∧
    (ok = true → (∀ off v, takes layout t off v → load64 (mc_mem s') (dtb + off) = Be64 v) ∧
      ∀ x, (∀ off v, takes layout t off v → ¬ (dtb + off ≤ x < dtb + off + 8)) →
        load8 (mc_mem s') x = load8 (mc_mem s) x)).
Proof.
  destruct (tree_plan _ _ _ _ Ht) as [Hiff Hplan].
  eapply runs_mono; [by apply DtbPatcher_Run_spec|]. cbv beta. intros ok s' (ws & [_ Hm] & _ & H).
  destruct (patch_plan (mc_mem s) dtb layout) as [plan|].
  - destruct H as [-> ->]. split; [split; [intros _; by apply Hiff|done]|]. intros _.
    destruct (Hplan plan eq_refl) as ((lo & hi & Hord) & Hin). rewrite Hm. split.
    + intros off v Hv. apply (ordered_load dtb lo hi); [done|by apply Hin].
    + intros x Hx. apply write_cells_other. intros o v Hov. by apply (Hx o v), Hin.
  - subst ok. split; [|done]. split; [done|]. intros Hp. by destruct (proj2 Hiff Hp).
Qed.

(** A guest tree the way the compiler writes it: the header, a strings block, and a structure
    block with /memory/reg and the two properties of /chosen. *)
Definition be4 (x : Z) : list Z := [x / 2 ^ 24; (x / 2 ^ 16) mod 2 ^ 8; (x / 2 ^ 8) mod 2 ^ 8; x mod 2 ^ 8].
Definition guest_strings : list Z := lit "reg" ++ lit "linux,initrd-start" ++ lit "linux,initrd-end".
Definition guest_struct : list Z :=
  be4 1 ++ [0; 0; 0; 0] ++
  be4 1 ++ lit "memory" ++ [0] ++ be4 3 ++ be4 16 ++ be4 0 ++ replicate 16 0 ++ be4 2 ++
  be4 1 ++ lit "chosen" ++ [0] ++ be4 3 ++ be4 8 ++ be4 4 ++ replicate 8 0 ++
  be4 3 ++ be4 8 ++ be4 23 ++ replicate 8 0 ++ be4 2 ++ be4 2 ++ be4 9.
Definition guest_dtb : list Z :=
  be4 FDT_MAGIC ++ be4 196 ++ be4 40 ++ be4 156 ++ be4 40 ++ be4 17 ++ be4 16 ++ be4 0 ++ be4 40 ++ be4 116 ++
  guest_struct ++ guest_strings.
Fixpoint put (a : Z) (l : list Z) (m : gmap Z Z) : gmap Z Z :=
  match l with [] => m | c :: l' => put (a + 1) l' (store8 m a c) end.
Definition guest_tree : tree :=
  DtNode [] [] [DtNode (str "memory") [MkProp (str "reg") 72 16] [];
    DtNode (str "chosen") [MkProp (str "linux,initrd-start") 116 8; MkProp (str "linux,initrd-end") 136 8] []].
Definition guest_layout : GuestLayout := MkGuestLayout 0x48000000 0x40200000 20000000 0x4f9f0000 196 0x4fa00000 5000000.
Definition guest_machine : machine := set_mem (put 0x4f9f0000 guest_dtb) pool1.

Lemma guest_tree_at : tree_at (mc_mem guest_machine) 0x4f9f0000 196 guest_tree.
Proof. exists (MkBlob 0x4f9f0000 40 156 156 40). split; vm_compute; reflexivity. Qed.

Lemma guest_tree_patchable : patchable guest_layout guest_tree.
Proof.
  split; [done|]. intros ph Hin. unfold slots_of, guest_layout in Hin. cbn in Hin.
  repeat (apply elem_of_cons in Hin as [-> |Hin]; [eexists; split; [vm_compute; reflexivity|done]|]). by apply elem_of_nil in Hin.
Qed.

Lemma patcher_correct_witness :
  runs (DtbPatcher_Run (DtbPatcher_new 0x4f9f0000 guest_layout)) guest_machine (λ ok s',
    ok = true ∧ load64 (mc_mem s') (0x4f9f0000 + 72) = Be64 GUEST_IPA_BASE ∧
    load64 (mc_mem s') (0x4f9f0000 + 116) = Be64 0x4fa00000 ∧ load64 (mc_mem s') (0x4f9f0000 + 136) = Be64 0x4fec4b40).
Proof.
  eapply runs_mono; [apply (patcher_correct 0x4f9f0000 guest_layout guest_machine guest_tree);
    [discriminate|reflexivity|apply guest_tree_at]|].
  cbv beta. intros ok s' [Hok H]. pose proof (proj2 Hok guest_tree_patchable) as ->. destruct (H eq_refl) as [Hcells _].
  assert (Hin : ∀ (k : nat) c, (hits guest_tree ≫= λ h, slots_of guest_layout ≫= λ ph,
    if decide (matches h.1 (p_name h.2) ph) then slot_cells ph h.2 else []) !! k = Some c → takes guest_layout guest_tree c.1 c.2).
  { intros k [off v] Hk%list_elem_of_lookup_2. apply list_elem_of_bind in Hk as (h & Hk & Hh). apply list_elem_of_bind in Hk as (ph & Hk & Hph).
    exists h, ph. case_decide; [done|by apply elem_of_nil in Hk]. }
  split_and!; [done|apply Hcells, (Hin 0%nat (72, GUEST_IPA_BASE))|apply Hcells, (Hin 2%nat (116, 0x4fa00000))|
    apply Hcells, (Hin 3%nat (136, 0x4fec4b40))]; vm_compute; reflexivity.
Defined.

(** ** Loading *)

Lemma runs_three {A B C D} (a : M machine A) (b : M machine B) (c : M machine C) (k : C → M machine D) s Q :
  runs (a;; b;; c) s (λ x s', runs (k x) s' Q) → runs (a;; b;; (x ← c; k x)) s Q.
Proof. unfold runs, mbind, M_bind. destruct (a s) as [? s1|]; [|done]. destruct (b s1) as [? s2|]; [|done]. by destruct (c s2). Qed.

Lemma runs_two {A B C} (a : M machine A) (b : M machine B) (k : B → M machine C) s Q :
  runs (a;; b) s (λ x s', runs (k x) s' Q) → runs (a;; (x ← b; k x)) s Q.
Proof. unfold runs, mbind, M_bind. destruct (a s) as [? s1|]; [|done]. by destruct (b s1). Qed.

Section load.
Context (s : machine) (F : Z → Prop) (HF : pa_ok s F).
Context (dat : Z) (d : list Z) (a : Archive) (Ha : Archive_new dat d = Some a).
Context (H0 : 0 ≤ dat) (H1 : dat + Z.of_nat (length d) < 2 ^ 64).
Context (Hfree : ∀ x, dat ≤ x < dat + Z.of_nat (length d) → ¬ F x).

(** Why the loader may refuse. *)
Inductive refused : Prop :=
  | no_files files : ReadFiles a = Some (false, files) → refused
  | no_room files : ReadFiles a = Some (true, files) → (∀ l, ¬ placed files l) → refused
  | no_ram : ¬ pa_avail s GUEST_RAM_ORDER → refused
  | bad_tree files l : ReadFiles a = Some (true, files) → placed files l →
      patch_plan (mc_mem s) (data (g_dtb files)) l = None → refused.

(** What [Load] leaves behind. *)
Definition load_post (r : bool * GuestLayout) (s' : machine) : Prop :=
  ∃ F', pa_ok s' F' ∧ mem_same_outside F s s' ∧ mc_sys s' = mc_sys s ∧ mc_slabs s' = mc_slabs s ∧
  if r.1 then
    ∃ files plan, ReadFiles a = Some (true, files) ∧ placed files r.2 ∧
      patch_plan (mc_mem s) (data (g_dtb files)) r.2 = Some plan ∧ guest_loaded files r.2 plan s s' ∧
      pa_block s' (l_ramHostPa r.2) GUEST_RAM_ORDER ∧ (∀ x, F x ↔ F' x ∨ block (l_ramHostPa r.2) GUEST_RAM_ORDER x) ∧
      ∀ x, block (l_ramHostPa r.2) GUEST_RAM_ORDER x → ¬ F' x
  else r.2 = no_layout ∧ refused ∧ ∀ x, F' x ↔ F x.

Lemma refuse_post s' : s' = s → refused → load_post (false, no_layout) s'.
Proof. intros -> Hr. exists F. by split_and!. Qed.

(** A file of the archive, once guest RAM was taken from the free memory. *)
Lemma file_kept s1 f x : file_range dat (Z.of_nat (length d)) f → mem_same_outside F s s1 →
  data f ≤ x < data f + f_size f → load8 (mc_mem s1) x = load8 (mc_mem s) x.
Proof. intros [-> |Hr] Hm Hx; [simpl in Hx; lia|]. apply Hm, Hfree. lia. Qed.

Lemma file_outside f ram o : file_range dat (Z.of_nat (length d)) f → (∀ x, block ram o x → F x) →
  ∀ x, data f ≤ x < data f + f_size f → ¬ block ram o x.
Proof. intros [-> |Hr] Hb x Hx Hin; [simpl in Hx; lia|]. by apply (Hfree x); [lia|apply Hb]. Qed.

Lemma guest_loaded_before s1 s' files l plan : pa_frame F s s1 →
  file_range dat (Z.of_nat (length d)) (g_kernel files) → file_range dat (Z.of_nat (length d)) (g_dtb files) →
  file_range dat (Z.of_nat (length d)) (g_initrd files) →
  guest_loaded files l plan s1 s' → guest_loaded files l plan s s'.
Proof.
  intros [(_ & Hsys & Htr) Hm] Hk Ht Hr [Gk Gr [Gd1 Gd2] Gt]. split.
  - intros i Hi. rewrite Gk by done. apply (file_kept s1 _ _ Hk Hm). lia.
  - intros i Hi. rewrite Gr by done. apply (file_kept s1 _ _ Hr Hm). lia.
  - split; [done|]. intros m1 Hm1. apply Gd2. intros i Hi. rewrite Hm1 by done. symmetry. apply (file_kept s1 _ _ Ht Hm). lia.
  - by rewrite Gt, Htr, !(cleaned_sys s s1) by done.
Qed.

(** From the fresh guest RAM on. *)
Lemma load_tail files l s1 F' :
  ReadFiles a = Some (true, files) → placed files l → fits 64 (f_size (g_initrd files)) →
  file_range dat (Z.of_nat (length d)) (g_kernel files) → file_range dat (Z.of_nat (length d)) (g_dtb files) →
  file_range dat (Z.of_nat (length d)) (g_initrd files) →
  pa_frame F s s1 → pa_block s1 (l_ramHostPa l) GUEST_RAM_ORDER → pa_ok s1 F' →
  (∀ x, F x ↔ F' x ∨ block (l_ramHostPa l) GUEST_RAM_ORDER x) → (∀ x, block (l_ramHostPa l) GUEST_RAM_ORDER x → ¬ F' x) →
  runs (copyToGuest l (kernelIpa l) (g_kernel files);;
        copyToGuest l (dtbIpa l) (g_dtb files);;
        let guestDtb := PaToVa (IpaToHostPa l (dtbIpa l)) in
        patched ← DtbPatcher_Run (DtbPatcher_new guestDtb l);
        if negb patched then FreePages (l_ramHostPa l) GUEST_RAM_ORDER;; mret (false, no_layout)
        else
          CleanDataCacheRange guestDtb (l_dtbSize l);;
          when (bool_decide (f_size (g_initrd files) ≠ 0)) (copyToGuest l (initrdIpa l) (g_initrd files));;
          mret (true, l)) s1 load_post.
Proof.
  intros Er Hl Hr0 Hk Ht Hr Hfr Hblk HF' Heq Hdis. destruct guest_ram_order as [Hbs _].
  destruct (pa_block_bounds s1 F' _ _ HF' Hblk) as (Hram & Hlim & _). rewrite Hbs in Hlim.
  assert (HramF : ∀ x, block (l_ramHostPa l) GUEST_RAM_ORDER x → F x) by (intros x Hx; apply Heq; by right).
  pose proof (file_outside _ _ _ Hk HramF) as Ok. pose proof (file_outside _ _ _ Ht HramF) as Ot.
  pose proof (file_outside _ _ _ Hr HramF) as Or. pose proof (proj1 Hr0) as Hr1.
  assert (Hplan : patch_plan (mc_mem s1) (data (g_dtb files)) l = patch_plan (mc_mem s) (data (g_dtb files)) l).
  { apply patch_plan_moved. intros i Hi. destruct (pl_dtb _ _ Hl) as (-> & _) in Hi. apply (file_kept s1 _ _ Ht (pf_mem _ _ _ Hfr)). lia. }
  assert (Hkeep : ∀ s', only_in (block (l_ramHostPa l) GUEST_RAM_ORDER) s1 s' → pa_ok s' F' ∧
    pa_block s' (l_ramHostPa l) GUEST_RAM_ORDER ∧ mem_same_outside F s s' ∧ mc_sys s' = mc_sys s ∧ mc_slabs s' = mc_slabs s).
  { intros s' [Hp Hsl Hsy Hm]. destruct (pa_client s1 s' F' HF' Hp) as [HF2 Hb2].
    { intros x Hx. apply Hm. intros Hin. by apply (Hdis x Hin). }
    split_and!; [done|by apply Hb2| |by rewrite Hsy; apply Hfr|by rewrite Hsl; apply Hfr].
    intros x Hx. rewrite Hm by (intros Hin; by apply Hx, HramF). by apply Hfr. }
  apply runs_three. eapply runs_mono; [by apply (prepare_spec files l Hl Hram Hlim Ok Ot)|]. cbv beta.
  intros ok s2 Hprep. pose proof (pr_plan _ _ _ _ _ Hprep) as Hp. rewrite Hplan in Hp.
  destruct (patch_plan (mc_mem s) (data (g_dtb files)) l) as [plan|] eqn:Ep.
  - destruct Hp as [-> _]. cbn [negb]. apply runs_two. eapply runs_mono; [by apply (finish_spec files l Hl Hram Hlim Or Hr1 s1 s2 plan)|].
    cbv beta. intros [] s3 [Ho Hg]. run. destruct (Hkeep s3 Ho) as (K1 & K2 & K3 & K4 & K5). exists F'.
    split_and!; [done..|]. exists files, plan. split_and!; [done..| |done|done|done]. by apply (guest_loaded_before s1).
  - subst ok. cbn [negb]. destruct (Hkeep s2 (pr_only _ _ _ _ _ Hprep)) as (K1 & K2 & K3 & K4 & K5). apply runs_bind.
    eapply runs_mono; [by apply (pa_free s2 F')|]. cbv beta. intros [] s3 (HF3 & _ & [(Hsl & Hsy & _) Hm3]). run.
    eexists. split; [exact HF3|]. cbn [fst snd]. split_and!; [|congruence|congruence|done|by apply (bad_tree files l)|].
    + intros x Hx. rewrite Hm3 by (intros H; by apply Hx, Heq). by apply K3.
    + intros x. symmetry. apply Heq.
Qed.
End load.

Lemma Load_spec s F dat d a (HF : pa_ok s F) (Ha : Archive_new dat d = Some a)
    (H0 : 0 ≤ dat) (H1 : dat + Z.of_nat (length d) < 2 ^ 64)
    (Hfree : ∀ x, dat ≤ x < dat + Z.of_nat (length d) → ¬ F x) :
  runs (Load a) s (load_post s F a).
Proof.
  destruct (ReadFiles_spec dat d a Ha H0 H1) as (ok & files & Er & Hok).
  unfold Load. rewrite Er. unfold defined. run.
  destruct ok; cbn [andb negb]; cycle 1.
  { destruct (CalculateLayout files) as [b l]. run. by apply refuse_post, (no_files _ _ files). }
  destruct (Hok eq_refl) as (Hsz & Hk0 & Ht0 & Hk & Ht & Hr). pose proof (CalculateLayout_spec files Hsz) as Hl.
  unfold layout_chosen in Hl. destruct (CalculateLayout files) as [[|] l0]; cbn [fst snd negb] in Hl |- *; cycle 1.
  { run. apply refuse_post; [done|done|]. apply (no_room _ _ files); [done|apply Hl]. }
  destruct Hl as (Hl0 & _ & _). destruct guest_ram_order as [Hbs Hord]. apply runs_bind.
  eapply runs_mono; [by apply (pa_alloc s F)|]. cbv beta.
  intros ram s1 [(-> & -> & Hno & _)|(Hne & Hblk & _ & Hfr & F' & HF' & Heq & Hdis)].
  { rewrite decide_True by done. run. apply refuse_post; [done..|]. by apply no_ram. }
  rewrite decide_False by done. set (l := with_ram ram l0).
  assert (Hl : placed files l) by (by destruct Hl0).
  apply (load_tail s F dat d a Hfree files l s1 F'); try done. apply Hsz.
Qed.

(** C27: the loader, on a sound archive that lies outside the free memory. It always returns.
    It succeeds with the kernel, the patched tree and the initrd copied byte for byte to
    their places in one fresh 256 MiB block, every line of them cleaned for the guest's view
    of memory, and nothing else changed; or it fails for a reason, having given back all
    memory it took. *)
Theorem Load_correct s F dat d a (HF : pa_ok s F) (Ha : Archive_new dat d = Some a)
    (H0 : 0 ≤ dat) (H1 : dat + Z.of_nat (length d) < 2 ^ 64)
    (Hfree : ∀ x, dat ≤ x < dat + Z.of_nat (length d) → ¬ F x) :
  runs (Load a) s (load_post s F a).
Proof. by apply (Load_spec s F dat d). Qed.

(** An archive with a kernel and the guest tree, outside the pool. *)
Definition boot_archive : list Z :=
  encode [MkItem (str "linux") 0x41ED 2 [17] []; MkItem (str "linux/Image") 0x81A4 1 [18; 1000] [1; 2; 3; 4; 5];
    MkItem (str "linux/guest.dtb") 0x81A4 1 [18; 1000] guest_dtb] 100.

Definition boot_view : Archive := default (MkArchive 0 [] 0 INVALID_REGION) (Archive_new 0x88000000 boot_archive).

Lemma Load_correct_witness :
  Archive_new 0x88000000 boot_archive = Some boot_view ∧ m_error boot_view = NONE ∧
  (∃ files, ReadFiles boot_view = Some (true, files) ∧ sizes_fit files ∧ f_size (g_dtb files) = 196) ∧
  runs (Load boot_view) pool0 (load_post pool0 F0 boot_view).
Proof.
  split_and!; [vm_compute; reflexivity|vm_compute; reflexivity| |].
  - exists (MkGuestFiles (MkFile 0x880000f0 5) (MkFile 0x88000178 196) no_file).
    split_and!; vm_compute; (reflexivity || intuition discriminate).
  - apply (Load_correct pool0 F0 0x88000000 boot_archive boot_view); [apply pool0_pa_ok|vm_compute; reflexivity|discriminate|vm_compute; reflexivity|].
    intros x Hx H%F0_eq. assert (Z.of_nat (length boot_archive) = 796) by (vm_compute; reflexivity). lia.
Defined.
