(* ===== verification/DeviceTree.v ===== *)
(** * The firmware and guest device trees (core/deviceTree/deviceTree.cpp)

    [TreeParser] reads a blob in memory. It writes nothing: its state is the address it is
    bound to, and its results are the boot memory map and the registers of a device. *)
From Stdlib Require Import String.
From S2P Require Import Prelude Memory Machine Pmm Cpio Fdt.

Definition MAX_DEPTH : Z := 16.
Definition DEFAULT_ADDRESS_CELLS : Z := 2.
Definition DEFAULT_SIZE_CELLS : Z := 1.
Definition CELL_SIZE_BYTES : Z := 4.
Definition DT_MAX_REGIONS : nat := 8.

(** A span: where it starts and how many elements it has. *)
Record span : Set := MkSpan {
  sp_data : Z;
  sp_size : Z;
}.
Definition no_span : span := MkSpan 0 0.
(** [span<Cell>::size_bytes] *)
Definition size_bytes (s : span) : Z := sp_size s * CELL_SIZE_BYTES.
(** [cells.subspan(off, n)], defined inside the span. *)
Definition subspan (s : span) (off n : Z) : option span :=
  if decide (0 ≤ off ∧ 0 ≤ n ∧ off + n ≤ sp_size s) then Some (MkSpan (sp_data s + off * CELL_SIZE_BYTES) n) else None.

Section reads.
Context (m : gmap Z Z).

Fixpoint combine_cells (p : Z) (n : nat) (combined : Z) : Z :=
  match n with
  | O => combined
  | S n' => combine_cells (p + CELL_SIZE_BYTES) n' (Z.lor (u64 (combined ≪ 32)) (be32 m p))
  end.
Definition getCombinedCell (cells : span) : Z := combine_cells (sp_data cells) (Z.to_nat (sp_size cells)) 0.

(** The bytes at [p] are those of [expected]. *)
Fixpoint bytes_are (p : Z) (expected : list Z) : bool :=
  match expected with
  | [] => true
  | c :: expected' => if decide (load8 m p ≠ c) then false else bytes_are (p + 1) expected'
  end.

Definition stringStartsWith (actual : span) (expected : list Z) : bool :=
  if decide (sp_size actual < Z.of_nat (List.length expected)) then false else bytes_are (sp_data actual) expected.

Definition stringEquals (actual : span) (expected : list Z) : bool :=
  bool_decide (Z.of_nat (List.length expected) < sp_size actual) && stringStartsWith actual expected &&
  bool_decide (load8 m (sp_data actual + Z.of_nat (List.length expected)) = 0).

(** Some candidate is the [entryLen] bytes at [p]. *)
Definition candidate_matches (p entryLen : Z) (candidates : list (list Z)) : bool :=
  existsb (λ c, bool_decide (Z.of_nat (List.length c) = entryLen) && bytes_are p c) candidates.

(** Every pass moves on by a byte at least. *)
Fixpoint matches_from (fuel : nat) (list_ : span) (candidates : list (list Z)) (off : Z) : bool :=
  match fuel with
  | O => false
  | S n =>
      if decide (off < sp_size list_) then
        let p := sp_data list_ + off in
        let remaining := sp_size list_ - off in
        let entryLen := strnlen m p (Z.to_nat remaining) in
        if candidate_matches p entryLen candidates then true
        else matches_from n list_ candidates (off + if decide (entryLen < remaining) then entryLen + 1 else entryLen)
      else false
  end.
Definition matchesCompatible (list_ : span) (candidates : list (list Z)) : bool :=
  matches_from (S (Z.to_nat (sp_size list_))) list_ candidates 0.
End reads.

(** ** Bus addresses *)

Record BusLevel : Set := MkBusLevel {
  addressCells : Z;
  sizeCells : Z;
  ranges : span;
  matched : bool;
  reg : span;
}.
Definition no_level : BusLevel := MkBusLevel 0 0 no_span false no_span.
Definition new_level : BusLevel := MkBusLevel DEFAULT_ADDRESS_CELLS DEFAULT_SIZE_CELLS no_span false no_span.

Section translate.
Context (m : gmap Z Z) (stack : list BusLevel).

(** The cells of a [ranges] or [reg] entry from cell [k] on. *)
Definition entry_cells (cells : span) (off k n : Z) : option Z :=
  entry ← subspan cells (off / CELL_SIZE_BYTES) (sp_size cells - off / CELL_SIZE_BYTES);
  getCombinedCell m <$> subspan entry k n.

(** The entries of a [ranges] property: the first that holds [addr] moves it. *)
Fixpoint translate_entries (fuel : nat) (cells : span) (childCells parentCells lengthCells stride addr off : Z) : option Z :=
  match fuel with
  | O => None
  | S n =>
      if decide (u32 (off + stride) ≤ size_bytes cells) then
        child ← entry_cells cells off 0 childCells;
        parent ← entry_cells cells off childCells parentCells;
        length ← entry_cells cells off (u32 (childCells + parentCells)) lengthCells;
        if decide (child ≤ addr ∧ addr ⊟ child < length) then Some (addr ⊟ child ⊞ parent)
        else translate_entries n cells childCells parentCells lengthCells stride addr (u32 (off + stride))
      else Some addr
  end.

Definition translate_level (level : nat) (addr : Z) : option Z :=
  let bus := nth (level - 1) stack no_level in
  if decide (sp_size (ranges bus) = 0 ∨ (level < 2)%nat) then Some addr
  else
    let childCells := addressCells bus in
    let parentCells := addressCells (nth (level - 2) stack no_level) in
    let stride := u32 (u32 (u32 (childCells + parentCells) + sizeCells bus) * CELL_SIZE_BYTES) in
    if decide (stride = 0 ∨ size_bytes (ranges bus) mod stride ≠ 0) then Some addr
    else translate_entries (S (Z.to_nat (size_bytes (ranges bus)))) (ranges bus) childCells parentCells
           (sizeCells bus) stride addr 0.

(** [for (level = depth; level > 0; --level)] *)
Fixpoint translate (depth : nat) (addr : Z) : option Z :=
  match depth with
  | O => Some addr
  | S d => addr' ← translate_level depth addr; translate d addr'
  end.
End translate.

(** ** The header *)

Definition header_in (total off sz : Z) : bool := bool_decide (off ≤ total) && bool_decide (sz ≤ total - off).

(** The loop variables of [validateHeader]. *)
Record vstate : Set := MkVState {
  v_cursor : Z;
  v_depth : Z;
  v_ended : bool;
}.

Section parser.
Context (m_dtb : Z).

(** One pass over the structure block. *)
Definition validate_step (structEnd strings stringsSize : Z) (v : vstate) : M machine (vstate + vstate) :=
  if decide (v_cursor v < structEnd) then
    if decide (structEnd - v_cursor v < 4) then HvPanic "[ERROR][DTB] truncated structure block"
    else
      token ← ld_be32 (v_cursor v);
      let cursor := v_cursor v + 4 in
      if v_ended v then HvPanic "[ERROR][DTB] data follows structure end"
      else if decide (token = FDT_BEGIN_NODE) then
        len ← ld_strnlen cursor (structEnd - cursor);
        let cursor := cursor + len in
        if decide (cursor = structEnd) then HvPanic "[ERROR][DTB] unterminated node name"
        else
          let cursor := FdtAlign (cursor + 1) 0 in
          let depth := u32 (v_depth v + 1) in
          if decide (MAX_DEPTH < depth) then HvPanic "[ERROR][DTB] device tree nesting is too deep"
          else mret (inl (MkVState cursor depth false))
      else if decide (token = FDT_END_NODE) then
        if decide (v_depth v = 0) then HvPanic "[ERROR][DTB] unmatched end node"
        else mret (inl (MkVState cursor (v_depth v - 1) false))
      else if decide (token = FDT_PROP) then
        if decide (structEnd - cursor < 8) then HvPanic "[ERROR][DTB] truncated property header"
        else
          len ← ld_be32 cursor;
          nameOff ← ld_be32 (cursor + 4);
          if decide (stringsSize ≤ nameOff) then HvPanic "[ERROR][DTB] invalid property name"
          else
            let remaining := stringsSize - nameOff in
            i ← ld_strnlen (strings ⊞ nameOff) remaining;
            if decide (i = remaining ∨ u32 (structEnd - cursor - 8) < len) then HvPanic "[ERROR][DTB] malformed property"
            else
              let cursor := cursor + u32 (8 + Z.land (u32 (len + 3)) (2 ^ 32 - 1 - 3)) in
              if decide (structEnd < cursor) then HvPanic "[ERROR][DTB] truncated property data"
              else mret (inl (MkVState cursor (v_depth v) false))
      else if decide (token = FDT_NOP) then mret (inl (MkVState cursor (v_depth v) false))
      else if decide (token = FDT_END) then
        if decide (v_depth v ≠ 0) then HvPanic "[ERROR][DTB] unclosed node"
        else mret (inl (MkVState cursor 0 true))
      else HvPanic "[ERROR][DTB] invalid structure token"
  else mret (inr v).

Definition validateHeader : M machine unit :=
  if decide (m_dtb = 0) then HvPanic "[ERROR][DTB] null device tree"
  else
    total ← ld_be32 (fh_totalSize m_dtb);
    structOff ← ld_be32 (fh_structOff m_dtb);
    structSize ← ld_be32 (fh_sizeStructs m_dtb);
    stringsOff ← ld_be32 (fh_stringsOff m_dtb);
    stringsSize ← ld_be32 (fh_sizeStrings m_dtb);
    magic ← ld_be32 (fh_magic m_dtb);
    memRsv ← ld_be32 (fh_memRsvMapOff m_dtb);
    if bool_decide (magic ≠ FDT_MAGIC ∨ total < FdtHeader_size) ||
        negb (header_in total structOff structSize) || negb (header_in total stringsOff stringsSize) ||
        negb (header_in total memRsv 16) then HvPanic "[ERROR][DTB] invalid device tree header"
    else
      let end_ := m_dtb ⊞ total in
      let cursor := m_dtb ⊞ structOff in
      let structEnd := cursor + structSize in
      v ← loop (S (Z.to_nat structSize)) (validate_step structEnd (m_dtb ⊞ stringsOff) stringsSize) (MkVState cursor 0 false);
      if negb (v_ended v) || bool_decide (v_cursor v ≠ structEnd) || bool_decide (end_ < m_dtb)
      then HvPanic "[ERROR][DTB] malformed structure block" else mret tt.

(** ** The boot memory map *)

Record MemoryParseState : Set := MkMemoryParseState {
  memory : bool;
  reserved : bool;
  atf : bool;
  chosen : bool;
  foundMemory : bool;
  initrdStart : Z;
  initrdEnd : Z;
  hasInitrdStart : bool;
  hasInitrdEnd : bool;
  s_depth : Z;
}.
Definition no_state : MemoryParseState := MkMemoryParseState false false false false false 0 0 false false 0.

Definition set_nodes (me re at_ ch : bool) (d : Z) (s : MemoryParseState) : MemoryParseState :=
  MkMemoryParseState me re at_ ch (foundMemory s) (initrdStart s) (initrdEnd s) (hasInitrdStart s) (hasInitrdEnd s) d.
Definition set_found (s : MemoryParseState) : MemoryParseState :=
  MkMemoryParseState (memory s) (reserved s) (atf s) (chosen s) true (initrdStart s) (initrdEnd s)
    (hasInitrdStart s) (hasInitrdEnd s) (s_depth s).
Definition set_initrd_start (v : Z) (s : MemoryParseState) : MemoryParseState :=
  MkMemoryParseState (memory s) (reserved s) (atf s) (chosen s) (foundMemory s) v (initrdEnd s) true (hasInitrdEnd s) (s_depth s).
Definition set_initrd_end (v : Z) (s : MemoryParseState) : MemoryParseState :=
  MkMemoryParseState (memory s) (reserved s) (atf s) (chosen s) (foundMemory s) (initrdStart s) v (hasInitrdStart s) true (s_depth s).

Definition set_memory (b n : Z) (map : MemoryMap) : MemoryMap :=
  MkMemoryMap b n (atfBase map) (atfSize map) (dtbBase map) (dtbSize map) (cpioArchiveBase map) (cpioArchiveSize map).
Definition set_atf (b n : Z) (map : MemoryMap) : MemoryMap :=
  MkMemoryMap (memBase map) (memSize map) b n (dtbBase map) (dtbSize map) (cpioArchiveBase map) (cpioArchiveSize map).
Definition set_archive (b n : Z) (map : MemoryMap) : MemoryMap :=
  MkMemoryMap (memBase map) (memSize map) (atfBase map) (atfSize map) (dtbBase map) (dtbSize map) b n.

Definition getInitrdAddress (m : gmap Z Z) (cells : span) : Z :=
  if decide (sp_size cells = 2) then getCombinedCell m cells else be32 m (sp_data cells).

(** A node's name against the nodes that count. *)
Definition enter_node (m : gmap Z Z) (nodeName : span) (s : MemoryParseState) : MemoryParseState :=
  let s :=
    if decide (s_depth s = 1) then
      set_nodes (stringStartsWith m nodeName (str "memory")) (stringEquals m nodeName (str "reserved-memory"))
        (atf s) (stringEquals m nodeName (str "chosen")) (s_depth s) s
    else if bool_decide (s_depth s = 2) && reserved s then
      set_nodes (memory s) (reserved s)
        (stringEquals m nodeName (str "atf") || stringEquals m nodeName (str "bl31") ||
         stringEquals m nodeName (str "secmon") || stringEquals m nodeName (str "optee") ||
         stringEquals m nodeName (str "tee")) (chosen s) (s_depth s) s
    else s in
  set_nodes (memory s) (reserved s) (atf s) (chosen s) (u32 (s_depth s + 1)) s.

Definition leave_node (s : MemoryParseState) : MemoryParseState :=
  let depth := u32 (s_depth s - 1) in
  if decide (depth = 1) then set_nodes false false (atf s) false depth s
  else if decide (depth = 2) then set_nodes (memory s) (reserved s) false (chosen s) depth s
  else set_nodes (memory s) (reserved s) (atf s) (chosen s) depth s.

Definition take_property (m : gmap Z Z) (name : span) (data len : Z) (s : MemoryParseState) (map : MemoryMap) :
    MemoryParseState * MemoryMap :=
  if stringEquals m name (str "reg") && bool_decide (16 ≤ len) then
    let cells := getCombinedCell m (MkSpan data 2) in
    let size := getCombinedCell m (MkSpan (data + 2 * CELL_SIZE_BYTES) 2) in
    if memory s && negb (foundMemory s) then (set_found s, set_memory cells size map)
    else if atf s then (s, set_atf cells size map)
    else (s, map)
  else if chosen s && bool_decide (s_depth s = 2) && bool_decide (len = 4 ∨ len = 8) then
    let cells := MkSpan data (len / CELL_SIZE_BYTES) in
    if stringEquals m name (str "linux,initrd-start") then (set_initrd_start (getInitrdAddress m cells) s, map)
    else if stringEquals m name (str "linux,initrd-end") then (set_initrd_end (getInitrdAddress m cells) s, map)
    else (s, map)
  else (s, map).

(** One pass; the loop variables are [tok], the state and the map. *)
Definition parse_step (strings stringsSize structEnd : Z) (v : Z * (MemoryParseState * MemoryMap)) :
    M machine (Z * (MemoryParseState * MemoryMap) + MemoryMap) :=
  let '(tok, (s, map)) := v in
  token ← ld_be32 tok;
  let tok := tok + 4 in
  if decide (token = FDT_BEGIN_NODE) then
    len ← ld_strnlen tok (structEnd - tok);
    if decide (tok + len = structEnd) then HvPanic "[ERROR][DTB] unterminated node name"
    else
      s' ← gets (λ w, enter_node (mc_mem w) (MkSpan tok (structEnd - tok)) s);
      mret (inl (FdtAlign tok (len + 1), (s', map)))
  else if decide (token = FDT_END_NODE) then mret (inl (tok, (leave_node s, map)))
  else if decide (token = FDT_PROP) then
    len ← ld_be32 tok;
    off ← ld_be32 (tok + 4);
    let data := tok + 8 in
    x' ← gets (λ w, take_property (mc_mem w) (MkSpan (strings + off) (u32 (stringsSize - off))) data len s map);
    mret (inl (FdtAlign data len, x'))
  else if decide (token = FDT_NOP) then mret (inl (tok, (s, map)))
  else if decide (token = FDT_END) then
    if negb (foundMemory s) then HvPanic "[ERROR][DTB] memory is missing"
    else
      mret (inr (if hasInitrdStart s && hasInitrdEnd s && bool_decide (initrdStart s < initrdEnd s)
                 then set_archive (initrdStart s) (initrdEnd s - initrdStart s) map else map))
  else HvPanic "[ERROR][DTB] invalid structure token".

(** The loop has no bound of its own; the fuel is that of the run. *)
Definition ParseMemoryMap (fuel : nat) : M machine MemoryMap :=
  validateHeader;;
  dtbSz ← ld_be32 (fh_totalSize m_dtb);
  structOff ← ld_be32 (fh_structOff m_dtb);
  stringsOff ← ld_be32 (fh_stringsOff m_dtb);
  structSize ← ld_be32 (fh_sizeStructs m_dtb);
  stringsSize ← ld_be32 (fh_sizeStrings m_dtb);
  loop fuel (parse_step (m_dtb ⊞ stringsOff) stringsSize (m_dtb ⊞ structOff ⊞ structSize))
    (m_dtb ⊞ structOff, (no_state, MkMemoryMap 0 0 0 0 m_dtb dtbSz 0 0)).

(** ** Finding a device *)

Record DeviceRegion : Set := MkDeviceRegion { dr_base : Z; dr_size : Z }.
(** The [regionCount] regions decoded. *)
Record DeviceNode : Set := MkDeviceNode { regions : list DeviceRegion; isFound : bool }.
Definition no_node : DeviceNode := MkDeviceNode [] false.
Definition regionCount (n : DeviceNode) : nat := List.length (regions n).

Definition set_level (f : BusLevel → BusLevel) (level : Z) (stack : list BusLevel) : list BusLevel :=
  <[Z.to_nat level := f (nth (Z.to_nat level) stack no_level)]> stack.

(** The regions of [reg], their addresses translated to the CPU's; [None] is a read outside. *)
Fixpoint decode_regions (fuel : nat) (m : gmap Z Z) (stack : list BusLevel) (depth : Z) (r : span)
    (addrCells szCells stride off : Z) (out : list DeviceRegion) : option (list DeviceRegion) :=
  match fuel with
  | O => None
  | S n =>
      if decide (u32 (off + stride) ≤ size_bytes r ∧ (List.length out < DT_MAX_REGIONS)%nat) then
        b ← entry_cells m r off 0 addrCells;
        sz ← entry_cells m r off addrCells szCells;
        a ← translate m stack (Z.to_nat depth) b;
        decode_regions n m stack depth r addrCells szCells stride (u32 (off + stride)) (out ++ [MkDeviceRegion a sz])
      else Some out
  end.

(** The node that just ended, when it matched and its [reg] is whole entries of its bus. *)
Definition close_node (m : gmap Z Z) (stack : list BusLevel) (depth : Z) : option (option DeviceNode) :=
  let node := nth (Z.to_nat depth) stack no_level in
  if bool_decide (depth < MAX_DEPTH) && matched node then
    let parent := if decide (depth ≠ 0) then nth (Z.to_nat (depth - 1)) stack no_level else new_level in
    let stride := u32 (u32 (addressCells parent + sizeCells parent) * CELL_SIZE_BYTES) in
    if decide (sp_size (reg node) ≠ 0 ∧ stride ≠ 0 ∧ size_bytes (reg node) mod stride = 0) then
      out ← decode_regions (S DT_MAX_REGIONS) m stack depth (reg node) (addressCells parent) (sizeCells parent) stride 0 [];
      Some (Some (MkDeviceNode out true))
    else Some None
  else Some None.

Definition take_bus_property (m : gmap Z Z) (devices : list (list Z)) (name data : span) (len : Z) (l : BusLevel) : BusLevel :=
  if stringEquals m name (str "#address-cells") && bool_decide (4 ≤ len) then
    MkBusLevel (be32 m (sp_data data)) (sizeCells l) (ranges l) (matched l) (reg l)
  else if stringEquals m name (str "#size-cells") && bool_decide (4 ≤ len) then
    MkBusLevel (addressCells l) (be32 m (sp_data data)) (ranges l) (matched l) (reg l)
  else if stringEquals m name (str "ranges") then
    MkBusLevel (addressCells l) (sizeCells l) data (matched l) (reg l)
  else if stringEquals m name (str "reg") then
    MkBusLevel (addressCells l) (sizeCells l) (ranges l) (matched l) data
  else if stringEquals m name (str "compatible") && bool_decide (len ≠ 0) then
    MkBusLevel (addressCells l) (sizeCells l) (ranges l) (matchesCompatible m (MkSpan (sp_data data) len) devices) (reg l)
  else l.

(** One pass; the loop variables are [tok], the depth and the stack of bus levels. *)
Definition find_step (devices : list (list Z)) (strings stringsSize structEnd : Z) (v : Z * (Z * list BusLevel)) :
    M machine (Z * (Z * list BusLevel) + DeviceNode) :=
  let '(tok, (depth, stack)) := v in
  token ← ld_be32 tok;
  let tok := tok + 4 in
  if decide (token = FDT_BEGIN_NODE) then
    len ← ld_strnlen tok (structEnd - tok);
    if decide (tok + len = structEnd) then HvPanic "[ERROR][DTB] unterminated node name"
    else
      let stack := if decide (depth < MAX_DEPTH) then set_level (λ _, new_level) depth stack else stack in
      mret (inl (FdtAlign tok (len + 1), (u32 (depth + 1), stack)))
  else if decide (token = FDT_END_NODE) then
    let depth := if decide (0 < depth) then depth - 1 else depth in
    found ← gets (λ w, close_node (mc_mem w) stack depth);
    r ← defined found;
    mret (match r with Some node => inr node | None => inl (tok, (depth, stack)) end)
  else if decide (token = FDT_PROP) then
    len ← ld_be32 tok;
    off ← ld_be32 (tok + 4);
    let data := MkSpan (tok + 8) (len / CELL_SIZE_BYTES) in
    let level := if decide (depth ≠ 0) then depth - 1 else 0 in
    stack' ← gets (λ w, if decide (level < MAX_DEPTH) then
        set_level (take_bus_property (mc_mem w) devices (MkSpan (strings + off) (u32 (stringsSize - off))) data len) level stack
      else stack);
    mret (inl (FdtAlign (sp_data data) len, (depth, stack')))
  else if decide (token = FDT_NOP) then mret (inl (tok, (depth, stack)))
  else if decide (token = FDT_END) then mret (inr no_node)
  else HvPanic "[ERROR][DTB] invalid structure token".

Definition FindDevice (fuel : nat) (devices : list (list Z)) : M machine DeviceNode :=
  validateHeader;;
  if decide (devices = []) then mret no_node
  else
    structOff ← ld_be32 (fh_structOff m_dtb);
    stringsOff ← ld_be32 (fh_stringsOff m_dtb);
    structSize ← ld_be32 (fh_sizeStructs m_dtb);
    stringsSize ← ld_be32 (fh_sizeStrings m_dtb);
    loop fuel (find_step devices (m_dtb ⊞ stringsOff) stringsSize (m_dtb ⊞ structOff ⊞ structSize))
      (m_dtb ⊞ structOff, (0, replicate (Z.to_nat MAX_DEPTH) no_level)).
End parser.

Definition kUartCompatible : list (list Z) := [str "arm,pl011"; str "brcm,bcm2835-aux-uart"].
Definition kGicCompatible : list (list Z) :=
  [str "arm,gic-400"; str "arm,cortex-a15-gic"; str "arm,gic-v2"; str "arm,arm11mp-gic"; str "arm,gic-v3"].
