(* ===== verification/DeviceTreeSpec.v ===== *)
(** * Validation and the walks after it, by the tokens of the structure block *)
From Stdlib Require Import String.
From S2P Require Import Prelude Memory Machine Pmm Strings HostMmu Cpio Fdt BootLoader LayoutSpec.
From S2P Require Import PatchSpec PatchSim DeviceTree.

(** ** Computing runs *)

Lemma gets_bind {A B} (f : machine → A) (k : A → M machine B) s : (gets f ≫= k) s = k (f s) s.
Proof. done. Qed.
Lemma ret_bind {A B} (a : A) (k : A → M machine B) s : (mret a ≫= k) s = k a s.
Proof. done. Qed.

(** ** Strings in a blob *)

(** The bytes at [p] are a C string. *)
Fixpoint cstr_at (m : gmap Z Z) (p : Z) (name : list Z) : Prop :=
  match name with
  | [] => load8 m p = 0
  | c :: name' => load8 m p = c ∧ c ≠ 0 ∧ cstr_at m (p + 1) name'
  end.

Lemma cstr_at_spec m name : ∀ p, no_nul name → bytes_at m p (List.length name) = name →
  load8 m (p + Z.of_nat (List.length name)) = 0 → cstr_at m p name.
Proof.
  induction name as [|c name IH]; intros p Hn Hb Hz; cbn [cstr_at List.length] in *; [by rewrite Z.add_0_r in Hz|].
  apply Forall_cons_1 in Hn as [Hc Hn]. cbn [bytes_at] in Hb. injection Hb as Hc' Hb.
  split_and!; [done|done|]. apply IH; [done|congruence|]. rewrite <-Hz. f_equal. lia.
Qed.

Lemma bytes_are_prefix m e : ∀ p name, cstr_at m p name → no_nul e → bytes_are m p e = bool_decide (e `prefix_of` name).
Proof.
  induction e as [|c e IH]; intros p name Hs He; cbn [bytes_are]; [symmetry; apply bool_decide_true, prefix_nil|].
  apply Forall_cons_1 in He as [Hc He]. destruct name as [|c' name]; cbn [cstr_at] in Hs.
  - rewrite decide_True by congruence. symmetry. apply bool_decide_false. apply prefix_nil_not.
  - destruct Hs as (H1 & H2 & H3). destruct (decide (c' = c)) as [-> |Hne].
    + rewrite decide_False by tauto. rewrite (IH _ name) by done. apply bool_decide_ext.
      split; [apply prefix_cons|apply prefix_cons_inv_2].
    + rewrite decide_True by congruence. symmetry. apply bool_decide_false. intros Hp. apply prefix_cons_inv_1 in Hp. congruence.
Qed.

Lemma bytes_are_whole m e : ∀ p name, cstr_at m p name → no_nul e →
  bytes_are m p e && bool_decide (load8 m (p + Z.of_nat (List.length e)) = 0) = bool_decide (name = e).
Proof.
  induction e as [|c e IH]; intros p name Hs He; cbn [bytes_are List.length].
  - rewrite Z.add_0_r. cbn [andb]. apply bool_decide_ext. destruct name as [|c' name]; cbn [cstr_at] in Hs; [done|].
    split; [|done]. intros. exfalso. destruct Hs as (? & ? & _). congruence.
  - apply Forall_cons_1 in He as [Hc He]. destruct name as [|c' name]; cbn [cstr_at] in Hs.
    + rewrite decide_True by congruence. symmetry. by apply bool_decide_false.
    + destruct Hs as (H1 & H2 & H3). destruct (decide (c' = c)) as [-> |Hne].
      * rewrite decide_False by tauto. replace (p + Z.of_nat (S (List.length e))) with (p + 1 + Z.of_nat (List.length e)) by lia.
        rewrite (IH _ name) by done. apply bool_decide_ext. naive_solver.
      * rewrite decide_True by congruence. symmetry. apply bool_decide_false. congruence.
Qed.

Section names.
Context (m : gmap Z Z) (p n : Z) (name : list Z) (Hs : cstr_at m p name) (Hn : Z.of_nat (List.length name) < n).

Lemma stringStartsWith_eq e : no_nul e → stringStartsWith m (MkSpan p n) e = bool_decide (e `prefix_of` name).
Proof.
  intros He. unfold stringStartsWith. cbn [sp_size sp_data]. case_decide as E; [|by apply bytes_are_prefix].
  symmetry. apply bool_decide_false. intros Hp. apply prefix_length in Hp. lia.
Qed.

Lemma stringEquals_eq e : no_nul e → stringEquals m (MkSpan p n) e = bool_decide (name = e).
Proof.
  intros He. unfold stringEquals. cbn [sp_size sp_data]. destruct (decide (Z.of_nat (List.length e) < n)) as [E|E].
  - rewrite bool_decide_true by done. cbn [andb]. unfold stringStartsWith. cbn [sp_size sp_data].
    rewrite decide_False by lia. by apply bytes_are_whole.
  - rewrite (bool_decide_false (_ < n)) by done. symmetry. apply bool_decide_false. intros <-. lia.
Qed.
End names.

(** ** Which blobs are valid *)

Lemma up4_shift a x : a mod 4 = 0 → up4 (a + x) = a + up4 x.
Proof.
  intros Ha. unfold up4. assert ((- (a + x)) mod 4 = (- x) mod 4) as ->; [|lia].
  replace (- (a + x)) with (- x + (- (a / 4)) * 4) by (pose proof (Z.div_mod a 4); lia). by rewrite Z.mod_add.
Qed.

Lemma up4_mod x : up4 x mod 4 = 0.
Proof.
  unfold up4. pose proof (Z.div_mod (- x) 4). replace (x + (- x) mod 4) with ((- ((- x) / 4)) * 4) by lia. by apply Z.mod_mul.
Qed.

Lemma FdtAlign_up4 p n : 0 ≤ p → 0 ≤ n → p + n + 3 < 2 ^ 64 → FdtAlign p n = up4 (p + n).
Proof.
  intros. unfold FdtAlign. assert (p ⊞ n = p + n) as -> by (apply Z.mod_small; lia).
  change (Z.land (p + n ⊞ 3) (not64 3)) with (align4 (p + n)). apply align4_eq; lia.
Qed.

(** The 32-bit rounding of a length. *)
Lemma round_len len : 0 ≤ len → len + 12 < 2 ^ 32 → u32 (8 + Z.land (u32 (len + 3)) (2 ^ 32 - 1 - 3)) = 8 + up4 len.
Proof.
  intros H0 H1. unfold u32. rewrite (Z.mod_small (len + 3)) by lia.
  assert (Z.land (len + 3) (2 ^ 32 - 1 - 3) = up4 len) as ->.
  { assert (2 ^ 32 - 1 - 3 = Z.land (not64 3) (Z.ones 32)) as -> by (vm_compute; reflexivity).
    pose proof (up4_bounds len). rewrite Z.land_assoc, Z.land_ones by lia.
    assert (Z.land (len + 3) (not64 3) = up4 len) as ->; [|apply Z.mod_small; lia].
    rewrite <-align4_eq by lia. unfold align4, u64. by rewrite Z.mod_small by lia. }
  pose proof (up4_bounds len). apply Z.mod_small. lia.
Qed.

(** How a token moves the depth. *)
Definition nest (d : Z) (t : token) : option Z :=
  match t with
  | TBegin _ => if decide (d < MAX_DEPTH) then Some (d + 1) else None
  | TEnd => if decide (0 < d) then Some (d - 1) else None
  | TStop => if decide (d = 0) then Some 0 else None
  | _ => Some d
  end.

(** The blob the header describes, checked or not. *)
Definition header_blob (m : gmap Z Z) (dtb : Z) : blob :=
  MkBlob dtb (be32 m (fh_structOff dtb)) (be32 m (fh_structOff dtb) + be32 m (fh_sizeStructs dtb))
    (be32 m (fh_stringsOff dtb)) (be32 m (fh_sizeStrings dtb)).

Definition header_valid (m : gmap Z Z) (dtb : Z) : Prop :=
  let total := be32 m (fh_totalSize dtb) in let b := header_blob m dtb in
  be32 m (fh_magic dtb) = FDT_MAGIC ∧ FdtHeader_size ≤ total ∧ b_end b ≤ total ∧
  b_strings b + b_stringsSize b ≤ total ∧ be32 m (fh_memRsvMapOff dtb) + 16 ≤ total.
#[export] Instance header_valid_dec m dtb : Decision (header_valid m dtb).
Proof. unfold header_valid. cbv zeta. apply _. Defined.

(** From [off] the block is whole tokens, properly nested, and its only end token is last. *)
Fixpoint valid_from (m : gmap Z Z) (b : blob) (n : nat) (off d : Z) (ended : bool) : bool :=
  match n with
  | O => false
  | S n' =>
      if decide (off < b_end b) then
        if ended then false
        else
          match next_token m b off with
          | Some (t, off') =>
              match nest d t with
              | Some d' => valid_from m b n' off' d' (bool_decide (t = TStop))
              | None => false
              end
          | None => false
          end
      else ended && bool_decide (off = b_end b)
  end.

Lemma next_token_mod m b off t off' : off mod 4 = 0 → next_token m b off = Some (t, off') → off' mod 4 = 0.
Proof.
  intros Ho. assert (Hc : (off + 4) mod 4 = 0) by (by rewrite Z.add_mod, Ho). unfold next_token.
  repeat (case_decide; try done); try (intros; simplify_eq; done);
    intros (name & _ & ?)%bind_Some; simplify_eq; apply up4_mod.
Qed.

Section validate.
Context (dtb : Z) (b : blob) (Hbase : b_base b = dtb) (Hdtb : 0 < dtb < 2 ^ 62) (Hal : dtb mod 4 = 0).
Context (Hend : 0 ≤ b_end b < 2 ^ 32) (Hstr : 0 ≤ b_strings b ∧ 0 ≤ b_stringsSize b ∧ b_strings b + b_stringsSize b < 2 ^ 32).
Implicit Types (s : machine).

(** What a pass of the validator does at an aligned offset. *)
Definition validated (off d : Z) (s : machine) (r : outcome machine (vstate + vstate)) : Prop :=
  match next_token (mc_mem s) b off with
  | Some (t, off') =>
      match nest d t with
      | Some d' => r = Done (inl (MkVState (dtb + off') d' (bool_decide (t = TStop)))) s ∨
          (b_end b < off' ∧ t ≠ TStop ∧ ∃ msg, r = Stop (Panic msg) s)
      | None => ∃ msg, r = Stop (Panic msg) s
      end
  | None => ∃ msg, r = Stop (Panic msg) s
  end.

Lemma name_at_step off limit s : 0 ≤ off ≤ limit →
  name_at (mc_mem s) b off limit = None ∧ strnlen (mc_mem s) (dtb + off) (Z.to_nat (limit - off)) = limit - off ∨
  ∃ name, name_at (mc_mem s) b off limit = Some name ∧
    strnlen (mc_mem s) (dtb + off) (Z.to_nat (limit - off)) = Z.of_nat (List.length name) ∧
    off + Z.of_nat (List.length name) < limit ∧ cstr_at (mc_mem s) (dtb + off) name.
Proof.
  intros Ho. pose proof (strnlen_bounds (mc_mem s) (Z.to_nat (limit - off)) (dtb + off)) as Hn.
  pose proof (strnlen_nul (mc_mem s) (Z.to_nat (limit - off)) (dtb + off)) as Hz.
  pose proof (strnlen_no_nul (mc_mem s) (Z.to_nat (limit - off)) (dtb + off)) as Hnn.
  unfold name_at. rewrite Hbase. set (n := strnlen _ _ _) in *. case_decide as E; [left; split; [done|lia]|right].
  eexists. split; [done|]. rewrite length_bytes_at, Z2Nat.id by lia. split_and!; [done|lia|].
  apply cstr_at_spec; [done|by rewrite length_bytes_at|]. rewrite length_bytes_at, Z2Nat.id by lia. apply Hz. lia.
Qed.

Lemma validate_step_spec off d s : 0 ≤ off → off mod 4 = 0 → 0 ≤ d ≤ MAX_DEPTH → off < b_end b →
  validated off d s (validate_step (dtb + b_end b) (dtb + b_strings b) (b_stringsSize b) (MkVState (dtb + off) d false) s).
Proof.
  intros Ho Hoal Hd Hlt. unfold validate_step, validated, ld_be32, ld_strnlen, next_token. cbn [v_cursor v_depth v_ended].
  rewrite (decide_True (P := dtb + off < dtb + b_end b)) by lia. rewrite Hbase.
  destruct (decide (b_end b < off + 4)) as [E|E]; [rewrite decide_True by lia; by eexists|].
  rewrite (decide_False (P := dtb + b_end b - (dtb + off) < 4)) by lia. rewrite gets_bind. cbv beta zeta.
  destruct (decide (be32 (mc_mem s) (dtb + off) = FDT_BEGIN_NODE)) as [EB|EB].
  { rewrite gets_bind. cbv beta. replace (dtb + b_end b - (dtb + off + 4)) with (b_end b - (off + 4)) by lia.
    replace (dtb + off + 4) with (dtb + (off + 4)) by lia.
    destruct (name_at_step (off + 4) (b_end b) s ltac:(lia)) as [[-> ->]|(name & -> & -> & Hl & _)]; cbn [mbind option_bind].
    { rewrite decide_True by lia. by eexists. }
    rewrite (decide_False (P := dtb + (off + 4) + Z.of_nat (List.length name) = _)) by lia.
    rewrite FdtAlign_up4 by lia. replace (dtb + (off + 4) + Z.of_nat (List.length name) + 1 + 0) with (dtb + (off + 4 + Z.of_nat (List.length name) + 1)) by lia.
    rewrite up4_shift by done. assert (u32 (d + 1) = d + 1) as -> by (apply Z.mod_small; unfold MAX_DEPTH in *; lia).
    cbn [nest]. destruct (decide (d < MAX_DEPTH)).
    - rewrite decide_False by lia. by left.
    - rewrite decide_True by lia. by eexists. }
  destruct (decide (be32 (mc_mem s) (dtb + off) = FDT_END_NODE)) as [EE|EE].
  { cbn [nest]. destruct (decide (0 < d)); [rewrite decide_False by lia; left|rewrite decide_True by lia; by eexists].
    rewrite <-Z.add_assoc. done. }
  destruct (decide (be32 (mc_mem s) (dtb + off) = FDT_PROP)) as [EP|EP].
  { unfold FdtProp_size. destruct (decide (b_end b < off + 4 + 8)) as [E1|E1]; [rewrite decide_True by lia; by eexists|].
    rewrite (decide_False (P := dtb + b_end b - (dtb + off + 4) < 8)) by lia. rewrite !gets_bind. cbv beta. replace (dtb + off + 4) with (dtb + (off + 4)) by lia.
    set (len := be32 (mc_mem s) (dtb + (off + 4))). set (no := be32 (mc_mem s) (dtb + (off + 4) + 4)).
    pose proof (be32_range (mc_mem s) (dtb + (off + 4))) as Hlen. fold len in Hlen.
    pose proof (be32_range (mc_mem s) (dtb + (off + 4) + 4)) as Hno. fold no in Hno.
    destruct (decide (b_stringsSize b ≤ no)) as [E2|E2]; [rewrite decide_True by lia; by eexists|].
    rewrite gets_bind. cbv beta. replace (dtb + b_strings b ⊞ no) with (dtb + (b_strings b + no)) by (symmetry; rewrite <-Z.add_assoc; apply Z.mod_small; lia).
    replace (b_stringsSize b - no) with (b_strings b + b_stringsSize b - (b_strings b + no)) by lia.
    assert (u32 (dtb + b_end b - (dtb + (off + 4)) - 8) = b_end b - off - 12) as -> by (unfold u32; rewrite Z.mod_small; lia).
    destruct (name_at_step (b_strings b + no) (b_strings b + b_stringsSize b) s ltac:(lia)) as [[-> ->]|(name & -> & -> & Hl & _)]; cbn [mbind option_bind].
    { rewrite (decide_True (P := _ = _ ∨ _)) by lia. case_decide; by eexists. }
    destruct (decide (b_end b < off + 4 + 8 + len ∨ b_stringsSize b ≤ no)) as [E3|E3]; [rewrite decide_True by lia; by eexists|].
    rewrite decide_False by lia. rewrite round_len by lia. cbn [nest].
    assert (off + 4 + (8 + up4 len) = up4 (off + 4 + 8 + len)) as E4.
    { replace (off + 4 + 8 + len) with (off + 12 + len) by lia. rewrite up4_shift; [lia|].
      by rewrite Z.add_mod, Hoal by done. }
    rewrite <-Z.add_assoc, E4. destruct (decide (dtb + b_end b < dtb + up4 (off + 4 + 8 + len))); [right|left; done].
    split_and!; [lia|done|by eexists]. }
  destruct (decide (be32 (mc_mem s) (dtb + off) = FDT_NOP)) as [EN|EN]; [left; by rewrite <-Z.add_assoc|].
  destruct (decide (be32 (mc_mem s) (dtb + off) = FDT_END)) as [ES|ES]; [|by eexists].
  cbn [nest]. destruct (decide (d = 0)) as [-> |Ed]; [left; by rewrite <-Z.add_assoc|rewrite decide_True by done; by eexists].
Qed.

(** The validator's verdict. *)
Definition verdict (v : vstate) : bool := v_ended v && bool_decide (v_cursor v = dtb + b_end b).

Lemma nest_range d t d' : 0 ≤ d ≤ MAX_DEPTH → nest d t = Some d' → 0 ≤ d' ≤ MAX_DEPTH ∧ (t = TStop → d' = 0).
Proof. unfold nest, MAX_DEPTH. intros Hd. destruct t; repeat case_decide; intros; simplify_eq; split; (lia || done). Qed.

Lemma validate_loop n : ∀ off d e s, 0 ≤ off → off mod 4 = 0 → 0 ≤ d ≤ MAX_DEPTH → Z.max 0 (b_end b - off) < Z.of_nat n →
  let r := loop n (validate_step (dtb + b_end b) (dtb + b_strings b) (b_stringsSize b)) (MkVState (dtb + off) d e) s in
  (valid_from (mc_mem s) b n off d e = false ∧ ∃ msg, r = Stop (Panic msg) s) ∨
  ∃ v, r = Done v s ∧ verdict v = valid_from (mc_mem s) b n off d e.
Proof.
  induction n as [|n IH]; intros off d e s Ho Hoal Hd Hn; [lia|]. cbn [loop valid_from].
  destruct (decide (off < b_end b)) as [E|E]; cycle 1.
  { right. exists (MkVState (dtb + off) d e). unfold validate_step. cbn [v_cursor v_depth v_ended].
    rewrite decide_False by lia. split; [done|]. unfold verdict. cbn. f_equal. apply bool_decide_ext. lia. }
  destruct e.
  { left. split; [done|]. unfold validate_step. cbn [v_cursor v_depth v_ended]. rewrite decide_True by lia.
    case_decide; by eexists. }
  pose proof (validate_step_spec off d s Ho Hoal Hd E) as Hstep. unfold validated in Hstep.
  destruct (next_token (mc_mem s) b off) as [[t off']|] eqn:Et.
  2: { destruct Hstep as [msg ->]. left. by eauto. }
  pose proof (next_token_moves _ _ _ _ _ Et) as [Hm _]. pose proof (next_token_mod _ _ _ _ _ Hoal Et) as Hoal'.
  destruct (nest d t) as [d'|] eqn:Ed; [|destruct Hstep as [msg ->]; left; by eauto].
  destruct (nest_range _ _ _ Hd Ed) as [Hd' _]. destruct Hstep as [-> |(Hov & Ht & msg & ->)].
  - apply IH; (done || lia).
  - left. split; [|by eauto]. rewrite bool_decide_false by done. destruct n as [|n]; [done|]. cbn [valid_from].
    by rewrite decide_False by lia.
Qed.
End validate.

(** The blob is one that [validateHeader] accepts. *)
Definition blob_valid (m : gmap Z Z) (dtb : Z) : Prop :=
  header_valid m dtb ∧ let b := header_blob m dtb in
    valid_from m b (S (Z.to_nat (be32 m (fh_sizeStructs dtb)))) (b_struct b) 0 false = true.

Lemma header_in_eq total off sz : header_in total off sz = bool_decide (off + sz ≤ total ∧ off ≤ total).
Proof. unfold header_in. rewrite <-bool_decide_and. apply bool_decide_ext. lia. Qed.

Lemma validateHeader_spec dtb s : 0 < dtb < 2 ^ 62 → dtb mod 4 = 0 → be32 (mc_mem s) (fh_structOff dtb) mod 4 = 0 →
  (blob_valid (mc_mem s) dtb ∧ validateHeader dtb s = Done tt s) ∨
  (¬ blob_valid (mc_mem s) dtb ∧ ∃ msg, validateHeader dtb s = Stop (Panic msg) s).
Proof.
  intros Hdtb Hal Hsal. set (m := mc_mem s) in *. set (b := header_blob m dtb).
  assert (Hf : b_struct b = be32 m (fh_structOff dtb) ∧ b_end b = b_struct b + be32 m (fh_sizeStructs dtb) ∧
    b_strings b = be32 m (fh_stringsOff dtb) ∧ b_stringsSize b = be32 m (fh_sizeStrings dtb)) by done.
  pose proof (be32_range m (fh_totalSize dtb)) as R1. pose proof (be32_range m (fh_structOff dtb)) as R2.
  pose proof (be32_range m (fh_sizeStructs dtb)) as R3. pose proof (be32_range m (fh_stringsOff dtb)) as R4.
  pose proof (be32_range m (fh_sizeStrings dtb)) as R5. pose proof (be32_range m (fh_memRsvMapOff dtb)) as R6.
  unfold validateHeader, ld_be32. rewrite decide_False by lia. rewrite !gets_bind. cbv beta. fold m. unfold blob_valid.
  destruct (decide (header_valid m dtb)) as [Hh|Hh]; cycle 1.
  { right. split; [tauto|]. rewrite !header_in_eq, <-!bool_decide_not, <-!bool_decide_or. eexists.
    by rewrite bool_decide_true by (unfold header_valid in Hh; cbv zeta in Hh; cbn [header_blob b_end b_strings b_stringsSize] in Hh; unfold FdtHeader_size in *; lia). }
  pose proof Hh as (H1 & H2 & H3 & H4 & H5). cbn [header_blob b_end b_strings b_stringsSize] in H3, H4.
  rewrite !header_in_eq, <-!bool_decide_not, <-!bool_decide_or, bool_decide_false by (unfold FdtHeader_size in *; lia).
  assert (dtb ⊞ be32 m (fh_structOff dtb) = dtb + b_struct b) as -> by (apply Z.mod_small; lia).
  assert (dtb ⊞ be32 m (fh_stringsOff dtb) = dtb + b_strings b) as -> by (apply Z.mod_small; lia).
  assert (dtb ⊞ be32 m (fh_totalSize dtb) = dtb + be32 m (fh_totalSize dtb)) as -> by (apply Z.mod_small; lia).
  assert (dtb + b_struct b + be32 m (fh_sizeStructs dtb) = dtb + b_end b) as -> by lia.
  assert (Hb : 0 ≤ b_end b < 2 ^ 32 ∧ 0 ≤ b_strings b ∧ 0 ≤ b_stringsSize b ∧ b_strings b + b_stringsSize b < 2 ^ 32)
    by lia.
  destruct (validate_loop dtb b eq_refl Hdtb Hal ltac:(lia) ltac:(lia) (S (Z.to_nat (be32 m (fh_sizeStructs dtb)))) (b_struct b) 0 false s)
    as [[Hv (msg & Hr)]|(v & Hr & Hv)]; [lia|done|unfold MAX_DEPTH; lia|lia| |].
  - right. split; [intros [_ H]; pose proof (eq_trans (eq_sym Hv) H); done|]. erewrite bind_stop; [by eauto|exact Hr].
  - erewrite bind_done; [|exact Hr]. rewrite (bool_decide_false (_ < dtb)) by lia.
    rewrite orb_false_r. rewrite bool_decide_not, <-negb_andb. fold (verdict dtb b v). rewrite Hv.
    destruct (valid_from _ b _ _ _ _) eqn:Ev; [left|right]; cbn [negb]; (split; [|by eauto]); [done|intros [_ H]; pose proof (eq_trans (eq_sym Ev) H); done].
Qed.
