(* ===== verification/ParseSpec.v ===== *)
(** * The memory map and the devices, by the tokens of a valid blob *)
From Stdlib Require Import String.
From S2P Require Import Prelude Memory Machine Pmm Strings HostMmu Cpio Fdt BootLoader LayoutSpec.
From S2P Require Import PatchSpec PatchSim DeviceTree DeviceTreeSpec.

(** ** Loops over the tokens *)

(** What a token does to the loop's state [X]. *)
Inductive effect (X R : Type) : Type :=
  | Next (x : X)
  | Return (r : R)
  | Halt (w : halt).
Arguments Next {X R} x.
Arguments Return {X R} r.
Arguments Halt {X R} w.

Fixpoint run_tokens {X R} (sem : token → X → effect X R) (ts : list token) (x : X) : X + (R + halt) :=
  match ts with
  | [] => inl x
  | t :: ts' =>
      match sem t x with
      | Next x' => run_tokens sem ts' x'
      | Return r => inr (inl r)
      | Halt w => inr (inr w)
      end
  end.

(** A parser's result on the tokens of a valid blob. *)
Definition parsed {X R} (sem : token → X → effect X R) (ts : list token) (x : X) (s : machine) : outcome machine R :=
  match run_tokens sem ts x with
  | inl _ => Stop OutOfFuel s
  | inr (inl r) => Done r s
  | inr (inr w) => Stop w s
  end.

(** Properly nested to the end token. *)
Fixpoint nested (d : Z) (ts : list token) : Prop :=
  match ts with
  | [] => False
  | t :: ts' => ∃ d', nest d t = Some d' ∧ (t = TStop ∧ ts' = [] ∨ t ≠ TStop ∧ nested d' ts')
  end.

Lemma valid_tokens m b n : ∀ off d, valid_from m b n off d false = true →
  ∃ ts, read_tokens m b n off = Some ts ∧ nested d ts.
Proof.
  induction n as [|n IH]; intros off d H; cbn [valid_from] in H; [done|]. cbn [read_tokens].
  case_decide; [|done]. destruct (next_token m b off) as [[t off']|]; [|done]. destruct (nest d t) as [d'|] eqn:Ed; [|done].
  cbn [mbind option_bind]. destruct (decide (t = TStop)) as [-> |Ht].
  - exists [TStop]. split; [done|]. cbn [nested]. eauto.
  - rewrite bool_decide_false in H by done. destruct (IH _ _ H) as (ts & E & Hts). exists (t :: ts).
    rewrite E. split; [by destruct t|]. cbn [nested]. eauto.
Qed.

Section loop.
Context {X R : Type} (dtb : Z) (b : blob) (m : gmap Z Z) (sem : token → X → effect X R).
Context (step : Z * X → M machine (Z * X + R)) (ok : X → Prop).
(** A pass of the parser does what its token says. *)
Definition follows : Prop := ∀ off t off' x s, mc_mem s = m → 0 ≤ off → off mod 4 = 0 → ok x → next_token m b off = Some (t, off') →
  match sem t x with
  | Next x' => step (dtb + off, x) s = Done (inl (dtb + off', x')) s ∧ ok x'
  | Return r => step (dtb + off, x) s = Done (inr r) s
  | Halt w => step (dtb + off, x) s = Stop w s
  end.

Lemma parse_loop : follows → (∀ x, ok x → ∀ x', sem TStop x ≠ Next x') → ∀ n off ts x s fuel, mc_mem s = m → 0 ≤ off → off mod 4 = 0 → ok x →
  read_tokens m b n off = Some ts → (n ≤ fuel)%nat →
  loop fuel step (dtb + off, x) s = parsed sem ts x s.
Proof.
  intros Hf Hstop. induction n as [|n IH]; intros off ts x s fuel Hs Ho Hal Hok Hr Hle; cbn [read_tokens] in Hr; [done|].
  destruct fuel as [|fuel]; [lia|]. cbn [loop]. apply bind_Some in Hr as ([t off'] & Et & Hr).
  pose proof (Hf off t off' x s Hs Ho Hal Hok Et) as H. pose proof (next_token_moves _ _ _ _ _ Et) as [Hm _].
  assert (off' mod 4 = 0) as Hal' by (by eapply next_token_mod).
  assert (∃ ts', ts = t :: ts' ∧ (t = TStop ∨ read_tokens m b n off' = Some ts')) as (ts' & -> & Hts).
  { destruct t; try (apply fmap_Some in Hr as (ts' & E & ->); eauto). simplify_eq. eauto. }
  unfold parsed. cbn [run_tokens]. destruct (sem t x) as [x'|r|w] eqn:Es.
  - destruct H as [-> Hok']. destruct Hts as [-> |Hts]; [by destruct (Hstop x Hok x')|]. apply (IH off' ts'); (done || lia).
  - by rewrite H.
  - by rewrite H.
Qed.
End loop.

(** ** What a token says about the bytes *)

Section token.
Context (m : gmap Z Z) (b : blob) (Hend : b_end b < 2 ^ 32).
Context (Hstr : 0 ≤ b_strings b ∧ 0 ≤ b_stringsSize b).

Lemma name_at_inv off limit name : 0 ≤ off → name_at m b off limit = Some name →
  off ≤ limit → no_nul name ∧ strnlen m (b_base b + off) (Z.to_nat (limit - off)) = Z.of_nat (List.length name) ∧
  off + Z.of_nat (List.length name) < limit ∧ cstr_at m (b_base b + off) name.
Proof.
  intros Ho H Hle. unfold name_at in H. pose proof (strnlen_bounds m (Z.to_nat (limit - off)) (b_base b + off)) as Hn.
  pose proof (strnlen_nul m (Z.to_nat (limit - off)) (b_base b + off)) as Hz.
  pose proof (strnlen_no_nul m (Z.to_nat (limit - off)) (b_base b + off)) as Hnn.
  set (n := strnlen _ _ _) in *. case_decide as E; [done|]. injection H as <-. rewrite length_bytes_at, Z2Nat.id by lia.
  split_and!; [done|done|lia|]. apply cstr_at_spec; [done|by rewrite length_bytes_at|]. rewrite length_bytes_at, Z2Nat.id by lia. apply Hz. lia.
Qed.

(** What [next_token] returning a token means, token by token. *)
Definition token_means (off : Z) (t : token) (off' : Z) : Prop :=
  be32 m (b_base b + off) = match t with
    | TBegin _ => FDT_BEGIN_NODE | TEnd => FDT_END_NODE | TProp _ => FDT_PROP | TNop => FDT_NOP | TStop => FDT_END end ∧
  match t with
  | TBegin name =>
      strnlen m (b_base b + (off + 4)) (Z.to_nat (b_end b - (off + 4))) = Z.of_nat (List.length name) ∧
      off + 4 + Z.of_nat (List.length name) < b_end b ∧ cstr_at m (b_base b + (off + 4)) name ∧
      off' = up4 (off + 4 + Z.of_nat (List.length name) + 1)
  | TProp p =>
      ∃ no, be32 m (b_base b + (off + 4)) = p_len p ∧ be32 m (b_base b + (off + 4) + 4) = no ∧ p_off p = off + 12 ∧
        p_off p + p_len p ≤ b_end b ∧ off' = up4 (p_off p + p_len p) ∧
        no + Z.of_nat (List.length (p_name p)) < b_stringsSize b ∧ cstr_at m (b_base b + b_strings b + no) (p_name p)
  | _ => off' = off + 4
  end.

Lemma next_token_inv off t off' : 0 ≤ off → next_token m b off = Some (t, off') → token_means off t off'.
Proof.
  intros Ho H. unfold next_token in H. case_decide as E0; [done|]. case_decide as E1.
  { apply bind_Some in H as (name & Hn & H). simplify_eq. apply name_at_inv in Hn as (_ & ? & ? & ?); [|lia..]. by split. }
  case_decide as E2; [simplify_eq; by split|]. case_decide as E3.
  - unfold FdtProp_size in H. case_decide as E4; [done|]. case_decide as E5; [done|].
    pose proof (be32_range m (b_base b + (off + 4) + 4)). apply bind_Some in H as (name & Hn & H). simplify_eq.
    apply name_at_inv in Hn as (_ & ? & ? & Hc); [|lia..]. split; [done|]. eexists. cbn [p_len p_off p_name].
    replace (off + 4 + 8) with (off + 12) in * by lia.
    split_and!; [done|done|done|lia|done|lia|]. rewrite <-Z.add_assoc. done.
  - case_decide as E6; [simplify_eq; by split|]. case_decide; [simplify_eq; by split|done].
Qed.
End token.

(** ** The boot memory map *)

(** A node's name, and a property of it, seen by the parser. *)
Definition enter_named (name : list Z) (s : MemoryParseState) : MemoryParseState :=
  let s :=
    if decide (s_depth s = 1) then
      set_nodes (bool_decide (str "memory" `prefix_of` name)) (bool_decide (name = str "reserved-memory"))
        (atf s) (bool_decide (name = str "chosen")) (s_depth s) s
    else if bool_decide (s_depth s = 2) && reserved s then
      set_nodes (memory s) (reserved s)
        (bool_decide (name ∈ [str "atf"; str "bl31"; str "secmon"; str "optee"; str "tee"])) (chosen s) (s_depth s) s
    else s in
  set_nodes (memory s) (reserved s) (atf s) (chosen s) (u32 (s_depth s + 1)) s.

(** The number the [n] big endian cells at offset [off] of the blob make. *)
Definition cells_at (m : gmap Z Z) (dtb off n : Z) : Z := getCombinedCell m (MkSpan (dtb + off) n).

Definition take_named (m : gmap Z Z) (dtb : Z) (p : prop) (s : MemoryParseState) (map : MemoryMap) : MemoryParseState * MemoryMap :=
  if bool_decide (p_name p = str "reg") && bool_decide (16 ≤ p_len p) then
    if memory s && negb (foundMemory s) then
      (set_found s, set_memory (cells_at m dtb (p_off p) 2) (cells_at m dtb (p_off p + 8) 2) map)
    else if atf s then (s, set_atf (cells_at m dtb (p_off p) 2) (cells_at m dtb (p_off p + 8) 2) map)
    else (s, map)
  else if chosen s && bool_decide (s_depth s = 2) && bool_decide (p_len p = 4 ∨ p_len p = 8) then
    if decide (p_name p = str "linux,initrd-start") then (set_initrd_start (cells_at m dtb (p_off p) (p_len p / 4)) s, map)
    else if decide (p_name p = str "linux,initrd-end") then (set_initrd_end (cells_at m dtb (p_off p) (p_len p / 4)) s, map)
    else (s, map)
  else (s, map).

Definition finish_map (s : MemoryParseState) (map : MemoryMap) : MemoryMap :=
  if hasInitrdStart s && hasInitrdEnd s && bool_decide (initrdStart s < initrdEnd s)
  then set_archive (initrdStart s) (initrdEnd s - initrdStart s) map else map.

Definition map_token (m : gmap Z Z) (dtb : Z) (t : token) (x : MemoryParseState * MemoryMap) :
    effect (MemoryParseState * MemoryMap) MemoryMap :=
  match t with
  | TBegin name => Next (enter_named name x.1, x.2)
  | TEnd => Next (leave_node x.1, x.2)
  | TProp p => Next (take_named m dtb p x.1 x.2)
  | TNop => Next x
  | TStop => if foundMemory x.1 then Return (finish_map x.1 x.2) else Halt (Panic "[ERROR][DTB] memory is missing")
  end.

Lemma lit_no_nul s : bool_decide (no_nul (str s)) = true → no_nul (str s).
Proof. by rewrite bool_decide_eq_true. Qed.

Lemma orb_names (name : list Z) (l : list (list Z)) : foldr (λ e b, bool_decide (name = e) || b) false l = bool_decide (name ∈ l).
Proof.
  induction l as [|e l IH]; cbn [foldr]; [symmetry; apply bool_decide_false; set_solver|].
  rewrite IH, <-bool_decide_or. apply bool_decide_ext. set_solver.
Qed.

Lemma enter_node_named m p n name s : cstr_at m p name → Z.of_nat (List.length name) < n →
  enter_node m (MkSpan p n) s = enter_named name s.
Proof.
  intros Hc Hn. unfold enter_node, enter_named.
  rewrite !(stringStartsWith_eq m p n name), !(stringEquals_eq m p n name) by (done || by apply lit_no_nul).
  assert (bool_decide (name = str "atf") || bool_decide (name = str "bl31") || bool_decide (name = str "secmon") ||
    bool_decide (name = str "optee") || bool_decide (name = str "tee") =
    bool_decide (name ∈ [str "atf"; str "bl31"; str "secmon"; str "optee"; str "tee"])) as ->; [|done].
  rewrite <-orb_names. cbn [foldr]. by rewrite orb_false_r, !orb_assoc.
Qed.

Lemma one_cell m p : getCombinedCell m (MkSpan p 1) = be32 m p.
Proof. done. Qed.

Lemma take_property_named m dtb nm n p s map : cstr_at m nm (p_name p) → Z.of_nat (List.length (p_name p)) < n →
  take_property m (MkSpan nm n) (dtb + p_off p) (p_len p) s map = take_named m dtb p s map.
Proof.
  intros Hc Hn. unfold take_property, take_named, cells_at.
  rewrite !(stringEquals_eq m nm n (p_name p)) by (done || by apply lit_no_nul).
  replace (dtb + p_off p + 2 * CELL_SIZE_BYTES) with (dtb + (p_off p + 8)) by (unfold CELL_SIZE_BYTES; lia).
  destruct (bool_decide (p_name p = str "reg") && bool_decide (16 ≤ p_len p)); [done|].
  destruct (chosen s && bool_decide (s_depth s = 2)); cbn [andb]; [|done].
  case_bool_decide as Hlen; [|done].
  assert (getInitrdAddress m (MkSpan (dtb + p_off p) (p_len p / CELL_SIZE_BYTES)) = getCombinedCell m (MkSpan (dtb + p_off p) (p_len p / 4))) as ->.
  { unfold getInitrdAddress. cbn [sp_size sp_data]. by destruct Hlen as [-> | ->]. }
  repeat (case_bool_decide; [by rewrite decide_True by done|rewrite decide_False by done]). done.
Qed.

Section parse.
Context (dtb : Z) (b : blob) (Hbase : b_base b = dtb) (Hdtb : 0 < dtb < 2 ^ 62) (Hal : dtb mod 4 = 0).
Context (Hend : 0 ≤ b_end b < 2 ^ 32) (Hstr : 0 ≤ b_strings b ∧ 0 ≤ b_stringsSize b ∧ b_strings b + b_stringsSize b < 2 ^ 32).

(** Positions after an aligned token. *)
Lemma align_off x n : 0 ≤ x → 0 ≤ n → x + n < 2 ^ 33 → FdtAlign (dtb + x) n = dtb + up4 (x + n).
Proof. intros. rewrite FdtAlign_up4 by lia. rewrite <-Z.add_assoc. by apply up4_shift. Qed.

Lemma map_follows m : follows dtb b m (map_token m dtb) (parse_step (dtb + b_strings b) (b_stringsSize b) (dtb + b_end b)) (λ _, True).
Proof.
  intros off t off' [s map] w Hw Ho _ _ Ht. apply next_token_inv in Ht as [Htok Ht]; [|lia..]. rewrite Hbase in *.
  unfold parse_step, ld_be32, ld_strnlen. rewrite gets_bind. cbv beta. rewrite Hw, Htok.
  destruct t as [name| |p| |]; cbn [map_token fst snd].
  - destruct Ht as (Hn & Hlt & Hc & ->). split; [|done].
    rewrite decide_True by done. rewrite gets_bind. cbv beta. rewrite Hw.
    replace (dtb + b_end b - (dtb + off + 4)) with (b_end b - (off + 4)) by lia. replace (dtb + off + 4) with (dtb + (off + 4)) by lia.
    rewrite Hn, decide_False by lia. rewrite gets_bind. cbv beta. rewrite Hw, (enter_node_named _ _ _ name) by (done || lia).
    rewrite align_off by lia. unfold mret, M_ret. do 4 f_equal. f_equal. lia.
  - split; [|done]. rewrite decide_False, decide_True by done. unfold mret, M_ret. rewrite Ht. do 3 f_equal. lia.
  - destruct Ht as (no & Hlen & Hno & Hp & Hfit & -> & Hnm & Hc). split; [|done].
    rewrite decide_False, decide_False, decide_True by done. rewrite !gets_bind. cbv beta. rewrite Hw.
    replace (dtb + off + 4) with (dtb + (off + 4)) by lia. rewrite Hlen, Hno.
    replace (dtb + (off + 4) + 8) with (dtb + p_off p) by lia. pose proof (be32_range m (dtb + (off + 4))) as R1. rewrite Hlen in R1.
    pose proof (be32_range m (dtb + (off + 4) + 4)) as R2. rewrite Hno in R2.
    assert (u32 (b_stringsSize b - no) = b_stringsSize b - no) as -> by (apply Z.mod_small; lia).
    rewrite take_property_named by (done || lia). rewrite align_off by lia. done.
  - split; [|done]. rewrite decide_False, decide_False, decide_False, decide_True by done. unfold mret, M_ret. rewrite Ht. do 3 f_equal. lia.
  - rewrite decide_False, decide_False, decide_False, decide_False, decide_True by done. unfold finish_map. by destruct (foundMemory s).
Qed.

(** ** Devices *)

Definition take_bus_named (m : gmap Z Z) (devices : list (list Z)) (p : prop) (l : BusLevel) : BusLevel :=
  let data := MkSpan (dtb + p_off p) (p_len p / CELL_SIZE_BYTES) in
  if bool_decide (p_name p = str "#address-cells") && bool_decide (4 ≤ p_len p) then
    MkBusLevel (be32 m (dtb + p_off p)) (sizeCells l) (ranges l) (matched l) (reg l)
  else if bool_decide (p_name p = str "#size-cells") && bool_decide (4 ≤ p_len p) then
    MkBusLevel (addressCells l) (be32 m (dtb + p_off p)) (ranges l) (matched l) (reg l)
  else if bool_decide (p_name p = str "ranges") then
    MkBusLevel (addressCells l) (sizeCells l) data (matched l) (reg l)
  else if bool_decide (p_name p = str "reg") then
    MkBusLevel (addressCells l) (sizeCells l) (ranges l) (matched l) data
  else if bool_decide (p_name p = str "compatible") && bool_decide (p_len p ≠ 0) then
    MkBusLevel (addressCells l) (sizeCells l) (ranges l)
      (matchesCompatible m (MkSpan (dtb + p_off p) (p_len p)) devices) (reg l)
  else l.

Definition find_token (m : gmap Z Z) (devices : list (list Z)) (t : token) (x : Z * list BusLevel) :
    effect (Z * list BusLevel) DeviceNode :=
  let '(depth, stack) := x in
  match t with
  | TBegin _ => Next (u32 (depth + 1), if decide (depth < MAX_DEPTH) then set_level (λ _, new_level) depth stack else stack)
  | TEnd =>
      let depth := if decide (0 < depth) then depth - 1 else depth in
      match close_node m stack depth with
      | None => Halt Undefined
      | Some (Some node) => Return node
      | Some None => Next (depth, stack)
      end
  | TProp p =>
      let level := if decide (depth ≠ 0) then depth - 1 else 0 in
      Next (depth, if decide (level < MAX_DEPTH) then set_level (take_bus_named m devices p) level stack else stack)
  | TNop => Next x
  | TStop => Return no_node
  end.

Lemma take_bus_property_named m devices nm n p l : cstr_at m nm (p_name p) → Z.of_nat (List.length (p_name p)) < n →
  take_bus_property m devices (MkSpan nm n) (MkSpan (dtb + p_off p) (p_len p / CELL_SIZE_BYTES)) (p_len p) l = take_bus_named m devices p l.
Proof.
  intros Hc Hn. unfold take_bus_property, take_bus_named.
  by rewrite !(stringEquals_eq m nm n (p_name p)) by (done || by apply lit_no_nul).
Qed.

Lemma find_follows m devices : follows dtb b m (find_token m devices)
  (find_step devices (dtb + b_strings b) (b_stringsSize b) (dtb + b_end b)) (λ _, True).
Proof.
  intros off t off' [depth stack] w Hw Ho _ _ Ht. apply next_token_inv in Ht as [Htok Ht]; [|lia..]. rewrite Hbase in *.
  unfold find_step, ld_be32, ld_strnlen. rewrite gets_bind. cbv beta. rewrite Hw, Htok.
  destruct t as [name| |p| |]; cbn [find_token].
  - destruct Ht as (Hn & Hlt & Hc & ->). split; [|done]. rewrite (decide_True (P := FDT_BEGIN_NODE = _)) by done.
    rewrite gets_bind. cbv beta. rewrite Hw.
    replace (dtb + b_end b - (dtb + off + 4)) with (b_end b - (off + 4)) by lia. replace (dtb + off + 4) with (dtb + (off + 4)) by lia.
    rewrite Hn, (decide_False (P := _ = dtb + b_end b)) by lia. rewrite align_off by lia. unfold mret, M_ret. do 4 f_equal. f_equal. lia.
  - rewrite (decide_False (P := FDT_END_NODE = FDT_BEGIN_NODE)), (decide_True (P := FDT_END_NODE = FDT_END_NODE)) by done.
    rewrite gets_bind. cbv beta. rewrite Hw. destruct (close_node m stack _) as [[node|]|]; [done| |done].
    split; [|done]. rewrite Ht. cbn. unfold mbind, M_bind, mret, M_ret. do 3 f_equal. lia.
  - destruct Ht as (no & Hlen & Hno & Hp & Hfit & -> & Hnm & Hc). split; [|done].
    rewrite (decide_False (P := FDT_PROP = FDT_BEGIN_NODE)), (decide_False (P := FDT_PROP = FDT_END_NODE)), (decide_True (P := FDT_PROP = FDT_PROP)) by done.
    rewrite !gets_bind. cbv beta. rewrite Hw.
    replace (dtb + off + 4) with (dtb + (off + 4)) by lia. rewrite Hlen, Hno.
    replace (dtb + (off + 4) + 8) with (dtb + p_off p) by lia. pose proof (be32_range m (dtb + (off + 4))) as R1. rewrite Hlen in R1.
    pose proof (be32_range m (dtb + (off + 4) + 4)) as R2. rewrite Hno in R2. cbn [sp_data].
    assert (u32 (b_stringsSize b - no) = b_stringsSize b - no) as -> by (apply Z.mod_small; lia).
    rewrite align_off by lia. unfold mret, M_ret. do 4 f_equal.
    destruct (decide (_ < MAX_DEPTH)); [|done]. unfold set_level. by rewrite take_bus_property_named by (done || lia).
  - split; [|done]. rewrite decide_False, decide_False, decide_False, decide_True by done. unfold mret, M_ret. rewrite Ht. do 3 f_equal. lia.
  - by rewrite decide_False, decide_False, decide_False, decide_False, decide_True by done.
Qed.
End parse.

(** ** The parsers *)

Lemma nested_ends {X R} (sem : token → X → effect X R) ts : (∀ x x', sem TStop x ≠ Next x') → ∀ d x, nested d ts →
  ∃ o, run_tokens sem ts x = inr o.
Proof.
  intros Hstop. induction ts as [|t ts IH]; intros d x H; [done|]. destruct H as (d' & _ & [[-> ->]|[Ht H]]); cbn [run_tokens].
  - destruct (sem TStop x) as [x'|r|w] eqn:E; [by destruct (Hstop x x')|eauto..].
  - destruct (sem t x); [by eapply IH|eauto..].
Qed.

Definition map_start (m : gmap Z Z) (dtb : Z) : MemoryParseState * MemoryMap :=
  (no_state, MkMemoryMap 0 0 0 0 dtb (be32 m (fh_totalSize dtb)) 0 0).

(** The tokens of the whole block. *)
Definition blob_tokens (m : gmap Z Z) (dtb : Z) : option (list token) :=
  let b := header_blob m dtb in read_tokens m b (S (Z.to_nat (be32 m (fh_sizeStructs dtb)))) (b_struct b).

Lemma blob_valid_tokens m dtb : blob_valid m dtb → ∃ ts, blob_tokens m dtb = Some ts ∧ nested 0 ts.
Proof. intros [_ Hv]. by apply valid_tokens in Hv. Qed.

Section parsers.
Context (dtb : Z) (s : machine) (fuel : nat).
Context (Hdtb : 0 < dtb < 2 ^ 62) (Hal : dtb mod 4 = 0) (Hsal : be32 (mc_mem s) (fh_structOff dtb) mod 4 = 0).
Context (Hfuel : (S (Z.to_nat (be32 (mc_mem s) (fh_sizeStructs dtb))) ≤ fuel)%nat).
Let m := mc_mem s.
Let b := header_blob m dtb.

(** The positions a valid header gives. *)
Lemma header_facts : blob_valid m dtb → 0 ≤ b_end b < 2 ^ 32 ∧ 0 ≤ b_strings b ∧ 0 ≤ b_stringsSize b ∧
  b_strings b + b_stringsSize b < 2 ^ 32 ∧ 0 ≤ b_struct b ∧ dtb ⊞ be32 m (fh_structOff dtb) = dtb + b_struct b ∧
  dtb ⊞ be32 m (fh_stringsOff dtb) = dtb + b_strings b ∧
  dtb ⊞ be32 m (fh_structOff dtb) ⊞ be32 m (fh_sizeStructs dtb) = dtb + b_end b.
Proof.
  intros [(H1 & H2 & H3 & H4 & H5) _]. fold b in H3, H4.
  pose proof (be32_range m (fh_totalSize dtb)). pose proof (be32_range m (fh_structOff dtb)) as R2.
  pose proof (be32_range m (fh_sizeStructs dtb)). pose proof (be32_range m (fh_stringsOff dtb)).
  pose proof (be32_range m (fh_sizeStrings dtb)).
  assert (Hf : b_struct b = be32 m (fh_structOff dtb) ∧ b_end b = b_struct b + be32 m (fh_sizeStructs dtb) ∧
    b_strings b = be32 m (fh_stringsOff dtb) ∧ b_stringsSize b = be32 m (fh_sizeStrings dtb)) by done.
  assert (E : dtb ⊞ be32 m (fh_structOff dtb) = dtb + b_struct b) by (unfold u64; rewrite Z.mod_small; lia).
  split_and!; try lia; [unfold u64; rewrite Z.mod_small; lia|]. rewrite E. unfold u64. rewrite Z.mod_small; lia.
Qed.

Lemma ParseMemoryMap_spec : blob_valid m dtb → ∃ ts, blob_tokens m dtb = Some ts ∧ nested 0 ts ∧
  ParseMemoryMap dtb fuel s = parsed (map_token m dtb) ts (map_start m dtb) s.
Proof.
  intros Hv. destruct (blob_valid_tokens m dtb Hv) as (ts & Hts & Hnest). exists ts. split_and!; [done..|].
  destruct (header_facts Hv) as (H1 & H2 & H3 & H4 & H5 & E1 & E2 & E3).
  destruct (validateHeader_spec dtb s Hdtb Hal Hsal) as [[_ Hr]|[Hn _]]; [|done].
  unfold ParseMemoryMap. erewrite bind_done; [|exact Hr]. unfold ld_be32. rewrite !gets_bind. cbv beta. fold m. rewrite E3, E1, E2.
  apply (parse_loop dtb b m (map_token m dtb) _ (λ _, True)
    (map_follows dtb b eq_refl Hdtb Hal H1 (conj H2 (conj H3 H4)) m)) with (n := S (Z.to_nat (be32 m (fh_sizeStructs dtb))));
    try done. intros x _ x'. cbn. by destruct (foundMemory x.1).
Qed.

Lemma FindDevice_spec devices : blob_valid m dtb → devices ≠ [] → ∃ ts, blob_tokens m dtb = Some ts ∧ nested 0 ts ∧
  FindDevice dtb fuel devices s =
    parsed (find_token dtb m devices) ts (0, replicate (Z.to_nat MAX_DEPTH) no_level) s.
Proof.
  intros Hv Hne. destruct (blob_valid_tokens m dtb Hv) as (ts & Hts & Hnest). exists ts. split_and!; [done..|].
  destruct (header_facts Hv) as (H1 & H2 & H3 & H4 & H5 & E1 & E2 & E3).
  destruct (validateHeader_spec dtb s Hdtb Hal Hsal) as [[_ Hr]|[Hn _]]; [|done].
  unfold FindDevice. erewrite bind_done; [|exact Hr]. rewrite decide_False by done.
  unfold ld_be32. rewrite !gets_bind. cbv beta. fold m. rewrite E3, E1, E2.
  apply (parse_loop dtb b m (find_token dtb m devices) _ (λ _, True)
    (find_follows dtb b eq_refl Hdtb Hal H1 (conj H2 (conj H3 H4)) m devices)) with (n := S (Z.to_nat (be32 m (fh_sizeStructs dtb))));
    try done. intros [] _ x'. done.
Qed.
End parsers.

(** Neither parser runs out of tokens on a valid blob. *)
Lemma parsed_map_ends m dtb ts x s : nested 0 ts →
  (∃ map, parsed (map_token m dtb) ts x s = Done map s) ∨ ∃ msg, parsed (map_token m dtb) ts x s = Stop (Panic msg) s.
Proof.
  intros Hn. unfold parsed.
  assert (H : ∀ ts d x, nested d ts → (∃ r, run_tokens (map_token m dtb) ts x = inr (inl r)) ∨
    ∃ msg, run_tokens (map_token m dtb) ts x = inr (inr (Panic msg))).
  { clear. induction ts as [|t ts IH]; intros d x H; [done|]. destruct H as (d' & _ & [[-> ->]|[Ht H]]); cbn [run_tokens map_token].
    - destruct (foundMemory x.1); eauto.
    - destruct t; try done; by eapply IH. }
  destruct (H ts 0 x Hn) as [[r ->]|[msg ->]]; eauto.
Qed.

Lemma parsed_find_ends m dtb devices ts x s : nested 0 ts →
  (∃ node, parsed (find_token dtb m devices) ts x s = Done node s) ∨ parsed (find_token dtb m devices) ts x s = Stop Undefined s.
Proof.
  intros Hn. unfold parsed.
  assert (H : ∀ ts d x, nested d ts → (∃ r, run_tokens (find_token dtb m devices) ts x = inr (inl r)) ∨
    run_tokens (find_token dtb m devices) ts x = inr (inr Undefined)).
  { clear. induction ts as [|t ts IH]; intros d [depth stack] H; [done|]. destruct H as (d' & _ & [[-> ->]|[Ht H]]); cbn [run_tokens find_token]; [eauto|].
    destruct t; try done; try (by eapply IH). cbv zeta. destruct (close_node m stack _) as [[node|]|]; [eauto|by eapply IH|eauto]. }
  destruct (H ts 0 x Hn) as [[r ->]| ->]; eauto.
Qed.

(** ** The finder reads its blob and nothing else *)

Lemma combine_cells_agree m m' n : ∀ p c, (∀ x, p ≤ x < p + 4 * Z.of_nat n → load8 m' x = load8 m x) →
  combine_cells m' p n c = combine_cells m p n c.
Proof.
  induction n as [|n IH]; intros p c H; cbn [combine_cells]; [done|]. rewrite (be32_agree m m') by (intros x Hx; apply H; lia).
  apply IH. intros x Hx. unfold CELL_SIZE_BYTES in Hx. apply H. lia.
Qed.

Lemma bytes_are_agree m m' e : ∀ p, (∀ x, p ≤ x < p + Z.of_nat (List.length e) → load8 m' x = load8 m x) →
  bytes_are m' p e = bytes_are m p e.
Proof.
  induction e as [|c e IH]; intros p H; cbn [bytes_are List.length] in *; [done|]. rewrite (H p) by lia. case_decide; [done|].
  apply IH. intros x Hx. apply H. lia.
Qed.

Lemma candidate_matches_agree m m' p n cs : (∀ x, p ≤ x < p + n → load8 m' x = load8 m x) →
  candidate_matches m' p n cs = candidate_matches m p n cs.
Proof.
  intros H. unfold candidate_matches. induction cs as [|c cs IH]; cbn [existsb]; [done|]. rewrite IH. f_equal.
  case_bool_decide; cbn [andb]; [|done]. apply bytes_are_agree. intros x Hx. apply H. lia.
Qed.

Lemma matches_from_agree m m' l cs n : ∀ off, 0 ≤ off → (∀ x, sp_data l ≤ x < sp_data l + sp_size l → load8 m' x = load8 m x) →
  matches_from m' n l cs off = matches_from m n l cs off.
Proof.
  induction n as [|n IH]; intros off Ho H; cbn [matches_from]; [done|]. case_decide as E; [|done]. cbv zeta.
  rewrite (strnlen_agree m m') by (intros x Hx; apply H; lia).
  pose proof (strnlen_bounds m (Z.to_nat (sp_size l - off)) (sp_data l + off)) as Hn. set (n0 := strnlen _ _ _) in *.
  rewrite (candidate_matches_agree m) by (intros x Hx; apply H; lia).
  destruct (candidate_matches _ _ _ _); [done|]. apply IH; [case_decide; lia|done].
Qed.

Section finder.
Context (dtb : Z) (m m' : gmap Z Z) (devices : list (list Z)).

(** What the two memories have in common. *)
Definition span_same (sp : span) : Prop := ∀ x, sp_data sp ≤ x < sp_data sp + size_bytes sp → load8 m' x = load8 m x.
Definition level_same (l : BusLevel) : Prop := span_same (ranges l) ∧ span_same (reg l).
Definition token_same (t : token) : Prop :=
  match t with TProp p => ∀ x, dtb + p_off p ≤ x < dtb + p_off p + p_len p → load8 m' x = load8 m x | _ => True end.

Lemma no_level_same : level_same no_level.
Proof. split; intros x Hx; unfold size_bytes in Hx; cbn in Hx; lia. Qed.

Lemma subspan_same sp off n sp' : span_same sp → subspan sp off n = Some sp' → span_same sp'.
Proof.
  intros H. unfold subspan. case_decide; [|done]. intros [= <-] x Hx.
  unfold size_bytes, CELL_SIZE_BYTES in *. cbn [sp_data sp_size] in Hx. apply H. unfold size_bytes, CELL_SIZE_BYTES. lia.
Qed.

Lemma entry_cells_agree cells off k n : span_same cells → entry_cells m' cells off k n = entry_cells m cells off k n.
Proof.
  intros H. unfold entry_cells. destruct (subspan cells _ _) as [e|] eqn:E; [|done]. cbn [mbind option_bind].
  destruct (subspan e k n) as [e'|] eqn:E'; [|done]. cbn [fmap option_fmap option_map]. f_equal.
  assert (Hs : span_same e') by eauto using subspan_same. unfold subspan in E'. case_decide as Hd; [|done]. injection E' as <-. unfold getCombinedCell.
  apply combine_cells_agree. intros x Hx. apply Hs. unfold size_bytes, CELL_SIZE_BYTES in *. cbn [sp_data sp_size] in *. lia.
Qed.

Lemma translate_entries_agree n cells c p l st : ∀ addr off, span_same cells →
  translate_entries m' n cells c p l st addr off = translate_entries m n cells c p l st addr off.
Proof.
  induction n as [|n IH]; intros addr off H; cbn [translate_entries]; [done|]. case_decide; [|done].
  rewrite !entry_cells_agree by done. destruct (entry_cells _ _ _ 0 _) as [ch|]; [|done]. cbn [mbind option_bind].
  destruct (entry_cells _ _ _ c _) as [pa|]; [|done]. cbn [mbind option_bind].
  destruct (entry_cells _ _ _ _ l) as [le|]; [|done]. cbn [mbind option_bind]. case_decide; [done|]. by apply IH.
Qed.

Section levels.
Context (stack : list BusLevel) (Hst : Forall level_same stack).

Lemma nth_same i : level_same (nth i stack no_level).
Proof.
  destruct (nth_in_or_default i stack no_level) as [Hi| ->]; [|apply no_level_same].
  apply list_elem_of_In in Hi. by eapply list.Forall_forall in Hst.
Qed.

Lemma set_level_same f l : (∀ bus, level_same bus → level_same (f bus)) → Forall level_same (set_level f l stack).
Proof. intros Hf. unfold set_level. apply Forall_insert; [done|]. apply Hf, nth_same. Qed.

Lemma translate_agree d : ∀ addr, translate m' stack d addr = translate m stack d addr.
Proof.
  induction d as [|d IH]; intros addr; cbn [translate]; [done|].
  assert (translate_level m' stack (S d) addr = translate_level m stack (S d) addr) as ->.
  { unfold translate_level. case_decide; [done|]. cbv zeta. case_decide; [done|]. apply translate_entries_agree, nth_same. }
  destruct (translate_level _ _ _ _); [apply IH|done].
Qed.

Lemma decode_regions_agree n depth r ac sc st : span_same r → ∀ off out,
  decode_regions n m' stack depth r ac sc st off out = decode_regions n m stack depth r ac sc st off out.
Proof.
  intros Hr. induction n as [|n IH]; intros off out; cbn [decode_regions]; [done|]. case_decide; [|done].
  rewrite !entry_cells_agree by done. destruct (entry_cells _ _ _ 0 _) as [b|]; [|done]. cbn [mbind option_bind].
  destruct (entry_cells _ _ _ _ sc) as [sz|]; [|done]. cbn [mbind option_bind]. rewrite translate_agree.
  destruct (translate _ _ _ _); [apply IH|done].
Qed.

Lemma close_node_agree depth : close_node m' stack depth = close_node m stack depth.
Proof.
  unfold close_node. cbv zeta. destruct (_ && _); [|done]. case_decide; [|done]. by rewrite decode_regions_agree by apply nth_same.
Qed.
End levels.

Lemma take_bus_named_agree p l : token_same (TProp p) →
  take_bus_named dtb m' devices p l = take_bus_named dtb m devices p l.
Proof.
  intros H. cbn [token_same] in H. unfold take_bus_named. cbv zeta.
  assert (E : 4 ≤ p_len p → be32 m' (dtb + p_off p) = be32 m (dtb + p_off p)) by (intros Hl; apply be32_agree; intros x Hx; apply H; lia).
  assert (matchesCompatible m' (MkSpan (dtb + p_off p) (p_len p)) devices = matchesCompatible m (MkSpan (dtb + p_off p) (p_len p)) devices) as ->.
  { apply matches_from_agree; [done|exact H]. }
  repeat (case_bool_decide; cbn [andb]); by rewrite ?E by done.
Qed.

Lemma take_bus_named_same p l : 0 ≤ p_len p → token_same (TProp p) → level_same l → level_same (take_bus_named dtb m devices p l).
Proof.
  intros Hl H [H1 H2]. assert (Hs : span_same (MkSpan (dtb + p_off p) (p_len p / CELL_SIZE_BYTES))).
  { intros x Hx. apply H. unfold size_bytes, CELL_SIZE_BYTES in Hx. cbn [sp_data sp_size] in Hx. pose proof (Z.mul_div_le (p_len p) 4). lia. }
  unfold take_bus_named. cbv zeta. repeat (case_match; [by split|]). by split.
Qed.

Lemma find_run_agree ts : Forall (λ t, token_same t ∧ match t with TProp p => 0 ≤ p_len p | _ => True end) ts →
  ∀ x, Forall level_same x.2 →
  run_tokens (find_token dtb m' devices) ts x = run_tokens (find_token dtb m devices) ts x.
Proof.
  induction ts as [|t ts IH]; intros Hts [depth stack] Hst; cbn [run_tokens]; [done|]. cbn [snd] in Hst. apply Forall_cons_1 in Hts as [[Ht Hl] Hts].
  destruct t as [name| |p| |]; cbn [find_token]; [| | |by apply IH|done].
  - apply IH; [done|]. cbn [snd]. case_decide; [|done]. apply set_level_same; [done|]. intros _ _. split; intros x Hx; unfold size_bytes in Hx; cbn in Hx; lia.
  - cbv zeta. rewrite (close_node_agree stack Hst). destruct (close_node m stack _) as [[node|]|]; [done|by apply IH|done].
  - unfold set_level at 1. rewrite take_bus_named_agree by done. apply IH; [done|]. cbn [snd]. case_decide; [|done].
    apply set_level_same; [done|]. intros bus Hb. by apply take_bus_named_same.
Qed.
End finder.

(** The bytes of the blob at [dtb]. *)
Definition in_blob (m : gmap Z Z) (dtb x : Z) : Prop := dtb ≤ x < dtb + be32 m (fh_totalSize dtb).

Lemma read_tokens_props m b n : ∀ off ts, 0 ≤ off → b_end b < 2 ^ 32 → 0 ≤ b_strings b ∧ 0 ≤ b_stringsSize b → read_tokens m b n off = Some ts →
  Forall (λ t, match t with TProp p => 0 ≤ p_off p ∧ 0 ≤ p_len p ∧ p_off p + p_len p ≤ b_end b | _ => True end) ts.
Proof.
  induction n as [|n IH]; intros off ts Ho He Hs; cbn [read_tokens]; [done|]. intros ([t off'] & Et & H)%bind_Some.
  pose proof (next_token_moves _ _ _ _ _ Et) as [Hm _]. apply next_token_inv in Et as [_ Ht]; [|done..].
  destruct t as [name| |p| |]; [..|by simplify_eq; repeat constructor];
    apply fmap_Some in H as (ts' & Hr & ->); (constructor; [|by eapply IH; [|done..|exact Hr]; lia]); try done.
  destruct Ht as (no & Hlen & _ & Hp & Hfit & _). pose proof (be32_range m (b_base b + (off + 4))). lia.
Qed.

Section blob.
Context (dtb : Z) (s s' : machine) (fuel : nat).
Context (Hdtb : 0 < dtb < 2 ^ 62) (Hal : dtb mod 4 = 0) (Hsal : be32 (mc_mem s) (fh_structOff dtb) mod 4 = 0).
Context (Hfuel : (S (Z.to_nat (be32 (mc_mem s) (fh_sizeStructs dtb))) ≤ fuel)%nat).
Let m := mc_mem s.
Let m' := mc_mem s'.
Context (Hv : blob_valid m dtb) (Hsame : ∀ x, in_blob m dtb x → load8 m' x = load8 m x).

Definition header_fields : list (Z → Z) :=
  [fh_magic; fh_totalSize; fh_structOff; fh_stringsOff; fh_memRsvMapOff; fh_sizeStrings; fh_sizeStructs].

Lemma header_agree f : f ∈ header_fields →
  be32 m' (f dtb) = be32 m (f dtb).
Proof.
  intros Hf. destruct Hv as [(_ & Ht & _) _]. apply be32_agree. intros x Hx. apply Hsame. unfold in_blob, FdtHeader_size in *.
  repeat (apply elem_of_cons in Hf as [-> |Hf]; [unfold fh_magic, fh_totalSize, fh_structOff, fh_stringsOff,
    fh_memRsvMapOff, fh_sizeStrings, fh_sizeStructs in Hx; lia|]).
  by apply not_elem_of_nil in Hf.
Qed.

Lemma valid_from_agree n : ∀ off d e, same_from m m' (header_blob m dtb) off →
  valid_from m' (header_blob m dtb) n off d e = valid_from m (header_blob m dtb) n off d e.
Proof.
  induction n as [|n IH]; intros off d e H; cbn [valid_from]; [done|]. case_decide; [|done]. destruct e; [done|].
  rewrite (next_token_agree m m') by done. destruct (next_token m _ off) as [[t off']|] eqn:E; [|done].
  apply next_token_moves in E as [? ?]. destruct (nest d t); [|done]. apply IH. destruct H as [Hs Ht]. split; [|done]. intros x Hx. apply Hs. lia.
Qed.

(** The finder's result is that of any machine with the same blob. *)
Lemma FindDevice_frame devices : devices ≠ [] →
  FindDevice dtb fuel devices s' = match FindDevice dtb fuel devices s with Done node _ => Done node s' | Stop w _ => Stop w s' end.
Proof.
  intros Hne. pose proof (header_facts dtb s fuel Hdtb Hfuel Hv) as (H1 & H2 & H3 & _ & H5 & _). fold m in H1, H2, H3, H5.
  destruct Hv as [Hh Hf]. pose proof Hh as (_ & _ & Ht & Hst & _).
  pose proof header_agree as Hf7. unfold header_fields in Hf7. rewrite <-list.Forall_forall, !list.Forall_cons in Hf7. destruct Hf7 as (E1 & E2 & E3 & E4 & E5 & E6 & E7 & _).
  assert (Eh : header_blob m' dtb = header_blob m dtb) by (unfold header_blob; congruence).
  assert (Hfr : same_from m m' (header_blob m dtb) (b_struct (header_blob m dtb))).
  { split; intros x Hx; apply Hsame; unfold in_blob; cbn [header_blob b_base] in Hx; lia. }
  assert (Hv' : blob_valid m' dtb).
  { split; [|cbv zeta; rewrite Eh, E7, valid_from_agree; done]. unfold header_valid. cbv zeta. by rewrite Eh, E1, E2, E5. }
  assert (Et : blob_tokens m' dtb = blob_tokens m dtb).
  { unfold blob_tokens. cbv zeta. rewrite Eh, E7. by apply read_tokens_agree. }
  destruct (FindDevice_spec dtb s fuel Hdtb Hal Hsal Hfuel devices Hv Hne) as (ts & Ets & _ & ->).
  destruct (FindDevice_spec dtb s' fuel Hdtb Hal) with (devices := devices) as (ts' & Ets' & _ & ->);
    [by fold m'; rewrite E3|by fold m'; rewrite E7|done|done|].
  fold m in Ets |- *. fold m' in Ets' |- *. rewrite Et, Ets in Ets'. injection Ets' as <-. unfold parsed.
  rewrite (find_run_agree dtb m m'); [by destruct (run_tokens _ ts _) as [?|[?|?]]| |cbn [snd]; apply Forall_replicate, no_level_same].
  eapply list.Forall_impl; [exact (read_tokens_props m (header_blob m dtb) _ _ ts H5 (proj2 H1) (conj H2 H3) Ets)|]. cbv beta. intros [] Hp; try done.
  cbn [token_same]. split; [|lia]. intros x Hx. apply Hsame. unfold in_blob. lia.
Qed.
End blob.
