(* ===== verification/ParseTree.v ===== *)
(** * The memory map of a tree *)
From Stdlib Require Import String.
From S2P Require Import Prelude Memory Machine Pmm Strings HostMmu Cpio Fdt BootLoader LayoutSpec.
From S2P Require Import PatchSpec PatchTree DeviceTree DeviceTreeSpec ParseSpec.

(** ** What a tree says *)

Fixpoint all_props (t : tree) : list prop :=
  match t with DtNode _ ps ks => ps ++ flat_map all_props ks end.

Definition is_reg (p : prop) : Prop := p_name p = str "reg" ∧ 16 ≤ p_len p.
#[export] Instance is_reg_dec p : Decision (is_reg p).
Proof. unfold is_reg. apply _. Defined.
Definition is_initrd (name : list Z) (p : prop) : Prop := p_name p = name ∧ (p_len p = 4 ∨ p_len p = 8).
#[export] Instance is_initrd_dec name p : Decision (is_initrd name p).
Proof. unfold is_initrd. apply _. Defined.

(** The kinds of node the parser tells apart. *)
Inductive kind : Set := KOther | KMemory | KReserved | KFirmware | KChosen.
Definition kind_named (name : list Z) : kind :=
  if decide (str "memory" `prefix_of` name) then KMemory
  else if decide (name = str "reserved-memory") then KReserved
  else if decide (name = str "chosen") then KChosen
  else KOther.
Definition firmware_names : list (list Z) := [str "atf"; str "bl31"; str "secmon"; str "optee"; str "tee"].


#[export] Instance kind_eq_dec : EqDecision kind.
Proof. solve_decision. Defined.
Definition kids_of_kind (k : kind) (t : tree) : list tree := filter (λ c, kind_named (t_name c) = k) (t_kids t).

(** RAM is the first [reg] below a node whose name starts with "memory"; the firmware's region
    the last [reg] below a child of /reserved-memory with a known name; the archive is what
    /chosen says. *)
Definition ram_reg (t : tree) : option prop := head (filter is_reg (flat_map all_props (kids_of_kind KMemory t))).
Definition firmware_reg (t : tree) : option prop :=
  list.last (filter is_reg (flat_map all_props (filter (λ c, t_name c ∈ firmware_names) (flat_map t_kids (kids_of_kind KReserved t))))).
Definition initrd_prop (name : list Z) (t : tree) : option prop :=
  list.last (filter (is_initrd name) (flat_map t_props (kids_of_kind KChosen t))).

(** What the parser knows at some point. *)
Record summary : Set := MkSummary {
  su_ram : option prop;
  su_firmware : option prop;
  su_start : option prop;
  su_end : option prop;
}.
Definition nothing : summary := MkSummary None None None None.

(** A property below a node of kind [k], at depth [d]. *)
Definition see (k : kind) (d : Z) (u : summary) (p : prop) : summary :=
  if decide (is_reg p) then
    match k with
    | KMemory => MkSummary (match su_ram u with Some q => Some q | None => Some p end) (su_firmware u) (su_start u) (su_end u)
    | KFirmware => MkSummary (su_ram u) (Some p) (su_start u) (su_end u)
    | _ => u
    end
  else
    match k with
    | KChosen =>
        if decide (d = 2) then
          if decide (is_initrd (str "linux,initrd-start") p) then MkSummary (su_ram u) (su_firmware u) (Some p) (su_end u)
          else if decide (is_initrd (str "linux,initrd-end") p) then MkSummary (su_ram u) (su_firmware u) (su_start u) (Some p)
          else u
        else u
    | _ => u
    end.

Section states.
Context (m : gmap Z Z) (dtb : Z).

Definition cells_of (k n : Z) (o : option prop) : Z := match o with Some p => cells_at m dtb (p_off p + k) n | None => 0 end.
Definition address_of (o : option prop) : Z := match o with Some p => cells_at m dtb (p_off p) (p_len p / 4) | None => 0 end.
Definition seen (o : option prop) : bool := match o with Some _ => true | None => false end.

(** The parser's variables. *)
Definition state_of (u : summary) (k : kind) (d : Z) : MemoryParseState * MemoryMap :=
  (MkMemoryParseState (bool_decide (k = KMemory)) (bool_decide (k = KReserved ∨ k = KFirmware)) (bool_decide (k = KFirmware))
     (bool_decide (k = KChosen)) (seen (su_ram u)) (address_of (su_start u)) (address_of (su_end u))
     (seen (su_start u)) (seen (su_end u)) d,
   MkMemoryMap (cells_of 0 2 (su_ram u)) (cells_of 8 2 (su_ram u)) (cells_of 0 2 (su_firmware u)) (cells_of 8 2 (su_firmware u))
     dtb (be32 m (fh_totalSize dtb)) 0 0).

Lemma see_spec u k d p : take_named m dtb p (state_of u k d).1 (state_of u k d).2 = state_of (see k d u p) k d.
Proof.
  unfold take_named, see. rewrite <-bool_decide_and. destruct (decide (is_reg p)) as [Hr|Hr].
  - rewrite bool_decide_true by done. unfold state_of. destruct u as [[ram|] fw st en], k; cbn; rewrite ?Z.add_0_r; done.
  - rewrite bool_decide_false by done. destruct k; try done. cbn [state_of fst snd chosen s_depth andb].
    rewrite bool_decide_true by done. cbn [andb]. destruct (decide (d = 2)) as [-> |Hd]; [|by rewrite bool_decide_false].
    rewrite bool_decide_true by done. cbn [andb]. unfold is_initrd.
    destruct (decide (p_len p = 4 ∨ p_len p = 8)) as [Hl|Hl].
    + rewrite bool_decide_true by done. destruct (decide (p_name p = str "linux,initrd-start")) as [E1|E1].
      * by rewrite decide_True by done.
      * rewrite (decide_False (P := p_name p = str "linux,initrd-start" ∧ _)) by tauto.
        destruct (decide (p_name p = str "linux,initrd-end")) as [E2|E2]; [by rewrite decide_True by done|by rewrite decide_False by tauto].
    + rewrite bool_decide_false by done. by rewrite !decide_False by tauto.
Qed.

(** ** Walking a tree *)

Definition walk_map (ts : list token) (x : MemoryParseState * MemoryMap) := run_tokens (map_token m dtb) ts x.

Lemma walk_app ts1 ts2 x : walk_map (ts1 ++ ts2) x = match walk_map ts1 x with inl x' => walk_map ts2 x' | inr r => inr r end.
Proof.
  unfold walk_map. revert x. induction ts1 as [|t ts1 IH]; intros x; [done|]. cbn [app run_tokens].
  by destruct (map_token m dtb t x).
Qed.

Lemma walk_map_props u k d ps : walk_map (map TProp ps) (state_of u k d) = inl (state_of (foldl (see k d) u ps) k d).
Proof.
  revert u. induction ps as [|p ps IH]; intros u; [done|]. cbn [map walk_map run_tokens map_token foldl].
  rewrite see_spec. apply IH.
Qed.

(** Nodes nest at most [n] deep. *)
Fixpoint deep (n : nat) (t : tree) : Prop :=
  match n with
  | O => False
  | S n' => Forall (deep n') (t_kids t)
  end.

(** A kind that lasts through a node at depth [d]. *)
Definition lasting (k : kind) (d : Z) : Prop := 3 ≤ d ∨ k ≠ KReserved ∧ k ≠ KFirmware.

Lemma enter_lasting name u k d : 2 ≤ d → d + 1 < 2 ^ 32 → lasting k d →
  (enter_named name (state_of u k d).1, (state_of u k d).2) = state_of u k (d + 1).
Proof.
  intros Hd Hb Hl. unfold enter_named, state_of. cbn [fst snd s_depth reserved memory atf chosen].
  rewrite decide_False by lia.
  assert (bool_decide (d = 2) && bool_decide (k = KReserved ∨ k = KFirmware) = false) as ->.
  { destruct Hl; [by rewrite bool_decide_false by lia|]. rewrite (bool_decide_false (k = _ ∨ _)) by tauto. apply andb_false_r. }
  cbn [set_nodes s_depth memory reserved atf chosen foundMemory initrdStart initrdEnd hasInitrdStart hasInitrdEnd].
  by assert (u32 (d + 1) = d + 1) as -> by (apply Z.mod_small; lia).
Qed.

Lemma leave_lasting u k d : 2 ≤ d → d + 1 < 2 ^ 32 → lasting k d →
  (leave_node (state_of u k (d + 1)).1, (state_of u k (d + 1)).2) = state_of u k d.
Proof.
  intros Hd Hb Hl. unfold leave_node, state_of. cbn [fst snd s_depth].
  assert (u32 (d + 1 - 1) = d) as -> by (unfold u32; rewrite Z.mod_small; lia). rewrite decide_False by lia.
  destruct (decide (d = 2)) as [-> |Hne]; [|done]. destruct Hl as [|[? ?]]; [lia|]. by destruct k.
Qed.

Lemma see_deep k d u ps : 3 ≤ d → foldl (see k d) u ps = foldl (see k 3) u ps.
Proof.
  intros Hd. revert u. induction ps as [|p ps IH]; intros u; [done|]. cbn [foldl].
  assert (see k d u p = see k 3 u p) as ->; [|apply IH]. unfold see. case_decide; [done|]. destruct k; try done.
  by rewrite !decide_False by lia.
Qed.

(** Below a lasting kind every property counts the same. *)
Lemma walk_sub t : ∀ n u k d, deep n t → 2 ≤ d → d + Z.of_nat n < 2 ^ 32 → lasting k d →
  walk_map (flatten t) (state_of u k d) = inl (state_of (foldl (see k 3) u (all_props t)) k d).
Proof.
  induction t as [nm ps ks IH] using tree_ind'. intros n u k d Hn Hd Hb Hl. destruct n as [|n]; [done|]. cbn [deep t_kids] in Hn.
  cbn [flatten]. change (walk_map (?t :: ?ts) ?x) with (walk_map ([t] ++ ts) x). rewrite walk_app.
  assert (walk_map [TBegin nm] (state_of u k d) = inl (state_of u k (d + 1))) as ->.
  { unfold walk_map. cbn [run_tokens map_token]. by rewrite enter_lasting by (done || lia). }
  rewrite walk_app, walk_map_props, see_deep by lia. rewrite walk_app. cbn [all_props]. rewrite foldl_app.
  assert (Hks : ∀ u, walk_map (flat_map flatten ks) (state_of u k (d + 1)) = inl (state_of (foldl (see k 3) u (flat_map all_props ks)) k (d + 1))).
  { induction IH as [|c ks Hc _ IHks]; intros u'; [done|]. apply Forall_cons_1 in Hn as [Hn1 Hn2]. cbn [flat_map].
    rewrite walk_app, (Hc n) by (done || lia || (left; lia)). rewrite IHks by done. by rewrite foldl_app. }
  rewrite Hks. unfold walk_map. cbn [run_tokens map_token]. by rewrite leave_lasting by (done || lia).
Qed.

Lemma walk_subs ks : ∀ n u k d, Forall (deep n) ks → 2 ≤ d → d + Z.of_nat n < 2 ^ 32 → lasting k d →
  walk_map (flat_map flatten ks) (state_of u k d) = inl (state_of (foldl (see k 3) u (flat_map all_props ks)) k d).
Proof.
  induction ks as [|c ks IH]; intros n u k d Hn Hd Hb Hl; [done|]. apply Forall_cons_1 in Hn as [H1 H2]. cbn [flat_map].
  rewrite walk_app, (walk_sub c n) by done. rewrite (IH n) by done. by rewrite foldl_app.
Qed.

(** A child of /reserved-memory. *)
Definition see_reserved (u : summary) (c : tree) : summary :=
  if decide (t_name c ∈ firmware_names) then foldl (see KFirmware 3) u (all_props c) else u.

Lemma see_none k u ps : k = KReserved ∨ k = KOther → foldl (see k 3) u ps = u.
Proof. intros Hk. revert u. induction ps as [|p ps IH]; intros u; [done|]. cbn [foldl]. rewrite <-(IH u) at 2. f_equal. unfold see. destruct Hk as [-> | ->]; by case_decide. Qed.

Lemma walk_reserved_kid t n u : deep n t → Z.of_nat n < 2 ^ 31 →
  walk_map (flatten t) (state_of u KReserved 2) = inl (state_of (see_reserved u t) KReserved 2).
Proof.
  destruct t as [nm ps ks]. intros Hn Hb. destruct n as [|n]; [done|]. cbn [deep t_kids] in Hn.
  cbn [flatten]. change (walk_map (?t :: ?ts) ?x) with (walk_map ([t] ++ ts) x). rewrite walk_app.
  set (k := if decide (nm ∈ firmware_names) then KFirmware else KReserved).
  assert (walk_map [TBegin nm] (state_of u KReserved 2) = inl (state_of u k 3)) as ->.
  { unfold walk_map. cbn [run_tokens map_token]. do 2 f_equal. unfold enter_named, state_of. cbn [fst snd s_depth reserved].
    rewrite decide_False by lia. rewrite !bool_decide_true by tauto. cbn [andb].
    cbn [set_nodes s_depth memory reserved atf chosen foundMemory initrdStart initrdEnd hasInitrdStart hasInitrdEnd].
    fold firmware_names. unfold k.
    destruct (decide (nm ∈ firmware_names)); [by rewrite (bool_decide_true (nm ∈ firmware_names)) by done|by rewrite (bool_decide_false (nm ∈ firmware_names)) by done]. }
  rewrite walk_app, walk_map_props, walk_app, (walk_subs ks n) by (done || lia || (left; lia)).
  rewrite <-foldl_app. assert (foldl (see k 3) u (ps ++ flat_map all_props ks) = see_reserved u (DtNode nm ps ks)) as ->.
  { unfold see_reserved, k. cbn [t_name all_props]. case_decide; [done|]. apply see_none. by left. }
  unfold walk_map. cbn [run_tokens map_token]. unfold k. by destruct (decide (nm ∈ firmware_names)).
Qed.

Lemma walk_reserved_kids ks : ∀ n u, Forall (deep n) ks → Z.of_nat n < 2 ^ 31 →
  walk_map (flat_map flatten ks) (state_of u KReserved 2) = inl (state_of (foldl see_reserved u ks) KReserved 2).
Proof.
  induction ks as [|c ks IH]; intros n u Hn Hb; [done|]. apply Forall_cons_1 in Hn as [H1 H2]. cbn [flat_map].
  by rewrite walk_app, (walk_reserved_kid c n), (IH n) by done.
Qed.

Lemma see_reserved_props u ps : foldl (see KReserved 2) u ps = u.
Proof. revert u. induction ps as [|p ps IH]; intros u; [done|]. cbn [foldl]. rewrite <-(IH u) at 2. f_equal. unfold see. by case_decide. Qed.

(** A child of the root. *)
Definition see_kid (u : summary) (c : tree) : summary :=
  match kind_named (t_name c) with
  | KMemory => foldl (see KMemory 3) u (all_props c)
  | KReserved => foldl see_reserved u (t_kids c)
  | KChosen => foldl (see KChosen 2) u (t_props c)
  | _ => u
  end.

Lemma kind_flags name :
  bool_decide (str "memory" `prefix_of` name) = bool_decide (kind_named name = KMemory) ∧
  bool_decide (name = str "reserved-memory") = bool_decide (kind_named name = KReserved) ∧
  bool_decide (name = str "chosen") = bool_decide (kind_named name = KChosen) ∧ kind_named name ≠ KFirmware.
Proof.
  unfold kind_named. destruct (decide (str "memory" `prefix_of` name)) as [Hm|Hm].
  - assert (name ≠ str "reserved-memory" ∧ name ≠ str "chosen") as [? ?].
    { split; intros ->; destruct Hm as [k Hk]; vm_compute in Hk; discriminate. }
    rewrite bool_decide_true, !(bool_decide_false (name = _)) by done. done.
  - rewrite bool_decide_false by done. destruct (decide (name = str "reserved-memory")) as [-> |Hr]; [done|].
    rewrite (bool_decide_false (name = str "reserved-memory")) by done.
    destruct (decide (name = str "chosen")) as [-> |Hc]; [done|]. by rewrite (bool_decide_false (name = str "chosen")).
Qed.

Lemma enter_kid name u : (enter_named name (state_of u KOther 1).1, (state_of u KOther 1).2) = state_of u (kind_named name) 2.
Proof.
  unfold enter_named, state_of. cbn [fst snd s_depth]. rewrite decide_True by done.
  cbn [set_nodes s_depth memory reserved atf chosen foundMemory initrdStart initrdEnd hasInitrdStart hasInitrdEnd].
  destruct (kind_flags name) as (-> & -> & -> & Hf). by destruct (kind_named name).
Qed.

Lemma leave_kid k u : k ≠ KFirmware → (leave_node (state_of u k 2).1, (state_of u k 2).2) = state_of u KOther 1.
Proof. intros Hk. by destruct k. Qed.

Lemma see_chosen_kids u ps : foldl (see KChosen 3) u ps = u.
Proof.
  revert u. induction ps as [|p ps IH]; intros u; [done|]. cbn [foldl]. rewrite <-(IH u) at 2. f_equal. unfold see.
  case_decide; [done|]. by rewrite decide_False by lia.
Qed.

Lemma see_memory_depth u ps : foldl (see KMemory 2) u ps = foldl (see KMemory 3) u ps.
Proof. revert u. induction ps as [|p ps IH]; intros u; [done|]. cbn [foldl]. apply IH. Qed.

Lemma see_other_depth u ps d : foldl (see KOther d) u ps = u.
Proof. revert u. induction ps as [|p ps IH]; intros u; [done|]. cbn [foldl]. rewrite <-(IH u) at 2. f_equal. unfold see. by case_decide. Qed.

Lemma walk_kid t n u : deep n t → Z.of_nat n < 2 ^ 31 →
  walk_map (flatten t) (state_of u KOther 1) = inl (state_of (see_kid u t) KOther 1).
Proof.
  destruct t as [nm ps ks]. intros Hn Hb. destruct n as [|n]; [done|]. cbn [deep t_kids] in Hn.
  cbn [flatten]. change (walk_map (?t :: ?ts) ?x) with (walk_map ([t] ++ ts) x). rewrite walk_app.
  assert (walk_map [TBegin nm] (state_of u KOther 1) = inl (state_of u (kind_named nm) 2)) as ->.
  { unfold walk_map. cbn [run_tokens map_token]. by rewrite enter_kid. }
  rewrite walk_app, walk_map_props, walk_app. unfold see_kid. cbn [t_name t_props t_kids all_props].
  assert (Hend : ∀ u' k, k ≠ KFirmware → walk_map [TEnd] (state_of u' k 2) = inl (state_of u' KOther 1)).
  { intros u' k Hk. unfold walk_map. cbn [run_tokens map_token]. by rewrite leave_kid by done. }
  destruct (kind_named nm) eqn:Ek.
  - rewrite (walk_subs ks n) by (done || lia || (right; done)). by rewrite Hend, see_none, see_other_depth by (done || by right).
  - rewrite (walk_subs ks n) by (done || lia || (right; done)). by rewrite Hend, foldl_app, (see_memory_depth u ps) by done.
  - rewrite (walk_reserved_kids ks n) by (done || lia). by rewrite Hend, see_reserved_props by done.
  - by destruct (kind_flags nm) as (_ & _ & _ & ?).
  - rewrite (walk_subs ks n) by (done || lia || (right; done)). by rewrite Hend, see_chosen_kids by done.
Qed.

Lemma walk_root_kids ks : ∀ n u, Forall (deep n) ks → Z.of_nat n < 2 ^ 31 →
  walk_map (flat_map flatten ks) (state_of u KOther 1) = inl (state_of (foldl see_kid u ks) KOther 1).
Proof.
  induction ks as [|c ks IH]; intros n u Hn Hb; [done|]. apply Forall_cons_1 in Hn as [H1 H2]. cbn [flat_map].
  by rewrite walk_app, (walk_kid c n), (IH n) by done.
Qed.

(** The whole tree. *)
Lemma walk_map_tree t n : deep n t → Z.of_nat n < 2 ^ 31 →
  walk_map (flatten t) (map_start m dtb) = inl (state_of (foldl see_kid nothing (t_kids t)) KOther 0).
Proof.
  destruct t as [nm ps ks]. intros Hn Hb. destruct n as [|n]; [done|]. cbn [deep t_kids] in *.
  cbn [flatten]. change (map_start m dtb) with (state_of nothing KOther 0).
  change (walk_map (?t :: ?ts) ?x) with (walk_map ([t] ++ ts) x). rewrite walk_app.
  change (walk_map [TBegin nm] (state_of nothing KOther 0)) with (inl (A := MemoryParseState * MemoryMap) (B := MemoryMap + halt) (state_of nothing KOther 1)).
  cbv iota. rewrite walk_app, walk_map_props, see_other_depth, walk_app, (walk_root_kids ks n) by (done || lia). done.
Qed.
End states.

(** ** The summary of a tree *)

Definition or_else {A} (a b : option A) : option A := match a with Some x => Some x | None => b end.

Lemma or_else_assoc {A} (a b c : option A) : or_else (or_else a b) c = or_else a (or_else b c).
Proof. by destruct a. Qed.
Lemma or_else_none {A} (a : option A) : or_else a None = a.
Proof. by destruct a. Qed.

Lemma head_app {A} (l1 l2 : list A) : head (l1 ++ l2) = or_else (head l1) (head l2).
Proof. by destruct l1. Qed.

Lemma last_app {A} (l1 l2 : list A) : list.last (l1 ++ l2) = or_else (list.last l2) (list.last l1).
Proof. apply last_app. Qed.

Lemma last_cons_else {A} (x : A) l o : or_else (list.last (x :: l)) o = or_else (list.last l) (Some x).
Proof. change (x :: l) with ([x] ++ l). rewrite last_app. by rewrite or_else_assoc. Qed.

Lemma fold_memory u ps : foldl (see KMemory 3) u ps =
  MkSummary (or_else (su_ram u) (head (filter is_reg ps))) (su_firmware u) (su_start u) (su_end u).
Proof.
  revert u. induction ps as [|p ps IH]; intros u; [by destruct u as [[] ? ? ?]|]. cbn [foldl].
  rewrite IH. unfold see. rewrite filter_cons. case_decide; [|done]. cbn. by destruct (su_ram u).
Qed.

Lemma fold_firmware u ps : foldl (see KFirmware 3) u ps =
  MkSummary (su_ram u) (or_else (list.last (filter is_reg ps)) (su_firmware u)) (su_start u) (su_end u).
Proof.
  revert u. induction ps as [|p ps IH]; intros u; cbn [foldl]; [by destruct u|].
  rewrite IH. unfold see. rewrite filter_cons. case_decide; [|done]. cbn [su_ram su_firmware su_start su_end].
  by rewrite last_cons_else.
Qed.

Lemma fold_chosen u ps : foldl (see KChosen 2) u ps =
  MkSummary (su_ram u) (su_firmware u) (or_else (list.last (filter (is_initrd (str "linux,initrd-start")) ps)) (su_start u))
    (or_else (list.last (filter (is_initrd (str "linux,initrd-end")) ps)) (su_end u)).
Proof.
  revert u. induction ps as [|p ps IH]; intros u; cbn [foldl]; [by destruct u|].
  rewrite IH. unfold see. rewrite !filter_cons, (decide_True (P := 2 = 2)) by done. destruct (decide (is_reg p)) as [[Hr _]|Hr].
  - rewrite !decide_False; [done| |]; intros [H _]; rewrite H in Hr; by vm_compute in Hr.
  - destruct (decide (is_initrd (str "linux,initrd-start") p)) as [[Hs _]|Hs].
    + rewrite (decide_False (P := is_initrd (str "linux,initrd-end") p)) by (intros [H _]; rewrite H in Hs; by vm_compute in Hs).
      cbn [su_ram su_firmware su_start su_end]. by rewrite last_cons_else.
    + destruct (decide (is_initrd (str "linux,initrd-end") p)); [|done]. cbn [su_ram su_firmware su_start su_end]. by rewrite last_cons_else.
Qed.

Lemma fold_reserved u ks : foldl see_reserved u ks =
  MkSummary (su_ram u) (or_else (list.last (filter is_reg (flat_map all_props (filter (λ c, t_name c ∈ firmware_names) ks)))) (su_firmware u))
    (su_start u) (su_end u).
Proof.
  revert u. induction ks as [|c ks IH]; intros u; cbn [foldl]; [by destruct u|].
  rewrite IH. unfold see_reserved. rewrite filter_cons. case_decide; [|done]. cbn [flat_map].
  rewrite fold_firmware, list.filter_app, last_app. cbn [su_ram su_firmware su_start su_end]. by rewrite or_else_assoc.
Qed.

(** The summary by the lists of children of each kind. *)
Lemma fold_kids u ks : let by_kind k := filter (λ c, kind_named (t_name c) = k) ks in
  foldl see_kid u ks = MkSummary
    (or_else (su_ram u) (head (filter is_reg (flat_map all_props (by_kind KMemory)))))
    (or_else (list.last (filter is_reg (flat_map all_props (filter (λ c, t_name c ∈ firmware_names) (flat_map t_kids (by_kind KReserved)))))) (su_firmware u))
    (or_else (list.last (filter (is_initrd (str "linux,initrd-start")) (flat_map t_props (by_kind KChosen)))) (su_start u))
    (or_else (list.last (filter (is_initrd (str "linux,initrd-end")) (flat_map t_props (by_kind KChosen)))) (su_end u)).
Proof.
  cbv zeta. revert u. induction ks as [|c ks IH]; intros u; cbn [foldl].
  { by destruct u as [[] ? ? ?]. }
  rewrite IH. unfold see_kid. rewrite !filter_cons. destruct (kind_named (t_name c)); cbn [decide].
  - by rewrite !decide_False by done.
  - rewrite decide_True, !decide_False by done. cbn [flat_map]. rewrite fold_memory, list.filter_app, head_app. cbn [su_ram su_firmware su_start su_end].
    by rewrite or_else_assoc.
  - rewrite (decide_True (P := KReserved = KReserved)), !decide_False by done. cbn [flat_map]. rewrite fold_reserved, list.filter_app, flat_map_app, list.filter_app, last_app.
    cbn [su_ram su_firmware su_start su_end]. by rewrite or_else_assoc.
  - by rewrite !decide_False by done.
  - rewrite !(decide_True (P := KChosen = KChosen)), !decide_False by done. cbn [flat_map]. rewrite fold_chosen, !list.filter_app, !last_app. cbn [su_ram su_firmware su_start su_end].
    by rewrite !or_else_assoc.
Qed.

Lemma summary_tree t : foldl see_kid nothing (t_kids t) =
  MkSummary (ram_reg t) (firmware_reg t) (initrd_prop (str "linux,initrd-start") t) (initrd_prop (str "linux,initrd-end") t).
Proof.
  rewrite fold_kids. cbn [nothing su_ram su_firmware su_start su_end]. rewrite !or_else_none. done.
Qed.

(** A valid blob's tree is not too deep. *)
Lemma nested_deep t : ∀ d rest, nested d (flatten t ++ rest) → deep (Z.to_nat (MAX_DEPTH - d)) t ∧ nested d rest.
Proof.
  induction t as [nm ps ks IH] using tree_ind'. intros d rest H. cbn [flatten app] in H. rewrite <-!app_assoc in H.
  destruct H as (d' & Hd & [[? _]|[_ H]]); [done|]. cbn [nest] in Hd. case_decide as Hlt; [|done]. injection Hd as <-.
  assert (Hps : nested (d + 1) (flat_map flatten ks ++ [TEnd] ++ rest)).
  { clear IH. induction ps as [|p ps IHps]; [done|]. destruct H as (d' & [= <-] & [[? _]|[_ H]]); [done|]. by apply IHps. }
  assert (Hks : Forall (deep (Z.to_nat (MAX_DEPTH - (d + 1)))) ks ∧ nested (d + 1) ([TEnd] ++ rest)).
  { clear H. induction IH as [|c ks Hc _ IHks]; [done|]. cbn [flat_map] in Hps. rewrite <-app_assoc in Hps.
    destruct (Hc _ _ Hps) as [H1 H2]. destruct (IHks H2) as [H3 H4]. split; [by constructor|done]. }
  destruct Hks as [Hks (d' & Hd & [[? _]|[_ Hr]])]; [done|]. cbn [nest] in Hd. case_decide; [|done]. injection Hd as <-.
  replace (Z.to_nat (MAX_DEPTH - d)) with (S (Z.to_nat (MAX_DEPTH - (d + 1)))) by lia. split; [done|].
  by replace (d + 1 - 1) with d in Hr by lia.
Qed.

(** The memory map the parser must return. *)
Definition map_of (m : gmap Z Z) (dtb : Z) (t : tree) : MemoryMap :=
  let start := initrd_prop (str "linux,initrd-start") t in
  let end_ := initrd_prop (str "linux,initrd-end") t in
  let archive := seen start && seen end_ && bool_decide (address_of m dtb start < address_of m dtb end_) in
  MkMemoryMap (cells_of m dtb 0 2 (ram_reg t)) (cells_of m dtb 8 2 (ram_reg t))
    (cells_of m dtb 0 2 (firmware_reg t)) (cells_of m dtb 8 2 (firmware_reg t))
    dtb (be32 m (fh_totalSize dtb))
    (if archive then address_of m dtb start else 0) (if archive then address_of m dtb end_ - address_of m dtb start else 0).

Lemma parsed_tree m dtb t s : nested 0 (flatten t ++ [TStop]) →
  parsed (map_token m dtb) (flatten t ++ [TStop]) (map_start m dtb) s =
  match ram_reg t with
  | Some _ => Done (map_of m dtb t) s
  | None => Stop (Panic "[ERROR][DTB] memory is missing") s
  end.
Proof.
  intros Hn. destruct (nested_deep _ _ _ Hn) as [Hd _]. unfold parsed. fold (walk_map m dtb (flatten t ++ [TStop]) (map_start m dtb)).
  rewrite walk_app, (walk_map_tree m dtb t _ Hd), summary_tree by (vm_compute; reflexivity).
  unfold walk_map, state_of. cbn [run_tokens map_token fst snd foundMemory su_ram]. destruct (ram_reg t) as [p|] eqn:Ep; [|done].
  cbn [seen]. unfold finish_map, map_of. rewrite Ep. cbn [hasInitrdStart hasInitrdEnd initrdStart initrdEnd su_start su_end].
  by destruct (seen _ && seen _ && _).
Qed.

(** ** The device a tree search finds *)

(** ** What a node can see of the stack *)

Lemma translate_take m stack k : ∀ d addr, (d ≤ k)%nat → translate m (take k stack) d addr = translate m stack d addr.
Proof.
  induction d as [|d IH]; intros addr Hd; [done|]. cbn [translate].
  assert (translate_level m (take k stack) (S d) addr = translate_level m stack (S d) addr) as ->.
  { unfold translate_level. rewrite !nth_lookup. by rewrite !lookup_take_lt by lia. }
  destruct (translate_level m stack (S d) addr); [|done]. cbn. apply IH. lia.
Qed.

Lemma decode_regions_take m stack k d r ac sc stride n : (Z.to_nat d ≤ k)%nat → ∀ off out,
  decode_regions n m (take k stack) d r ac sc stride off out = decode_regions n m stack d r ac sc stride off out.
Proof.
  intros Hk. induction n as [|n IH]; intros off out; [done|]. cbn [decode_regions]. case_decide; [|done].
  destruct (entry_cells m r off 0 ac); [|done]. cbn. destruct (entry_cells m r off ac sc); [|done]. cbn.
  rewrite translate_take by done. destruct (translate _ _ _ _); [|done]. cbn. apply IH.
Qed.

(** [close_node] reads the stack up to the node only. *)
Lemma close_node_take m stack (d : nat) : close_node m (take (S d) stack) (Z.of_nat d) = close_node m stack (Z.of_nat d).
Proof.
  unfold close_node. rewrite Nat2Z.id, !nth_lookup, !lookup_take_lt by lia.
  destruct (_ && _); [|done]. destruct (decide (Z.of_nat d ≠ 0)) as [Hd|Hd]; cbv zeta.
  - case_decide; [|done]. by rewrite decode_regions_take by lia.
  - case_decide; [|done]. by rewrite decode_regions_take by lia.
Qed.

(** ** Searching a tree *)

Section search.
Context (dtb : Z) (m : gmap Z Z) (devices : list (list Z)).

(** What the properties of a node say of its bus and of itself. *)
Definition level_of (t : tree) : BusLevel := foldl (λ l p, take_bus_named dtb m devices p l) new_level (t_props t).

(** The first node in postorder that matches with a usable [reg]; [path] is the levels of the
    node's ancestors from the root. [None]: a read outside a property. *)
Fixpoint search (path : list BusLevel) (t : tree) : option (option DeviceNode) :=
  let here := path ++ [level_of t] in
  match t with
  | DtNode _ _ ks =>
    match (fix search_all ks := match ks with
           | [] => Some None
           | k :: ks' => match search here k with Some None => search_all ks' | r => r end
           end) ks with
    | Some None => close_node m here (Z.of_nat (List.length path))
    | r => r
    end
  end.
Fixpoint search_all (here : list BusLevel) (ks : list tree) : option (option DeviceNode) :=
  match ks with
  | [] => Some None
  | k :: ks' => match search here k with Some None => search_all here ks' | r => r end
  end.

Lemma search_node path t : search path t =
  match search_all (path ++ [level_of t]) (t_kids t) with
  | Some None => close_node m (path ++ [level_of t]) (Z.of_nat (List.length path))
  | r => r
  end.
Proof.
  destruct t as [nm ps ks]. cbn [search t_kids]. set (here := path ++ [_]).
  assert (∀ ks, (fix search_all ks := match ks with
           | [] => Some None
           | k :: ks' => match search here k with Some None => search_all ks' | r => r end
           end) ks = search_all here ks) as ->; [|done].
  induction ks0 as [|k ks0 IH]; [done|]. cbn [search_all]. by rewrite <-IH.
Qed.

(** A stack whose first levels are [path]. *)
Definition under (path stack : list BusLevel) : Prop :=
  List.length stack = Z.to_nat MAX_DEPTH ∧ take (List.length path) stack = path.

Notation walk := (run_tokens (find_token dtb m devices)).

Lemma run_app {X R} (sem : token → X → effect X R) ts1 ts2 x :
  run_tokens sem (ts1 ++ ts2) x = match run_tokens sem ts1 x with inl x' => run_tokens sem ts2 x' | inr r => inr r end.
Proof. revert x. induction ts1 as [|t ts1 IH]; intros x; [done|]. cbn [app run_tokens]. by destruct (sem t x). Qed.

(** The outcome of a search as that of a walk. *)
Definition searched (depth : Z) (path : list BusLevel) (r : option (option DeviceNode)) (o : (Z * list BusLevel) + (DeviceNode + halt)) : Prop :=
  match r with
  | None => o = inr (inr Undefined)
  | Some (Some node) => o = inr (inl node)
  | Some None => ∃ stack, o = inl (depth, stack) ∧ under path stack
  end.

Lemma under_level path stack f : (List.length path < Z.to_nat MAX_DEPTH)%nat → under path stack →
  under (path ++ [f (nth (List.length path) stack no_level)]) (set_level f (Z.of_nat (List.length path)) stack).
Proof.
  intros Hl [Hs Ht]. unfold set_level. rewrite Nat2Z.id. split; [by rewrite length_insert|].
  rewrite length_app. cbn [List.length]. rewrite Nat.add_1_r.
  rewrite (take_S_r _ _ (f (nth (List.length path) stack no_level))) by (apply list_lookup_insert_eq; lia).
  by rewrite take_insert_ge, Ht by lia.
Qed.

Lemma under_top path l stack : (List.length path < Z.to_nat MAX_DEPTH)%nat → under (path ++ [l]) stack →
  under path stack ∧ nth (List.length path) stack no_level = l.
Proof.
  intros Hl [Hs Ht]. rewrite length_app in Ht. cbn [List.length] in Ht. rewrite Nat.add_1_r in Ht.
  destruct (lookup_lt_is_Some_2 stack (List.length path)) as [x Hx]; [lia|].
  rewrite (take_S_r _ _ x Hx) in Ht. apply app_inj_tail in Ht as [H1 ->]. split; [done|]. by rewrite nth_lookup, Hx.
Qed.

Lemma search_props path ps l stack : (List.length path < Z.to_nat MAX_DEPTH)%nat → under (path ++ [l]) stack →
  ∃ stack', walk (map TProp ps) (Z.of_nat (List.length path) + 1, stack) = inl (Z.of_nat (List.length path) + 1, stack') ∧
  under (path ++ [foldl (λ l p, take_bus_named dtb m devices p l) l ps]) stack'.
Proof.
  intros Hl. revert l stack. induction ps as [|p ps IH]; intros l stack Hu; [by exists stack|].
  cbn [map run_tokens find_token foldl]. rewrite (decide_True (P := _ + 1 ≠ 0)) by lia. rewrite Z.add_simpl_r.
  rewrite decide_True by (unfold MAX_DEPTH in *; lia). destruct (under_top path l stack Hl Hu) as [Hp Ht].
  pose proof (under_level path stack (take_bus_named dtb m devices p) Hl Hp) as Hu'. rewrite Ht in Hu'. by apply IH.
Qed.

Lemma search_tree t : ∀ n path stack, deep n t → (List.length path + n ≤ Z.to_nat MAX_DEPTH)%nat → under path stack →
  searched (Z.of_nat (List.length path)) path (search path t) (walk (flatten t) (Z.of_nat (List.length path), stack)).
Proof.
  induction t as [nm ps ks IH] using tree_ind'. intros n path stack Hn Hb Hu. destruct n as [|n]; [done|]. cbn [deep t_kids] in Hn.
  assert (Hl : (List.length path < Z.to_nat MAX_DEPTH)%nat) by lia.
  cbn [flatten]. change (?t :: ?ts) with ([t] ++ ts). rewrite run_app. cbn [run_tokens find_token].
  rewrite (decide_True (P := _ < MAX_DEPTH)) by (unfold MAX_DEPTH in *; lia).
  assert (u32 (Z.of_nat (List.length path) + 1) = Z.of_nat (List.length path) + 1) as -> by (apply Z.mod_small; unfold MAX_DEPTH in *; lia).
  pose proof (under_level path stack (λ _, new_level) Hl Hu) as Hu1. rewrite run_app.
  destruct (search_props path ps new_level _ Hl Hu1) as (stack2 & -> & Hu2).
  rewrite search_node. cbn [t_kids]. change (foldl _ new_level ps) with (level_of (DtNode nm ps ks)) in Hu2.
  set (l := level_of _) in *. rewrite run_app.
  assert (Hks : searched (Z.of_nat (List.length path) + 1) (path ++ [l]) (search_all (path ++ [l]) ks)
  (walk (flat_map flatten ks) (Z.of_nat (List.length path) + 1, stack2))).
  { clear Hu1 Hu stack. revert stack2 Hu2. induction IH as [|c ks Hc _ IHks]; intros stack2 Hu2; cbn [flat_map search_all]; [by exists stack2|].
  apply Forall_cons_1 in Hn as [Hn1 Hn2]. rewrite run_app.
  assert (Elen : List.length (path ++ [l]) = S (List.length path)) by (rewrite length_app; cbn; lia).
  specialize (Hc n (path ++ [l]) stack2 Hn1). rewrite Elen in Hc. specialize (Hc ltac:(lia) Hu2).
  rewrite Nat2Z.inj_succ, <-Z.add_1_r in Hc. destruct (search (path ++ [l]) c) as [[node|]|]; cbn [searched] in Hc |- *; [by rewrite Hc| |by rewrite Hc].
  destruct Hc as (stack3 & -> & Hu3). by apply IHks. }
  destruct (search_all (path ++ [l]) ks) as [[node|]|]; cbn [searched] in Hks |- *; [by rewrite Hks| |by rewrite Hks].
  destruct Hks as (stack3 & -> & Hu3). cbn [run_tokens find_token]. rewrite decide_True by lia. rewrite Z.add_simpl_r.
  assert (close_node m stack3 (Z.of_nat (List.length path)) = close_node m (path ++ [l]) (Z.of_nat (List.length path))) as ->.
  { rewrite <-close_node_take. destruct Hu3 as [_ Ht]. rewrite length_app in Ht. cbn [List.length] in Ht. rewrite Nat.add_1_r in Ht. by rewrite Ht. }
  destruct (close_node m (path ++ [l]) _) as [[node|]|]; cbn [searched]; try done.
  eexists. split; [done|]. by apply under_top in Hu3 as [? _].
Qed.

(** The parser's result on a tree is the search's. *)
Lemma found_tree t s : nested 0 (flatten t ++ [TStop]) →
  parsed (find_token dtb m devices) (flatten t ++ [TStop]) (0, replicate (Z.to_nat MAX_DEPTH) no_level) s =
  match search [] t with
  | Some (Some node) => Done node s
  | Some None => Done no_node s
  | None => Stop Undefined s
  end.
Proof.
  intros Hn. destruct (nested_deep _ _ _ Hn) as [Hd _].
  pose proof (search_tree t _ [] (replicate (Z.to_nat MAX_DEPTH) no_level) Hd ltac:(cbn; lia) (conj (length_replicate _ _) eq_refl)) as H.
  change (Z.of_nat (List.length [])) with 0 in H. unfold parsed. rewrite run_app. destruct (search [] t) as [[node|]|]; cbn [searched] in H; [by rewrite H| |by rewrite H].
  destruct H as (stack & -> & _). done.
Qed.
End search.
