(* ===== verification/DeviceTreeProps.v ===== *)
(** * The device tree parser: what it accepts, and what it returns *)
From Stdlib Require Import String.
From S2P Require Import Prelude Memory Machine Pmm PmmProps Strings HostMmu Cpio Fdt BootLoader.
From S2P Require Import LayoutSpec PatchSpec PatchSim PatchTree BootLoaderProps DeviceTree.
From S2P Require Import DeviceTreeSpec ParseSpec ParseTree.

(** ** Validation always ends *)

(** A run that returns or panics, and changes nothing. *)
Definition returns_or_panics {A} (m : M machine A) (s : machine) : Prop :=
  (∃ a, m s = Done a s) ∨ ∃ msg, m s = Stop (Panic msg) s.

Lemma rp_panic {A} msg s : returns_or_panics (HvPanic (A := A) msg) s.
Proof. right. by exists msg. Qed.
Lemma rp_ret {A} (a : A) s : returns_or_panics (mret a) s.
Proof. left. by exists a. Qed.
Lemma rp_gets {A B} (f : machine → A) (k : A → M machine B) s : returns_or_panics (k (f s)) s → returns_or_panics (gets f ≫= k) s.
Proof. done. Qed.
#[local] Hint Resolve rp_panic rp_ret : core.

(** One pass: it panics, or moves on by four bytes at least, or is at the end. *)
Lemma validate_step_moves structEnd strings sz v s : 0 ≤ v_cursor v → structEnd < 2 ^ 63 →
  (∃ msg, validate_step structEnd strings sz v s = Stop (Panic msg) s) ∨
  (∃ v', validate_step structEnd strings sz v s = Done (inl v') s ∧ v_cursor v + 4 ≤ v_cursor v' ∧ v_cursor v < structEnd) ∨
  (validate_step structEnd strings sz v s = Done (inr v) s ∧ structEnd ≤ v_cursor v).
Proof.
  intros H0 He. unfold validate_step, ld_be32, ld_strnlen, HvPanic. case_decide; [|by right; right; split; [|lia]].
  case_decide; [by left; eexists|]. rewrite gets_bind. cbv beta. destruct (v_ended v); [by left; eexists|].
  case_decide.
  { rewrite gets_bind. cbv beta zeta. case_decide; [by left; eexists|]. case_decide; [by left; eexists|]. right. left.
    eexists. split; [done|]. cbn [v_cursor]. split; [|done].
    pose proof (strnlen_bounds (mc_mem s) (Z.to_nat (structEnd - (v_cursor v + 4))) (v_cursor v + 4)).
    rewrite FdtAlign_up4 by lia. pose proof (up4_bounds (v_cursor v + 4 + strnlen (mc_mem s) (v_cursor v + 4) (Z.to_nat (structEnd - (v_cursor v + 4))) + 1 + 0)). lia. }
  case_decide.
  { case_decide; [by left; eexists|]. right. left. eexists. split; [done|]. cbn [v_cursor]. lia. }
  case_decide.
  { case_decide; [by left; eexists|]. rewrite !gets_bind. cbv beta. case_decide; [by left; eexists|].
    rewrite gets_bind. cbv beta zeta. case_decide; [by left; eexists|]. case_decide; [by left; eexists|].
    right. left. eexists. split; [done|]. cbn [v_cursor]. split; [|done].
    pose proof (Z.mod_pos_bound (8 + Z.land (u32 (be32 (mc_mem s) (v_cursor v + 4) + 3)) (2 ^ 32 - 1 - 3)) (2 ^ 32)). unfold u32 at 1. lia. }
  case_decide; [right; left; eexists; split; [done|]; cbn [v_cursor]; lia|].
  case_decide; [|by left; eexists]. case_decide; [by left; eexists|]. right. left. eexists. split; [done|]. cbn [v_cursor]. lia.
Qed.

Lemma validate_loop_ends structEnd strings sz s : structEnd < 2 ^ 63 → ∀ n v, 0 ≤ v_cursor v →
  Z.max 0 (structEnd - v_cursor v) < Z.of_nat n → returns_or_panics (loop n (validate_step structEnd strings sz) v) s.
Proof.
  intros He. induction n as [|n IH]; intros v H0 Hn; [lia|]. unfold returns_or_panics. cbn [loop].
  destruct (validate_step_moves structEnd strings sz v s H0 He) as [[msg ->]|[(v' & -> & Hm & Hlt)|[-> Hge]]]; [by eauto| |by eauto].
  apply IH; lia.
Qed.

Lemma rp_bind {A B} (m : M machine A) (k : A → M machine B) s :
  returns_or_panics m s → (∀ a, returns_or_panics (k a) s) → returns_or_panics (m ≫= k) s.
Proof.
  intros [[a E]|[msg E]] Hk; unfold returns_or_panics.
  - rewrite (bind_done _ _ _ _ _ E). apply Hk.
  - rewrite (bind_stop _ _ _ _ _ E). eauto.
Qed.

(** [validateHeader] ends on any bytes at any address, whatever the header claims: it
    returns or panics, and writes nothing. *)
Lemma validateHeader_ends dtb s (Hdtb : 0 ≤ dtb < 2 ^ 62) : returns_or_panics (validateHeader dtb) s.
Proof.
  unfold validateHeader, ld_be32. case_decide; [auto|]. do 7 (apply rp_gets; cbv beta).
  case_match; [auto|]. cbv zeta. pose proof (be32_range (mc_mem s) (fh_structOff dtb)).
  pose proof (be32_range (mc_mem s) (fh_sizeStructs dtb)). pose proof (Z.mod_pos_bound (dtb + be32 (mc_mem s) (fh_structOff dtb)) (2 ^ 64)).
  assert (dtb ⊞ be32 (mc_mem s) (fh_structOff dtb) = dtb + be32 (mc_mem s) (fh_structOff dtb)) as E by (apply Z.mod_small; lia).
  apply rp_bind; [|intros v; case_match; auto].
  apply validate_loop_ends; cbn [v_cursor]; rewrite ?E; lia.
Qed.

Lemma validateHeader_ends_witness : returns_or_panics (validateHeader 0x4f9f0000) guest_machine.
Proof. apply validateHeader_ends. split; [discriminate|reflexivity]. Defined.

(** ** A board's tree *)

(** Encoded the way the compiler does. *)
Definition pad4 (l : list Z) : list Z := l ++ replicate (Z.to_nat ((- Z.of_nat (List.length l)) mod 4)) 0.
Definition node_bytes (name : string) (body : list Z) : list Z := be4 1 ++ pad4 (lit name) ++ body ++ be4 2.
Definition prop_bytes (nameOff : Z) (val : list Z) : list Z := be4 3 ++ be4 (Z.of_nat (List.length val)) ++ be4 nameOff ++ pad4 val.
Definition blob_bytes (structOff : Z) (structs strings : list Z) : list Z :=
  let structSize := Z.of_nat (List.length structs) in let stringsSize := Z.of_nat (List.length strings) in
  be4 FDT_MAGIC ++ be4 (structOff + structSize + stringsSize) ++ be4 structOff ++ be4 (structOff + structSize) ++
  be4 40 ++ be4 17 ++ be4 16 ++ be4 0 ++ be4 stringsSize ++ be4 structSize ++ replicate (Z.to_nat (structOff - 40)) 0 ++
  structs ++ strings.

Definition board_strings : list Z :=
  lit "reg" ++ lit "compatible" ++ lit "ranges" ++ lit "#address-cells" ++ lit "#size-cells" ++
  lit "linux,initrd-start" ++ lit "linux,initrd-end".
Definition board_struct : list Z :=
  node_bytes "" (
    prop_bytes 22 (be4 2) ++ prop_bytes 37 (be4 1) ++
    node_bytes "memory@0" (prop_bytes 0 (be4 0 ++ be4 0x40000000 ++ be4 0 ++ be4 0x80000000)) ++
    node_bytes "reserved-memory" (node_bytes "atf" (prop_bytes 0 (be4 0 ++ be4 0x40000000 ++ be4 0 ++ be4 0x80000))) ++
    node_bytes "chosen" (prop_bytes 49 (be4 0x48000000) ++ prop_bytes 68 (be4 0x48100000)) ++
    node_bytes "soc" (
      prop_bytes 22 (be4 1) ++ prop_bytes 37 (be4 1) ++
      prop_bytes 15 (be4 0x7e000000 ++ be4 0 ++ be4 0xfe000000 ++ be4 0x1800000) ++
      node_bytes "serial@7e201000" (prop_bytes 4 (lit "arm,pl011") ++ prop_bytes 0 (be4 0x7e201000 ++ be4 0x200)))) ++
  be4 9.
Definition board_dtb : list Z := blob_bytes 56 board_struct board_strings.
Definition board_machine : machine := set_mem (put 0x44000000 board_dtb) pool1.
Definition board_tree : tree :=
  match blob_tokens (mc_mem board_machine) 0x44000000 with
  | Some [TBegin n0; TProp p0; TProp p1; TBegin n1; TProp p2; TEnd; TBegin n2; TBegin n3; TProp p3; TEnd; TEnd;
          TBegin n4; TProp p4; TProp p5; TEnd; TBegin n5; TProp p6; TProp p7; TProp p8; TBegin n6; TProp p9; TProp p10; TEnd; TEnd; TEnd; TStop] =>
      DtNode n0 [p0; p1] [DtNode n1 [p2] []; DtNode n2 [] [DtNode n3 [p3] []]; DtNode n4 [p4; p5] [];
        DtNode n5 [p6; p7; p8] [DtNode n6 [p9; p10] []]]
  | _ => DtNode [] [] []
  end.

Lemma board_tokens : blob_tokens (mc_mem board_machine) 0x44000000 = Some (flatten board_tree ++ [TStop]).
Proof. vm_compute. reflexivity. Qed.
Lemma board_valid : blob_valid (mc_mem board_machine) 0x44000000.
Proof. split; [split_and!|]; vm_compute; (reflexivity || discriminate). Qed.

(** ** Validation is exact *)

(** C31: on a device tree that starts and whose structure block starts on a word, [validateHeader]
    accepts exactly the valid blobs: the magic number, both blocks inside the blob, and a
    structure block of whole known tokens, with terminated names, nested at most [MAX_DEPTH] deep
    and properly, with one end token, the last. It panics on all others, and writes nothing. *)
Theorem validateHeader_exact dtb s (Hdtb : 0 < dtb < 2 ^ 62) (Hal : dtb mod 4 = 0)
    (Hsal : be32 (mc_mem s) (fh_structOff dtb) mod 4 = 0) :
  (validateHeader dtb s = Done tt s ↔ blob_valid (mc_mem s) dtb) ∧
  ((∃ msg, validateHeader dtb s = Stop (Panic msg) s) ↔ ¬ blob_valid (mc_mem s) dtb).
Proof.
  destruct (validateHeader_spec dtb s Hdtb Hal Hsal) as [[Hv E]|[Hv [msg E]]]; rewrite E; split; split; try done.
  - by intros [? ?].
  - eauto.
Qed.

Lemma validateHeader_exact_witness : validateHeader 0x44000000 board_machine = Done tt board_machine.
Proof. apply validateHeader_exact; [by split|vm_compute; reflexivity|vm_compute; reflexivity|apply board_valid]. Defined.

(** ** The memory map *)

(** C32: [ParseMemoryMap] with as much fuel as the structure block is long returns or panics, whatever
    the blob; it panics on an invalid one; and on a valid one that encodes a tree it returns the
    map the tree says - RAM from the first [reg] below /memory*, the firmware from the last below
    /reserved-memory/{atf,bl31,...}, the archive from /chosen when both ends are there and in
    order - or panics when the tree has no memory. *)
Theorem ParseMemoryMap_correct dtb s fuel (Hdtb : 0 < dtb < 2 ^ 62) (Hal : dtb mod 4 = 0)
    (Hsal : be32 (mc_mem s) (fh_structOff dtb) mod 4 = 0)
    (Hfuel : (S (Z.to_nat (be32 (mc_mem s) (fh_sizeStructs dtb))) ≤ fuel)%nat) :
  returns_or_panics (ParseMemoryMap dtb fuel) s ∧
  (¬ blob_valid (mc_mem s) dtb → ∃ msg, ParseMemoryMap dtb fuel s = Stop (Panic msg) s) ∧
  (∀ t, blob_valid (mc_mem s) dtb → blob_tokens (mc_mem s) dtb = Some (flatten t ++ [TStop]) →
    ParseMemoryMap dtb fuel s = match ram_reg t with
      | Some _ => Done (map_of (mc_mem s) dtb t) s
      | None => Stop (Panic "[ERROR][DTB] memory is missing") s
      end).
Proof.
  destruct (validateHeader_spec dtb s Hdtb Hal Hsal) as [[Hv _]|[Hv [msg E]]].
  - destruct (ParseMemoryMap_spec dtb s fuel Hdtb Hal Hsal Hfuel Hv) as (ts & Ets & Hnest & E).
    split; [|split; [done|]].
    + unfold returns_or_panics. rewrite E. apply parsed_map_ends. done.
    + intros t _ Et. rewrite Et in Ets. injection Ets as <-. rewrite E. by apply parsed_tree.
  - unfold returns_or_panics. assert (ParseMemoryMap dtb fuel s = Stop (Panic msg) s) as -> by (unfold ParseMemoryMap; by apply bind_stop).
    split_and!; [eauto|eauto|done].
Qed.

Lemma ParseMemoryMap_correct_witness :
  ParseMemoryMap 0x44000000 1000 board_machine =
    Done (MkMemoryMap 0x40000000 0x80000000 0x40000000 0x80000 0x44000000 (Z.of_nat (List.length board_dtb)) 0x48000000 0x100000) board_machine.
Proof.
  rewrite (proj2 (proj2 (ParseMemoryMap_correct 0x44000000 board_machine 1000 ltac:(by split) ltac:(vm_compute; reflexivity)
    ltac:(vm_compute; reflexivity) ltac:(vm_compute; repeat constructor))) board_tree board_valid board_tokens).
  vm_compute. reflexivity.
Defined.

(** ** Devices *)



(** ** Two limits of the validator *)

(** Its walk aligns what follows a property relative to the property; the parsers align the
    address. On a structure block that is not on a word they part, after it has accepted. *)
Definition unaligned_struct : list Z := prop_bytes 0 [0; 0; 0; 0] ++ be4 9.
Definition unaligned_machine : machine := set_mem (put 0x44000000 (blob_bytes 57 unaligned_struct board_strings)) pool1.
Lemma unaligned_struct_misread :
  (∃ s, validateHeader 0x44000000 unaligned_machine = Done tt s) ∧
  (∃ s, ParseMemoryMap 0x44000000 1000 unaligned_machine = Stop (Panic "[ERROR][DTB] invalid structure token") s).
Proof. split; eexists; vm_compute; reflexivity. Qed.

(** The stride of an entry is a 32-bit product: cell counts that overflow it give a small stride,
    and an entry whose cells lie outside the property. *)
Lemma stride_overflow_reads_outside m data :
  translate m [no_level; MkBusLevel (2 ^ 30) 1 (MkSpan data 1) false no_span] 2 0 = None.
Proof. vm_compute. reflexivity. Qed.
