(* ===== verification/Mmio.v ===== *)
(** * Device registers (lib/mmio/mmio.h) and the CPU registers the drivers use

    What a device does with an access is not in the program: a world of devices [D] and a
    [Bus] on it are parameters. The log keeps every access in order, with the value read or
    written. *)
From S2P Require Import Prelude.

(** CPU registers whose value the hardware changes, or that only the hardware reads. *)
Inductive cpureg : Set :=
  | CNTFRQ_EL0 | CNTVCT_EL0 | CNTHP_TVAL_EL2 | CNTHP_CTL_EL2
  | ESR_EL2 | ELR_EL2 | FAR_EL2 | SPSR_EL2 | HPFAR_EL2.
#[export] Instance cpureg_eq_dec : EqDecision cpureg.
Proof. solve_decision. Defined.

(** An access is some bytes wide. *)
Class Bus (D : Type) := {
  bus_read : Z → Z → D → Z * D;
  bus_write : Z → Z → Z → D → D;
  bus_mrs : cpureg → D → Z * D;
  bus_msr : cpureg → Z → D → D;
}.

Inductive access : Set :=
  | Rd (width addr val : Z)
  | Wr (width addr val : Z)
  | Mrs (r : cpureg) (val : Z)
  | Msr (r : cpureg) (val : Z)
  | Isb.
#[export] Instance access_eq_dec : EqDecision access.
Proof. solve_decision. Defined.

Record io (D : Type) : Type := MkIo {
  io_dev : D;
  io_log : list access;   (** what was done, oldest first *)
}.
Arguments MkIo {D} io_dev io_log.
Arguments io_dev {D} i.
Arguments io_log {D} i.

(** A loop over [uint32_t i], from [i] on while below [stop_]. *)
Fixpoint for_lt {S} (fuel : nat) (i stop_ step : Z) (body : Z → M S unit) : M S unit :=
  match fuel with
  | O => stop OutOfFuel
  | Datatypes.S n => if decide (i < stop_) then body i;; for_lt n (u32 (i + step)) stop_ step body else mret tt
  end.

Section mmio.
Context {D : Type} `{Bus D}.

Definition Read (width addr : Z) : M (io D) Z := λ s,
  let '(v, d) := bus_read width addr (io_dev s) in
  let v := v mod 2 ^ (8 * width) in
  Done v (MkIo d (io_log s ++ [Rd width addr v])).

(** One write, on the state. *)
Definition put_one (w : Z * Z * Z) (s : io D) : io D :=
  let '(width, addr, v) := w in
  MkIo (bus_write width addr v (io_dev s)) (io_log s ++ [Wr width addr v]).
Definition Write (width addr v : Z) : M (io D) unit := modify (put_one (width, addr, v mod 2 ^ (8 * width))).

(** At an offset from a frame's base. *)
Definition ReadAt (width base off : Z) : M (io D) Z := Read width (base ⊞ off).
Definition WriteAt (width base off v : Z) : M (io D) unit := Write width (base ⊞ off) v.

(** [mrs] and [msr]. *)
Definition mrs_cpu (r : cpureg) : M (io D) Z := λ s,
  let '(v, d) := bus_mrs r (io_dev s) in
  let v := u64 v in
  Done v (MkIo d (io_log s ++ [Mrs r v])).
Definition msr_cpu (r : cpureg) (v : Z) : M (io D) unit := λ s,
  Done tt (MkIo (bus_msr r v (io_dev s)) (io_log s ++ [Msr r v])).
Definition isb : M (io D) unit := modify (λ s, MkIo (io_dev s) (io_log s ++ [Isb])).

(** ** Runs that only write *)

Definition put_all (l : list (Z * Z * Z)) (s : io D) : io D := foldl (λ s w, put_one w s) s l.

Lemma put_all_app l1 l2 s : put_all (l1 ++ l2) s = put_all l2 (put_all l1 s).
Proof. apply foldl_app. Qed.

Definition write_of (w : Z * Z * Z) : access := let '(width, addr, v) := w in Wr width addr v.

Lemma put_all_log l s : io_log (put_all l s) = io_log s ++ map write_of l.
Proof.
  revert s. induction l as [|[[w a] v] l IH]; intros s; cbn [put_all foldl map]; [by rewrite app_nil_r|].
  etrans; [apply IH|]. cbn [put_one io_log write_of]. by rewrite <-app_assoc.
Qed.

(** [m] returns after exactly these writes. *)
Definition puts (m : M (io D) unit) (l : list (Z * Z * Z)) : Prop := ∀ s, m s = Done tt (put_all l s).

Lemma puts_write width addr v : puts (Write width addr v) [(width, addr, v mod 2 ^ (8 * width))].
Proof. done. Qed.
Lemma puts_ret : puts (mret tt) [].
Proof. done. Qed.
Lemma puts_bind m k l1 l2 : puts m l1 → puts k l2 → puts (m;; k) (l1 ++ l2).
Proof. intros Hm Hk s. unfold mbind, M_bind. by rewrite Hm, Hk, put_all_app. Qed.
Lemma puts_then {A} m l (k : unit → M (io D) A) s : puts m l → (m ≫= k) s = k tt (put_all l s).
Proof. intros Hm. unfold mbind, M_bind. by rewrite Hm. Qed.

(** The values of a loop variable. *)
Fixpoint upto (n : nat) (i stop_ step : Z) : list Z :=
  match n with
  | O => []
  | S n' => if decide (i < stop_) then i :: upto n' (i + step) stop_ step else []
  end.

Lemma elem_upto x step : 0 < step → ∀ n i stop_, stop_ - i ≤ Z.of_nat n * step →
  x ∈ upto n i stop_ step ↔ i ≤ x < stop_ ∧ (x - i) mod step = 0.
Proof.
  intros Hs. induction n as [|n IH]; intros i stop_ Hn; cbn [upto].
  - split; [by intros ?%elem_of_nil|intros [? _]; lia].
  - case_decide as Hlt; [|split; [by intros ?%elem_of_nil|intros [? _]; lia]].
    rewrite elem_of_cons, IH by lia. replace (x - (i + step)) with (x - i + (-1) * step) by lia.
    rewrite Z.mod_add by lia. split.
    + intros [-> |[? ?]]; [|lia]. rewrite Z.sub_diag. by rewrite Z.mod_0_l by lia.
    + intros [[H0 H1] Hm]. destruct (decide (x = i)) as [-> |Hne]; [by left|right]. split; [|done].
      apply Z.mod_divide in Hm as [q Hq]; [|lia]. assert (q ≠ 0) by (intros ->; lia). nia.
Qed.

Lemma puts_for body f step stop_ : 0 < step → stop_ + step < 2 ^ 32 → (∀ i, 0 ≤ i < stop_ → puts (body i) (f i)) →
  ∀ n i fuel, 0 ≤ i → stop_ - i ≤ Z.of_nat n * step → (n < fuel)%nat →
  puts (for_lt fuel i stop_ step body) (flat_map f (upto n i stop_ step)).
Proof.
  intros Hs Hb Hbody. induction n as [|n IH]; intros i [|fuel] Hi Hn Hf s; try lia; cbn [for_lt upto].
  - rewrite decide_False by lia. done.
  - case_decide as Hlt; [|done]. rewrite (puts_then _ _ _ _ (Hbody i (conj Hi Hlt))).
    unfold u32. rewrite Z.mod_small by lia. rewrite IH by lia. cbn [flat_map]. by rewrite put_all_app.
Qed.
End mmio.

(** A board that keeps what is written: a device world to run the drivers on. *)
Definition regfile : Type := gmap Z Z * (cpureg → Z).
#[export] Instance regfile_bus : Bus regfile := {|
    bus_read _ a d := (default 0 (d.1 !! a), d);
    bus_write _ a v d := (<[a := v]> d.1, d.2);
    bus_mrs r d := (d.2 r, d);
    bus_msr r v d := (d.1, <[r := v]> d.2);
  |}.
