(* ===== verification/Uart.v ===== *)
(** * The PL011 console (drivers/uart) *)
From Stdlib Require Import String.
From S2P Require Import Prelude Cpio Mmio.

(** [UART_REG] *)
Definition DR : Z := 0x00.
Definition FR : Z := 0x18.
Definition CR : Z := 0x30.
Definition ICR : Z := 0x44.

(** The constants the build generates from the board's device tree, and its configuration. *)
Class Board := {
  BSP_UART_BASE : Z;
  BSP_UART_SIZE : Z;
  BSP_GIC_DISTRIBUTOR_BASE : Z;
  BSP_GIC_DISTRIBUTOR_SIZE : Z;
  BSP_GIC_CPU_BASE : Z;
  BSP_GIC_CPU_SIZE : Z;
  BSP_GIC_HV_BASE : Z;
  BSP_GIC_HV_SIZE : Z;
  BSP_GIC_VCPU_BASE : Z;
  BSP_GIC_VCPU_SIZE : Z;
  NDEBUG : bool;
}.

(** Class [Uart]. *)
Record Uart : Set := MkUart { uart_base : Z }.

Section uart.
Context {D : Type} `{Bus D} `{Board}.

Definition configure (u : Uart) : M (io D) unit :=
  WriteAt 4 (uart_base u) ICR 0x7FF;;
  WriteAt 4 (uart_base u) CR (Z.lor (Z.lor (1 ≪ 0) (1 ≪ 8)) (1 ≪ 9)).

Definition FR_TXFF : Z := 1 ≪ 5.

(** The spin has no bound of its own. *)
Definition Putc (fuel : nat) (u : Uart) (ch : Z) : M (io D) unit :=
  loop fuel (λ _ : unit,
    fr ← ReadAt 4 (uart_base u) FR;
    mret (if decide (Z.land fr FR_TXFF ≠ 0) then inl tt else inr tt)) tt;;
  WriteAt 4 (uart_base u) DR (u8 ch).

(** [for (const char* msg { ... }; *msg != '\0'; ++msg) Putc( *msg)] *)
Fixpoint put_string (fuel : nat) (u : Uart) (text : list Z) : M (io D) unit :=
  match text with
  | [] => mret tt
  | ch :: text' => Putc fuel u ch;; put_string fuel u text'
  end.
Definition greeting : list Z := str "[UART] UART intialized" ++ [13; 10].

Definition Uart_new (fuel : nat) : M (io D) Uart :=
  let u := MkUart BSP_UART_BASE in
  configure u;;
  when (negb NDEBUG) (put_string fuel u greeting);;
  mret u.

Definition SetBase (base : Z) (u : Uart) : M (io D) Uart :=
  if decide (base = uart_base u) then mret u
  else
    let u := MkUart base in
    configure u;;
    mret u.

Definition Uart_GetBase (u : Uart) : Z := uart_base u.

(** ** Sending *)

(** The device takes what is sent: whatever state it is in, fewer than [n] more reads of the
    flag register find room. *)
Fixpoint drains (base : Z) (n : nat) (d : D) : Prop :=
  match n with
  | O => False
  | S n' => let '(v, d') := bus_read 4 (base ⊞ FR) d in
      Z.land (v mod 2 ^ 32) FR_TXFF = 0 ∨ drains base n' d'
  end.

(** The accesses of a device world at the data register. *)
Definition sent (base : Z) (l : list access) : list Z :=
  omap (λ a, match a with Wr _ addr v => if decide (addr = base ⊞ DR) then Some v else None | _ => None end) l.

Lemma sent_app base l1 l2 : sent base (l1 ++ l2) = sent base l1 ++ sent base l2.
Proof. apply omap_app. Qed.

(** Reads of the flag register only. *)
Definition polls (base : Z) (l : list access) : Prop := Forall (λ a, ∃ v, a = Rd 4 (base ⊞ FR) v) l.

Lemma polls_sent base l : polls base l → sent base l = [].
Proof. induction 1 as [|a l [v ->] _ IH]; [done|]. apply IH. Qed.

Lemma Putc_spec n : ∀ fuel u ch s, drains (uart_base u) n (io_dev s) → (n ≤ fuel)%nat →
  runs (Putc fuel u ch) s (λ _ s', ∃ l, polls (uart_base u) l ∧ io_log s' = io_log s ++ l ++ [Wr 4 (uart_base u ⊞ DR) (u8 ch)]).
Proof.
  intros fuel u ch s Hd Hf. apply runs_bind.
  apply (runs_mono _ _ (λ _ s', ∃ l, polls (uart_base u) l ∧ io_log s' = io_log s ++ l)).
  - revert fuel s Hd Hf. induction n as [|n IH]; intros [|fuel] s Hd Hf; try done; [lia|]. cbn [drains] in Hd.
    apply runs_loop_S. unfold runs, mbind, M_bind, ReadAt, Read. destruct (bus_read 4 (uart_base u ⊞ FR) (io_dev s)) as [v d].
    change (8 * 4) with 32. cbn [mret M_ret]. destruct (decide (Z.land (v mod 2 ^ 32) FR_TXFF = 0)) as [E|E].
    + rewrite decide_False by tauto. cbn. eexists [_]. split; [by constructor; [eexists|]|done].
    + rewrite decide_True by done. destruct Hd as [Hd|Hd]; [done|]. eapply runs_mono; [apply IH; [exact Hd|lia]|].
      cbn [io_log]. intros _ s' (l & Hl & ->). eexists (_ :: l). split; [constructor; [by eexists|done]|]. by rewrite <-app_assoc.
  - intros [] s' (l & Hl & E). unfold runs, WriteAt, Write, modify. exists l. split; [done|]. cbn [put_one io_log].
    rewrite E, <-app_assoc. do 3 f_equal. unfold u8. rewrite Z.mod_small; [done|]. pose proof (Z.mod_pos_bound ch (2 ^ 8)). lia.
Qed.
End uart.
