(* ===== verification/Gic.v ===== *)
(** * The interrupt controller (drivers/gic)

    The driver object is a record; the operations that change it return it. *)
From S2P Require Import Prelude Mmio Uart.

(** ** Register offsets *)

Definition Dist_CTLR : Z := 0x000.
Definition Dist_TYPER : Z := 0x004.
Definition Dist_IGROUPR : Z := 0x080.
Definition Dist_ISENABLER : Z := 0x100.
Definition Dist_ICENABLER : Z := 0x180.
Definition Dist_IPRIORITYR : Z := 0x400.
Definition Dist_ITARGETSR : Z := 0x800.
Definition Dist_ICFGR : Z := 0xC00.
Definition Dist_ICPENDR : Z := 0x280.
Definition Dist_ICACTIVER : Z := 0x380.
Definition Dist_CTLR_GRPEN1 : Z := 1 ≪ 0.

Definition Cpu_CTLR : Z := 0x000.
Definition Cpu_PMR : Z := 0x004.
Definition Cpu_IAR : Z := 0x00C.
Definition Cpu_EOIR : Z := 0x010.
Definition Cpu_BPR : Z := 0x008.
Definition Cpu_CTLR_GRPEN1 : Z := 1 ≪ 0.
Definition Cpu_CTLR_EOIMODE : Z := 1 ≪ 9.

Definition Hv_HCR : Z := 0x000.
Definition Hv_VTR : Z := 0x004.
Definition Hv_VMCR : Z := 0x008.
Definition Hv_LR0 : Z := 0x100.
Definition Hv_APR : Z := 0x0F0.
Definition Hv_HCR_EN : Z := 1 ≪ 0.
Definition Hv_HCR_UIE : Z := 1 ≪ 1.
Definition Hv_LR_PENDING : Z := 1 ≪ 28.
Definition Hv_LR_ACTIVE : Z := 1 ≪ 29.
Definition Hv_LR_HW : Z := 1 ≪ 31.
Definition Hv_LR_PHYS_SHIFT : Z := 10.
Definition Hv_VMCR_EN0 : Z := 1 ≪ 0.
Definition Hv_VMCR_PMR_SHIFT : Z := 27.
Definition Hv_ELSR0 : Z := 0x030.
Definition Hv_ELSR1 : Z := 0x034.

(** ** The driver *)

(** Which register frame an offset is measured from. *)
Inductive Frame : Set := DIST | CPU | HV | VCPU.

Record Gic : Set := MkGic {
  m_distBase : Z;
  m_cpuBase : Z;
  m_hvBase : Z;
  m_vcpuBase : Z;
  m_numLr : Z;
}.
Definition set_numLr (n : Z) (g : Gic) : Gic := MkGic (m_distBase g) (m_cpuBase g) (m_hvBase g) (m_vcpuBase g) n.

Record IrqAck : Set := MkIrqAck { iar : Z; ack_id : Z }.

Definition getFrameBase (g : Gic) (f : Frame) : Z :=
  match f with
  | DIST => m_distBase g
  | CPU => m_cpuBase g
  | HV => m_hvBase g
  | VCPU => m_vcpuBase g
  end.

Definition GetDistBase (g : Gic) : Z := m_distBase g.
Definition GetHvBase (g : Gic) : Z := m_hvBase g.
Definition GetVcpuBase (g : Gic) : Z := m_vcpuBase g.

Section gic.
Context {D : Type} `{Bus D} `{Board}.

(** A loop over the list registers. *)
Definition clear_lrs (g : Gic) : M (io D) unit :=
  for_lt (S (Z.to_nat (m_numLr g))) 0 (m_numLr g) 1 (λ i, WriteAt 4 (getFrameBase g HV) (Hv_LR0 + u32 (i * 4)) 0).

Definition cpuInit (g : Gic) : M (io D) Gic :=
  vtr ← ReadAt 4 (getFrameBase g HV) Hv_VTR;
  let g := set_numLr (Z.land vtr 0x3F + 1) g in
  WriteAt 4 (getFrameBase g CPU) Cpu_CTLR (Z.lor Cpu_CTLR_GRPEN1 Cpu_CTLR_EOIMODE);;
  WriteAt 4 (getFrameBase g CPU) Cpu_PMR 0xFF;;
  WriteAt 4 (getFrameBase g CPU) Cpu_BPR 0x0;;
  let vmcr := Z.lor Hv_VMCR_EN0 (u32 ((0xFF ≫ 3) ≪ Hv_VMCR_PMR_SHIFT)) in
  WriteAt 4 (getFrameBase g HV) Hv_VMCR vmcr;;
  WriteAt 4 (getFrameBase g HV) Hv_HCR Hv_HCR_EN;;
  clear_lrs g;;
  WriteAt 4 (getFrameBase g HV) Hv_APR 0;;
  mret g.

Definition CpuReset (g : Gic) : M (io D) unit :=
  clear_lrs g;;
  WriteAt 4 (getFrameBase g HV) Hv_APR 0;;
  WriteAt 4 (getFrameBase g HV) Hv_VMCR 0.

Definition EnableIrq (g : Gic) (id : Z) : M (io D) unit :=
  let regIdx := id / 32 in
  let bitMsk := u32 (1 ≪ (id mod 32)) in
  WriteAt 4 (getFrameBase g DIST) (Dist_ISENABLER + u32 (regIdx * 4)) bitMsk.

Definition DisableIrq (g : Gic) (id : Z) : M (io D) unit :=
  let regIdx := id / 32 in
  let bitMsk := u32 (1 ≪ (id mod 32)) in
  WriteAt 4 (getFrameBase g DIST) (Dist_ICENABLER + u32 (regIdx * 4)) bitMsk.

Definition AckIrq (g : Gic) : M (io D) IrqAck :=
  v ← ReadAt 4 (getFrameBase g CPU) Cpu_IAR;
  mret (MkIrqAck v (Z.land v 0x3FF)).

Definition EndIrq (g : Gic) (irq : IrqAck) : M (io D) unit :=
  WriteAt 4 (getFrameBase g CPU) Cpu_EOIR (iar irq).

(** One pass of the search; the loop variables are [i] and [freeLr]. [None] returns -1. *)
Definition inject_step (g : Gic) (virtId elsr0 elsr1 : Z) (v : Z * Z) : M (io D) (Z * Z + option Z) :=
  let '(i, freeLr) := v in
  if decide (i < m_numLr g) then
    let elsr := if decide (i < 32) then elsr0 else elsr1 in
    let bit := i mod 32 in
    lrVal ← ReadAt 4 (getFrameBase g HV) (Hv_LR0 + u32 (i * 4));
    if decide (Z.land lrVal 0x3FF = virtId) then mret (inr None)
    else if decide (Z.land (elsr ≫ bit) 1 ≠ 0) then
      mret (inl (u32 (i + 1), if decide (freeLr = -1) then i else freeLr))
    else mret (inl (u32 (i + 1), freeLr))
  else mret (inr (Some freeLr)).

(** The list register that presents [virtId], backed by the physical interrupt [id]. *)
Definition lr_entry (virtId id : Z) : Z :=
  Z.lor (Z.lor (Z.lor (Z.land virtId 0x3FF) Hv_LR_PENDING) Hv_LR_HW) (u32 (Z.land id 0x3FF ≪ Hv_LR_PHYS_SHIFT)).

Definition InjectIrq (g : Gic) (virtId id : Z) : M (io D) Z :=
  elsr0 ← ReadAt 4 (getFrameBase g HV) Hv_ELSR0;
  elsr1 ← ReadAt 4 (getFrameBase g HV) Hv_ELSR1;
  r ← loop (S (Z.to_nat (m_numLr g))) (inject_step g virtId elsr0 elsr1) (0, -1);
  match r with
  | None => mret (-1)
  | Some freeLr =>
      if decide (freeLr = -1) then mret (-1)
      else
        WriteAt 4 (getFrameBase g HV) (Hv_LR0 + u32 (freeLr * 4)) (lr_entry virtId id);;
        mret 0
  end.

Definition pending_step (g : Gic) (i : Z) : M (io D) (Z + bool) :=
  if decide (i < m_numLr g) then
    lrVal ← ReadAt 4 (getFrameBase g HV) (Hv_LR0 + u32 (i * 4));
    mret (if decide (Z.land lrVal Hv_LR_PENDING ≠ 0) then inr true else inl (u32 (i + 1)))
  else mret (inr false).

Definition HasPendingIrq (g : Gic) : M (io D) bool :=
  loop (S (Z.to_nat (m_numLr g))) (pending_step g) 0.

Definition EnableMainIrq (g : Gic) (isEnable : bool) : M (io D) unit :=
  hcr ← ReadAt 4 (getFrameBase g HV) Hv_HCR;
  WriteAt 4 (getFrameBase g HV) Hv_HCR
    (if isEnable then Z.lor hcr Hv_HCR_UIE else Z.land hcr (2 ^ 32 - 1 - Hv_HCR_UIE)).

Definition SetPriorityLevel (g : Gic) (id priority : Z) : M (io D) unit :=
  WriteAt 1 (m_distBase g) (Dist_IPRIORITYR ⊞ id) priority.

(** Grouping, disabling and clearing 32 interrupts. *)
Definition reset_lines (g : Gic) (i : Z) : M (io D) unit :=
  WriteAt 4 (getFrameBase g DIST) (Dist_IGROUPR + u32 (i * 4)) 0xFFFFFFFF;;
  WriteAt 4 (getFrameBase g DIST) (Dist_ICENABLER + u32 (i * 4)) 0xFFFFFFFF;;
  WriteAt 4 (getFrameBase g DIST) (Dist_ICPENDR + u32 (i * 4)) 0xFFFFFFFF;;
  WriteAt 4 (getFrameBase g DIST) (Dist_ICACTIVER + u32 (i * 4)) 0xFFFFFFFF.

Definition Reset (g : Gic) : M (io D) Gic :=
  WriteAt 4 (getFrameBase g DIST) Dist_CTLR 0;;
  typer ← ReadAt 4 (getFrameBase g DIST) Dist_TYPER;
  let numOfIrqLines := Z.land typer 0x1F + 1 in
  for_lt (S (Z.to_nat numOfIrqLines)) 0 numOfIrqLines 1 (reset_lines g);;
  let numOfSpis := numOfIrqLines * 32 in
  for_lt (S (Z.to_nat numOfSpis)) 0 numOfSpis 1 (λ i, SetPriorityLevel g i 0x80);;
  for_lt (S (Z.to_nat numOfSpis)) 32 numOfSpis 4
    (λ i, WriteAt 4 (getFrameBase g DIST) (Dist_ITARGETSR + i) 0x01010101);;
  let numCfgRegs := numOfIrqLines * 2 in
  for_lt (S (Z.to_nat numCfgRegs)) 2 numCfgRegs 1
    (λ i, WriteAt 4 (getFrameBase g DIST) (Dist_ICFGR + u32 (i * 4)) 0x00000000);;
  WriteAt 4 (getFrameBase g DIST) Dist_CTLR Dist_CTLR_GRPEN1;;
  cpuInit g.

Definition Gic_new : M (io D) Gic :=
  Reset (MkGic BSP_GIC_DISTRIBUTOR_BASE BSP_GIC_CPU_BASE BSP_GIC_HV_BASE BSP_GIC_VCPU_BASE 0).

Definition SetBases (dist cpu hv vcpu : Z) (g : Gic) : M (io D) Gic :=
  if decide (dist = m_distBase g ∧ cpu = m_cpuBase g ∧ hv = m_hvBase g ∧ vcpu = m_vcpuBase g) then mret g
  else Reset (MkGic dist cpu hv vcpu (m_numLr g)).
End gic.
