(* ===== verification/Timer.v ===== *)
(** * The generic timer (drivers/timer) *)
From S2P Require Import Prelude Mmio.

(** The GIC line of the hypervisor's physical timer. *)
Definition IRQ : Z := 26.

(** Class [Timer]; a null callback is address 0. *)
Record Timer : Set := MkTimer {
  m_frequency : Z;
  m_intervalTicks : Z;
  m_lastArmTicks : Z;
  m_callback : Z;
  m_ctx : Z;
}.
Definition set_lastArm (n : Z) (t : Timer) : Timer := MkTimer (m_frequency t) (m_intervalTicks t) n (m_callback t) (m_ctx t).

Section timer.
Context {D : Type} `{Bus D}.

Definition readCntFrqEl0 : M (io D) Z := mrs_cpu CNTFRQ_EL0.
Definition readCntVctEl0 : M (io D) Z := mrs_cpu CNTVCT_EL0.
Definition writeCnthpTvalEl2 (reg : Z) : M (io D) unit := msr_cpu CNTHP_TVAL_EL2 reg.
Definition writeCnthpCtlEl2 (reg : Z) : M (io D) unit := msr_cpu CNTHP_CTL_EL2 reg;; isb.

Definition Timer_Stop (t : Timer) : M (io D) unit := writeCnthpCtlEl2 0.

Definition Timer_new : M (io D) Timer :=
  frequency ← readCntFrqEl0;
  now ← readCntVctEl0;
  let t := MkTimer frequency frequency now 0 0 in
  Timer_Stop t;;
  mret t.

Definition Timer_Start (t : Timer) : M (io D) Timer :=
  now ← readCntVctEl0;
  let t := set_lastArm now t in
  writeCnthpTvalEl2 (m_intervalTicks t);;
  writeCnthpCtlEl2 1;;
  mret t.

(** The registered function is code outside the driver: it may do anything to the devices. *)
Context (call : Z → Z → M (io D) unit).

Definition HandleIrq (t : Timer) : M (io D) Timer :=
  now ← readCntVctEl0;
  let t := set_lastArm now t in
  writeCnthpTvalEl2 (m_intervalTicks t);;
  when (bool_decide (m_callback t ≠ 0)) (call (m_callback t) (m_ctx t));;
  mret t.

Definition SetIntervalTicks (ticks : Z) (t : Timer) : Timer :=
  MkTimer (m_frequency t) ticks (m_lastArmTicks t) (m_callback t) (m_ctx t).
Definition SetCallback (cb ctx : Z) (t : Timer) : Timer :=
  MkTimer (m_frequency t) (m_intervalTicks t) (m_lastArmTicks t) cb ctx.
Definition GetFrequency (t : Timer) : Z := m_frequency t.
Definition GetRawCount : M (io D) Z := readCntVctEl0.
Definition GetElapsedTicks (t : Timer) : M (io D) Z :=
  now ← readCntVctEl0;
  mret (now ⊟ m_lastArmTicks t).
End timer.

(** ** What the operations do to the timer *)

Section spec.
Context {D : Type} `{Bus D} (call : Z → Z → M (io D) unit).

(** Arming: the time is noted, the interval loaded, and then the timer enabled. *)
Lemma Timer_Start_spec t s : ∃ now s', fits 64 now ∧ Timer_Start t s = Done (set_lastArm now t) s' ∧
  io_log s' = io_log s ++ [Mrs CNTVCT_EL0 now; Msr CNTHP_TVAL_EL2 (m_intervalTicks t); Msr CNTHP_CTL_EL2 1; Isb].
Proof.
  unfold Timer_Start, readCntVctEl0, mbind, M_bind, mrs_cpu. destruct (bus_mrs CNTVCT_EL0 (io_dev s)) as [now d].
  exists (u64 now). eexists. split; [apply Z.mod_pos_bound; lia|]. split; [reflexivity|]. cbn [io_log]. by rewrite <-!app_assoc.
Qed.

(** Each expiry reloads the interval before the callback runs, and leaves the control register
    alone: the timer goes on ticking until [Stop]. *)
Lemma HandleIrq_spec t s : ∃ now s1, fits 64 now ∧
  io_log s1 = io_log s ++ [Mrs CNTVCT_EL0 now; Msr CNTHP_TVAL_EL2 (m_intervalTicks t)] ∧
  HandleIrq call t s = match (if decide (m_callback t = 0) then mret tt else call (m_callback t) (m_ctx t)) s1 with
    | Done _ s2 => Done (set_lastArm now t) s2
    | Stop w s2 => Stop w s2
    end.
Proof.
  unfold HandleIrq, readCntVctEl0, mbind, M_bind, mrs_cpu. destruct (bus_mrs CNTVCT_EL0 (io_dev s)) as [now d].
  exists (u64 now). eexists. split; [apply Z.mod_pos_bound; lia|]. cbn [writeCnthpTvalEl2 msr_cpu set_lastArm m_callback m_intervalTicks].
  split; [|unfold when; case_decide; [rewrite bool_decide_false by tauto|rewrite bool_decide_true by done]; reflexivity].
  cbn [io_log]. by rewrite <-!app_assoc.
Qed.

(** The ticks since the last arm, as long as the counter has not wrapped past it. *)
Lemma GetElapsedTicks_spec t s now d : bus_mrs CNTVCT_EL0 (io_dev s) = (now, d) → m_lastArmTicks t ≤ now < 2 ^ 64 → 0 ≤ m_lastArmTicks t →
  runs (GetElapsedTicks t) s (λ ticks _, m_lastArmTicks t + ticks = now).
Proof.
  intros E Hn H0. unfold runs, GetElapsedTicks, readCntVctEl0, mbind, M_bind, mrs_cpu. rewrite E. cbn.
  unfold u64. rewrite (Z.mod_small now), Z.mod_small by lia. lia.
Qed.
End spec.
