(* ===== verification/GicReset.v ===== *)
(** * Bringing the interrupt controller up *)
From S2P Require Import Prelude Mmio Uart Gic.

(** ** What [Reset] writes, for the interrupt lines the distributor reports *)

Definition lines_of (typer : Z) : Z := Z.land typer 0x1F + 1.
Definition lrs_of (vtr : Z) : Z := Z.land vtr 0x3F + 1.

Section writes.
Context (g : Gic).

Definition line_writes (i : Z) : list (Z * Z * Z) :=
  map (λ reg, (4, m_distBase g ⊞ (reg + i * 4), 0xFFFFFFFF)) [Dist_IGROUPR; Dist_ICENABLER; Dist_ICPENDR; Dist_ICACTIVER].
Definition config_writes (lines : Z) : list (Z * Z * Z) :=
  flat_map line_writes (upto (Z.to_nat lines) 0 lines 1) ++
  flat_map (λ i, [(1, m_distBase g ⊞ (Dist_IPRIORITYR + i), 0x80)]) (upto (Z.to_nat (lines * 32)) 0 (lines * 32) 1) ++
  flat_map (λ i, [(4, m_distBase g ⊞ (Dist_ITARGETSR + i), 0x01010101)]) (upto (Z.to_nat (lines * 32)) 32 (lines * 32) 4) ++
  flat_map (λ i, [(4, m_distBase g ⊞ (Dist_ICFGR + i * 4), 0)]) (upto (Z.to_nat (lines * 2)) 2 (lines * 2) 1).
Definition lr_writes (n : Z) : list (Z * Z * Z) :=
  flat_map (λ i, [(4, m_hvBase g ⊞ (Hv_LR0 + i * 4), 0)]) (upto (Z.to_nat n) 0 n 1).
Definition cpu_writes (n : Z) : list (Z * Z * Z) :=
  [(4, m_cpuBase g ⊞ Cpu_CTLR, 0x201); (4, m_cpuBase g ⊞ Cpu_PMR, 0xFF); (4, m_cpuBase g ⊞ Cpu_BPR, 0);
   (4, m_hvBase g ⊞ Hv_VMCR, 0xF8000001); (4, m_hvBase g ⊞ Hv_HCR, 1)] ++
  lr_writes n ++ [(4, m_hvBase g ⊞ Hv_APR, 0)].

(** The distributor is off while its interrupts are configured. *)
Definition reset_log (typer vtr : Z) : list access :=
  [Wr 4 (m_distBase g ⊞ Dist_CTLR) 0; Rd 4 (m_distBase g ⊞ Dist_TYPER) typer] ++
  map write_of (config_writes (lines_of typer)) ++
  [Wr 4 (m_distBase g ⊞ Dist_CTLR) 1; Rd 4 (m_hvBase g ⊞ Hv_VTR) vtr] ++
  map write_of (cpu_writes (lrs_of vtr)).
End writes.

Lemma land_range x n : 0 ≤ n → 0 ≤ Z.land x (2 ^ n - 1) < 2 ^ n.
Proof. intros Hn. change (2 ^ n - 1) with (Z.pred (2 ^ n)). rewrite <-Z.ones_equiv, Z.land_ones by done. apply Z.mod_pos_bound. lia. Qed.
Lemma lines_range typer : 1 ≤ lines_of typer ≤ 32.
Proof. unfold lines_of. pose proof (land_range typer 5). change (2 ^ 5 - 1) with 0x1F in *. lia. Qed.
Lemma lrs_range vtr : 1 ≤ lrs_of vtr ≤ 64.
Proof. unfold lrs_of. pose proof (land_range vtr 6). change (2 ^ 6 - 1) with 0x3F in *. lia. Qed.

Section reset.
Context {D : Type} `{Bus D} `{Board}.

Lemma puts_at width base off v : 0 ≤ v < 2 ^ (8 * width) → puts (D := D) (WriteAt width base off v) [(width, base ⊞ off, v)].
Proof. intros Hv. unfold WriteAt. pose proof (puts_write (D := D) width (base ⊞ off) v) as P. by rewrite Z.mod_small in P by done. Qed.

Lemma puts_at4 base i reg v : 0 ≤ i < 2 ^ 30 → 0 ≤ v < 2 ^ 32 →
  puts (D := D) (WriteAt 4 base (reg + u32 (i * 4)) v) [(4, base ⊞ (reg + i * 4), v)].
Proof. intros Hi Hv. unfold u32. rewrite (Z.mod_small (i * 4)) by lia. by apply puts_at. Qed.

Lemma clear_lrs_puts g : 0 ≤ m_numLr g ≤ 64 → puts (D := D) (clear_lrs g) (lr_writes g (m_numLr g)).
Proof. intros Hn. unfold clear_lrs, lr_writes. apply puts_for; try lia. intros i Hi. by apply puts_at4; lia. Qed.

Lemma reset_lines_puts g i : 0 ≤ i < 32 → puts (D := D) (reset_lines g i) (line_writes g i).
Proof.
  intros Hi. unfold reset_lines. apply (puts_bind _ _ [_]); [by apply puts_at4; lia|].
  apply (puts_bind _ _ [_]); [by apply puts_at4; lia|]. apply (puts_bind _ _ [_]); by apply puts_at4; lia.
Qed.

Lemma CpuReset_puts g : 0 ≤ m_numLr g ≤ 64 →
  puts (D := D) (CpuReset g) (lr_writes g (m_numLr g) ++ [(4, m_hvBase g ⊞ Hv_APR, 0); (4, m_hvBase g ⊞ Hv_VMCR, 0)]).
Proof. intros Hn. unfold CpuReset. apply puts_bind; [by apply clear_lrs_puts|]. by apply (puts_bind _ _ [_] [_]); apply puts_at. Qed.

(** A read, then the rest. *)
Lemma read_then {A} width base off (k : Z → M (io D) A) s : 0 ≤ width → ∃ v d, 0 ≤ v < 2 ^ (8 * width) ∧
  (ReadAt width base off ≫= k) s = k v (MkIo d (io_log s ++ [Rd width (base ⊞ off) v])).
Proof.
  intros Hw. unfold mbind, M_bind, ReadAt, Read. destruct (bus_read width (base ⊞ off) (io_dev s)) as [v d].
  exists (v mod 2 ^ (8 * width)), d. split; [apply Z.mod_pos_bound; lia|done].
Qed.

Ltac read_step v d Hv :=
  lazymatch goal with
  | |- context [mbind ?k (ReadAt ?w ?b ?o) ?s] => destruct (read_then w b o k s) as (v & d & Hv & ->); [lia|]
  end; cbv beta zeta.

Lemma cpuInit_spec g s : ∃ vtr s', fits 32 vtr ∧ cpuInit g s = Done (set_numLr (lrs_of vtr) g) s' ∧
  io_log s' = io_log s ++ [Rd 4 (m_hvBase g ⊞ Hv_VTR) vtr] ++ map write_of (cpu_writes g (lrs_of vtr)).
Proof.
  unfold cpuInit. read_step vtr d Hv.
  exists vtr. eexists. split; [done|]. pose proof (lrs_range vtr). fold (lrs_of vtr).
  do 5 (rewrite (puts_then _ [_]) by (apply puts_at; by vm_compute)).
  rewrite (puts_then _ (lr_writes g (lrs_of vtr))) by (apply (clear_lrs_puts (set_numLr (lrs_of vtr) g)); cbn; lia).
  rewrite (puts_then _ [_]) by (by apply puts_at). split; [done|].
  rewrite <-!put_all_app, put_all_log. cbn [io_log]. rewrite <-app_assoc. done.
Qed.

Lemma Reset_spec g s : ∃ typer vtr s', fits 32 typer ∧ fits 32 vtr ∧
  Reset g s = Done (set_numLr (lrs_of vtr) g) s' ∧ io_log s' = io_log s ++ reset_log g typer vtr.
Proof.
  unfold Reset. rewrite (puts_then _ [_]) by (by apply puts_at).
  read_step typer d Ht. fold (lines_of typer).
  pose proof (lines_range typer) as Hl.
  rewrite (puts_then _ (flat_map (line_writes g) (upto (Z.to_nat (lines_of typer)) 0 (lines_of typer) 1)))
    by (apply puts_for; try lia; intros; apply reset_lines_puts; lia).
  rewrite (puts_then _ (flat_map (λ i, [(1, m_distBase g ⊞ (Dist_IPRIORITYR + i), 0x80)]) (upto (Z.to_nat (lines_of typer * 32)) 0 (lines_of typer * 32) 1))).
  2:{ apply puts_for; try lia. intros i Hi. unfold SetPriorityLevel. assert (Dist_IPRIORITYR ⊞ i = Dist_IPRIORITYR + i) as ->.
      { apply Z.mod_small. unfold Dist_IPRIORITYR. lia. } by apply puts_at. }
  rewrite (puts_then _ (flat_map (λ i, [(4, m_distBase g ⊞ (Dist_ITARGETSR + i), 0x01010101)]) (upto (Z.to_nat (lines_of typer * 32)) 32 (lines_of typer * 32) 4)))
    by (apply puts_for; try lia; intros; by apply puts_at).
  rewrite (puts_then _ (flat_map (λ i, [(4, m_distBase g ⊞ (Dist_ICFGR + i * 4), 0)]) (upto (Z.to_nat (lines_of typer * 2)) 2 (lines_of typer * 2) 1)))
    by (apply puts_for; try lia; intros; apply puts_at4; lia).
  rewrite (puts_then _ [_]) by (by apply puts_at).
  match goal with |- context [cpuInit g ?s0] => destruct (cpuInit_spec g s0) as (vtr & s' & Hv & -> & E) end. exists typer, vtr, s'. split_and!; [done..|]. rewrite E.
  rewrite <-!put_all_app, put_all_log. cbn [io_log]. rewrite put_all_log. unfold reset_log, config_writes.
  rewrite !map_app, <-!app_assoc. done.
Qed.
End reset.

(** ** Resetting stays inside the frames and configures every interrupt *)

Lemma Forall_flat_map {A B} (P : B → Prop) (f : A → list B) l : (∀ x, x ∈ l → Forall P (f x)) → Forall P (flat_map f l).
Proof.
  intros H. induction l as [|x l IH]; [constructor|]. cbn [flat_map]. apply list.Forall_app. split; [apply H; set_solver|].
  apply IH. intros y Hy. apply H. set_solver.
Qed.
Lemma elem_flat_map {A B} (f : A → list B) l x y : x ∈ l → y ∈ f x → y ∈ flat_map f l.
Proof. rewrite !list_elem_of_In. intros. apply in_flat_map. eauto. Qed.

Section reset.
Context (g : Gic).
Context (Hdist : 0 ≤ m_distBase g ∧ m_distBase g + 0x1000 ≤ 2 ^ 64) (Hcpu : 0 ≤ m_cpuBase g ∧ m_cpuBase g + 0x100 ≤ 2 ^ 64).
Context (Hhv : 0 ≤ m_hvBase g ∧ m_hvBase g + 0x200 ≤ 2 ^ 64).

(** The access is to a register of one of the driver's frames. *)
Definition in_frames (w a : Z) : Prop :=
  (m_distBase g ≤ a ∧ a + w ≤ m_distBase g + 0x1000) ∨ (m_cpuBase g ≤ a ∧ a + w ≤ m_cpuBase g + 0x100) ∨
  (m_hvBase g ≤ a ∧ a + w ≤ m_hvBase g + 0x200).
Definition confined (a : access) : Prop :=
  match a with Rd w addr _ | Wr w addr _ => in_frames w addr | _ => False end.

Lemma dist_in w off v : 0 ≤ off → 0 < w → off + w ≤ 0x1000 → confined (Wr w (m_distBase g ⊞ off) v).
Proof. intros. left. unfold u64. rewrite Z.mod_small by lia. lia. Qed.
Lemma cpu_in w off v : 0 ≤ off → 0 < w → off + w ≤ 0x100 → confined (Wr w (m_cpuBase g ⊞ off) v).
Proof. intros. right. left. unfold u64. rewrite Z.mod_small by lia. lia. Qed.
Lemma hv_in w off v : 0 ≤ off → 0 < w → off + w ≤ 0x200 → confined (Wr w (m_hvBase g ⊞ off) v).
Proof. intros. right. right. unfold u64. rewrite Z.mod_small by lia. lia. Qed.
Lemma read_in w a v : confined (Wr w a v) → confined (Rd w a v).
Proof. done. Qed.

Definition written (l : list (Z * Z * Z)) : Prop := Forall (λ w, confined (write_of w)) l.

Lemma config_confined lines : 1 ≤ lines ≤ 32 → written (config_writes g lines).
Proof.
  intros Hl. unfold config_writes, written. rewrite !list.Forall_app.
  split_and!; apply Forall_flat_map; intros i Hi; apply elem_upto in Hi as [Hi _]; try lia.
  - unfold line_writes, Dist_IGROUPR, Dist_ICENABLER, Dist_ICPENDR, Dist_ICACTIVER. repeat (constructor; [by apply dist_in; lia|]). constructor.
  - constructor; [by apply dist_in; unfold Dist_IPRIORITYR; lia|constructor].
  - constructor; [by apply dist_in; unfold Dist_ITARGETSR; lia|constructor].
  - constructor; [by apply dist_in; unfold Dist_ICFGR; lia|constructor].
Qed.

Lemma lr_confined n : 0 ≤ n ≤ 64 → written (lr_writes g n).
Proof.
  intros Hn. apply Forall_flat_map. intros i Hi. apply elem_upto in Hi as [Hi _]; [|lia..].
  constructor; [by apply hv_in; unfold Hv_LR0; lia|constructor].
Qed.

Lemma reset_confined typer vtr : Forall confined (reset_log g typer vtr).
Proof.
  pose proof (lines_range typer). pose proof (lrs_range vtr). unfold reset_log. rewrite !list.Forall_app. split_and!.
  - constructor; [by apply dist_in|]. constructor; [by apply (dist_in 4 Dist_TYPER typer)|constructor].
  - apply Forall_map. apply config_confined. lia.
  - constructor; [by apply dist_in|]. constructor; [by apply (hv_in 4 Hv_VTR vtr)|constructor].
  - apply Forall_map. unfold cpu_writes. rewrite !list.Forall_app. split_and!; [|by apply lr_confined; lia|constructor; [by apply hv_in|constructor]].
    repeat (constructor; [by (apply cpu_in || apply hv_in)|]). constructor.
Qed.

(** Interrupt [id] is in group 1's configuration: disabled, not pending, not active, at the
    middle priority, and when shared, level triggered and routed to the first CPU. *)
Definition configured (lines id : Z) : Prop :=
  let did w off v := (w, m_distBase g ⊞ off, v) ∈ config_writes g lines in
  did 4 (Dist_IGROUPR + (id / 32) * 4) 0xFFFFFFFF ∧ did 4 (Dist_ICENABLER + (id / 32) * 4) 0xFFFFFFFF ∧
  did 4 (Dist_ICPENDR + (id / 32) * 4) 0xFFFFFFFF ∧ did 4 (Dist_ICACTIVER + (id / 32) * 4) 0xFFFFFFFF ∧
  did 1 (Dist_IPRIORITYR + id) 0x80 ∧
  (32 ≤ id → did 4 (Dist_ITARGETSR + (id / 4) * 4) 0x01010101 ∧ did 4 (Dist_ICFGR + (id / 16) * 4) 0).

Lemma config_all lines id : 1 ≤ lines ≤ 32 → 0 ≤ id < lines * 32 → configured lines id.
Proof.
  intros Hl Hid. unfold configured, config_writes. cbv zeta. rewrite !elem_of_app.
  assert (Hline : ∀ reg, reg ∈ [Dist_IGROUPR; Dist_ICENABLER; Dist_ICPENDR; Dist_ICACTIVER] →
    (4, m_distBase g ⊞ (reg + (id / 32) * 4), 0xFFFFFFFF) ∈ flat_map (line_writes g) (upto (Z.to_nat lines) 0 lines 1)).
  { intros reg Hreg. apply (elem_flat_map _ _ (id / 32)).
    - apply elem_upto; [lia..|]. rewrite Z.mod_1_r. pose proof (Z.div_pos id 32). pose proof (Z.div_lt_upper_bound id 32 lines). lia.
    - unfold line_writes. apply list_elem_of_fmap. eauto. }
  split_and!; [left; apply Hline; set_solver..| |].
  - right; left. apply (elem_flat_map _ _ id); [|set_solver]. apply elem_upto; [lia..|]. rewrite Z.mod_1_r. lia.
  - intros H32. pose proof (Z.div_mod id 4). pose proof (Z.mod_pos_bound id 4). split.
    + right; right; left. apply (elem_flat_map _ _ (id / 4 * 4)); [|set_solver]. apply elem_upto; [lia..|].
      split; [pose proof (Z.div_le_mono 32 id 4); lia|]. replace (id / 4 * 4 - 32) with ((id / 4 - 8) * 4) by lia. by apply Z.mod_mul.
    + right; right; right. apply (elem_flat_map _ _ (id / 16)); [|set_solver]. apply elem_upto; [lia..|]. rewrite Z.mod_1_r.
      assert (2 ≤ id / 16) by (apply (Z.div_le_mono 32 id 16); lia).
      assert (id / 16 < lines * 2) by (apply Z.div_lt_upper_bound; lia). lia.
Qed.

(** Nothing forwards interrupts before the last of it. *)
Lemma config_off lines w v : 1 ≤ lines ≤ 32 → (w, m_distBase g ⊞ Dist_CTLR, v) ∉ config_writes g lines.
Proof.
  intros Hl. unfold config_writes. rewrite !elem_of_app.
  assert (Hne : ∀ off, 0 < off < 0x1000 → m_distBase g ⊞ Dist_CTLR ≠ m_distBase g ⊞ off).
  { intros off Ho. unfold u64, Dist_CTLR. rewrite !Z.mod_small by lia. lia. }
  intros [H|[H|[H|H]]]; apply list_elem_of_In, in_flat_map in H as (i & Hi & H); apply list_elem_of_In in Hi; apply elem_upto in Hi as [Hi _]; try lia.
  - unfold line_writes in H. apply list_elem_of_In, list_elem_of_fmap in H as (reg & E & Hreg). injection E as _ E _. apply Hne in E; [done|].
    unfold Dist_IGROUPR, Dist_ICENABLER, Dist_ICPENDR, Dist_ICACTIVER in Hreg. set_unfold in Hreg. lia.
  - destruct H as [[= _ E _]|[]]. symmetry in E. apply Hne in E; [done|]. unfold Dist_IPRIORITYR. lia.
  - destruct H as [[= _ E _]|[]]. symmetry in E. apply Hne in E; [done|]. unfold Dist_ITARGETSR. lia.
  - destruct H as [[= _ E _]|[]]. symmetry in E. apply Hne in E; [done|]. unfold Dist_ICFGR. lia.
Qed.
End reset.
