(* ===== verification/GicInject.v ===== *)
(** * Presenting interrupts through the list registers *)
From S2P Require Import Prelude Mmio Uart Gic GicReset.

(** ** The list registers, as the architecture documents them *)

(** A list register is empty when its state field is invalid: neither pending nor active. *)
Definition lr_empty (v : Z) : bool := negb (Z.testbit v 28) && negb (Z.testbit v 29).
Definition lr_id (v : Z) : Z := Z.land v 0x3FF.

(** [num] list registers in the frame at [hv]: reads give back what is held, the empty-status
    registers show which are empty, and a write replaces one. *)
Class ListRegisters (D : Type) `{Bus D} (hv num : Z) := {
  lrs : D → Z → Z;
  lr_read : ∀ d i v d', 0 ≤ i < num → bus_read 4 (hv ⊞ (Hv_LR0 + i * 4)) d = (v, d') →
    v mod 2 ^ 32 = lrs d i ∧ ∀ j, lrs d' j = lrs d j;
  elsr_read : ∀ d k v d', 0 ≤ k ≤ 1 → bus_read 4 (hv ⊞ (Hv_ELSR0 + k * 4)) d = (v, d') →
    (∀ i, 32 * k ≤ i < 32 * k + 32 → i < num → Z.testbit (v mod 2 ^ 32) (i mod 32) = lr_empty (lrs d i)) ∧
    ∀ j, lrs d' j = lrs d j;
  lr_write : ∀ d i v j, 0 ≤ i < num → fits 32 v →
    lrs (bus_write 4 (hv ⊞ (Hv_LR0 + i * 4)) v d) j = if decide (j = i) then v else lrs d j;
  other_write : ∀ d off v j, off = Hv_APR ∨ off = Hv_VMCR → lrs (bus_write 4 (hv ⊞ off) v d) j = lrs d j;
}.

(** What injecting does to the contents [l] of the list registers: the first empty one takes
    the interrupt unless some register holds its number. *)
Definition held (num : Z) (l : Z → Z) (virtId : Z) : bool :=
  existsb (λ i, lr_id (l i) =? virtId) (seqZ 0 num).
Definition first_empty (num : Z) (l : Z → Z) : option Z :=
  head (filter (λ i, lr_empty (l i) = true) (seqZ 0 num)).
Definition inject (num : Z) (l : Z → Z) (virtId id : Z) : Z * (Z → Z) :=
  if held num l virtId then (-1, l)
  else match first_empty num l with
       | Some i => (0, λ j, if decide (j = i) then lr_entry virtId id else l j)
       | None => (-1, l)
       end.

Lemma land_bit x k : 0 ≤ k → Z.land x (2 ^ k) ≠ 0 ↔ Z.testbit x k = true.
Proof.
  intros Hk. split; intros Hx.
  - destruct (Z.testbit x k) eqn:E; [done|]. destruct Hx. apply Z.bits_inj'. intros n Hn. rewrite Z.land_spec, Z.bits_0.
    rewrite Z.pow2_bits_eqb by done. destruct (Z.eqb_spec k n) as [<-|]; [by rewrite E|apply andb_false_r].
  - intros E. assert (Z.testbit (Z.land x (2 ^ k)) k = false) as Hf by (by rewrite E, Z.bits_0).
    by rewrite Z.land_spec, Hx, Z.pow2_bits_true in Hf.
Qed.

Lemma lor_fits n a b : 0 ≤ n → fits n a → fits n b → fits n (Z.lor a b).
Proof.
  unfold fits. intros Hn Ha Hb. assert (Z.lor a b = Z.lor a b mod 2 ^ n) as ->; [|apply Z.mod_pos_bound; lia].
  rewrite <-Z.land_ones, Z.land_lor_distr_l, !Z.land_ones, !Z.mod_small by done. done.
Qed.

Lemma lr_entry_fits virtId id : fits 32 (lr_entry virtId id).
Proof.
  unfold lr_entry. pose proof (land_range virtId 10 ltac:(lia)) as R. change (2 ^ 10 - 1) with 0x3FF in R.
  apply lor_fits; [lia|apply lor_fits; [lia|apply lor_fits; [lia|unfold fits; lia|by split]|by split]|].
  apply Z.mod_pos_bound. lia.
Qed.

Section inject.
Context {D : Type} `{Bus D} (hv num : Z) `{!ListRegisters D hv num}.
Context (g : Gic) (Hhv : m_hvBase g = hv) (Hnum : m_numLr g = num) (Hrange : 0 ≤ num ≤ 64).

(** A read of the device that leaves its list registers alone. *)
Lemma runs_read {A} (width base off : Z) (k : Z → M (io D) A) s Q :
  (∀ v d', bus_read width (base ⊞ off) (io_dev s) = (v, d') →
    runs (k (v mod 2 ^ (8 * width))) (MkIo d' (io_log s ++ [Rd width (base ⊞ off) (v mod 2 ^ (8 * width))])) Q) →
  runs (ReadAt width base off ≫= k) s Q.
Proof.
  intros Hk. unfold runs, mbind, M_bind, ReadAt, Read in *. destruct (bus_read width (base ⊞ off) (io_dev s)) as [v d'].
  by apply (Hk v d').
Qed.

(** The search from [i] on, with the first empty register before it. *)
Definition free_code (o : option Z) : Z := default (-1) o.
Definition search_result (l : Z → Z) (virtId i : Z) (free : option Z) : option Z :=
  if existsb (λ j, lr_id (l j) =? virtId) (seqZ i (num - i)) then None
  else Some (free_code (match free with Some f => Some f | None => head (filter (λ j, lr_empty (l j) = true) (seqZ i (num - i))) end)).

Lemma seqZ_step i : i < num → seqZ i (num - i) = i :: seqZ (i + 1) (num - (i + 1)).
Proof. intros Hi. rewrite seqZ_cons by lia. f_equal; f_equal; lia. Qed.

Lemma bit_one x k : 0 ≤ k → (Z.land (x ≫ k) 1 ≠ 0) ↔ Z.testbit x k = true.
Proof.
  intros Hk. change 1 with (Z.ones 1). rewrite Z.land_ones by lia. rewrite Z.shiftr_div_pow2 by done. rewrite Z.testbit_true by done. change (2 ^ 1) with 2.
  pose proof (Z.mod_pos_bound (x / 2 ^ k) 2). lia.
Qed.

Lemma scan_spec virtId e0 e1 l : (∀ i, 0 ≤ i < num → Z.testbit (if decide (i < 32) then e0 else e1) (i mod 32) = lr_empty (l i)) →
  ∀ n i free s, 0 ≤ i ≤ num → num - i < Z.of_nat n → (∀ j, lrs (io_dev s) j = l j) → (∀ f, free = Some f → 0 ≤ f) →
  runs (loop n (inject_step g virtId e0 e1) (i, free_code free)) s (λ r s',
    r = search_result l virtId i free ∧ ∀ j, lrs (io_dev s') j = l j).
Proof.
  intros He. induction n as [|n IH]; intros i free s Hi Hn Hl Hf; [lia|]. apply runs_loop_S. unfold inject_step at 1. rewrite Hnum.
  unfold search_result. destruct (decide (i < num)) as [Hlt|Hge].
  - rewrite seqZ_step by done. cbn [existsb]. rewrite filter_cons. cbv zeta.
    unfold u32. rewrite (Z.mod_small (i * 4)), (Z.mod_small (i + 1)) by lia.
    apply runs_read. intros v d' Hr. cbn [getFrameBase] in Hr. rewrite Hhv in Hr. destruct (lr_read (hv := hv) (num := num) _ i _ _ ltac:(lia) Hr) as [Hv Hd].
    change (8 * 4) with 32. rewrite Hv, Hl. fold (lr_id (l i)).
    destruct (decide (lr_id (l i) = virtId)) as [E|E]; [rewrite E, Z.eqb_refl; apply runs_ret; split; [done|]; intros j; cbn; by rewrite Hd|].
    rewrite (proj2 (Z.eqb_neq _ _) E). cbn [orb].
    pose proof (bit_one (if decide (i < 32) then e0 else e1) (i mod 32) ltac:(apply Z.mod_pos_bound; lia)) as Hb. rewrite He in Hb by lia.
    destruct (decide (lr_empty (l i) = true)) as [Ee|Ee].
    + rewrite (decide_True (P := Z.land _ 1 ≠ 0)) by tauto. apply runs_ret.
      assert ((if decide (free_code free = -1) then i else free_code free) = free_code (Some (default i free))) as ->.
      { destruct free as [f|]; cbn; [|done]. specialize (Hf f eq_refl). by rewrite decide_False by lia. }
      eapply runs_mono; [apply IH; [lia|lia|intros j; cbn; by rewrite Hd|intros f [= <-]; destruct free as [f|]; cbn; [by apply Hf|lia]]|].
      intros r s' [-> Hs']. split; [|done]. unfold search_result. by destruct free.
    + rewrite decide_False by tauto. apply runs_ret.
      eapply runs_mono; [apply IH; [lia|lia|intros j; cbn; by rewrite Hd|done]|]. intros r s' [-> Hs']. done.
  - apply runs_ret. replace (num - i) with 0 by lia. cbn. split; [by destruct free|done].
Qed.

Lemma first_empty_range l i : first_empty num l = Some i → 0 ≤ i < num.
Proof.
  unfold first_empty. intros E. assert (i ∈ filter (λ i, lr_empty (l i) = true) (seqZ 0 num)) as Hin.
  { destruct (filter _ _); [done|]. injection E as ->. set_solver. }
  apply list_elem_of_filter in Hin as [_ Hin]. apply elem_of_seqZ in Hin. lia.
Qed.

Lemma InjectIrq_spec virtId id s : runs (InjectIrq g virtId id) s (λ r s',
  r = (inject num (lrs (io_dev s)) virtId id).1 ∧ ∀ j, lrs (io_dev s') j = (inject num (lrs (io_dev s)) virtId id).2 j).
Proof.
  unfold InjectIrq. cbn [getFrameBase]. rewrite Hhv, Hnum.
  apply runs_read. intros v0 d0 H0. destruct (elsr_read (hv := hv) (num := num) _ 0 _ _ ltac:(lia) H0) as [E0 L0].
  apply runs_read. intros v1 d1 H1. cbn [io_dev] in H1. destruct (elsr_read (hv := hv) (num := num) _ 1 _ _ ltac:(lia) H1) as [E1 L1].
  change (8 * 4) with 32. apply runs_bind.
  assert (He : ∀ i, 0 ≤ i < num → Z.testbit (if decide (i < 32) then v0 mod 2 ^ 32 else v1 mod 2 ^ 32) (i mod 32) = lr_empty (lrs (io_dev s) i)).
  { intros i Hi. destruct (decide (i < 32)); [by apply E0; lia|]. rewrite E1 by lia. by rewrite L0. }
  eapply runs_mono; [apply (scan_spec virtId _ _ _ He _ 0 None); [lia|lia|intros j; cbn [io_dev]; by rewrite L1, L0|done]|].
  cbv beta. intros r s' [-> Hs']. unfold search_result, inject, held. rewrite Z.sub_0_r.
  destruct (existsb _ _); [by apply runs_ret|]. fold (first_empty num (lrs (io_dev s))).
  destruct (first_empty num (lrs (io_dev s))) as [i|] eqn:Ef; [|by apply runs_ret].
  apply first_empty_range in Ef. change (free_code (Some i)) with i. rewrite decide_False by lia. unfold u32. rewrite (Z.mod_small (i * 4)) by lia.
  unfold runs, mbind, M_bind, WriteAt, Write, modify. cbn [mret M_ret put_one io_dev fst snd]. split; [done|]. intros j.
  rewrite (lr_write (hv := hv) (num := num)) by (done || (apply Z.mod_pos_bound; lia)). destruct (decide (j = i)); [|by rewrite Hs'].
  apply Z.mod_small, lr_entry_fits.
Qed.

Lemma pending_scan l : ∀ n i s, 0 ≤ i ≤ num → num - i < Z.of_nat n → (∀ j, lrs (io_dev s) j = l j) →
  runs (loop n (pending_step g) i) s (λ b _, b = existsb (λ i, Z.testbit (l i) 28) (seqZ i (num - i))).
Proof.
  induction n as [|n IH]; intros i s Hi Hn Hl; [lia|]. apply runs_loop_S. unfold pending_step at 1. rewrite Hnum. case_decide as Hlt.
  - rewrite seqZ_step by done. cbn [existsb]. unfold u32. rewrite (Z.mod_small (i * 4)), (Z.mod_small (i + 1)) by lia.
    apply runs_read. intros v d' Hr. cbn [getFrameBase] in Hr. rewrite Hhv in Hr.
    destruct (lr_read (hv := hv) (num := num) _ i _ _ ltac:(lia) Hr) as [Hv Hd].
    change (8 * 4) with 32. rewrite Hv, Hl. change Hv_LR_PENDING with (2 ^ 28).
    pose proof (land_bit (l i) 28 ltac:(lia)) as Hb. destruct (Z.testbit (l i) 28).
    + rewrite decide_True by tauto. by apply runs_ret.
    + rewrite decide_False by (intros ?%Hb; done). apply runs_ret. apply IH; [lia|lia|]. intros j. cbn. by rewrite Hd.
  - apply runs_ret. by replace (num - i) with 0 by lia.
Qed.

Lemma HasPendingIrq_spec s : runs (HasPendingIrq g) s (λ b _, b = existsb (λ i, Z.testbit (lrs (io_dev s) i) 28) (seqZ 0 num)).
Proof.
  unfold HasPendingIrq. rewrite Hnum.
  eapply runs_mono; [apply (pending_scan (lrs (io_dev s))); (lia || done)|]. cbv beta. intros b _ ->. by rewrite Z.sub_0_r.
Qed.

Lemma CpuReset_empties s : runs (CpuReset g) s (λ _ s', ∀ i, 0 ≤ i < num → lrs (io_dev s') i = 0).
Proof.
  unfold runs. rewrite (CpuReset_puts g) by lia. rewrite put_all_app, Hhv, Hnum. intros i Hi. cbn [put_all foldl put_one io_dev].
  rewrite !(other_write (hv := hv) (num := num)) by auto. unfold lr_writes. rewrite Hhv.
  assert (H0 : ∀ n k s, 0 ≤ k → num - k ≤ Z.of_nat n → (k ≤ i ∨ lrs (io_dev s) i = 0) →
    lrs (io_dev (put_all (flat_map (λ i, [(4, hv ⊞ (Hv_LR0 + i * 4), 0)]) (upto n k num 1)) s)) i = 0); [|apply H0; lia].
  clear s. induction n as [|n IH]; intros k s Hk Hn Hd; cbn [upto]; [cbn; destruct Hd; [lia|done]|].
  case_decide as Hlt; [|cbn; destruct Hd; [lia|done]]. cbn [flat_map]. rewrite put_all_app. apply IH; [lia|lia|].
  cbn [put_all foldl put_one io_dev]. rewrite (lr_write (hv := hv) (num := num)) by (done || lia).
  case_decide; [by right|]. destruct Hd; [left; lia|by right].
Qed.
End inject.
