(* ===== verification/GicProps.v ===== *)
(** * The interrupt controller: reset, injection, and what reaches the guest *)
From S2P Require Import Prelude Mmio Uart Gic GicReset GicInject.

(** ** Reset *)

Section reset.
Context {D : Type} `{Bus D}.

(** C38: whatever the devices answer, [Reset] returns, and touches only registers of the
    distributor, CPU and hypervisor frames: it turns the distributor off, configures every
    interrupt it reports - disabled, not pending, not active, middle priority, shared ones level
    triggered to CPU 0 - without turning it on in between, turns it on, and brings the CPU and
    virtual interfaces up with every list register it reports cleared. *)
Theorem Reset_correct g (s : io D) (Hdist : 0 ≤ m_distBase g ∧ m_distBase g + 0x1000 ≤ 2 ^ 64)
    (Hcpu : 0 ≤ m_cpuBase g ∧ m_cpuBase g + 0x100 ≤ 2 ^ 64) (Hhv : 0 ≤ m_hvBase g ∧ m_hvBase g + 0x200 ≤ 2 ^ 64) :
  ∃ typer vtr s', fits 32 typer ∧ fits 32 vtr ∧
    Reset g s = Done (set_numLr (lrs_of vtr) g) s' ∧ io_log s' = io_log s ++ reset_log g typer vtr ∧
    Forall (confined g) (reset_log g typer vtr) ∧
    (∀ id, 0 ≤ id < lines_of typer * 32 → configured g (lines_of typer) id) ∧
    (∀ w v, (w, m_distBase g ⊞ Dist_CTLR, v) ∉ config_writes g (lines_of typer)).
Proof.
  destruct (Reset_spec g s) as (typer & vtr & s' & Ht & Hv & E & El). exists typer, vtr, s'.
  pose proof (lines_range typer). split_and!; [done..|by apply reset_confined| |].
  - intros id Hid. by apply config_all.
  - intros w v. by apply config_off.
Qed.
End reset.

Definition fvp_gic : Gic := MkGic 0x2f000000 0x2c000000 0x2c010000 0x2c02f000 0.
Lemma Reset_correct_witness : ∃ typer vtr s', fits 32 typer ∧ fits 32 vtr ∧
  Reset fvp_gic (MkIo (∅, λ _, 0) [] : io regfile) = Done (set_numLr (lrs_of vtr) fvp_gic) s' ∧
  configured fvp_gic (lines_of typer) 26.
Proof.
  destruct (Reset_correct fvp_gic (MkIo (∅, λ _, 0) [] : io regfile)) as (typer & vtr & s' & Ht & Hv & E & _ & _ & Hc & _); [by split..|].
  exists typer, vtr, s'. split_and!; [done..|]. apply Hc. pose proof (lines_range typer). lia.
Defined.

(** ** Injection *)

Section inject.
Context {D : Type} `{Bus D} (hv num : Z) `{!ListRegisters D hv num}.
Context (g : Gic) (Hhv : m_hvBase g = hv) (Hnum : m_numLr g = num) (Hrange : 0 ≤ num ≤ 64).

(** C37: on list registers that behave as documented, [InjectIrq] refines the abstract [inject]: it
    returns 0 exactly when no register holds the virtual number and one is empty, and then the
    first empty one presents the interrupt, pending and tied to its physical one, and no other
    register changes; otherwise it returns -1 and changes none. *)
Theorem InjectIrq_refines virtId id s : runs (InjectIrq g virtId id) s (λ r s',
  r = (inject num (lrs (io_dev s)) virtId id).1 ∧ ∀ j, lrs (io_dev s') j = (inject num (lrs (io_dev s)) virtId id).2 j).
Proof. by apply InjectIrq_spec. Qed.

(** ** The list registers over time *)

(** What happens to them: the driver injects or resets the interface; and the guest, through its
    virtual interface, changes the state of an interrupt - acknowledging, completing - but
    neither its number nor an empty register. *)
Inductive lr_step : D → D → Prop :=
  | step_inject virtId id s r s' : 0 ≤ virtId < 1024 → InjectIrq g virtId id s = Done r s' → lr_step (io_dev s) (io_dev s')
  | step_reset s s' : CpuReset g s = Done tt s' → lr_step (io_dev s) (io_dev s')
  | step_guest d d' i v : 0 ≤ i < num → (∀ j, lrs d' j = if decide (j = i) then v else lrs d j) →
      lr_id v = lr_id (lrs d i) → (lr_empty (lrs d i) = true → lr_empty v = true) → lr_step d d'.

Definition distinct (l : Z → Z) : Prop := ∀ i j, 0 ≤ i < num → 0 ≤ j < num → i ≠ j →
  lr_empty (l i) = false → lr_empty (l j) = false → lr_id (l i) ≠ lr_id (l j).

Lemma inject_distinct l virtId id : 0 ≤ virtId < 1024 → distinct l → distinct (inject num l virtId id).2.
Proof.
  intros Hid Hd. unfold inject. destruct (held num l virtId) eqn:Eh; [done|]. destruct (first_empty num l) as [k|]; [|done]. cbn [snd].
  assert (Hfree : ∀ i, 0 ≤ i < num → lr_id (l i) ≠ virtId).
  { intros i Hi E. unfold held in Eh. assert (existsb (λ i, lr_id (l i) =? virtId) (seqZ 0 num) = true); [|congruence].
    apply existsb_exists. exists i. split; [apply list_elem_of_In, elem_of_seqZ; lia|by apply Z.eqb_eq]. }
  assert (Hnew : lr_id (lr_entry virtId id) = virtId).
  { unfold lr_id, lr_entry. change 0x3FF with (Z.ones 10). rewrite Z.land_ones by lia.
    rewrite (Z.land_ones virtId), (Z.mod_small virtId) by lia. apply Z.bits_inj'. intros n Hn.
    destruct (decide (n < 10)) as [Hlt|Hge].
    - rewrite Z.mod_pow2_bits_low by lia. rewrite !Z.lor_spec. unfold u32. rewrite Z.mod_pow2_bits_low by lia.
      rewrite (Z.shiftl_spec_low (Z.land id (Z.ones 10)) Hv_LR_PHYS_SHIFT n) by (unfold Hv_LR_PHYS_SHIFT; lia). change Hv_LR_PENDING with (2 ^ 28). change Hv_LR_HW with (2 ^ 31).
      rewrite !Z.pow2_bits_false by lia. by rewrite !orb_false_r.
    - rewrite Z.mod_pow2_bits_high by lia. symmetry. apply Z.bits_above_log2; [lia|]. destruct (decide (virtId = 0)) as [-> |]; [cbn; lia|].
      apply Z.log2_lt_pow2; [lia|]. pose proof (Z.pow_le_mono_r 2 10 n). lia. }
  intros i j Hi Hj Hne. destruct (decide (i = k)) as [-> |Hik], (decide (j = k)) as [-> |Hjk]; intros Hei Hej.
  - done.
  - rewrite Hnew. intros E. by apply (Hfree j).
  - rewrite Hnew. by apply Hfree.
  - by apply Hd.
Qed.

Lemma distinct_ext l l' : (∀ j, l' j = l j) → distinct l → distinct l'.
Proof. intros E Hd i j. rewrite !E. apply Hd. Qed.

(** C36: from empty list registers on, whatever the driver injects and the guest does, no two
    registers in use ever present the same virtual interrupt, which the architecture requires. *)
Theorem lrs_stay_distinct d0 d (Hstart : ∀ i, 0 ≤ i < num → lr_empty (lrs d0 i) = true) (Hsteps : rtc lr_step d0 d) :
  distinct (lrs d).
Proof.
  assert (Hd0 : distinct (lrs d0)) by (intros i j Hi _ _ Hf; by rewrite Hstart in Hf).
  clear Hstart. induction Hsteps as [|d1 d2 d3 Hstep _ IH]; [done|]. apply IH.
  destruct Hstep as [virtId id s r s' Hid Hrun|s s' Hrun|d d' i v Hi Hd' Hsame Hempty].
  - pose proof (InjectIrq_spec hv num g Hhv Hnum Hrange virtId id s) as Hs. apply (runs_det _ _ _ _ _ Hs) in Hrun as [_ Hl].
    by eapply distinct_ext, inject_distinct; [|done|].
  - pose proof (runs_det _ _ _ _ _ (CpuReset_empties hv num g Hhv Hnum Hrange s) Hrun) as Hz.
    intros i j Hi _ _ Hf. by rewrite Hz in Hf.
  - intros j k Hj Hk Hne Hej Hek. rewrite Hd' in Hej, Hek. rewrite !Hd'.
    destruct (decide (j = i)) as [-> |Hji], (decide (k = i)) as [-> |Hki].
    + done.
    + rewrite Hsame. apply Hd0; try done. destruct (lr_empty (lrs d i)); [by rewrite Hempty in Hej|done].
    + rewrite Hsame. apply Hd0; try done. destruct (lr_empty (lrs d i)); [by rewrite Hempty in Hek|done].
    + by apply Hd0.
Qed.

(** A number left in an empty register, which the guest's completion leaves there, still counts
    as pending: it cannot be injected again until another interrupt takes the register. *)
Lemma stale_number_refused virtId id s i : 0 ≤ i < num → lr_id (lrs (io_dev s) i) = virtId →
  runs (InjectIrq g virtId id) s (λ r s', r = -1 ∧ ∀ j, lrs (io_dev s') j = lrs (io_dev s) j).
Proof.
  intros Hi E. eapply runs_mono; [by apply (InjectIrq_spec hv num g)|]. cbv beta. unfold inject.
  assert (held num (lrs (io_dev s)) virtId = true) as ->; [|done].
  apply existsb_exists. exists i. split; [apply list_elem_of_In, elem_of_seqZ; lia|by apply Z.eqb_eq].
Qed.

(** An interrupt that was injected is one that [HasPendingIrq] sees. *)
Lemma injected_is_pending virtId id s : runs (InjectIrq g virtId id) s (λ r s',
  r = 0 → runs (HasPendingIrq g) s' (λ b _, b = true)).
Proof.
  eapply runs_mono; [by apply (InjectIrq_spec hv num g)|]. cbv beta. intros r s' [-> Hs'] Hr.
  eapply runs_mono; [by apply (HasPendingIrq_spec hv num g)|]. cbv beta. intros b _ ->. unfold inject in *.
  destruct (held _ _ _); [done|]. destruct (first_empty num (lrs (io_dev s))) as [i|] eqn:Ef; [|done].
  apply existsb_exists. exists i. apply (first_empty_range hv num g) in Ef; [|done..]. split; [apply list_elem_of_In, elem_of_seqZ; lia|].
  rewrite Hs'. cbn [snd]. rewrite decide_True by done. unfold lr_entry. rewrite !Z.lor_spec. change Hv_LR_PENDING with (2 ^ 28).
  rewrite (Z.pow2_bits_true 28) by lia. by rewrite orb_true_r.
Qed.
End inject.

(** ** Four list registers *)

Definition lr_addr (i : Z) : Z := 0x2c010000 ⊞ (Hv_LR0 + i * 4).
Definition lr_at (a : Z) : option Z := head (filter (λ i, lr_addr i = a) [0; 1; 2; 3]).
Definition elsr_of (l : Z → Z) : Z := foldr (λ i acc, if lr_empty (l i) then Z.setbit acc i else acc) 0 [0; 1; 2; 3].
#[export] Instance four_bus : Bus (Z → Z) := {|
    bus_read _ a d := (match lr_at a with
      | Some i => d i
      | None => if decide (a = 0x2c010000 ⊞ Hv_ELSR0) then elsr_of (λ i, d i mod 2 ^ 32) else 0
      end, d);
    bus_write _ a v d := match lr_at a with Some i => λ j, if decide (j = i) then v else d j | None => d end;
    bus_mrs _ d := (0, d);
    bus_msr _ _ d := d;
  |}.

Lemma four_cases i : 0 ≤ i < 4 → i = 0 ∨ i = 1 ∨ i = 2 ∨ i = 3.
Proof. lia. Qed.
Lemma lr_at_addr i : 0 ≤ i < 4 → lr_at (0x2c010000 ⊞ (Hv_LR0 + i * 4)) = Some i.
Proof. intros [-> |[-> |[-> | ->]]]%four_cases; by vm_compute. Qed.

#[export] Program Instance four_lrs : ListRegisters (Z → Z) 0x2c010000 4 := {| lrs d i := d i mod 2 ^ 32 |}.
  Next Obligation.
    intros d i v d' Hi. unfold bus_read, four_bus. rewrite lr_at_addr by done. intros [= <- <-]. done.
Qed.
  Next Obligation.
    intros d k v d' Hk E. unfold bus_read, four_bus in E. injection E as Ev <-. split; [|done]. intros i Hi Hi4.
    assert (k = 0) as -> by lia. assert (lr_at (0x2c010000 ⊞ (Hv_ELSR0 + 0 * 4)) = None) as Ea by (by vm_compute).
    rewrite Ea, decide_True in Ev by done. subst v.
    unfold elsr_of. cbn [foldr]. cbv beta. destruct (four_cases i ltac:(lia)) as [-> |[-> |[-> | ->]]];
      destruct (lr_empty (d 0 mod 2 ^ 32)), (lr_empty (d 1 mod 2 ^ 32)), (lr_empty (d 2 mod 2 ^ 32)), (lr_empty (d 3 mod 2 ^ 32)); reflexivity.
Qed.
  Next Obligation.
    intros d i v j Hi Hv. unfold bus_write, four_bus. rewrite lr_at_addr by done. case_decide; [by apply Z.mod_small|done].
Qed.
  Next Obligation. intros d off v j [-> | ->]; done. Qed.

Definition four_gic : Gic := MkGic 0x2c001000 0x2c002000 0x2c010000 0x2c020000 4.
(** The first register presents interrupt 27; the others are empty. *)
Definition one_pending : io (Z → Z) := MkIo (λ j, if decide (j = 0) then lr_entry 27 27 else 0) [].

Lemma InjectIrq_refines_witness :
  runs (InjectIrq four_gic 33 33) one_pending (λ r s', r = 0 ∧ lrs (io_dev s') 1 = lr_entry 33 33 ∧ lrs (io_dev s') 0 = lr_entry 27 27) ∧
  runs (InjectIrq four_gic 27 27) one_pending (λ r s', r = -1).
Proof.
  split; (eapply runs_mono; [apply (InjectIrq_refines 0x2c010000 4 four_gic eq_refl eq_refl); by split|]); cbv beta.
  - intros r s' [-> H]. rewrite !H. by vm_compute.
  - intros r s' [-> _]. by vm_compute.
Defined.

Lemma lrs_stay_distinct_witness :
  ∃ r s', InjectIrq four_gic 33 33 (MkIo (λ _ : Z, 0) []) = Done r s' ∧ distinct 4 (lrs (io_dev s')).
Proof.
  destruct (runs_inv _ _ _ (InjectIrq_spec 0x2c010000 4 four_gic eq_refl eq_refl ltac:(by split) 33 33 (MkIo (λ _ : Z, 0) []))) as (r & s' & E & _).
  exists r, s'. split; [done|]. apply (lrs_stay_distinct 0x2c010000 4 four_gic eq_refl eq_refl ltac:(by split) (λ _, 0)).
  - intros i Hi. by vm_compute.
  - apply rtc_once, (step_inject 0x2c010000 4 four_gic 33 33 (MkIo (λ _ : Z, 0) []) r s'); [by split|exact E].
Defined.
