(* ===== verification/Log.v ===== *)
(** * The format engine (lib/log/log.h)

    The engine hands characters to a writer, one at a time; the writer is a parameter, the way it
    is a template parameter of the code. *)
From Stdlib Require Import String.
From S2P Require Import Prelude Cpio.

(** A character literal. *)
Definition chr (c : string) : Z := default 0 (head (str c)).

(** [hex] *)
Definition hex : list Z := str "0123456789ABCDEF".

(** The type and value of an argument. A [const char*] is its address and the characters there. *)
Inductive arg : Set :=
  | ANullptr
  | ACString (ptr : Z) (text : list Z)
  | AStringView (text : list Z)
  | APointer (p : Z)
  | ABool (b : bool)
  | AChar (c : Z)
  | ASigned (v : Z)
  | AUnsigned (v : Z)
  | AEnumSigned (v : Z)
  | AEnumUnsigned (v : Z).

Inductive FormatStep : Set := END | PLACEHOLDER | INVALID.
Inductive FormatSpec : Set := DEFAULT | HEX.
Record FormatResult : Set := MkFormatResult {
  fr_step : FormatStep;
  fr_spec : FormatSpec;
}.
#[export] Instance FormatStep_eq_dec : EqDecision FormatStep.
Proof. solve_decision. Defined.

(** [static_cast<int64_t>] *)
Definition s64 (x : Z) : Z := let y := u64 x in if decide (y < 2 ^ 63) then y else y - 2 ^ 64.

Section engine.
Context {S : Type} (writer : Z → M S unit).

Fixpoint write_chars (text : list Z) : M S unit :=
  match text with
  | [] => mret tt
  | c :: text' => writer c;; write_chars text'
  end.

Definition WriteCString (str_ : option (list Z)) : M S unit :=
  write_chars (match str_ with Some text => text | None => str "(null)" end).

(** [buffer[len++] = digit] on a buffer of [cap] characters; [buffer] is kept last character first. *)
Definition push_digit (cap : nat) (d : Z) (buffer : list Z) : M S (list Z) :=
  if decide (List.length buffer < cap)%nat then mret (d :: buffer) else stop Undefined.

(** [while (len > 0U) writer(buffer[--len])] *)
Definition write_buffer (buffer : list Z) : M S unit := write_chars buffer.

Definition decimal_step (v : Z * list Z) : M S (Z * list Z + list Z) :=
  let '(value, buffer) := v in
  if decide (value ≠ 0) then
    buffer ← push_digit 20 (chr "0" + value mod 10) buffer;
    mret (inl (value / 10, buffer))
  else mret (inr buffer).

Definition WriteUnsignedDecimal (value : Z) : M S unit :=
  if decide (value = 0) then writer (chr "0")
  else
    buffer ← loop 65 decimal_step (value, []);
    write_buffer buffer.

Definition WriteSignedDecimal (value : Z) : M S unit :=
  if decide (value < 0) then
    writer (chr "-");;
    let magnitude := u64 (- (value + 1)) ⊞ 1 in
    WriteUnsignedDecimal magnitude
  else WriteUnsignedDecimal (u64 value).

Definition hex_step (v : Z * list Z) : M S (Z * list Z + list Z) :=
  let '(value, buffer) := v in
  if decide (value ≠ 0) then
    buffer ← push_digit 16 (nth (Z.to_nat (Z.land value 0xF)) hex 0) buffer;
    mret (inl (value ≫ 4, buffer))
  else mret (inr buffer).

Definition WriteUnsignedHex (value : Z) : M S unit :=
  writer (chr "0");;
  writer (chr "x");;
  if decide (value = 0) then writer (chr "0")
  else
    buffer ← loop 65 hex_step (value, []);
    write_buffer buffer.

Definition c_string (ptr : Z) (text : list Z) : option (list Z) := if decide (ptr = 0) then None else Some text.

Definition WriteValue (value : arg) : M S unit :=
  match value with
  | ANullptr => WriteUnsignedHex 0
  | ACString ptr text => WriteCString (c_string ptr text)
  | AStringView text => write_chars text
  | APointer p => WriteUnsignedHex p
  | ABool b => WriteCString (Some (if b then str "true" else str "false"))
  | AChar c => writer c
  | ASigned v => WriteSignedDecimal (s64 v)
  | AUnsigned v => WriteUnsignedDecimal (u64 v)
  | AEnumSigned _ | AEnumUnsigned _ => mret tt
  end.

Definition WriteHexValue (value : arg) : M S unit :=
  match value with
  | ANullptr => WriteUnsignedHex 0
  | ACString p _ | APointer p => WriteUnsignedHex p
  | AStringView text => WriteValue (AStringView text)
  | ABool b => WriteUnsignedHex (if b then 1 else 0)
  | AChar c => WriteUnsignedHex (u64 (u8 c))
  | ASigned v | AUnsigned v => WriteUnsignedHex (u64 v)
  | AEnumSigned _ | AEnumUnsigned _ => mret tt
  end.

Definition WriteFormattedValue (spec : FormatSpec) (value : arg) : M S unit :=
  match spec with
  | HEX => WriteHexValue (match value with AEnumSigned v => ASigned v | AEnumUnsigned v => AUnsigned v | _ => value end)
  | DEFAULT => match value with AEnumSigned v | AEnumUnsigned v => WriteSignedDecimal (s64 v) | _ => WriteValue value end
  end.

(** The text left after the placeholder, with the result. *)
Definition invalid_format : M S (FormatResult * list Z) :=
  WriteCString (Some (str "[invalid format]"));;
  mret (MkFormatResult INVALID DEFAULT, []).

Fixpoint write_until (fmt : list Z) : M S (FormatResult * list Z) :=
  match fmt with
  | [] => mret (MkFormatResult END DEFAULT, [])
  | c :: t =>
      if decide (c = chr "{") then
        match t with
        | c1 :: t1 =>
            if decide (c1 = chr "{") then writer (chr "{");; write_until t1
            else if decide (c1 = chr "}") then mret (MkFormatResult PLACEHOLDER DEFAULT, t1)
            else if decide (c1 = chr ":" ∧ (nth 0 t1 0 = chr "x" ∨ nth 0 t1 0 = chr "X") ∧ nth 1 t1 0 = chr "}")
              then mret (MkFormatResult PLACEHOLDER HEX, drop 2 t1)
            else invalid_format
        | [] => invalid_format
        end
      else if decide (c = chr "}") then
        match t with
        | c1 :: t1 => if decide (c1 = chr "}") then writer (chr "}");; write_until t1 else invalid_format
        | [] => invalid_format
        end
      else writer c;; write_until t
  end.

(** A null format string stays null for the next call, but no call follows [END]. *)
Definition WriteUntilPlaceholder (fmt : option (list Z)) : M S (FormatResult * list Z) :=
  match fmt with
  | None => WriteCString (Some (str "(null)"));; mret (MkFormatResult END DEFAULT, [])
  | Some text => write_until text
  end.

Fixpoint FormatToSink (fmt : option (list Z)) (args : list arg) : M S unit :=
  '(result, rest) ← WriteUntilPlaceholder fmt;
  match args with
  | [] => when (bool_decide (fr_step result = PLACEHOLDER)) (WriteCString (Some (str "[missing arg]")))
  | value :: args' =>
      if decide (fr_step result = PLACEHOLDER) then
        WriteFormattedValue (fr_spec result) value;;
        FormatToSink (Some rest) args'
      else if decide (fr_step result = END) then WriteCString (Some (str "[extra arg]"))
      else mret tt
  end.

Definition FormatLineToSink (fmt : option (list Z)) (args : list arg) : M S unit :=
  FormatToSink fmt args;;
  writer 13;;
  writer 10.
End engine.
