(* ===== verification/LogSpec.v ===== *)
(** * What the format engine writes *)
From Stdlib Require Import String.
From S2P Require Import Prelude Cpio Log.

(** ** Numerals *)

Definition digit_char (d : Z) : Z := nth (Z.to_nat d) hex 0.
(** The digits of [v] in base [b], most significant first, in front of [acc]. *)
Fixpoint digits_of (b : Z) (n : nat) (v : Z) (acc : list Z) : list Z :=
  match n with
  | O => acc
  | S n' => if decide (v = 0) then acc else digits_of b n' (v / b) (digit_char (v mod b) :: acc)
  end.
Definition numeral (b v : Z) : list Z := if decide (v = 0) then str "0" else digits_of b 64 v [].

(** Reading a numeral back. *)
Definition digit_value (c : Z) : Z := match list_find (λ x, x = c) hex with Some (i, _) => Z.of_nat i | None => -1 end.
Definition value_of (b : Z) (l : list Z) : Z := foldl (λ v c, v * b + digit_value c) 0 l.
(** Digits of the base only, and no zero in front. *)
Definition canonical (b : Z) (l : list Z) : Prop :=
  l ≠ [] ∧ Forall (λ c, 0 ≤ digit_value c < b) l ∧ (head l = Some (chr "0") → l = str "0").

Lemma digit_value_char d : 0 ≤ d < 16 → digit_value (digit_char d) = d.
Proof.
  intros Hd. assert (Forall (λ d, digit_value (digit_char d) = d) (seqZ 0 16)) as H by (by repeat constructor).
  rewrite Forall_forall in H. apply H, list_elem_of_In, elem_of_seqZ. lia.
Qed.

Lemma value_of_snoc b l c : value_of b (l ++ [c]) = value_of b l * b + digit_value c.
Proof. unfold value_of. by rewrite foldl_app. Qed.

(** The digits alone. *)
Lemma digits_of_app b n : ∀ v acc, digits_of b n v acc = digits_of b n v [] ++ acc.
Proof.
  induction n as [|n IH]; intros v acc; [done|]. cbn [digits_of]. case_decide; [done|].
  rewrite IH, (IH _ [_]), <-app_assoc. done.
Qed.

Section base.
Context (b : Z) (Hb : 2 ≤ b ≤ 16).

Lemma digits_of_spec n : ∀ v k, 0 < v → v < b ^ Z.of_nat k → (k ≤ n)%nat →
  let l := digits_of b n v [] in
  value_of b l = v ∧ (List.length l ≤ k)%nat ∧ Forall (λ c, 0 ≤ digit_value c < b) l ∧ ∃ d l', l = digit_char d :: l' ∧ 0 < d < b.
Proof.
  induction n as [|n IH]; intros v k Hv Hk Hn; cbv zeta.
  { assert (k = O) as -> by lia. cbn in Hk. lia. }
  destruct k as [|k]; [cbn in Hk; lia|]. cbn [digits_of]. rewrite decide_False, digits_of_app by lia.
  pose proof (Z.div_mod v b ltac:(lia)) as E. pose proof (Z.mod_pos_bound v b ltac:(lia)) as Hm.
  assert (Hdig : digit_value (digit_char (v mod b)) = v mod b) by (apply digit_value_char; lia).
  destruct (decide (v / b = 0)) as [E0|E0].
  - assert (digits_of b n (v / b) [] = []) as -> by (rewrite E0; by destruct n). cbn [app]. split_and!.
    + unfold value_of. cbn [foldl]. rewrite Hdig. lia.
    + cbn. lia.
    + constructor; [rewrite Hdig; lia|constructor].
    + exists (v mod b), []. split; [done|lia].
  - assert (0 < v / b) by (pose proof (Z.div_pos v b); lia).
    destruct (IH (v / b) k) as (H1 & H2 & H3 & d & l' & Hl & Hd); [lia| |lia|].
    { apply Z.div_lt_upper_bound; [lia|]. rewrite Nat2Z.inj_succ, Z.pow_succ_r in Hk by lia. lia. }
    split_and!.
    + rewrite value_of_snoc, H1, Hdig. lia.
    + rewrite length_app. cbn. lia.
    + apply list.Forall_app. split; [done|]. constructor; [rewrite Hdig; lia|constructor].
    + exists d. eexists. split; [by rewrite Hl|done].
Qed.

Lemma numeral_spec v k : 0 ≤ v < b ^ Z.of_nat k → (1 ≤ k ≤ 64)%nat →
  value_of b (numeral b v) = v ∧ (List.length (numeral b v) ≤ k)%nat ∧ canonical b (numeral b v).
Proof.
  intros Hv Hk. unfold numeral. case_decide as E0.
  - subst v. split_and!; [by vm_compute|cbn; lia|]. split_and!; [done| |done]. constructor; [|constructor].
    assert (digit_value 48 = 0) as E by (by vm_compute). change (0 ≤ digit_value 48 < b). rewrite E. lia.
  - destruct (digits_of_spec 64 v k) as (H1 & H2 & H3 & d & l' & Hl & Hd); [lia..|]. split_and!; [done..|].
    split_and!; [by rewrite Hl|done|]. rewrite Hl. cbn [head]. intros [= E]. exfalso.
    assert (digit_value (digit_char d) = 0) as Ez by (by rewrite E). rewrite digit_value_char in Ez by lia. lia.
Qed.
End base.

(** ** The writers *)

Section writer.
Context {S : Type} (w : Z → M S unit).
Notation chars := (write_chars w).

Lemma bind_assoc {A B C} (m : M S A) (f : A → M S B) (g : B → M S C) s : ((m ≫= f) ≫= g) s = (m ≫= (λ a, f a ≫= g)) s.
Proof. unfold mbind, M_bind. by destruct (m s). Qed.
Lemma bind_ext {A B} (m : M S A) (f g : A → M S B) s : (∀ a s', f a s' = g a s') → (m ≫= f) s = (m ≫= g) s.
Proof. intros H. unfold mbind, M_bind. by destruct (m s). Qed.
Lemma bind_ext_l {A B} (m m' : M S A) (f : A → M S B) s : m s = m' s → (m ≫= f) s = (m' ≫= f) s.
Proof. intros H. unfold mbind, M_bind. by rewrite H. Qed.
Lemma bind_ret_r (m : M S unit) s : (m;; mret tt) s = m s.
Proof. unfold mbind, M_bind. by destruct (m s) as [[]|]. Qed.

Lemma chars_app {A} l1 l2 (k : M S A) s : (chars (l1 ++ l2);; k) s = (chars l1;; chars l2;; k) s.
Proof.
  revert s. induction l1 as [|c l1 IH]; intros s; [done|]. cbn [app write_chars]. rewrite !bind_assoc.
  apply bind_ext. intros [] s'. apply IH.
Qed.
Lemma chars_app' l1 l2 s : chars (l1 ++ l2) s = (chars l1;; chars l2) s.
Proof. rewrite <-bind_ret_r, chars_app. apply bind_ext. intros [] s'. apply bind_ret_r. Qed.
Lemma chars_one c s : chars [c] s = w c s.
Proof. cbn. apply bind_ret_r. Qed.

(** The digit loops, whatever the arithmetic. *)
Lemma digit_loop (b : Z) (cap : nat) (step : Z * list Z → M S (Z * list Z + list Z)) : 2 ≤ b →
  (∀ v buf s, 0 ≤ v → step (v, buf) s =
    if decide (v ≠ 0) then
      (if decide (List.length buf < cap)%nat then Done (inl (v / b, digit_char (v mod b) :: buf)) s else Stop Undefined s)
    else Done (inr buf) s) →
  ∀ n k v buf s, 0 ≤ v < b ^ Z.of_nat k → (k + List.length buf ≤ cap)%nat → (k ≤ n)%nat →
    loop (Datatypes.S n) step (v, buf) s = Done (digits_of b n v buf) s.
Proof.
  intros Hb Hstep. induction n as [|n IH]; intros k v buf s Hv Hc Hn; cbn [loop digits_of].
  - assert (k = O) as -> by lia. cbn in Hv. rewrite Hstep, decide_False by lia. done.
  - rewrite Hstep by lia. destruct (decide (v = 0)) as [E|E]; [by rewrite decide_False by tauto|].
    rewrite decide_True by done. destruct k as [|k]; [cbn in Hv; lia|]. rewrite decide_True by lia.
    apply (IH k); [|cbn; lia|lia]. split; [apply Z.div_pos; lia|]. apply Z.div_lt_upper_bound; [lia|].
    rewrite Nat2Z.inj_succ, Z.pow_succ_r in Hv by lia. lia.
Qed.

Lemma WriteUnsignedDecimal_spec v s : fits 64 v → WriteUnsignedDecimal w v s = chars (numeral 10 v) s.
Proof.
  intros Hv. unfold WriteUnsignedDecimal, numeral. destruct (decide (v = 0)); [by rewrite <-chars_one|].
  unfold mbind, M_bind. rewrite (digit_loop 10 20 decimal_step ltac:(lia)) with (k := 20%nat); [done| |split; [apply Hv|]|cbn; lia|lia].
  - intros v' buf s' Hv'. unfold decimal_step, push_digit. case_decide as E; [|done].
    assert (chr "0" + v' mod 10 = digit_char (v' mod 10)) as ->.
    { pose proof (Z.mod_pos_bound v' 10 ltac:(lia)) as Hm. generalize dependent (v' mod 10). intros d Hm.
      assert (Forall (λ d, chr "0" + d = digit_char d) (seqZ 0 10)) as H by (by repeat constructor).
      rewrite Forall_forall in H. apply H, list_elem_of_In, elem_of_seqZ. lia. }
    by case_decide.
  - destruct Hv. eapply Z.lt_trans; [eassumption|by vm_compute].
Qed.

Lemma WriteSignedDecimal_spec v s : - 2 ^ 63 ≤ v < 2 ^ 63 →
  WriteSignedDecimal w v s = chars (if decide (v < 0) then chr "-" :: numeral 10 (- v) else numeral 10 v) s.
Proof.
  intros Hv. unfold WriteSignedDecimal. case_decide.
  - cbn [write_chars]. apply bind_ext. intros [] s'. assert (u64 (- (v + 1)) ⊞ 1 = - v) as ->.
    { unfold u64. rewrite (Z.mod_small (- (v + 1))) by lia. rewrite Z.mod_small; lia. }
    apply WriteUnsignedDecimal_spec. unfold fits. lia.
  - unfold u64. rewrite Z.mod_small by lia. apply WriteUnsignedDecimal_spec. unfold fits. lia.
Qed.

Lemma WriteUnsignedHex_spec v s : fits 64 v → WriteUnsignedHex w v s = chars (str "0x" ++ numeral 16 v) s.
Proof.
  intros Hv. unfold WriteUnsignedHex. change (str "0x" ++ numeral 16 v) with (chr "0" :: chr "x" :: numeral 16 v). cbn [write_chars].
  apply bind_ext. intros [] s1. apply bind_ext. intros [] s2. unfold numeral. destruct (decide (v = 0)); [by rewrite <-chars_one|].
  unfold mbind, M_bind. rewrite (digit_loop 16 16 hex_step ltac:(lia)) with (k := 16%nat); [done| |exact Hv|cbn; lia|lia].
  intros v' buf s' Hv'. unfold hex_step, push_digit. case_decide; [|done].
  assert (nth (Z.to_nat (Z.land v' 15)) hex 0 = digit_char (v' mod 16)) as ->.
  { unfold digit_char. change 15 with (Z.ones 4). by rewrite Z.land_ones by lia. }
  rewrite Z.shiftr_div_pow2 by lia. by case_decide.
Qed.

(** ** Values *)

Definition hex_text (v : Z) : list Z := str "0x" ++ numeral 16 v.
Definition signed_text (v : Z) : list Z := if decide (v < 0) then chr "-" :: numeral 10 (- v) else numeral 10 v.

(** What an argument reads as. *)
Definition show (spec : FormatSpec) (a : arg) : list Z :=
  match spec, a with
  | _, ANullptr => hex_text 0
  | DEFAULT, ACString p text => if decide (p = 0) then str "(null)" else text
  | HEX, ACString p _ => hex_text p
  | _, AStringView text => text
  | _, APointer p => hex_text p
  | DEFAULT, ABool b => if b then str "true" else str "false"
  | HEX, ABool b => hex_text (if b then 1 else 0)
  | DEFAULT, AChar c => [c]
  | HEX, AChar c => hex_text (u8 c)
  | DEFAULT, ASigned v => signed_text (s64 v)
  | DEFAULT, AUnsigned v => numeral 10 (u64 v)
  | DEFAULT, (AEnumSigned v | AEnumUnsigned v) => signed_text (s64 v)
  | HEX, (ASigned v | AUnsigned v | AEnumSigned v | AEnumUnsigned v) => hex_text (u64 v)
  end.

(** Pointers are 64 bits wide. *)
Definition arg_ok (a : arg) : Prop := match a with ACString p _ | APointer p => fits 64 p | _ => True end.

Lemma u64_fits x : fits 64 (u64 x).
Proof. apply Z.mod_pos_bound. lia. Qed.
Lemma s64_range x : - 2 ^ 63 ≤ s64 x < 2 ^ 63.
Proof. unfold s64. pose proof (u64_fits x) as H. unfold fits in H. cbv zeta. case_decide; lia. Qed.

Lemma WriteFormattedValue_spec spec a s : arg_ok a → WriteFormattedValue w spec a s = chars (show spec a) s.
Proof.
  intros Ha. assert (fits 64 0) by done. assert (fits 64 1) by done.
  assert (H8 : ∀ c, u64 (u8 c) = u8 c).
  { intros c. apply Z.mod_small. pose proof (Z.mod_pos_bound c (2 ^ 8)). unfold u8. lia. }
  assert (F8 : ∀ c, fits 64 (u8 c)) by (intros c; rewrite <-H8; apply u64_fits).
  pose proof u64_fits. pose proof s64_range.
  destruct spec, a as [|p text|text|p|b|c|v|v|v|v]; cbn [WriteFormattedValue WriteHexValue WriteValue show arg_ok] in *; rewrite ?H8;
    try (by apply WriteUnsignedHex_spec); try (by apply WriteSignedDecimal_spec); try (by apply WriteUnsignedDecimal_spec); try done.
  - unfold WriteCString, c_string. by case_decide.
  - by rewrite <-chars_one.
  - by destruct b; apply WriteUnsignedHex_spec.
Qed.

(** ** Format strings *)

(** A format string by its parts. *)
Inductive piece : Set := Lit (c : Z) | Hole (spec : FormatSpec) | Bad.
Fixpoint pieces (fmt : list Z) : list piece :=
  match fmt with
  | [] => []
  | c :: t =>
      if decide (c = chr "{") then
        match t with
        | c1 :: t1 =>
            if decide (c1 = chr "{") then Lit (chr "{") :: pieces t1
            else if decide (c1 = chr "}") then Hole DEFAULT :: pieces t1
            else if decide (c1 = chr ":") then
              match t1 with
              | c2 :: c3 :: t3 => if decide ((c2 = chr "x" ∨ c2 = chr "X") ∧ c3 = chr "}") then Hole HEX :: pieces t3 else [Bad]
              | _ => [Bad]
              end
            else [Bad]
        | [] => [Bad]
        end
      else if decide (c = chr "}") then
        match t with
        | c1 :: t1 => if decide (c1 = chr "}") then Lit (chr "}") :: pieces t1 else [Bad]
        | [] => [Bad]
        end
      else Lit c :: pieces t
  end.

(** Each hole takes the next argument. *)
Fixpoint render (ps : list piece) (args : list arg) : list Z :=
  match ps with
  | [] => match args with [] => [] | _ => str "[extra arg]" end
  | Lit c :: ps' => c :: render ps' args
  | Hole spec :: ps' => match args with [] => str "[missing arg]" | a :: args' => show spec a ++ render ps' args' end
  | Bad :: _ => str "[invalid format]"
  end.
Definition format (fmt : option (list Z)) (args : list arg) : list Z :=
  match fmt with
  | None => str "(null)" ++ match args with [] => [] | _ => str "[extra arg]" end
  | Some text => render (pieces text) args
  end.

(** The literal text up to the next part that is not, and how the engine goes on. *)
Definition split_at (ps : list piece) : list Z * list piece :=
  (fix go ps := match ps with Lit c :: ps' => let '(l, r) := go ps' in (c :: l, r) | _ => ([], ps) end) ps.
Lemma split_lit c ps : split_at (Lit c :: ps) = (c :: (split_at ps).1, (split_at ps).2).
Proof. cbn. by destruct (_ ps). Qed.

Lemma render_split ps args : render ps args = (split_at ps).1 ++ render (split_at ps).2 args.
Proof. induction ps as [|[c|sp|] ps IH]; [done| |done|done]. rewrite split_lit. cbn [render fst snd app]. by rewrite IH. Qed.

(** Where the literal text ends. *)
Definition stops_at (r : list piece) (res : FormatResult * list Z) : Prop :=
  match r with
  | [] => fr_step res.1 = END
  | Hole sp :: ps => res.1 = MkFormatResult PLACEHOLDER sp ∧ ps = pieces res.2
  | _ => fr_step res.1 = INVALID
  end.
Definition bad_text (r : list piece) : list Z := match r with Bad :: _ => str "[invalid format]" | _ => [] end.

Lemma write_until_spec n : ∀ fmt, (List.length fmt < n)%nat → ∃ res, stops_at (split_at (pieces fmt)).2 res ∧
  ∀ s, write_until w fmt s = (chars ((split_at (pieces fmt)).1 ++ bad_text (split_at (pieces fmt)).2);; mret res) s.
Proof.
  induction n as [|n IH]; intros fmt Hn; [lia|]. destruct fmt as [|c t]; [by exists (MkFormatResult END DEFAULT, [])|].
  assert (Hbad : ∃ res, stops_at [Bad] res ∧ ∀ s, invalid_format w s = (chars ([] ++ bad_text [Bad]);; mret res) s) by (by eexists (MkFormatResult INVALID DEFAULT, [])).
  assert (Hlit : ∀ x fmt', (List.length fmt' < n)%nat → ∃ res, stops_at (split_at (Lit x :: pieces fmt')).2 res ∧
    ∀ s, (w x;; write_until w fmt') s = (chars ((split_at (Lit x :: pieces fmt')).1 ++ bad_text (split_at (Lit x :: pieces fmt')).2);; mret res) s).
  { intros x fmt' Hl. destruct (IH fmt' Hl) as (res & Hres & E). exists res. rewrite split_lit. split; [done|]. intros s.
    cbn [fst snd app write_chars]. rewrite bind_assoc. apply bind_ext. intros [] s'. apply E. }
  cbn [List.length] in Hn. cbn [write_until pieces]. destruct (decide (c = chr "{")).
  - destruct t as [|c1 t1]; [done|]. cbn [List.length] in Hn. destruct (decide (c1 = chr "{")); [apply Hlit; lia|].
    destruct (decide (c1 = chr "}")); [by eexists (MkFormatResult PLACEHOLDER DEFAULT, t1)|].
    destruct (decide (c1 = chr ":")) as [Ec|Ec]; [|by rewrite decide_False by tauto].
    destruct t1 as [|c2 [|c3 t3]]; cbn [nth drop].
    + rewrite decide_False; [done|]. intros (_ & [H|H] & _); vm_compute in H; discriminate.
    + rewrite decide_False; [done|]. intros (_ & _ & H); vm_compute in H; discriminate.
    + destruct (decide ((c2 = chr "x" ∨ c2 = chr "X") ∧ c3 = chr "}")); [|by rewrite decide_False by tauto].
      rewrite decide_True by tauto. by eexists (MkFormatResult PLACEHOLDER HEX, t3).
  - destruct (decide (c = chr "}")); [|apply Hlit; lia]. destruct t as [|c1 t1]; [done|]. cbn [List.length] in Hn.
    destruct (decide (c1 = chr "}")); [apply Hlit; lia|done].
Qed.

Lemma split_not_lit ps c r : (split_at ps).2 ≠ Lit c :: r.
Proof. induction ps as [|[c'|sp|] ps IH]; [done| |done|done]. by rewrite split_lit. Qed.

(** The engine after the literal text: what is left to write depends on the next part. *)
Lemma until_then (K : FormatResult * list Z → M S unit) text rest s :
  (∀ res s', stops_at (split_at (pieces text)).2 res →
    (chars (bad_text (split_at (pieces text)).2);; K res) s' = chars (rest (split_at (pieces text)).2) s') →
  (write_until w text ≫= K) s = chars ((split_at (pieces text)).1 ++ rest (split_at (pieces text)).2) s.
Proof.
  intros HK. destruct (write_until_spec _ text (Nat.lt_succ_diag_r _)) as (res & Hres & E).
  rewrite (bind_ext_l _ _ _ _ (E s)), bind_assoc, chars_app, chars_app'. apply bind_ext. intros [] s'. by apply HK.
Qed.

Lemma FormatToSink_spec args : ∀ fmt s, Forall arg_ok args → FormatToSink w fmt args s = chars (format fmt args) s.
Proof.
  induction args as [|a args IH]; intros [text|] s Ha; cbn [FormatToSink WriteUntilPlaceholder format];
    try (rewrite render_split; apply (until_then _ _ (λ r, render r _)); intros [[step sp] rest] s' Hres; pose proof (split_not_lit (pieces text)) as Hno;
      destruct (split_at (pieces text)).2 as [|[c|sp'|] r]; cbn [stops_at fst snd fr_step fr_spec bad_text render] in *; [| by destruct (Hno c r)| |]).
  - by subst step.
  - destruct Hres as [[= -> ->] _]. rewrite bool_decide_true by done. done.
  - subst step. apply bind_ret_r.
  - rewrite bind_assoc. apply bind_ret_r.
  - by subst step.
  - destruct Hres as [[= -> ->] ->]. apply Forall_cons_1 in Ha as [Ha1 Ha2].
    trans ((WriteFormattedValue w sp' a;; FormatToSink w (Some rest) args) s'); [done|].
    rewrite chars_app', (bind_ext_l _ (chars (show sp' a))) by (by apply WriteFormattedValue_spec). apply bind_ext. intros [] s2. by apply (IH (Some rest)).
  - subst step. apply bind_ret_r.
  - rewrite bind_assoc, chars_app'. apply bind_ext. intros [] s'. done.
Qed.

Lemma FormatLineToSink_spec fmt args s : Forall arg_ok args → FormatLineToSink w fmt args s = chars (format fmt args ++ [13; 10]) s.
Proof.
  intros Ha. unfold FormatLineToSink. rewrite chars_app'. rewrite (bind_ext_l _ (chars (format fmt args))) by (by apply FormatToSink_spec).
  apply bind_ext. intros [] s'. cbn [write_chars]. apply bind_ext. intros [] s2. by rewrite bind_ret_r.
Qed.
End writer.
