(* ===== verification/Console.v ===== *)
(** * The console, panics and host exceptions (lib/log, lib/panic, lib/registerDump, core/vmm/exceptions)

    The state of the whole program: the machine of the memory components, the devices, and the
    two driver singletons, which the first call of their [GetInstance] constructs. *)
From Stdlib Require Import String.
From S2P Require Import Prelude Machine Cpio Mmio Uart Gic Log.

Record platform (D : Type) : Type := MkPlatform {
  p_machine : machine;
  p_io : io D;
  p_uart : option Uart;
  p_gic : option Gic;
}.
Arguments MkPlatform {D} p_machine p_io p_uart p_gic.
Arguments p_machine {D} p.
Arguments p_io {D} p.
Arguments p_uart {D} p.
Arguments p_gic {D} p.

Section platform.
Context {D : Type} `{Bus D} `{Board}.
(** The bound on the polls of one character. *)
Context (spin : nat).

Definition set_uart (u : Uart) (p : platform D) : platform D := MkPlatform (p_machine p) (p_io p) (Some u) (p_gic p).
Definition set_gic (g : Gic) (p : platform D) : platform D := MkPlatform (p_machine p) (p_io p) (p_uart p) (Some g).

(** A step of one part of the state. *)
Definition in_machine {A} (m : M machine A) : M (platform D) A := λ p,
  match m (p_machine p) with
  | Done a s => Done a (MkPlatform s (p_io p) (p_uart p) (p_gic p))
  | Stop w s => Stop w (MkPlatform s (p_io p) (p_uart p) (p_gic p))
  end.
Definition in_io {A} (m : M (io D) A) : M (platform D) A := λ p,
  match m (p_io p) with
  | Done a s => Done a (MkPlatform (p_machine p) s (p_uart p) (p_gic p))
  | Stop w s => Stop w (MkPlatform (p_machine p) s (p_uart p) (p_gic p))
  end.

Definition Uart_GetInstance : M (platform D) Uart :=
  have ← gets p_uart;
  match have with
  | Some u => mret u
  | None =>
      u ← in_io (Uart_new spin);
      modify (set_uart u);;
      mret u
  end.

Definition Gic_GetInstance : M (platform D) Gic :=
  have ← gets p_gic;
  match have with
  | Some g => mret g
  | None =>
      g ← in_io Gic_new;
      modify (set_gic g);;
      mret g
  end.

(** [Log::sink], and the sinks of the panic path. *)
Definition sink (ch : Z) : M (platform D) unit :=
  u ← Uart_GetInstance;
  in_io (Putc spin u ch).

(** A string literal: its address, which is not null, is never printed. *)
Definition literal (s : string) : arg := ACString 1 (str s).

Definition Println (fmt : string) (args : list arg) : M (platform D) unit :=
  if NDEBUG then mret tt else FormatLineToSink sink (Some (str fmt)) args.
(** The overload for one string, which is printed as it is. *)
Definition Println_str (s : string) : M (platform D) unit :=
  if NDEBUG then mret tt else FormatLineToSink sink (Some (str "{}")) [literal s].
Definition Print (fmt : string) (args : list arg) : M (platform D) unit :=
  if NDEBUG then mret tt else FormatToSink sink (Some (str fmt)) args.
Definition Print_str (s : string) : M (platform D) unit :=
  if NDEBUG then mret tt else FormatToSink sink (Some (str "{}")) [literal s].

(** ** Panics *)

Definition line (fmt : string) (args : list arg) : M (platform D) unit := FormatLineToSink sink (Some (str fmt)) args.

Fixpoint dump_registers (i : Z) (ctx : list Z) : M (platform D) unit :=
  match ctx with
  | [] => mret tt
  | v :: ctx' =>
      line (if decide (i < 10) then "x{}:  {:x}" else "x{}: {:x}") [AUnsigned i; AUnsigned v];;
      dump_registers (i + 1) ctx'
  end.

Definition RegisterDump (ctx : list Z) : M (platform D) unit :=
  esr ← in_io (mrs_cpu ESR_EL2);
  far ← in_io (mrs_cpu FAR_EL2);
  elr ← in_io (mrs_cpu ELR_EL2);
  spsr ← in_io (mrs_cpu SPSR_EL2);
  let ec := u32 (Z.land (esr ≫ 26) 0x3F) in
  let iss := u32 (Z.land esr 0x1FFFFFF) in
  line "==========[EXCEPTION DUMP]============" [];;
  line "ESR_EL2(Syndrome): {:x}" [AUnsigned esr];;
  line "EC(Class):         {:x}" [AUnsigned ec];;
  line "ISS(Subclass):     {:x}" [AUnsigned iss];;
  line "ELR_EL2(Return):   {:x}" [AUnsigned elr];;
  line "SPSR(Status):      {:x}" [AUnsigned spsr];;
  line "FAR_EL2(Fault):    {:x}" [AUnsigned far];;
  dump_registers 0 ctx;;
  line "======================================" [].

Definition panic_banner (msg : option string) : M (platform D) unit :=
  line "=======================================" [];;
  line "=             HV PANIC                =" [];;
  line "=======================================" [];;
  match msg with Some text => line "[ERROR] {}" [literal text] | None => mret tt end.

(** The registers of the fault. *)
Definition panic_rest : M (platform D) unit :=
  esr ← in_io (mrs_cpu ESR_EL2);
  elr ← in_io (mrs_cpu ELR_EL2);
  far ← in_io (mrs_cpu FAR_EL2);
  spsr ← in_io (mrs_cpu SPSR_EL2);
  hpfar ← in_io (mrs_cpu HPFAR_EL2);
  vttbr ← in_machine (mrs VTTBR_EL2);
  vtcr ← in_machine (mrs VTCR_EL2);
  let ec := Z.land (esr ≫ 26) 0x3F in
  let iss := Z.land esr 0x1FFFFFF in
  let fault_ipa := u64 (Z.land hpfar 0xFFFFFFFFF0 ≪ 8) in
  line "[ESR_EL2]   {:x} EC={:x} ISS={:x}" [AUnsigned esr; AUnsigned ec; AUnsigned iss];;
  line "[ELR_EL2]   {:x}" [AUnsigned elr];;
  line "[FAR_EL2]   {:x}" [AUnsigned far];;
  line "[SPSR_EL2]  {:x}" [AUnsigned spsr];;
  line "[HPFAR_EL2] {:x} IPA={:x}" [AUnsigned hpfar; AUnsigned fault_ipa];;
  line "[VTTBR_EL2] {:x}" [AUnsigned vttbr];;
  line "[VTCR_EL2]  {:x}" [AUnsigned vtcr].

(** What [HvPanic] prints before its [wfe] loop. *)
Definition panic_report (msg : option string) : M (platform D) unit :=
  panic_banner msg;;
  panic_rest.

(** [HvPanic] with the registers saved at the trap; then [wfe] for ever. *)
Definition HvPanic_ctx {A} (msg : string) (ctx : list Z) : M (platform D) A :=
  panic_banner (Some msg);;
  RegisterDump ctx;;
  stop (Wfe msg).

(** [HvPanic] without: a component that panics stops with its message, and this is what the
    call then does. *)
Definition HvPanic_here {A} (msg : string) : M (platform D) A :=
  panic_report (Some msg);;
  stop (Wfe msg).
Definition reporting {A} (m : M (platform D) A) : M (platform D) A := λ p,
  match m p with
  | Stop (Panic msg) p' => HvPanic_here msg p'
  | r => r
  end.

(** ** Host exceptions *)

Record El2ExceptionFrame : Set := MkEl2ExceptionFrame {
  fr_x : list Z;      (** x0 to x30 *)
  fr_elr : Z;
  fr_frame_spsr : Z;
  fr_reserved : Z;
}.

Definition handle_el2_sync (frame : El2ExceptionFrame) : M (platform D) unit := HvPanic_ctx "[HV sync] was triggered" (fr_x frame).
Definition handle_el2_irq (frame : El2ExceptionFrame) : M (platform D) unit := HvPanic_ctx "[HV irq] was triggered" (fr_x frame).
Definition handle_el2_fiq (frame : El2ExceptionFrame) : M (platform D) unit := HvPanic_ctx "[HV fiq] was triggered" (fr_x frame).
Definition handle_el2_serror (frame : El2ExceptionFrame) : M (platform D) unit := HvPanic_ctx "[HV SError] was triggered" (fr_x frame).
Definition handle_unhandled (frame : El2ExceptionFrame) : M (platform D) unit :=
  HvPanic_ctx "[HV mysterious exception?] was triggered" (fr_x frame).
End platform.
