(* ===== verification/ConsoleProps.v ===== *)
(** * What reaches the console *)
From Stdlib Require Import String.
From S2P Require Import Prelude Machine PmmProps Cpio Mmio Uart Gic Log LogSpec Console.

(** ** Numerals *)

(** The number writers hand the writer the canonical numeral of the value - no leading zero,
    digits of the base, and reading it back gives the value - and nothing else; the digit
    buffers of 20 and 16 characters never overflow. *)
Lemma numbers_round_trip {S} (w : Z → M S unit) v s (Hv : fits 64 v) :
  WriteUnsignedDecimal w v s = write_chars w (numeral 10 v) s ∧ WriteUnsignedHex w v s = write_chars w (hex_text v) s ∧
  WriteSignedDecimal w (s64 v) s = write_chars w (signed_text (s64 v)) s ∧
  (value_of 10 (numeral 10 v) = v ∧ canonical 10 (numeral 10 v) ∧ (List.length (numeral 10 v) ≤ 20)%nat) ∧
  (value_of 16 (numeral 16 v) = v ∧ canonical 16 (numeral 16 v) ∧ (List.length (numeral 16 v) ≤ 16)%nat).
Proof.
  destruct Hv as [H0 H64].
  destruct (numeral_spec 10 ltac:(lia) v 20) as (A1 & A2 & A3); [split; [done|by eapply Z.lt_trans; [exact H64|vm_compute]]|lia|].
  destruct (numeral_spec 16 ltac:(lia) v 16) as (B1 & B2 & B3); [by split|lia|].
  split; [by apply WriteUnsignedDecimal_spec|]. split; [by apply WriteUnsignedHex_spec|].
  split; [apply WriteSignedDecimal_spec, s64_range|]. by split.
Qed.

Lemma numbers_round_trip_witness : value_of 10 (numeral 10 (2 ^ 64 - 1)) = 2 ^ 64 - 1 ∧ List.length (numeral 10 (2 ^ 64 - 1)) = 20%nat.
Proof.
  destruct (numbers_round_trip (S := unit) (λ _, mret tt) (2 ^ 64 - 1) tt) as (_ & _ & _ & [H1 _] & _); [by split|].
  split; [exact H1|by vm_compute].
Defined.

(** ** The wire *)

Section console.
Context {D : Type} `{Bus D} `{Board} (spin : nat).

(** The data register the driver writes, now or once constructed. *)
Definition console_base (p : platform D) : Z := match p_uart p with Some u => uart_base u | None => BSP_UART_BASE end.
(** What the device was sent; a console not yet constructed first greets. *)
Definition wire (p : platform D) : list Z :=
  sent (console_base p) (io_log (p_io p)) ++ (if p_uart p then [] else if NDEBUG then [] else map u8 greeting).

(** The device takes characters: a poll finds room within [spin] reads. *)
Context (base : Z) (Hdrain : ∀ d, drains base spin d).
(** No other register of the console is its data register. *)
Lemma base_apart off : 0 < off < 2 ^ 64 → base ⊞ off ≠ base ⊞ DR.
Proof.
  unfold u64, DR. intros Ho E. rewrite Z.add_0_r in E. apply Z.cong_iff_0 in E.
  replace (base + off - base) with off in E by lia. rewrite Z.mod_small in E; lia.
Qed.

(** A step that only prints: the text, on the wire, after what was there. *)
Definition says {A} (m : M (platform D) A) (text : list Z) (Q : A → Prop) : Prop := ∀ p, console_base p = base →
  runs m p (λ a p', wire p' = wire p ++ map u8 text ∧ console_base p' = base ∧ p_machine p' = p_machine p ∧ p_gic p' = p_gic p ∧ Q a).

Lemma says_ret {A} (a : A) (Q : A → Prop) : Q a → says (mret a) [] Q.
Proof. intros Ha p Hp. apply runs_ret. rewrite app_nil_r. done. Qed.

Lemma says_bind {A B} (m : M (platform D) A) (k : A → M (platform D) B) t1 t2 P Q :
  says m t1 P → (∀ a, P a → says (k a) t2 Q) → says (m ≫= k) (t1 ++ t2) Q.
Proof.
  intros Hm Hk p Hp. apply runs_bind. eapply runs_mono; [by apply Hm|]. cbv beta. intros a p1 (W1 & B1 & M1 & G1 & Ha).
  eapply runs_mono; [by apply Hk|]. cbv beta. intros b p2 (W2 & B2 & M2 & G2 & Hb).
  split_and!; [|done|congruence|congruence|done]. by rewrite W2, W1, map_app, app_assoc.
Qed.

Lemma Putc_says_io u ch s : uart_base u = base → runs (Putc spin u ch) s (λ _ s', sent base (io_log s') = sent base (io_log s) ++ [u8 ch]).
Proof.
  intros Hu. eapply runs_mono; [apply (Putc_spec spin); [rewrite Hu; apply Hdrain|lia]|]. cbv beta. rewrite Hu.
  intros _ s' (l & Hl & ->). rewrite !sent_app, (polls_sent _ _ Hl). cbn. by rewrite decide_True by done.
Qed.

Lemma put_string_io u text : ∀ s, uart_base u = base →
  runs (put_string spin u text) s (λ _ s', sent base (io_log s') = sent base (io_log s) ++ map u8 text).
Proof.
  induction text as [|c text IH]; intros s Hu; cbn [put_string map]; [apply runs_ret; by rewrite app_nil_r|].
  apply runs_bind. eapply runs_mono; [by apply Putc_says_io|]. cbv beta. intros _ s1 E1.
  eapply runs_mono; [by apply IH|]. cbv beta. intros _ s2 ->. rewrite E1. by rewrite <-app_assoc.
Qed.

Lemma Uart_new_io s : BSP_UART_BASE = base →
  runs (Uart_new spin) s (λ u s', u = MkUart base ∧ sent base (io_log s') = sent base (io_log s) ++ (if NDEBUG then [] else map u8 greeting)).
Proof.
  intros Hb. unfold Uart_new. rewrite Hb. apply runs_bind. unfold runs at 1, configure, mbind at 1, M_bind at 1, WriteAt, Write, modify. cbn [put_one uart_base].
  set (s1 := MkIo _ _). assert (E1 : sent base (io_log s1) = sent base (io_log s)).
  { unfold s1. cbn [io_log]. rewrite !sent_app. cbn [sent omap list_omap].
    rewrite !decide_False by (apply base_apart; by vm_compute). by rewrite !app_nil_r. }
  apply runs_bind. unfold when. destruct NDEBUG; cbn [negb].
  - apply runs_ret, runs_ret. by rewrite E1, app_nil_r.
  - eapply runs_mono; [by apply put_string_io|]. cbv beta. intros _ s2 E2. apply runs_ret. by rewrite E2, E1.
Qed.

Lemma GetInstance_spec p : console_base p = base → runs (Uart_GetInstance spin) p (λ u p',
  p_uart p' = Some u ∧ uart_base u = base ∧ wire p' = wire p ∧ p_machine p' = p_machine p ∧ p_gic p' = p_gic p).
Proof.
  intros Hp. unfold Uart_GetInstance. apply runs_bind. change (runs (gets p_uart) p ?Q) with (Q (p_uart p) p). cbv beta.
  unfold console_base in Hp. destruct (p_uart p) as [u|] eqn:Eu; [by apply runs_ret|].
  apply runs_bind. unfold runs at 1, in_io. pose proof (Uart_new_io (p_io p) Hp) as Hn. unfold runs in Hn.
  destruct (Uart_new spin (p_io p)) as [u s'|]; [|done]. destruct Hn as [-> Es].
  unfold runs, mbind, M_bind, modify, mret, M_ret. unfold wire, console_base. cbn [set_uart p_uart p_io p_machine p_gic uart_base].
  by rewrite Eu, Es, Hp, !app_nil_r.
Qed.

Lemma sink_says ch : says (sink spin ch) [ch] (λ _, True).
Proof.
  intros p Hp. apply runs_bind. eapply runs_mono; [by apply GetInstance_spec|]. cbv beta. intros u p1 (Eu & Hu & <- & <- & <-).
  unfold runs, in_io. pose proof (Putc_says_io u ch (p_io p1) Hu) as Hn. unfold runs in Hn.
  destruct (Putc spin u ch (p_io p1)) as [[] s'|]; [|done].
  unfold wire, console_base. cbn [p_uart p_io p_machine p_gic]. rewrite Eu, Hu, Hn, !app_nil_r. done.
Qed.

Lemma chars_says text : says (write_chars (sink spin) text) text (λ _, True).
Proof.
  induction text as [|c text IH]; cbn [write_chars]; [by apply says_ret|].
  change (c :: text) with ([c] ++ text). eapply says_bind; [apply sink_says|done].
Qed.

Lemma says_eq {A} (m m' : M (platform D) A) text Q : (∀ s, m s = m' s) → says m' text Q → says m text Q.
Proof. intros E Hm p Hp. unfold runs. rewrite E. by apply Hm. Qed.

Lemma line_says fmt args : Forall arg_ok args → says (line spin fmt args) (format (Some (str fmt)) args ++ [13; 10]) (λ _, True).
Proof. intros Ha. eapply says_eq; [intros s; by apply FormatLineToSink_spec|apply chars_says]. Qed.

(** Reads of CPU and system registers print nothing. *)
Lemma mrs_cpu_says r : says (in_io (mrs_cpu r)) [] (fits 64).
Proof.
  intros p Hp. unfold runs, in_io, mrs_cpu. destruct (bus_mrs r (io_dev (p_io p))) as [v d]. unfold wire, console_base. cbn [p_uart p_io p_machine p_gic io_log].
  rewrite sent_app. cbn [sent omap list_omap map]. rewrite !app_nil_r. split_and!; try done. apply u64_fits.
Qed.
Lemma mrs_says r : says (in_machine (mrs r)) [] (λ _, True).
Proof. intros p Hp. unfold runs, in_machine, mrs, gets. unfold wire, console_base. cbn [p_uart p_io p_machine p_gic map]. by rewrite !app_nil_r. Qed.

(** ** Messages *)

Definition text_line (fmt : string) (args : list arg) : list Z := format (Some (str fmt)) args ++ [13; 10].


Definition banner_text (msg : string) : list Z :=
  text_line "=======================================" [] ++ text_line "=             HV PANIC                =" [] ++
  text_line "=======================================" [] ++ text_line "[ERROR] {}" [literal msg].

Lemma literal_ok s : Forall arg_ok [literal s].
Proof. by repeat constructor. Qed.

Lemma banner_says msg : says (panic_banner spin (Some msg)) (banner_text msg) (λ _, True).
Proof.
  unfold panic_banner, banner_text. do 3 (eapply says_bind; [by apply line_says|]; intros _ _). apply line_says, literal_ok.
Qed.

(** Reading a register, then the rest. *)
Lemma mrs_then {A} r (k : Z → M (platform D) A) text Q : (∀ v, fits 64 v → says (k v) text Q) → says (in_io (mrs_cpu r) ≫= k) text Q.
Proof. intros Hk. by apply (says_bind _ _ [] text _ _ (mrs_cpu_says r)). Qed.
Lemma sys_then {A} r (k : Z → M (platform D) A) text Q : (∀ v, says (k v) text Q) → says (in_machine (mrs r) ≫= k) text Q.
Proof. intros Hk. apply (says_bind _ _ [] text _ _ (mrs_says r)). eauto. Qed.

Lemma unsigned_ok l : Forall arg_ok (map AUnsigned l).
Proof. induction l; by constructor. Qed.

(** A report is the banner with the message, then lines of registers. *)
Definition lines_of_text (t : list Z) : Prop := ∃ ls : list (string * list Z), t = flat_map (λ l, text_line l.1 (map AUnsigned l.2)) ls.

Definition says_lines {A} (m : M (platform D) A) (Q : A → Prop) : Prop := ∀ p, console_base p = base →
  runs m p (λ a p', (∃ t, lines_of_text t ∧ wire p' = wire p ++ map u8 t) ∧ console_base p' = base ∧ p_machine p' = p_machine p ∧ p_gic p' = p_gic p ∧ Q a).

Lemma lines_bind {A B} (m : M (platform D) A) (k : A → M (platform D) B) P Q :
  says_lines m P → (∀ a, P a → says_lines (k a) Q) → says_lines (m ≫= k) Q.
Proof.
  intros Hm Hk p Hp. apply runs_bind. eapply runs_mono; [by apply Hm|]. cbv beta. intros a p1 ((t1 & [ls1 E1] & W1) & B1 & M1 & G1 & Ha).
  eapply runs_mono; [by apply Hk|]. cbv beta. intros b p2 ((t2 & [ls2 E2] & W2) & B2 & M2 & G2 & Hb).
  split_and!; [|done|congruence|congruence|done]. exists (t1 ++ t2). split.
  - exists (ls1 ++ ls2). by rewrite flat_map_app, E1, E2.
  - by rewrite W2, W1, map_app, app_assoc.
Qed.
Lemma lines_one {A} (m : M (platform D) A) fmt vs Q : says m (text_line fmt (map AUnsigned vs)) Q → says_lines m Q.
Proof.
  intros Hm p Hp. eapply runs_mono; [by apply Hm|]. cbv beta. intros a p' (W & B & M & G & Ha). split_and!; try done.
  eexists. split; [|exact W]. exists [(fmt, vs)]. cbn. by rewrite app_nil_r.
Qed.
Lemma lines_none {A} (m : M (platform D) A) Q : says m [] Q → says_lines m Q.
Proof.
  intros Hm p Hp. eapply runs_mono; [by apply Hm|]. cbv beta. intros a p' (W & B & M & G & Ha). split_and!; try done.
  exists []. split; [by exists []|done].
Qed.
Lemma lines_line fmt vs : says_lines (line spin fmt (map AUnsigned vs)) (λ _, True).
Proof. apply (lines_one _ fmt vs), line_says, unsigned_ok. Qed.

Lemma dump_lines ctx : ∀ i, says_lines (dump_registers spin i ctx) (λ _, True).
Proof.
  induction ctx as [|v ctx IH]; intros i; cbn [dump_registers]; [by apply lines_none, says_ret|].
  eapply lines_bind; [apply (lines_line _ [i; v])|eauto].
Qed.

Ltac lines_step :=
  lazymatch goal with
  | |- says_lines (in_io (mrs_cpu ?r) ≫= _) _ => eapply lines_bind; [apply lines_none, mrs_cpu_says|]; intros ? _
  | |- says_lines (in_machine (mrs ?r) ≫= _) _ => eapply lines_bind; [apply lines_none, mrs_says|]; intros ? _
  | |- says_lines (line _ _ [];; _) _ => eapply lines_bind; [apply (lines_line _ [])|]; intros _ _
  | |- says_lines (line _ _ [AUnsigned ?a];; _) _ => eapply lines_bind; [apply (lines_line _ [a])|]; intros _ _
  | |- says_lines (line _ _ [AUnsigned ?a; AUnsigned ?b];; _) _ => eapply lines_bind; [apply (lines_line _ [a; b])|]; intros _ _
  | |- says_lines (line _ _ [AUnsigned ?a; AUnsigned ?b; AUnsigned ?c];; _) _ => eapply lines_bind; [apply (lines_line _ [a; b; c])|]; intros _ _
  | |- says_lines (dump_registers _ _ _;; _) _ => eapply lines_bind; [apply dump_lines|]; intros _ _
  | |- says_lines (line _ _ []) _ => apply (lines_line _ [])
  | |- says_lines (line _ _ [AUnsigned ?a]) _ => apply (lines_line _ [a])
  end; cbv zeta.

Lemma panic_rest_lines : says_lines (panic_rest spin) (λ _, True).
Proof. unfold panic_rest. repeat lines_step. Qed.
Lemma RegisterDump_lines ctx : says_lines (RegisterDump spin ctx) (λ _, True).
Proof. unfold RegisterDump. repeat lines_step. Qed.

Lemma after_banner {A} (m : M (platform D) unit) msg p : says_lines m (λ _, True) → console_base p = base →
  ∃ t p', lines_of_text t ∧ (panic_banner spin (Some msg);; m;; stop (A := A) (Wfe msg)) p = Stop (Wfe msg) p' ∧
    wire p' = wire p ++ map u8 (banner_text msg ++ t) ∧ p_machine p' = p_machine p.
Proof.
  intros Hm Hp. destruct (runs_inv _ _ _ (banner_says msg p Hp)) as (a & p1 & E1 & W1 & B1 & M1 & _).
  destruct (runs_inv _ _ _ (Hm p1 B1)) as ([] & p2 & E2 & (t & Ht & W2) & _ & M2 & _). exists t, p2. split_and!; [done| | |congruence].
  - unfold mbind, M_bind. by rewrite E1, E2.
  - by rewrite W2, W1, map_app, app_assoc.
Qed.

Lemma panic_report_split {A} msg p : HvPanic_here spin (A := A) msg p =
  (panic_banner spin (Some msg);; (panic_rest spin);; stop (Wfe msg)) p.
Proof. unfold HvPanic_here, panic_report. rewrite bind_assoc. done. Qed.

End console.

(** A console that is always ready. *)
#[export] Instance ready_bus : Bus unit := {| bus_read _ _ _ := (0, tt); bus_write _ _ _ _ := tt; bus_mrs _ _ := (0, tt); bus_msr _ _ _ := tt |}.
Definition fvp_board (ndebug : bool) : Board :=
  Build_Board 0x1c090000 0x1000 0x2f000000 0x10000 0x2c000000 0x2000 0x2c010000 0x2000 0x2c02f000 0x2000 ndebug.
Lemma ready_drains base d : drains (D := unit) base 1 d.
Proof. left. by vm_compute. Qed.
Definition fresh_platform : platform unit := MkPlatform pool0 (MkIo tt []) None None.


