(* ===== verification/Boot.v ===== *)
(** * The MMIO maps of the trees, and the entry point (core/deviceTree, core/main.cpp) *)
From Stdlib Require Import String.
From S2P Require Import Prelude Machine Pmm MmioMap HostMmu Cpio Fdt BootLoader Vcpu Psci Vmm.
From S2P Require Import DeviceTree Mmio Uart Gic Log Console.

Section boot.
Context {D : Type} `{Bus D} `{Board}.
(** The bounds on the polls of a character and on the tokens of a tree. *)
Context (spin fuel : nat).

Definition region (n : DeviceNode) (i : nat) : DeviceRegion := nth i (regions n) (MkDeviceRegion 0 0).
Definition panic {A} (msg : string) : M (platform D) A := stop (Panic msg).

Definition Uart_SetBase (base : Z) : M (platform D) unit :=
  u ← Uart_GetInstance spin;
  u' ← in_io (Uart.SetBase base u);
  modify (set_uart u').
Definition Gic_SetBases (dist cpu hv vcpu : Z) : M (platform D) unit :=
  g ← Gic_GetInstance;
  g' ← in_io (SetBases dist cpu hv vcpu g);
  modify (set_gic g').

(** [expected] and [actual] of [GetHostMmio]. *)
Definition expected_mmio : list Z :=
  [BSP_UART_BASE; BSP_UART_SIZE; BSP_GIC_DISTRIBUTOR_BASE; BSP_GIC_DISTRIBUTOR_SIZE; BSP_GIC_CPU_BASE;
   BSP_GIC_CPU_SIZE; BSP_GIC_HV_BASE; BSP_GIC_HV_SIZE; BSP_GIC_VCPU_BASE; BSP_GIC_VCPU_SIZE].
Definition actual_mmio (uart gic : DeviceNode) : list Z :=
  [dr_base (region uart 0); dr_size (region uart 0); dr_base (region gic 0); dr_size (region gic 0); dr_base (region gic 1);
   dr_size (region gic 1); dr_base (region gic 2); dr_size (region gic 2); dr_base (region gic 3); dr_size (region gic 3)].

Fixpoint add_blocks (rs : list DeviceRegion) (map : MmioMap) : M (platform D) MmioMap :=
  match rs with
  | [] => mret map
  | r :: rs' =>
      let '(ok, map) := AddBlocks map (dr_base r) (dr_size r) in
      if negb ok then panic "[ERROR][DTB] host GIC mapping failed" else add_blocks rs' map
  end.

(** The devices found: checking them against the board, binding the drivers, building the map. *)
Definition host_mmio (uart gic : DeviceNode) : M (platform D) MmioMap :=
  if negb (isFound uart) || bool_decide (regionCount uart = 0%nat) then panic "[ERROR][DTB] host UART is missing"
  else if negb (isFound gic) || bool_decide (regionCount gic < 4)%nat then panic "[ERROR][DTB] host GIC is missing required regions"
  else
    let isMatch := bool_decide (expected_mmio = actual_mmio uart gic) in
    Uart_SetBase (dr_base (region uart 0));;
    if negb isMatch then panic "[ERROR][DTB] BSP constants do not match the firmware device tree"
    else
      Gic_SetBases (dr_base (region gic 0)) (dr_base (region gic 1)) (dr_base (region gic 2)) (dr_base (region gic 3));;
      let '(ok, map) := AddBlocks [] (dr_base (region uart 0)) (dr_size (region uart 0)) in
      if negb ok then panic "[ERROR][DTB] host UART mapping failed"
      else add_blocks (regions gic) map.

Definition GetHostMmio (m_dtb : Z) : M (platform D) MmioMap :=
  uart ← in_machine (FindDevice m_dtb fuel kUartCompatible);
  gic ← in_machine (FindDevice m_dtb fuel kGicCompatible);
  host_mmio uart gic.

Fixpoint add_pages (rs : list DeviceRegion) (map : MmioMap) : M (platform D) MmioMap :=
  match rs with
  | [] => mret map
  | r :: rs' =>
      let '(ok, map) := AddPages map (dr_base r) (dr_base r) (dr_size r) in
      if negb ok then panic "[ERROR][DTB] guest GIC mapping failed" else add_pages rs' map
  end.

Definition kBringUpUartIpa : Z := 0x107D001000.

Definition GetGuestMmio (m_dtb : Z) : M (platform D) MmioMap :=
  let map : MmioMap := [] in
  gic ← in_machine (FindDevice m_dtb fuel kGicCompatible);
  uart ← in_machine (FindDevice m_dtb fuel kUartCompatible);
  map ← (if negb (isFound gic) || bool_decide (regionCount gic = 0%nat) then
           Println_str spin "[DTB][WARN] guest tree has no GIC; guest gets no interrupt controller";;
           mret map
         else add_pages (take 2 (regions gic)) map);
  map ← (if negb (isFound uart) || bool_decide (regionCount uart = 0%nat) then
           Println_str spin "[DTB][WARN] guest tree has no PL011; guest console not mapped";;
           mret map
         else
           let r := region uart 0 in
           let '(ok, map) := AddPages map (dr_base r) (dr_base r) (dr_size r) in
           if negb ok then panic "[ERROR][DTB] guest console mapping failed" else mret map);
  if negb (Covers map kBringUpUartIpa) then
    let '(ok, map) := AddPages map kBringUpUartIpa BSP_UART_BASE PageTable.SIZE_4KB in
    if negb ok then panic "[ERROR][DTB] bring up console mapping failed" else mret map
  else mret map.

(** ** The entry point *)

(** The linker's array of constructors, and the image's bounds. *)
Context (init_array : list (M (platform D) unit)) (kernelBase kernelEnd : Z).
(** What the guest does between two exits: see [Vmm]. *)
Context (vcpu_run : io D → machine → Vcpu → io D * machine * Vcpu * VcpuExit) (exits : nat).

Fixpoint RunGlobalConstructors (ctors : list (M (platform D) unit)) : M (platform D) unit :=
  match ctors with
  | [] => mret tt
  | ctor :: ctors' => ctor;; RunGlobalConstructors ctors'
  end.

(** The loop of the virtual machine [vm]. *)
Definition run_vm (vm : Vm) : M (platform D) (RunError + VmState) := λ p,
  match Run vcpu_run exits (MkVmm (p_io p) (p_machine p) vm) with
  | Done r s => Done r (MkPlatform (v_machine s) (v_world s) (p_uart p) (p_gic p))
  | Stop w s => Stop w (MkPlatform (v_machine s) (v_world s) (p_uart p) (p_gic p))
  end.

Definition error_code (e : Error) : Z :=
  match e with
  | NONE => 0 | INVALID_REGION => 1 | TRUNCATED => 2 | BAD_MAGIC => 3 | BAD_FIELD => 4 | BAD_NAME => 5
  | UNSUPPORTED_TYPE => 6 | DUPLICATE_PATH => 7 | MISSING_TRAILER => 8 | BAD_TRAILER => 9
  end.
Definition state_code (s : VmState) : Z :=
  match s with READY => 0 | RUNNING => 1 | SHUTDOWN => 2 | RESET_REQUESTED => 3 | FAULTED => 4 end.

Definition guest_config (layout : GuestLayout) : VmConfig :=
  MkVmConfig "Linux VM" GUEST_IPA_BASE (l_ramHostPa layout) GUEST_RAM_SIZE 1 (kernelIpa layout) (dtbIpa layout).

(** Once the archive is loaded: the guest of its layout. *)
Definition guest_phase (layout : GuestLayout) : M (platform D) unit :=
  Println_str spin "[Guest] Linux guest archive loaded";;
  windows ← GetGuestMmio (IpaToHostPa layout (dtbIpa layout));
  vm ← in_machine (Vm_new (guest_config layout) windows);
  Println_str spin "[VM] Guest Kernel running";;
  result ← run_vm vm;
  match result with
  | inr st => Println spin "[VM] Guest stopped state={}" [AUnsigned (state_code st)]
  | inl INVALID_STATE => Println spin "[VM] Run rejected error={}" [AUnsigned 0]
  end;;
  stop (Wfe "[VM] stopped").

Definition hmain_body (dtb : Z) : M (platform D) unit :=
  RunGlobalConstructors init_array;;
  Println_str spin "[DTB] Attempting to parse device tree blob";;
  memoryMap ← in_machine (ParseMemoryMap dtb fuel);
  Println_str spin "[DTB] Succesfully parsed device tree blob";;
  Println_str spin "[PMM] Attempting to bring up PMM";;
  in_machine (SetMemoryMap kernelBase kernelEnd memoryMap);;
  Println_str spin "[PMM] Successfully brought up PMM";;
  Println spin "[MM] Memory Pool Size={:x}" [AUnsigned (memSize memoryMap)];;
  Println_str spin "[HostMmu] Attempting to bring up host MMU";;
  hostMmu ← in_machine HostMmu_new;
  devices ← GetHostMmio dtb;
  in_machine (HostMmu.Enable hostMmu devices);;
  Println_str spin "[HostMmu] Successfully host MMU is brought up";;
  Println_str spin "[Guest] Attempting to load Linux guest archive";;
  bytes ← gets (λ p, bytes_at (mc_mem (p_machine p)) (PaToVa (cpioArchiveBase memoryMap)) (Z.to_nat (cpioArchiveSize memoryMap)));
  archive ← in_machine (defined (Archive_new (PaToVa (cpioArchiveBase memoryMap)) bytes));
  '(loaded, layout) ← in_machine (Load archive);
  if negb loaded then
    Println spin "[Guest] archive error={}" [AUnsigned (error_code (m_error archive))];;
    panic "[ERROR][VM] Failed to spin up Linux VM"
  else
    guest_phase layout.

(** A panic anywhere in it prints its report. *)
Definition hmain (dtb : Z) : M (platform D) unit := reporting spin (hmain_body dtb).
End boot.
