(* ===== verification/BootProps.v ===== *)
(** * The windows of the host and of the guest, and the entry point *)
From Stdlib Require Import String.
From S2P Require Import Prelude Machine Pmm PmmProps PageTable MmioMap HostMmu Cpio Fdt BootLoader.
From S2P Require Import BootLoaderProps Vcpu Psci Vmm DeviceTree DeviceTreeProps.
From S2P Require Import Mmio Uart Gic GicReset Log LogSpec Console ConsoleProps Boot.

(** ** Windows *)

(** A region that does not reach the top of the address space. *)
Definition region_ok (r : DeviceRegion) : Prop := 0 ≤ dr_base r ∧ 0 ≤ dr_size r ∧ dr_base r + dr_size r < 2 ^ 63.
Definition in_region (a : Z) (r : DeviceRegion) : Prop := dr_base r ≤ a < dr_base r + dr_size r.

Lemma Covers_window m w a : w ∈ m → base w ≤ a < base w + size w → base w + size w < 2 ^ 64 → 0 ≤ base w → Covers m a = true.
Proof.
  intros Hw Ha Hs H0. unfold Covers. apply existsb_exists. exists w. rewrite <-list_elem_of_In. split; [done|].
  unfold u64. rewrite Z.mod_small by lia. apply andb_true_iff. rewrite Z.leb_le, Z.ltb_lt. lia.
Qed.

Lemma Covers_prefix m m' a : m `prefix_of` m' → Covers m a = true → Covers m' a = true.
Proof. intros [k ->]. unfold Covers. rewrite existsb_app. by intros ->. Qed.

(** Adding a region's blocks, with room left. *)
Lemma AddBlocks_spec m r : map_wf m → region_ok r → (length m < MMIO_MAX_WINDOWS)%nat → ∃ m', AddBlocks m (dr_base r) (dr_size r) = (true, m') ∧
  map_wf m' ∧ m `prefix_of` m' ∧ (length m' ≤ S (length m))%nat ∧ ∀ a, in_region a r → Covers m' a = true.
Proof.
  intros Hwf (Hb & Hs & He) Hroom. destruct (AddBlocks_eq m _ _ Hb Hs He) as (start & end_ & -> & Hsm & Hem & H1 & H2).
  pose proof (Add_spec m (MkMmioWindow start start (end_ - start) false) Hwf) as Ha.
  assert (Hlen : (length (Add m (MkMmioWindow start start (end_ - start) false)).2 ≤ S (length m))%nat).
  { unfold Add. destruct (existsb _ m); cbn [snd]; [lia|]. case_decide; cbn [snd]; [lia|]. rewrite length_app. cbn. lia. }
  destruct (Add m _) as [ok m']. destruct Ha as (Hwf' & Hpre & Hin & _ & Hfull). cbn [snd] in Hlen.
  destruct ok; [|destruct (Hfull eq_refl); lia]. exists m'. split_and!; try done. intros a [Ha1 Ha2].
  apply (Covers_window m' (MkMmioWindow start start (end_ - start) false)); cbn [base size]; [by apply Hin|lia..| |].
  - assert (2 ^ 63 + 2 ^ 21 < 2 ^ 64) by done. lia.
  - assert (0 ≤ start); [|done]. apply Z.mod_divide in Hsm as [q Hq]; [|done]. subst start. assert (0 < q * 2 ^ 21 + 2 ^ 21) by lia. lia.
Qed.

Section maps.
Context {D : Type} `{Bus D} `{Board} (spin fuel : nat).

Lemma add_blocks_spec rs : ∀ m (p : platform D), map_wf m → Forall region_ok rs → (length m + length rs ≤ MMIO_MAX_WINDOWS)%nat →
  ∃ m', add_blocks rs m p = Done m' p ∧ map_wf m' ∧ m `prefix_of` m' ∧ ∀ r a, r ∈ rs → in_region a r → Covers m' a = true.
Proof.
  induction rs as [|r rs IH]; intros m p Hwf Hrs Hroom; cbn [add_blocks].
  - exists m. split_and!; [done..|]. by intros r a ?%elem_of_nil.
  - apply Forall_cons_1 in Hrs as [Hr Hrs]. cbn [List.length] in Hroom.
    destruct (AddBlocks_spec m r Hwf Hr ltac:(lia)) as (m1 & -> & Hwf1 & Hp1 & Hl1 & Hc1). cbn [negb].
    destruct (IH m1 p Hwf1 Hrs ltac:(lia)) as (m2 & -> & Hwf2 & Hp2 & Hc2). exists m2. split_and!; [done|done|by etrans|].
    intros r' a [-> |Hin]%elem_of_cons Ha; [by eapply Covers_prefix; [|apply Hc1]|by eapply Hc2].
Qed.

(** ** The host's devices *)

(** The firmware tree describes the board the image was built for. *)
Definition host_devices (uart gic : DeviceNode) : Prop :=
  isFound uart = true ∧ regionCount uart ≠ 0%nat ∧ isFound gic = true ∧ (4 ≤ regionCount gic)%nat ∧ expected_mmio = actual_mmio uart gic.
#[export] Instance host_devices_dec uart gic : Decision (host_devices uart gic).
Proof. unfold host_devices. apply _. Defined.

(** The drivers answer at the board's addresses. *)
Definition drivers_bound (p : platform D) : Prop :=
  p_uart p = Some (MkUart BSP_UART_BASE) ∧ ∃ n, p_gic p = Some (MkGic BSP_GIC_DISTRIBUTOR_BASE BSP_GIC_CPU_BASE BSP_GIC_HV_BASE BSP_GIC_VCPU_BASE n).

Lemma Uart_SetBase_spec b p : (∀ d, drains (console_base p) spin d) → ∃ p', Uart_SetBase spin b p = Done tt p' ∧
  p_uart p' = Some (MkUart b) ∧ p_gic p' = p_gic p ∧ p_machine p' = p_machine p.
Proof.
  intros Hd. destruct (runs_inv _ _ _ (GetInstance_spec spin (console_base p) Hd p eq_refl)) as ([ub] & p1 & E & Eu & _ & _ & Em & Eg).
  unfold Uart_SetBase, mbind, M_bind. rewrite E. unfold in_io, Uart.SetBase. cbn [uart_base].
  case_decide as Eb; eexists; (split; [reflexivity|]); cbn; [subst b|]; by rewrite Eg, Em.
Qed.

Lemma Gic_SetBases_spec d c h v p : ∃ p' n, Gic_SetBases d c h v p = Done tt p' ∧
  p_gic p' = Some (MkGic d c h v n) ∧ p_uart p' = p_uart p ∧ p_machine p' = p_machine p.
Proof.
  unfold Gic_SetBases. assert (∃ g p1, Gic_GetInstance p = Done g p1 ∧ p_uart p1 = p_uart p ∧ p_machine p1 = p_machine p) as (g & p1 & E & Eu & Em).
  { unfold Gic_GetInstance, mbind, M_bind, gets. destruct (p_gic p) as [g|]; [by exists g, p|]. unfold in_io, Gic_new.
    destruct (Reset_spec (MkGic BSP_GIC_DISTRIBUTOR_BASE BSP_GIC_CPU_BASE BSP_GIC_HV_BASE BSP_GIC_VCPU_BASE 0) (p_io p)) as (? & ? & ? & _ & _ & -> & _).
    by eexists _, _. }
  unfold mbind, M_bind. rewrite E. unfold in_io, SetBases. case_decide as Eb.
  - destruct Eb as (-> & -> & -> & ->). destruct g as [d' c' h' v' n]. eexists _, n. split; [reflexivity|]. by cbn; rewrite Eu, Em.
  - destruct (Reset_spec (MkGic d c h v (m_numLr g)) (p_io p1)) as (? & ? & ? & _ & _ & -> & _). eexists _, _. split; [reflexivity|]. by cbn; rewrite Eu, Em.
Qed.

Lemma FindDevice_then {A} m_dtb devices node (k : DeviceNode → M (platform D) A) p :
  FindDevice m_dtb fuel devices (p_machine p) = Done node (p_machine p) →
  (in_machine (FindDevice m_dtb fuel devices) ≫= k) p = k node p.
Proof. intros E. unfold mbind, M_bind, in_machine. rewrite E. by destruct p. Qed.

Lemma host_mmio_refused p uart gic : (∀ d, drains (console_base p) spin d) → ¬ host_devices uart gic →
  ∃ msg p', host_mmio spin uart gic p = Stop (Panic msg) p'.
Proof.
  intros Hd Hno. unfold host_mmio. destruct (isFound uart) eqn:Fu; cbn [negb orb]; [|by eexists _, _].
  case_bool_decide as Cu; [by eexists _, _|]. destruct (isFound gic) eqn:Fg; cbn [negb orb]; [|by eexists _, _].
  case_bool_decide as Cg; [by eexists _, _|].
  destruct (Uart_SetBase_spec (dr_base (region uart 0)) p Hd) as (p1 & E1 & _).
  unfold mbind at 1, M_bind at 1. rewrite E1. case_bool_decide as Em; cbn [negb]; [|by eexists _, _].
  destruct Hno. split_and!; (done || lia).
Qed.

Lemma host_mmio_accepted p uart gic : (∀ d, drains (console_base p) spin d) → host_devices uart gic →
  region_ok (region uart 0) → Forall region_ok (regions gic) → (regionCount gic < MMIO_MAX_WINDOWS)%nat →
  ∃ map p', host_mmio spin uart gic p = Done map p' ∧ drivers_bound p' ∧ p_machine p' = p_machine p ∧ map_wf map ∧
    ∀ r a, r = region uart 0 ∨ r ∈ regions gic → in_region a r → Covers map a = true.
Proof.
  intros Hd (Fu & Cu & Fg & Cg & Em) Hu Hg Hroom. unfold host_mmio. rewrite Fu, Fg. cbn [negb orb].
  rewrite (bool_decide_false (regionCount uart = _)), (bool_decide_false (regionCount gic < 4)%nat), bool_decide_true by (done || lia).
  destruct (Uart_SetBase_spec (dr_base (region uart 0)) p Hd) as (p1 & E1 & U1 & G1 & M1).
  unfold mbind at 1, M_bind at 1. rewrite E1. cbn [negb].
  unfold expected_mmio, actual_mmio in Em. injection Em as A1 A2 A3 A4 A5 A6 A7 A8 A9 A10.
  destruct (Gic_SetBases_spec (dr_base (region gic 0)) (dr_base (region gic 1)) (dr_base (region gic 2)) (dr_base (region gic 3)) p1) as (p2 & n & E2 & G2 & U2 & M2).
  unfold mbind at 1, M_bind at 1. rewrite E2.
  assert (map_wf []) as Hwf by (split; [cbn; unfold MMIO_MAX_WINDOWS; lia|constructor]).
  destruct (AddBlocks_spec [] (region uart 0) Hwf Hu) as (m1 & -> & Hwf1 & _ & Hl1 & Hc1); [cbn; unfold MMIO_MAX_WINDOWS; lia|].
  destruct (add_blocks_spec (regions gic) m1 p2 Hwf1 Hg) as (m2 & E3 & Hwf2 & Hp2 & Hc2); [unfold regionCount in Hroom; cbn in Hl1; lia|].
  exists m2, p2. split_and!; [done| |congruence|done|].
  - split; [rewrite U2, U1; congruence|]. exists n. rewrite G2. congruence.
  - intros r a [-> |Hr] Ha; [by eapply Covers_prefix; [|apply Hc1]|by eapply Hc2].
Qed.

(** C34: [GetHostMmio] panics unless the firmware tree has a console and an interrupt controller with
    the very regions the image was built for; otherwise (up to seven controller regions) it
    binds both drivers to them and returns a map, within capacity and without duplicates, whose
    windows cover every byte of every region. *)
Theorem GetHostMmio_correct m_dtb p uart gic
    (Huart : FindDevice m_dtb fuel kUartCompatible (p_machine p) = Done uart (p_machine p))
    (Hgic : FindDevice m_dtb fuel kGicCompatible (p_machine p) = Done gic (p_machine p))
    (Hd : ∀ d, drains (console_base p) spin d) :
  (¬ host_devices uart gic → ∃ msg p', GetHostMmio spin fuel m_dtb p = Stop (Panic msg) p') ∧
  (host_devices uart gic → region_ok (region uart 0) → Forall region_ok (regions gic) → (regionCount gic < MMIO_MAX_WINDOWS)%nat →
    ∃ map p', GetHostMmio spin fuel m_dtb p = Done map p' ∧ drivers_bound p' ∧ p_machine p' = p_machine p ∧ map_wf map ∧
      ∀ r a, r = region uart 0 ∨ r ∈ regions gic → in_region a r → Covers map a = true).
Proof.
  unfold GetHostMmio. rewrite (FindDevice_then _ _ uart), (FindDevice_then _ _ gic) by done. split.
  - by apply host_mmio_refused.
  - by apply host_mmio_accepted.
Qed.

(** ** The guest's windows *)

(** The pages of a region, mapped where they are. *)
Definition page_window (r : DeviceRegion) (w : MmioWindow) : Prop :=
  byPage w = true ∧ pa w = base w ∧ base w mod 2 ^ 12 = 0 ∧ base w ≤ dr_base r < base w + 2 ^ 12 ∧
  dr_base r + dr_size r ≤ base w + size w < dr_base r + dr_size r + 2 ^ 12.
Definition bring_up_window : MmioWindow := MkMmioWindow kBringUpUartIpa (align_down BSP_UART_BASE SIZE_4KB) SIZE_4KB true.

Lemma AddPages_spec m r : map_wf m → region_ok r → (length m < MMIO_MAX_WINDOWS)%nat → ∃ m' w, AddPages m (dr_base r) (dr_base r) (dr_size r) = (true, m') ∧
  map_wf m' ∧ m `prefix_of` m' ∧ (length m' ≤ S (length m))%nat ∧ page_window r w ∧ (∀ x, x ∈ m' → x ∈ m ∨ x = w) ∧ ∀ a, in_region a r → Covers m' a = true.
Proof.
  intros Hwf (Hb & Hs & He) Hroom. unfold AddPages. change SIZE_4KB with (2 ^ 12).
  assert (dr_base r ⊞ dr_size r ⊞ 2 ^ 12 ⊟ 1 = dr_base r + dr_size r + 2 ^ 12 - 1) as ->.
  { unfold u64. rewrite Zminus_mod_idemp_l, (Z.mod_small (dr_base r + dr_size r)), Z.mod_small by lia. done. }
  pose proof (align_down_bounds (dr_base r) 12) as (S1 & S2 & S3); [lia|unfold fits; lia|].
  pose proof (align_down_bounds (dr_base r + dr_size r + 2 ^ 12 - 1) 12) as (E1 & E2 & E3); [lia|unfold fits; lia|].
  set (start := align_down (dr_base r) (2 ^ 12)) in *. set (end_ := align_down (dr_base r + dr_size r + 2 ^ 12 - 1) (2 ^ 12)) in *.
  cbv zeta. assert (start ≤ end_).
  { apply Z.mod_divide in S2 as [q Hq]; [|done]. apply Z.mod_divide in E2 as [q' Hq']; [|done]. lia. }
  assert (end_ ⊟ start = end_ - start) as -> by (apply Z.mod_small; lia).
  set (w := MkMmioWindow start start (end_ - start) true).
  pose proof (Add_spec m w Hwf) as Ha.
  assert (Hlen : (length (Add m w).2 ≤ S (length m))%nat).
  { unfold Add. destruct (existsb _ m); cbn [snd]; [lia|]. case_decide; cbn [snd]; [lia|]. rewrite length_app. cbn. lia. }
  destruct (Add m w) as [ok m']. destruct Ha as (Hwf' & Hpre & Hin & Hnew & Hfull). cbn [snd] in Hlen.
  destruct ok; [|destruct (Hfull eq_refl); lia]. exists m', w. split_and!; try done.
  - unfold page_window, w. cbn [byPage pa base size]. split_and!; (done || lia).
  - intros a [Ha1 Ha2]. apply (Covers_window m' w); unfold w; cbn [base size]; [by apply Hin|lia|lia|lia].
Qed.

(** What is known of a guest map made from some regions. *)
Definition windows_of (rs : list DeviceRegion) (m : MmioMap) : Prop :=
  map_wf m ∧ (length m ≤ length rs)%nat ∧ (∀ w, w ∈ m → ∃ r, r ∈ rs ∧ page_window r w) ∧
  ∀ r a, r ∈ rs → in_region a r → Covers m a = true.

Lemma windows_add rs m r : windows_of rs m → region_ok r → (length rs < MMIO_MAX_WINDOWS)%nat →
  ∃ m', AddPages m (dr_base r) (dr_base r) (dr_size r) = (true, m') ∧ windows_of (rs ++ [r]) m'.
Proof.
  intros (Hwf & Hl & Hw & Hc) Hr Hroom. destruct (AddPages_spec m r Hwf Hr ltac:(lia)) as (m' & w & E & Hwf' & Hpre & Hl' & Hpw & Hnew & Hc').
  exists m'. split; [done|]. split_and!; [done|rewrite length_app; cbn; lia| |].
  - intros x [Hx | ->]%Hnew; [|by exists r; set_solver]. destruct (Hw x Hx) as (r' & ? & ?). exists r'. set_solver.
  - intros r' a [Hr'| ->%list_elem_of_singleton]%elem_of_app Ha; [by eapply Covers_prefix; [|eapply Hc]|by apply Hc'].
Qed.

Lemma add_pages_spec rs : ∀ rs0 m (p : platform D), windows_of rs0 m → Forall region_ok rs → (length rs0 + length rs ≤ MMIO_MAX_WINDOWS)%nat →
  ∃ m', add_pages rs m p = Done m' p ∧ windows_of (rs0 ++ rs) m'.
Proof.
  induction rs as [|r rs IH]; intros rs0 m p Hm Hrs Hroom; cbn [add_pages]; [exists m; by rewrite app_nil_r|].
  apply Forall_cons_1 in Hrs as [Hr Hrs]. cbn [List.length] in Hroom.
  destruct (windows_add rs0 m r Hm Hr ltac:(lia)) as (m1 & -> & Hm1). cbn [negb].
  destruct (IH (rs0 ++ [r]) m1 p Hm1 Hrs) as (m2 & -> & Hm2); [rewrite length_app; cbn; lia|]. exists m2. by rewrite <-app_assoc in Hm2.
Qed.

Definition found_regions (n : DeviceNode) (k : nat) : list DeviceRegion := if isFound n then take k (regions n) else [].

(** A warning changes the console only. *)
Lemma warn_spec s p : (∀ d, drains (console_base p) spin d) → ∃ p', Println_str spin s p = Done tt p' ∧
  p_machine p' = p_machine p ∧ console_base p' = console_base p.
Proof.
  intros Hd. unfold Println_str. destruct NDEBUG; [by exists p|].
  destruct (runs_inv _ _ _ (line_says spin (console_base p) Hd "{}" [literal s] (literal_ok s) p eq_refl)) as ([] & p' & E & _ & B & M & _).
  exists p'. split_and!; [exact E|done|done].
Qed.

Lemma windows_nil : windows_of [] [].
Proof. split_and!; [split; [cbn; unfold MMIO_MAX_WINDOWS; lia|constructor]|done|by intros w ?%elem_of_nil|by intros r a ?%elem_of_nil]. Qed.

Lemma guest_gic p gic : (∀ d, drains (console_base p) spin d) → Forall region_ok (found_regions gic 2) → ∃ m p',
  (if negb (isFound gic) || bool_decide (regionCount gic = 0%nat) then
     Println_str spin "[DTB][WARN] guest tree has no GIC; guest gets no interrupt controller";; mret []
   else add_pages (take 2 (regions gic)) []) p = Done m p' ∧
  windows_of (found_regions gic 2) m ∧ p_machine p' = p_machine p ∧ console_base p' = console_base p.
Proof.
  intros Hd Hrs. unfold found_regions in *.
  destruct (warn_spec "[DTB][WARN] guest tree has no GIC; guest gets no interrupt controller" p Hd) as (p1 & E1 & M1 & B1).
  assert (Hwarn : (Println_str spin "[DTB][WARN] guest tree has no GIC; guest gets no interrupt controller";; mret (A := MmioMap) []) p = Done [] p1).
  { unfold mbind, M_bind. by rewrite E1. }
  destruct (isFound gic); cbn [negb orb].
  - case_bool_decide as Hz.
    + exists [], p1. split_and!; [done| |done|done]. unfold regionCount in Hz. apply nil_length_inv in Hz. rewrite Hz. apply windows_nil.
    + destruct (add_pages_spec (take 2 (regions gic)) [] [] p windows_nil Hrs) as (m & E & Hm); [rewrite length_take; unfold MMIO_MAX_WINDOWS; cbn [List.length]; lia|].
      by exists m, p.
  - exists [], p1. split_and!; [done|apply windows_nil|done|done].
Qed.

Lemma guest_uart p uart rs m : (∀ d, drains (console_base p) spin d) → Forall region_ok (found_regions uart 1) →
  windows_of rs m → (length rs ≤ 2)%nat → ∃ m' p',
  (if negb (isFound uart) || bool_decide (regionCount uart = 0%nat) then
     Println_str spin "[DTB][WARN] guest tree has no PL011; guest console not mapped";; mret m
   else
     let r := region uart 0 in
     let '(ok, map) := AddPages m (dr_base r) (dr_base r) (dr_size r) in
     if negb ok then panic "[ERROR][DTB] guest console mapping failed" else mret map) p = Done m' p' ∧
  windows_of (rs ++ found_regions uart 1) m' ∧ p_machine p' = p_machine p ∧ console_base p' = console_base p.
Proof.
  intros Hd Hrs Hm Hl. unfold found_regions in *.
  destruct (warn_spec "[DTB][WARN] guest tree has no PL011; guest console not mapped" p Hd) as (p1 & E1 & M1 & B1).
  assert (Hwarn : (Println_str spin "[DTB][WARN] guest tree has no PL011; guest console not mapped";; mret (A := MmioMap) m) p = Done m p1).
  { unfold mbind, M_bind. by rewrite E1. }
  destruct (isFound uart); cbn [negb orb]; [|exists m, p1; split_and!; [done|by rewrite app_nil_r|done|done]].
  unfold regionCount, region. destruct (regions uart) as [|r rest]; cbn [List.length].
  - exists m, p1. rewrite bool_decide_true by done. split_and!; [done|by rewrite take_nil, app_nil_r|done|done].
  - rewrite bool_decide_false by done. cbn [nth take] in *. apply Forall_cons_1 in Hrs as [Hr _].
    destruct (windows_add rs m r Hm Hr) as (m' & -> & Hm'); [unfold MMIO_MAX_WINDOWS; lia|]. by exists m', p.
Qed.

(** C35: [GetGuestMmio] always returns, and the guest gets exactly these windows: the pages of the first
    two regions of its interrupt controller and of the first of its console, each at the address
    its own tree names and nowhere else, and, unless they cover the bring-up console's page, that
    page on the board's console. *)
Theorem GetGuestMmio_correct m_dtb p uart gic
    (Hgic : FindDevice m_dtb fuel kGicCompatible (p_machine p) = Done gic (p_machine p))
    (Huart : FindDevice m_dtb fuel kUartCompatible (p_machine p) = Done uart (p_machine p))
    (Hd : ∀ d, drains (console_base p) spin d) (Hrs : Forall region_ok (found_regions gic 2 ++ found_regions uart 1)) :
  ∃ map p', GetGuestMmio spin fuel m_dtb p = Done map p' ∧ p_machine p' = p_machine p ∧ map_wf map ∧
    (∀ w, w ∈ map → w = bring_up_window ∨ ∃ r, r ∈ found_regions gic 2 ++ found_regions uart 1 ∧ page_window r w) ∧
    (∀ r a, r ∈ found_regions gic 2 ++ found_regions uart 1 → in_region a r → Covers map a = true) ∧
    Covers map kBringUpUartIpa = true.
Proof.
  apply list.Forall_app in Hrs as [Hg Hu]. unfold GetGuestMmio. cbv zeta. rewrite (FindDevice_then _ _ gic), (FindDevice_then _ _ uart) by done.
  destruct (guest_gic p gic Hd Hg) as (m1 & p1 & E1 & W1 & M1 & B1). rewrite (bind_done _ _ _ _ _ E1).
  destruct (guest_uart p1 uart (found_regions gic 2) m1) as (m2 & p2 & E2 & W2 & M2 & B2); [by rewrite B1|done|done| |].
  { unfold found_regions. destruct (isFound gic); [rewrite length_take; lia|cbn; lia]. }
  rewrite (bind_done _ _ _ _ _ E2). destruct W2 as (Hwf & Hl & Hw & Hc).
  assert (Hlen : (length m2 ≤ 3)%nat).
  { rewrite length_app in Hl. unfold found_regions in Hl. destruct (isFound gic), (isFound uart); rewrite ?length_take in Hl; cbn [List.length] in Hl; lia. }
  destruct (Covers m2 kBringUpUartIpa) eqn:Ec; cbn [negb].
  - exists m2, p2. split_and!; [done|congruence|done|naive_solver|done|done].
  - pose proof (Add_spec m2 bring_up_window Hwf) as Ha.
    assert (AddPages m2 kBringUpUartIpa BSP_UART_BASE SIZE_4KB = Add m2 bring_up_window) as -> by done.
    destruct (Add m2 bring_up_window) as [ok m3]. destruct Ha as (Hwf3 & Hpre & Hin & Hnew & Hfull).
    destruct ok; [|destruct (Hfull eq_refl) as [H8 _]; unfold MMIO_MAX_WINDOWS in H8; lia]. cbn [negb].
    exists m3, p2. split_and!; [done|congruence|done| | |].
    + intros w [Hw2| ->]%Hnew; [right; by apply Hw|by left].
    + intros r a Hr Ha. eapply Covers_prefix; [done|by eapply Hc].
    + apply (Covers_window m3 bring_up_window); [by apply Hin|by vm_compute..].
Qed.
End maps.

(** ** A board *)

Definition fvp_struct : list Z :=
  node_bytes "" (
    prop_bytes 22 (be4 2) ++ prop_bytes 37 (be4 1) ++
    node_bytes "interrupt-controller" (prop_bytes 4 (lit "arm,gic-400") ++
      prop_bytes 0 (be4 0 ++ be4 0x2f000000 ++ be4 0x10000 ++ be4 0 ++ be4 0x2c000000 ++ be4 0x2000 ++
        be4 0 ++ be4 0x2c010000 ++ be4 0x2000 ++ be4 0 ++ be4 0x2c02f000 ++ be4 0x2000)) ++
    node_bytes "serial" (prop_bytes 4 (lit "arm,pl011") ++ prop_bytes 0 (be4 0 ++ be4 0x1c090000 ++ be4 0x1000))) ++
  be4 9.
Definition fvp_dtb : list Z := blob_bytes 56 fvp_struct board_strings.
Definition fvp_platform : platform unit := MkPlatform (set_mem (put 0x44000000 fvp_dtb) pool1) (MkIo tt []) None None.
Definition fvp_gic_node : DeviceNode := MkDeviceNode
  [MkDeviceRegion 0x2f000000 0x10000; MkDeviceRegion 0x2c000000 0x2000; MkDeviceRegion 0x2c010000 0x2000; MkDeviceRegion 0x2c02f000 0x2000] true.
Definition fvp_uart_node : DeviceNode := MkDeviceNode [MkDeviceRegion 0x1c090000 0x1000] true.

Lemma fvp_finds_gic : FindDevice 0x44000000 1000 kGicCompatible (p_machine fvp_platform) = Done fvp_gic_node (p_machine fvp_platform).
Proof. vm_compute. reflexivity. Qed.
Lemma fvp_finds_uart : FindDevice 0x44000000 1000 kUartCompatible (p_machine fvp_platform) = Done fvp_uart_node (p_machine fvp_platform).
Proof. vm_compute. reflexivity. Qed.
Lemma fvp_regions : Forall region_ok (regions fvp_gic_node) ∧ Forall region_ok (regions fvp_uart_node).
Proof. split; repeat constructor; cbn; lia. Qed.

Lemma GetHostMmio_correct_witness : ∃ map p', GetHostMmio (H0 := fvp_board false) 1 1000 0x44000000 fvp_platform = Done map p' ∧
  Covers map 0x2c02f004 = true ∧ Covers map 0x1c090018 = true.
Proof.
  destruct (proj2 (GetHostMmio_correct (H0 := fvp_board false) 1 1000 0x44000000 fvp_platform fvp_uart_node fvp_gic_node
    fvp_finds_uart fvp_finds_gic (ready_drains _))) as (map & p' & E & _ & _ & _ & Hc).
  - split_and!; [done|done|done|cbn; lia|by vm_compute].
  - cbn. unfold region_ok. cbn. lia.
  - apply fvp_regions.
  - cbn. unfold MMIO_MAX_WINDOWS. lia.
  - exists map, p'. split_and!; [exact E| |].
    + apply (Hc (MkDeviceRegion 0x2c02f000 0x2000)); [right; do 3 apply list_elem_of_further; apply list_elem_of_here|unfold in_region; cbn; lia].
    + apply (Hc (MkDeviceRegion 0x1c090000 0x1000)); [by left|unfold in_region; cbn; lia].
Defined.

Lemma GetGuestMmio_correct_witness : ∃ map p', GetGuestMmio (H0 := fvp_board false) 1 1000 0x44000000 fvp_platform = Done map p' ∧
  Covers map 0x2c000000 = true ∧ Covers map kBringUpUartIpa = true.
Proof.
  destruct (GetGuestMmio_correct (H0 := fvp_board false) 1 1000 0x44000000 fvp_platform fvp_uart_node fvp_gic_node
    fvp_finds_gic fvp_finds_uart (ready_drains _)) as (map & p' & E & _ & _ & _ & Hc & Hb).
  - repeat constructor; cbn; lia.
  - exists map, p'. split_and!; [exact E| |exact Hb].
    apply (Hc (MkDeviceRegion 0x2c000000 0x2000)); [apply list_elem_of_further, list_elem_of_here|unfold in_region; cbn; lia].
Defined.

(** A guest's tree may name any memory as its console: the window it gets is that memory. *)
Definition hostile_struct : list Z :=
  node_bytes "" (node_bytes "serial" (prop_bytes 4 (lit "arm,pl011") ++ prop_bytes 0 (be4 0 ++ be4 0x80080000 ++ be4 0x1000))) ++ be4 9.
Definition hostile_platform : platform unit :=
  MkPlatform (set_mem (put 0x44000000 (blob_bytes 56 hostile_struct board_strings)) pool1) (MkIo tt []) None None.
Lemma guest_tree_names_host_memory : ∃ map p', GetGuestMmio (H0 := fvp_board true) 1 1000 0x44000000 hostile_platform = Done map p' ∧
  MkMmioWindow 0x80080000 0x80080000 0x1000 true ∈ map.
Proof. eexists [_; _], hostile_platform. split; [vm_compute; reflexivity|apply list_elem_of_here]. Qed.

(** ** The entry point *)

Section entry.
Context {D : Type}.
Definition never {A} (m : M (platform D) A) : Prop := ∀ p a p', m p ≠ Done a p'.

Lemma never_bind {A B} (m : M (platform D) A) (k : A → M (platform D) B) : (∀ a, never (k a)) → never (m ≫= k).
Proof. intros Hk p b p'. unfold mbind, M_bind. destruct (m p); [apply Hk|done]. Qed.
Lemma never_stop {A} w : never (stop (A := A) w).
Proof. done. Qed.

(** [hmain] never returns to the boot code, whatever the trees, the archive, the devices and the
    guest do: it halts, or runs for ever. *)
Lemma hmain_never_returns `{Bus D} `{Board} spin fuel init_array kb ke vcpu_run exits dtb :
  never (hmain spin fuel init_array kb ke vcpu_run exits dtb).
Proof.
  assert (Hb : never (hmain_body spin fuel init_array kb ke vcpu_run exits dtb)).
  { unfold hmain_body, panic. repeat (apply never_bind; intros ?).
    match goal with x : bool * GuestLayout |- _ => destruct x as [[] layout] end; cbn [negb]; repeat (apply never_bind; intros ?); apply never_stop. }
  intros p a p'. unfold hmain, reporting. destruct (hmain_body spin fuel init_array kb ke vcpu_run exits dtb p) as [[] p1|[msg| | |] p1] eqn:E; try done.
  - by apply Hb in E.
  - by apply never_bind.
Qed.
End entry.
