(* ===== verification/BootMemory.v ===== *)
(** * Memory through the boot: from the firmware's map to a running guest

    The steps of [hmain] that change memory, in its order, and what holds of memory from the
    first to the last: the allocator stays inside RAM, the hypervisor's own translation stays the
    map it was built with, and the guest stays in its block. *)
From Stdlib Require Import String.
From S2P Require Import Prelude Memory Machine Pmm FreeLists Bitmap Buddy PmmSpec PmmInit PmmProps PageAlloc Strings.
From S2P Require Import PageTable TableTree TableUpdate TableStore PageTableSpec WalkSpec MmioMap HostMmu MapSpec.
From S2P Require Import HostMmuSpec GuestMmu WalkL3 GuestMmuSpec MmuProps Vcpu Psci Vmm VmmSpec VmmProps Cpio CpioSpec.
From S2P Require Import Fdt BootLoader LayoutSpec PatchSpec LoadSpec BootLoaderProps Boot.

(** ** The steps *)

(** The memory steps of [hmain], from the memory map to the loaded guest, with [devices] for what
    [GetHostMmio] returns; HmainProps.v shows that [hmain] takes them. *)
Definition bring_up (kernelBase kernelEnd : Z) (map : MemoryMap) (devices : MmioMap) : M machine (HostMmu * (bool * GuestLayout)) :=
  SetMemoryMap kernelBase kernelEnd map;;
  hostMmu ← HostMmu_new;
  HostMmu.Enable hostMmu devices;;
  bytes ← gets (λ s, bytes_at (mc_mem s) (PaToVa (cpioArchiveBase map)) (Z.to_nat (cpioArchiveSize map)));
  archive ← defined (Archive_new (PaToVa (cpioArchiveBase map)) bytes);
  loaded ← Load archive;
  mret (hostMmu, loaded).

(** ** What they keep *)

(** What EL2 sees at an address: the first 16 GiB as they are, and the device windows. *)
Definition host_map (devices : MmioMap) (a : Z) : option (Z * Z) :=
  device_map (map_range (λ _, None) 0 0 (2 ^ 34) host_attrs) devices a.
(** A table as [HostMmu_new] makes it. *)
Definition stage1 (root : Z) : PageTable := MkPageTable root STAGE1_START_LEVEL STAGE1_ROOT_INDEX_MASK.

Definition host_translates (pt : PageTable) (devices : MmioMap) (s : machine) : Prop :=
  ∀ a, 0 ≤ a < 2 ^ 48 → translate (mc_mem s) pt a = host_map devices a.

(** RAM that no reserved region has a byte of. *)
Definition unreserved (kernelBase kernelEnd : Z) (map : MemoryMap) (x : Z) : Prop :=
  in_ram map x ∧ ∀ r, r ∈ reserved_regions kernelBase kernelEnd map → ¬ region_lo r.1 ≤ x < region_hi r.1 r.2.

(** The archive's bytes as the firmware left them. *)
Definition boot_bytes (map : MemoryMap) (s : machine) : list Z :=
  bytes_at (mc_mem s) (cpioArchiveBase map) (Z.to_nat (cpioArchiveSize map)).

(** The pages the boot takes: the tables, and the guest's block. *)
Definition boot_pages (devices : MmioMap) (loaded : bool) : nat :=
  S (2 * Z.to_nat 8192 + window_pages devices) + if loaded then 2 ^ GUEST_RAM_ORDER else 0.

Record boot_ok (kernelBase kernelEnd : Z) (map : MemoryMap) (devices : MmioMap) : Prop := {
  bt_map : map_ok kernelBase kernelEnd map;
  bt_high : memBase map + memSize map ≤ 2 ^ 48;
  bt_windows : Forall (window_ok (stage1 0)) devices;
  bt_pages : free_pages (unreserved kernelBase kernelEnd map) (boot_pages devices false);
  bt_archive : 0 ≤ cpioArchiveBase map ∧ 0 ≤ cpioArchiveSize map ∧ cpioArchiveBase map + cpioArchiveSize map < 2 ^ 64;
  bt_apart : ∀ x, cpioArchiveBase map ≤ x < cpioArchiveBase map + cpioArchiveSize map → ¬ in_ram map x;
}.

(** A guest: the loaded files in a block of RAM that is the guest's alone. *)
Record guest_placed (map : MemoryMap) (a : Archive) (layout : GuestLayout) (F T : Z → Prop) (s s' : machine) : Prop := {
  gp_files : ∃ files plan s0, ReadFiles a = Some (true, files) ∧ placed files layout ∧ mem_same_outside (in_ram map) s s0 ∧
    guest_loaded files layout plan s0 s';
  gp_ram : ∀ x, block (l_ramHostPa layout) GUEST_RAM_ORDER x → in_ram map x ∧ ¬ F x ∧ ¬ T x;
}.

(** The machine after [bring_up]; [F] is the free memory and [T] the hypervisor's own tables. *)
Record brought_up (kernelBase kernelEnd : Z) (map : MemoryMap) (devices : MmioMap) (s : machine) (pt : PageTable) (F T : Z → Prop) (loaded : bool) (s' : machine) : Prop := {
  up_free : pa_ok s' F;
  up_ram : ∀ x, F x → in_ram map x;
  up_pages : ∀ n, free_pages (unreserved kernelBase kernelEnd map) (boot_pages devices loaded + n) → free_pages F n;
  up_same : mem_same_outside (in_ram map) s s';
  up_tables : ∀ x, T x → in_ram map x ∧ ¬ F x;
  up_host : ∀ s2, (∀ x, T x → load8 (mc_mem s2) x = load8 (mc_mem s') x) → host_translates pt devices s2;
  up_regs : mc_sys s' TTBR0_EL2 = m_root pt ∧ mc_sys s' SCTLR_EL2 = sctlr_on (mc_sys s SCTLR_EL2) ∧
    mc_sys s' MAIR_EL2 = mair_value ∧ mc_sys s' TCR_EL2 = tcr_value;
}.

(** ** The memory map *)

Lemma free_pages_mono F F' k : (∀ x, F x → F' x) → free_pages F k → free_pages F' k.
Proof. intros HF (l & Hnd & Hlen & Hl). exists l. split_and!; [done|done|]. intros p Hp. destruct (Hl p Hp). auto. Qed.

Lemma booted_free kb ke map s s' L0 L' : booted kb ke map s s' L0 L' → pa_ok s' (free_at L') ∧
  (∀ x, free_at L' x → in_ram map x) ∧ ∀ x, unreserved kb ke map x → free_at L' x.
Proof.
  intros HB. split; [exists L'; split; [apply HB|done]|]. split.
  - intros x (o & a & Ha & Hx). apply (bo_seed _ _ _ _ _ _ _ HB). exists o, a. split; [|done].
    by apply (bo_minus _ _ _ _ _ _ _ HB).
  - intros x [Hr Hno]. apply (bo_seed _ _ _ _ _ _ _ HB) in Hr as (o & a & Ha & Hx). exists o, a. split; [|done].
    apply (bo_minus _ _ _ _ _ _ _ HB). split; [done|]. intros r Hin (H1 & H2 & _). apply (Hno r Hin). unfold block in Hx. lia.
Qed.

(** ** The whole of it *)

Section boot.
Context (kernelBase kernelEnd : Z) (map : MemoryMap) (devices : MmioMap) (Hok : boot_ok kernelBase kernelEnd map devices).

(** Up to translation. *)
Lemma host_mmu_up s1 F1 : pa_ok s1 F1 → (∀ x, F1 x → in_ram map x) → (∀ x, unreserved kernelBase kernelEnd map x → F1 x) →
  runs HostMmu_new s1 (λ pt s2, runs (HostMmu.Enable pt devices) s2 (λ _ s3, ∃ F (T : Z → Prop),
    pa_ok s3 F ∧ (∀ x, F x → F1 x) ∧ mem_same_outside (in_ram map) s1 s3 ∧
    (mc_sys s3 TTBR0_EL2 = m_root pt ∧ mc_sys s3 SCTLR_EL2 = sctlr_on (mc_sys s1 SCTLR_EL2) ∧ mc_sys s3 MAIR_EL2 = mair_value ∧
      mc_sys s3 TCR_EL2 = tcr_value) ∧
    (∀ x, T x → in_ram map x ∧ ¬ F x) ∧ (∀ n, free_pages F1 (boot_pages devices false + n) → free_pages F n) ∧
    ∀ s4, (∀ x, T x → load8 (mc_mem s4) x = load8 (mc_mem s3) x) → host_translates pt devices s4)).
Proof.
  intros HF1 Hram Hun. destruct Hok as [_ Hhigh Hws Hpg _ _]. eapply runs_mono.
  { apply (HostMmu_new_spec s1 F1 (2 * Z.to_nat 8192 + window_pages devices) HF1).
    - intros x Hx%Hram. unfold in_ram in Hx. lia.
    - eapply free_pages_mono; [exact Hun|]. eapply free_pages_le, Hpg. unfold boot_pages. lia. }
  cbv beta. intros pt s2 (F2 & Hok2 & Hpg2 & Hl & Hia & Htr & Hq & Hsub & Htb & Hm2). eapply runs_mono.
  { apply (Enable_spec pt s2 F2 devices Hok2 Hl); [|apply Hpg2; eapply free_pages_mono; [exact Hun|]; eapply free_pages_le, Hpg; unfold boot_pages; lia]. eapply list.Forall_impl; [exact Hws|].
    intros w Hw. unfold window_ok, range_ok in *. by rewrite Hia. }
  cbv beta. intros [] s3 (F3 & evs & Hok3 & Htr3 & Hma & Htc & Htt & Hsc & _ & Hsub3 & Htb3 & Hm3 & Hpg3).
  exists F3, (tree_byte pt (mc_mem s3)). split; [apply Hok3|]. split; [auto|]. split.
  { eapply mem_same_outside_trans; [exact Hm2|exact Hm3|auto|]. cbv beta. intros x [Hx|Hx]; auto. }
  split; [by rewrite Hsc, (qu_sys _ _ Hq)|]. split.
  - intros x Hx. split; [destruct (Htb3 x Hx); auto|by apply (tk_owned _ _ _ Hok3)].
  - split; [intros n Hn; apply Hpg3, Hpg2; eapply free_pages_le, Hn; unfold boot_pages; lia|].
    intros s4 Hs4 a Ha. pose proof (pt_inv_frame pt _ _ (tk_inv _ _ _ Hok3) Hs4) as HI4.
    assert (Hin : in_range pt a) by (unfold in_range; by rewrite Hia).
    rewrite (translate_frame pt _ _ (tk_inv _ _ _ Hok3) HI4 Hs4 a Hin), Htr3 by done.
    apply device_map_ext. apply map_range_ext. by apply Htr.
Qed.
(** Nothing outside RAM is written up to the tables of the hypervisor. *)
Lemma host_new_mem s pt s2 : (SetMemoryMap kernelBase kernelEnd map;; HostMmu_new) s = Done pt s2 → mem_same_outside (in_ram map) s s2.
Proof.
  destruct Hok as [Hmap Hhigh _ Hpg _ _]. intros E.
  destruct (runs_inv _ _ _ (SetMemoryMap_spec kernelBase kernelEnd map s Hmap)) as ([] & s1 & E1 & L0 & L' & HB).
  destruct (booted_free _ _ _ _ _ _ _ HB) as (HF1 & Hram & Hun). rewrite (bind_done _ _ _ _ _ E1) in E.
  destruct (runs_inv _ _ _ (HostMmu_new_spec s1 (free_at L') (2 * Z.to_nat 8192 + window_pages devices) HF1
    ltac:(intros x Hx%Hram; unfold in_ram in Hx; lia)
    ltac:(eapply free_pages_mono; [exact Hun|]; eapply free_pages_le, Hpg; unfold boot_pages; lia)))
    as (pt' & s2' & E2 & F2 & _ & _ & _ & _ & _ & _ & _ & _ & Hm2).
  rewrite E2 in E. injection E as <- <-. eapply mem_same_outside_trans; [exact (bo_mem _ _ _ _ _ _ _ HB)|exact Hm2|done|exact Hram].
Qed.

(** What [Load] leaves, over the machine [s3] the translation was turned on in. *)
Lemma loaded_up s s3 pt F3 (T : Z → Prop) a r s4 :
  pa_ok s3 F3 → (∀ x, F3 x → in_ram map x) → mem_same_outside (in_ram map) s s3 →
  mc_sys s3 TTBR0_EL2 = m_root pt ∧ mc_sys s3 SCTLR_EL2 = sctlr_on (mc_sys s SCTLR_EL2) ∧ mc_sys s3 MAIR_EL2 = mair_value ∧
    mc_sys s3 TCR_EL2 = tcr_value →
  (∀ x, T x → in_ram map x ∧ ¬ F3 x) →
  (∀ n, free_pages (unreserved kernelBase kernelEnd map) (boot_pages devices false + n) → free_pages F3 n) →
  (∀ s2, (∀ x, T x → load8 (mc_mem s2) x = load8 (mc_mem s3) x) → host_translates pt devices s2) →
  load_post s3 F3 a r s4 →
  ∃ F, brought_up kernelBase kernelEnd map devices s pt F T r.1 s4 ∧ if r.1 then guest_placed map a r.2 F T s s4 else refused s3 a.
Proof.
  intros HF3 Hram Hm3 Hregs HT Hpg Hhost (F & HF & Hm & Hsy & _ & Hr). exists F.
  assert (Hsub : ∀ x, F x → F3 x) by (intros x; destruct (r.1); [destruct Hr as (? & ? & _ & _ & _ & _ & _ & Heq & _)|destruct Hr as (_ & _ & Heq)]; rewrite (Heq x); auto).
  split.
  - split; [done|auto| | | | |by rewrite Hsy].
    + intros n Hn. destruct (r.1).
      * destruct Hr as (files & plan & _ & _ & _ & _ & Hblk & Heq & _).
        destruct (pa_block_bounds s4 F _ _ HF Hblk) as (_ & _ & Hal & _).
        apply (free_pages_take_block GUEST_RAM_ORDER F3 F (l_ramHostPa r.2) n Hal); [intros x; apply Heq|].
        apply Hpg. eapply free_pages_le, Hn. unfold boot_pages. lia.
      * destruct Hr as (_ & _ & Heq). eapply free_pages_mono; [intros x; apply Heq|]. by apply Hpg.
    + eapply mem_same_outside_trans; [exact Hm3|exact Hm|done|exact Hram].
    + intros x Hx. destruct (HT x Hx) as [? Hn]. split; [done|]. intros Hin. by apply Hn, Hsub.
    + intros s2 H2. apply Hhost. intros x Hx. rewrite H2 by done. apply Hm. by destruct (HT x Hx).
  - destruct (r.1); [|apply Hr]. destruct Hr as (files & plan & Er & Hp & _ & Hg & _ & Heq & Hdis). split; [by exists files, plan, s3|].
    intros x Hx. assert (F3 x) by (apply Heq; by right). split_and!; [auto|auto|]. intros Ht. by destruct (HT x Ht).
Qed.

Lemma bring_up_spec s : runs (bring_up kernelBase kernelEnd map devices) s (λ r s', ∃ a F T,
  Archive_new (PaToVa (cpioArchiveBase map)) (boot_bytes map s) = Some a ∧
  brought_up kernelBase kernelEnd map devices s r.1 F T r.2.1 s' ∧
  if r.2.1 then guest_placed map a r.2.2 F T s s' else ∃ s3, mem_same_outside (in_ram map) s s3 ∧ refused s3 a).
Proof.
  destruct Hok as [Hmap _ _ _ (Ha0 & Hs0 & Hlim) Hap]. unfold bring_up. apply runs_bind.
  eapply runs_mono; [by apply SetMemoryMap_spec|]. cbv beta. intros [] s1 (L0 & L' & HB).
  destruct (booted_free _ _ _ _ _ _ _ HB) as (HF1 & Hram1 & Hun).
  destruct (bo_only _ _ _ _ _ _ _ HB) as (_ & Hsy1 & _). pose proof (bo_mem _ _ _ _ _ _ _ HB) as Hm1. apply runs_bind.
  eapply runs_mono; [by apply (host_mmu_up s1 (free_at L'))|]. cbv beta. intros pt s2 H2. apply runs_bind.
  eapply runs_mono; [exact H2|]. cbv beta. intros [] s3 (F3 & T & HF3 & Hsub & Hm3 & Hregs & HT & Hpg & Hhost). run.
  assert (Hm : mem_same_outside (in_ram map) s s3) by (by eapply mem_same_outside_trans).
  assert (Eb : bytes_at (mc_mem s3) (PaToVa (cpioArchiveBase map)) (Z.to_nat (cpioArchiveSize map)) = boot_bytes map s).
  { apply bytes_at_agree. intros x Hx. apply Hm, Hap. unfold PaToVa in Hx. lia. }
  rewrite Eb. assert (Hlen : Z.of_nat (length (boot_bytes map s)) = cpioArchiveSize map) by (unfold boot_bytes; rewrite length_bytes_at; lia).
  destruct (Archive_new_spec (PaToVa (cpioArchiveBase map)) (boot_bytes map s)) as (a & Ea & _); [lia|].
  rewrite Ea. unfold defined. run. eapply runs_mono.
  { apply (Load_spec s3 F3 _ _ a HF3 Ea); unfold PaToVa; rewrite ?Hlen; [lia|lia|].
    intros x Hx Hin. apply (Hap x Hx). auto. }
  intros r s4 Hl. run. rewrite Hsy1 in Hregs.
  destruct (loaded_up s s3 pt F3 T a r s4 HF3 ltac:(auto) Hm Hregs HT ltac:(eauto using free_pages_mono) Hhost Hl) as (F & Hup & Hg).
  exists a, F, T. split; [done|]. split; [done|]. cbn [fst snd]. destruct (r.1); [done|by exists s3].
Qed.
End boot.

(** ** The guest's life *)

(** What the guest's own tree may ask for: windows that fit its address space and are not RAM,
    and memory for the tables. *)
Record windows_ok (map : MemoryMap) (layout : GuestLayout) (windows : MmioMap) (F : Z → Prop) (s : machine) : Prop := {
  wo_args : guest_args_ok GUEST_IPA_BASE (l_ramHostPa layout) GUEST_RAM_SIZE windows;
  wo_apart : ∀ w x, w ∈ windows → pa w ≤ x < pa w + size w → ¬ in_ram map x;
  wo_avail : pa_avail s 1;
  wo_pages : free_pages F (guest_pages GUEST_RAM_SIZE windows);
}.

(** The guest [v] of [layout], started in [s2], for the rest of its life: [s] is the machine the
    firmware left. *)
Definition guest_life (map : MemoryMap) (devices : MmioMap) (pt : PageTable) (layout : GuestLayout) (windows : MmioMap)
    {W} (vcpu_run : W → machine → Vcpu → W * machine * Vcpu * VcpuExit) (s : machine) (v : Vm) (s2 : machine) : Prop :=
  ∀ w fuel, let s3 := v_machine (final (Run vcpu_run fuel (MkVmm w s2 v))) in
    mem_same_outside (guest_owned (guest_config layout) windows) s2 s3 ∧
    mem_same_outside (λ x, in_ram map x ∨ ∃ w, w ∈ windows ∧ pa w ≤ x < pa w + size w) s s3 ∧
    host_translates pt devices s3 ∧
    ∀ a, 0 ≤ a < 2 ^ 40 → translate (mc_mem s3) (m_table (m_guestMmu v)) a =
      guest_map GUEST_IPA_BASE (l_ramHostPa layout) GUEST_RAM_SIZE windows a.

Lemma guest_lives {W} (vcpu_run : W → machine → Vcpu → W * machine * Vcpu * VcpuExit) kernelBase kernelEnd map devices s pt F T s1
    a layout windows :
  boot_ok kernelBase kernelEnd map devices → obeys_stage2 vcpu_run →
  brought_up kernelBase kernelEnd map devices s pt F T true s1 → guest_placed map a layout F T s s1 →
  windows_ok map layout windows F s1 →
  runs (Vm_new (guest_config layout) windows) s1 (guest_life map devices pt layout windows vcpu_run s).
Proof.
  intros Hok Hob [HF Hram _ Hm HT Hhost _] [_ Hgp] [Hargs Hap Hav Hpg].
  assert (Hblk : ∀ x, l_ramHostPa layout ≤ x < l_ramHostPa layout + GUEST_RAM_SIZE → block (l_ramHostPa layout) GUEST_RAM_ORDER x) by done.
  assert (Hown : ∀ x, guest_owned (guest_config layout) windows x → ¬ F x ∧ ¬ T x ∧
    (in_ram map x ∨ ∃ w, w ∈ windows ∧ pa w ≤ x < pa w + size w)).
  { intros x [Hx|(w & Hw & Hx)].
    - destruct (Hgp x (Hblk x Hx)) as (? & ? & ?). auto.
    - pose proof (Hap w x Hw Hx) as Hno. split; [by intros ?%Hram|]. split; [by intros [? _]%HT|]. right. eauto. }
  eapply runs_mono.
  { apply (Vm_confined vcpu_run s1 F (guest_config layout) windows Hob HF); [|done|exact Hargs|exact Hpg|by intros x [? _]%Hown].
    intros x Hx%Hram. pose proof (bt_high _ _ _ _ Hok). unfold in_ram in Hx. lia. }
  intros v s2 [Hm2 Hlife] w fuel. destruct (Hlife w fuel) as (Hg & _ & Htr). cbv zeta in *. split; [done|]. split; [|split; [|exact Htr]].
  - intros x Hx. rewrite (Hg x) by (intros Hin; apply Hx; by apply Hown). rewrite (Hm2 x) by (intros Hin; apply Hx; left; auto).
    apply Hm. intros Hin. apply Hx. by left.
  - apply Hhost. intros x Hx. destruct (HT x Hx) as [_ Hn]. rewrite (Hg x) by (intros Hin; by apply (Hown x Hin)). by apply Hm2.
Qed.
