(* ===== verification/HmainProps.v ===== *)
(** * [hmain] from the boot code to the guest's last instruction

    The steps of [bring_up] as [hmain] takes them, between the messages it prints and the device
    trees it reads. *)
From Stdlib Require Import String.
From S2P Require Import Prelude Memory Machine Pmm FreeLists PmmInit PmmProps PageAlloc PageTable TableTree MmioMap HostMmu.
From S2P Require Import HostMmuSpec GuestMmu GuestMmuSpec Vcpu Psci Vmm VmmSpec VmmProps Cpio Fdt BootLoader BootLoaderProps.
From S2P Require Import LayoutSpec DeviceTree DeviceTreeSpec ParseSpec DeviceTreeProps Mmio Uart Gic Log LogSpec Console ConsoleProps Boot BootProps BootMemory.

Section hmain.
Context {D : Type} `{Bus D} `{Board} (spin fuel : nat).
Context (Hdrain : ∀ d, drains BSP_UART_BASE spin d).

(** ** One step at a time *)

Definition with_machine (p : platform D) (s : machine) : platform D := MkPlatform s (p_io p) (p_uart p) (p_gic p).

Lemma machine_then {A B} (m : M machine A) (k : A → M (platform D) B) p a s :
  m (p_machine p) = Done a s → (in_machine m ≫= k) p = k a (with_machine p s).
Proof. intros E. unfold mbind, M_bind, in_machine. by rewrite E. Qed.

(** What a message changes: the console. *)
Definition printed (p p' : platform D) : Prop := p_machine p' = p_machine p ∧ console_base p' = BSP_UART_BASE.

Lemma print_then {B} (m : M (platform D) unit) (k : unit → M (platform D) B) p text :
  says BSP_UART_BASE m text (λ _, True) → console_base p = BSP_UART_BASE → ∃ p', (m ≫= k) p = k tt p' ∧ printed p p'.
Proof.
  intros Hm Hp. destruct (runs_inv _ _ _ (Hm p Hp)) as ([] & p' & E & _ & Hb & Em & _). exists p'. split; [|done].
  unfold mbind, M_bind. by rewrite E.
Qed.

Lemma Println_says fmt args : Forall arg_ok args → ∃ text, says BSP_UART_BASE (Println (D := D) spin fmt args) text (λ _, True).
Proof.
  intros Ha. unfold Println. destruct NDEBUG; [exists []; by apply says_ret|]. eexists. by apply (line_says spin BSP_UART_BASE Hdrain).
Qed.

Lemma Println_then {B} fmt args (k : unit → M (platform D) B) p : Forall arg_ok args → console_base p = BSP_UART_BASE →
  ∃ p', (Println spin fmt args ≫= k) p = k tt p' ∧ printed p p'.
Proof. intros Ha. destruct (Println_says fmt args Ha) as [text Ht]. by eapply print_then. Qed.

Lemma Println_str_then {B} s (k : unit → M (platform D) B) p : console_base p = BSP_UART_BASE →
  ∃ p', (Println_str spin s ≫= k) p = k tt p' ∧ printed p p'.
Proof.
  intros Hp. destruct (warn_spec spin s p) as (p' & E & Em & Eb); [by rewrite Hp|]. exists p'. split; [|by split; [|congruence]].
  unfold mbind, M_bind. by rewrite E.
Qed.

(** ** The host's windows as a function of the devices found *)

Definition host_windows (uart gic : DeviceNode) : MmioMap :=
  foldl (λ m r, (AddBlocks m (dr_base r) (dr_size r)).2) [] (region uart 0 :: regions gic).

Lemma add_blocks_windows rs : ∀ m (p : platform D) m' p', add_blocks rs m p = Done m' p' →
  m' = foldl (λ m r, (AddBlocks m (dr_base r) (dr_size r)).2) m rs ∧ p' = p.
Proof.
  induction rs as [|r rs IH]; intros m p m' p' E; cbn [add_blocks foldl] in *; [by injection E as <- <-|].
  destruct (AddBlocks m (dr_base r) (dr_size r)) as [[] m1]; [|done]. cbn [negb snd] in *. by apply IH.
Qed.

Lemma host_mmio_windows uart gic p map p' : host_mmio spin uart gic p = Done map p' → map = host_windows uart gic.
Proof.
  unfold host_mmio, host_windows. cbn [foldl]. destruct (negb _ || _); [done|]. destruct (negb _ || _); [done|].
  unfold mbind at 1, M_bind at 1. destruct (Uart_SetBase _ _ p) as [[] p1|]; [|done]. case_bool_decide; [|done]. cbn [negb].
  unfold mbind at 1, M_bind at 1. destruct (Gic_SetBases _ _ _ _ p1) as [[] p2|]; [|done].
  destruct (AddBlocks [] _ _) as [[] m1]; [|done]. cbn [negb snd]. intros E. by apply add_blocks_windows in E as [-> _].
Qed.

(** ** Reading a tree changes nothing *)

Definition reads {A} (m : M machine A) : Prop := ∀ s, final (m s) = s.

Lemma reads_bind {A B} (m : M machine A) (k : A → M machine B) : reads m → (∀ a, reads (k a)) → reads (m ≫= k).
Proof.
  intros Hm Hk s. specialize (Hm s). unfold mbind, M_bind. destruct (m s) as [a s1|w s1]; cbn in Hm; subst s1; [apply Hk|done].
Qed.
Lemma reads_ret {A} (a : A) : reads (mret a).
Proof. done. Qed.
Lemma reads_gets {A} (f : machine → A) : reads (gets f).
Proof. done. Qed.
Lemma reads_stop {A} w : reads (stop (A := A) w).
Proof. done. Qed.
Lemma reads_loop {A B} (body : A → M machine (A + B)) : (∀ a, reads (body a)) → ∀ n a, reads (loop n body a).
Proof.
  intros Hb n. induction n as [|n IH]; intros a s; [done|]. cbn [loop]. specialize (Hb a s).
  destruct (body a s) as [[a'|b] s1|w s1]; cbn in Hb; subst s1; [apply IH|done|done].
Qed.
Lemma reads_if {A} (b : bool) (m m' : M machine A) : reads m → reads m' → reads (if b then m else m').
Proof. by destruct b. Qed.
Lemma reads_dec {A} P `{Decision P} (m m' : M machine A) : reads m → reads m' → reads (if decide P then m else m').
Proof. by case_decide. Qed.
Lemma reads_defined {A} (o : option A) : reads (defined o).
Proof. by destruct o. Qed.

Ltac reads_step :=
  lazymatch goal with
  | |- reads (loop _ _ _) => apply reads_loop; intros ?
  | |- reads (mbind _ _) => apply reads_bind; [|intros ?]
  | |- reads (if decide _ then _ else _) => apply reads_dec
  | |- reads (if _ then _ else _) => apply reads_if
  | |- reads (mret _) => apply reads_ret
  | |- reads (gets _) => apply reads_gets
  | |- reads (stop _) => apply reads_stop
  | |- reads (defined _) => apply reads_defined
  | |- reads (let _ := _ in _) => cbv zeta
  end.

Lemma validate_step_reads e st sz v : reads (validate_step e st sz v).
Proof. unfold validate_step, ld_be32, ld_strnlen, HvPanic. repeat reads_step. Qed.

Lemma find_step_reads ds st sz e v : reads (find_step ds st sz e v).
Proof. destruct v as [tok [depth stack]]. unfold find_step, ld_be32, ld_strnlen, HvPanic. repeat reads_step. Qed.

Lemma FindDevice_reads dtb n ds : reads (FindDevice dtb n ds).
Proof.
  unfold FindDevice, validateHeader, ld_be32, HvPanic. repeat reads_step; [apply validate_step_reads|apply find_step_reads].
Qed.

(** The machine is [s], and the console is the board's. *)
Definition at_machine (s : machine) (p : platform D) : Prop := p_machine p = s ∧ console_base p = BSP_UART_BASE.

Lemma parse_step_reads st sz e v : reads (parse_step st sz e v).
Proof. destruct v as [tok [s map]]. unfold parse_step, ld_be32, ld_strnlen, HvPanic. repeat reads_step. Qed.

Lemma ParseMemoryMap_reads dtb n : reads (ParseMemoryMap dtb n).
Proof.
  unfold ParseMemoryMap, validateHeader, ld_be32, HvPanic. repeat reads_step; [apply validate_step_reads|apply parse_step_reads].
Qed.

(** A parser's result is enough to know its run. *)
Definition result {A} (o : outcome machine A) : option A := match o with Done a _ => Some a | Stop _ _ => None end.

Lemma reads_result {A} (m : M machine A) s a : reads m → result (m s) = Some a → m s = Done a s.
Proof. intros Hm. specialize (Hm s). destruct (m s); cbn in *; [by intros [= ->]; subst|done]. Qed.

(** [o] leaves the machine of [p] as it is, however it ends. *)
Definition keeps_machine {A} (o : outcome (platform D) A) (p : platform D) : Prop := at_machine (p_machine p) (final o).

Lemma keeps_ret {A} (a : A) p : console_base p = BSP_UART_BASE → keeps_machine ((mret a : M (platform D) A) p) p.
Proof. done. Qed.

Lemma keeps_stop {A} w p : console_base p = BSP_UART_BASE → keeps_machine ((stop w : M (platform D) A) p) p.
Proof. done. Qed.

Lemma keeps_then {A B} (m : M (platform D) A) (k : A → M (platform D) B) p : keeps_machine (m p) p →
  (∀ a p', console_base p' = BSP_UART_BASE → keeps_machine (k a p') p') → keeps_machine ((m ≫= k) p) p.
Proof.
  intros [Hm Hb] Hk. unfold mbind, M_bind. destruct (m p) as [a p'|w p']; [|by split].
  destruct (Hk a p' Hb) as [H1 H2]. split; [by rewrite H1|done].
Qed.

Lemma find_keeps dtb ds p : console_base p = BSP_UART_BASE → keeps_machine (in_machine (FindDevice dtb fuel ds) p) p.
Proof.
  intros Hp. pose proof (FindDevice_reads dtb fuel ds (p_machine p)) as Hr. unfold in_machine.
  destruct (FindDevice dtb fuel ds (p_machine p)) as [node s|w s]; cbn in Hr; by subst s.
Qed.

Lemma warn_keeps {A} s (a : A) p : console_base p = BSP_UART_BASE → keeps_machine ((Println_str spin s;; mret a) p) p.
Proof.
  intros Hp. destruct (Println_str_then s (λ _, mret a) p Hp) as (p' & -> & Em & Eb). by split.
Qed.

Lemma add_pages_keeps rs : ∀ m p, console_base p = BSP_UART_BASE → keeps_machine (add_pages (D := D) rs m p) p.
Proof.
  induction rs as [|r rs IH]; intros m p Hp; cbn [add_pages]; [by apply keeps_ret|].
  destruct (AddPages m _ _ _) as [[] m1]; cbn [negb]; [by apply IH|by apply keeps_stop].
Qed.

Lemma GetGuestMmio_keeps dtb p : console_base p = BSP_UART_BASE → keeps_machine (GetGuestMmio spin fuel dtb p) p.
Proof.
  intros Hp. unfold GetGuestMmio. cbv zeta. apply keeps_then; [by apply find_keeps|]. clear p Hp. intros gic p Hp.
  apply keeps_then; [by apply find_keeps|]. clear p Hp. intros uart p Hp. apply keeps_then.
  { destruct (negb (isFound gic) || _); [by apply warn_keeps|by apply add_pages_keeps]. }
  clear p Hp. intros m p Hp. apply keeps_then.
  { destruct (negb (isFound uart) || _); [by apply warn_keeps|].
    destruct (AddPages m _ _ _) as [[] m1]; cbn [negb]; [by apply keeps_ret|by apply keeps_stop]. }
  clear p Hp. intros m1 p Hp. destruct (negb _); [|by apply keeps_ret].
  destruct (AddPages m1 _ _ _) as [[] m2]; cbn [negb]; [by apply keeps_ret|by apply keeps_stop].
Qed.
(** ** The guest's part of [hmain] *)

Context (vcpu_run : io D → machine → Vcpu → io D * machine * Vcpu * VcpuExit) (exits : nat).

Abbreviation guest_phase := (guest_phase spin fuel vcpu_run exits).

(** The machine [hmain] ends in, by what the guest's tree asks for. *)
Definition ends_with_guest (layout : GuestLayout) (p1 p2 : platform D) : Prop :=
  match GetGuestMmio spin fuel (IpaToHostPa layout (dtbIpa layout)) p1 with
  | Stop _ _ => p_machine p2 = p_machine p1
  | Done windows _ => ∀ v s2, Vm_new (guest_config layout) windows (p_machine p1) = Done v s2 →
      ∃ world, p_machine p2 = v_machine (final (Run vcpu_run exits (MkVmm world s2 v)))
  end.

Lemma stop_after (m : M (platform D) unit) text w p : says BSP_UART_BASE m text (λ _, True) → console_base p = BSP_UART_BASE →
  at_machine (p_machine p) (final ((m;; stop (A := unit) w) p)).
Proof. intros Hm Hp. by destruct (print_then m (λ _, stop (A := unit) w) p text Hm Hp) as (p' & -> & Em & Eb). Qed.

(** Running the guest, and reporting how it ended. *)
Definition run_and_report (vm : Vm) : M (platform D) unit :=
  result ← run_vm vcpu_run exits vm;
  match result with
  | inr st => Println spin "[VM] Guest stopped state={}" [AUnsigned (state_code st)]
  | inl INVALID_STATE => Println spin "[VM] Run rejected error={}" [AUnsigned 0]
  end;;
  stop (Wfe "[VM] stopped").

Lemma run_ends vm p : console_base p = BSP_UART_BASE →
  at_machine (v_machine (final (Run vcpu_run exits (MkVmm (p_io p) (p_machine p) vm)))) (final (run_and_report vm p)).
Proof.
  intros Hp. unfold run_and_report. unfold mbind at 1, M_bind at 1, run_vm.
  destruct (Run vcpu_run exits (MkVmm (p_io p) (p_machine p) vm)) as [r s|w s]; [|done]. cbn [final].
  destruct r as [[]|st].
  - destruct (Println_says "[VM] Run rejected error={}" [AUnsigned 0]) as [text Ht]; [by repeat constructor|].
    by apply (stop_after _ text).
  - destruct (Println_says "[VM] Guest stopped state={}" [AUnsigned (state_code st)]) as [text Ht]; [by repeat constructor|].
    by apply (stop_after _ text).
Qed.

Lemma guest_phase_ends layout p : console_base p = BSP_UART_BASE → console_base (final (guest_phase layout p)) = BSP_UART_BASE ∧
  ∃ p1, p_machine p1 = p_machine p ∧ ends_with_guest layout p1 (final (guest_phase layout p)).
Proof.
  intros Hp. unfold guest_phase.
  match goal with |- context [(Println_str spin ?s ≫= ?k) p] => destruct (Println_str_then s k p Hp) as (p1 & -> & Em & Eb) end.
  cbv beta. unfold ends_with_guest. pose proof (GetGuestMmio_keeps (IpaToHostPa layout (dtbIpa layout)) p1 Eb) as [Hk Hb].
  rewrite <-Em. destruct (GetGuestMmio _ _ _ p1) as [windows p2|w p2] eqn:Eg; cbn [final] in Hk, Hb.
  2: { rewrite (bind_stop _ _ _ _ _ Eg). split; [done|]. exists p1. by rewrite Eg. }
  rewrite (bind_done _ _ _ _ _ Eg). destruct (Vm_new (guest_config layout) windows (p_machine p2)) as [v s2|w s2] eqn:Ev.
  2: { unfold mbind at 1 3, M_bind at 1 3, in_machine at 1 2. rewrite Ev. split; [done|]. exists p1. rewrite Eg, <-Hk, Ev. done. }
  match goal with |- context [(in_machine ?m ≫= ?k) p2] => rewrite (machine_then m k p2 v s2 Ev) end. cbv beta.
  match goal with |- context [(Println_str spin ?s ≫= ?k) (with_machine p2 s2)] =>
    destruct (Println_str_then s k (with_machine p2 s2) Hb) as (p4 & -> & Em4 & Eb4) end.
  cbv beta. fold (run_and_report v). destruct (run_ends v p4 Eb4) as [Hr Hc]. split; [exact Hc|]. exists p1. split; [done|]. rewrite Eg, <-Hk, Ev.
  intros v' s2' [= <- <-]. exists (p_io p4). by rewrite Hr, Em4.
Qed.

(** A panic is reported on the console. *)
Lemma reporting_ends {A} (m : M (platform D) A) p s : at_machine s (final (m p)) → p_machine (final (reporting spin m p)) = s.
Proof.
  unfold reporting. intros [Hm Hb]. destruct (m p) as [a p1|[msg| | |] p1]; try done. cbn [final] in Hm, Hb.
  rewrite panic_report_split. destruct (after_banner spin BSP_UART_BASE Hdrain (A := A) (panic_rest spin) msg p1 (panic_rest_lines spin BSP_UART_BASE Hdrain) Hb)
    as (t & p' & _ & -> & _ & Hk). cbn [final]. by rewrite Hk.
Qed.

Lemma reporting_panics {A} (m : M (platform D) A) p s p1 msg : m p = Stop (Panic msg) p1 → at_machine s p1 →
  ∃ p2, reporting spin m p = Stop (Wfe msg) p2 ∧ p_machine p2 = s.
Proof.
  unfold reporting. intros -> [Hm Hb]. rewrite panic_report_split.
  destruct (after_banner spin BSP_UART_BASE Hdrain (A := A) (panic_rest spin) msg p1 (panic_rest_lines spin BSP_UART_BASE Hdrain) Hb)
    as (t & p' & _ & -> & _ & Hk). exists p'. by rewrite Hk.
Qed.

(** ** From the boot code to the guest *)

Context (init_array : list (M (platform D) unit)) (kernelBase kernelEnd : Z).
Abbreviation hmain_body := (hmain_body spin fuel init_array kernelBase kernelEnd vcpu_run exits).

(** The tree at [dtb] is one the parsers accept, and outside RAM. *)
Record tree_ok (dtb : Z) (map : MemoryMap) (s : machine) : Prop := {
  to_at : 0 < dtb < 2 ^ 62 ∧ dtb mod 4 = 0 ∧ be32 (mc_mem s) (fh_structOff dtb) mod 4 = 0;
  to_fuel : (S (Z.to_nat (be32 (mc_mem s) (fh_sizeStructs dtb))) ≤ fuel)%nat;
  to_valid : blob_valid (mc_mem s) dtb;
  to_apart : ∀ x, in_blob (mc_mem s) dtb x → ¬ in_ram map x;
}.

(** What the boot code and the firmware leave: [p0] is the state after the constructors, and the
    tree at [dtb] gives the memory map and the devices of the board. *)
Record starts_ok (dtb : Z) (p p0 : platform D) (map : MemoryMap) (uart gic : DeviceNode) : Prop := {
  so_constructed : RunGlobalConstructors init_array p = Done tt p0;
  so_console : console_base p0 = BSP_UART_BASE;
  so_tree : tree_ok dtb map (p_machine p0);
  so_map : ParseMemoryMap dtb fuel (p_machine p0) = Done map (p_machine p0);
  so_uart : FindDevice dtb fuel kUartCompatible (p_machine p0) = Done uart (p_machine p0);
  so_gic : FindDevice dtb fuel kGicCompatible (p_machine p0) = Done gic (p_machine p0);
  so_board : host_devices uart gic;
  so_regions : region_ok (region uart 0) ∧ Forall region_ok (regions gic) ∧ (regionCount gic < MMIO_MAX_WINDOWS)%nat;
  so_boot : boot_ok kernelBase kernelEnd map (host_windows uart gic);
}.

(** The trees are still there once the allocator and the hypervisor's tables are. *)
Lemma still_found dtb map s s2 node ds : tree_ok dtb map s → ds ≠ [] → mem_same_outside (in_ram map) s s2 →
  FindDevice dtb fuel ds s = Done node s → FindDevice dtb fuel ds s2 = Done node s2.
Proof.
  intros [(H1 & H2 & H3) Hf Hv Ha] Hne Hm E. rewrite (FindDevice_frame dtb s s2 fuel H1 H2 H3 Hf Hv); [by rewrite E|auto|done].
Qed.

(** [hmain] gets from the memory map to [p1], with the machine [bring_up] ends in. *)
Definition handed_over (r : HostMmu * (bool * GuestLayout)) (s1 : machine) (o : outcome (platform D) unit) (p1 : platform D) : Prop :=
  at_machine s1 p1 ∧
  if r.2.1 then o = guest_phase r.2.2 p1 else o = Stop (Panic "[ERROR][VM] Failed to spin up Linux VM") p1.

Lemma bind_inv {S A B} (m : M S A) (k : A → M S B) s b s' : (m ≫= k) s = Done b s' → ∃ a s1, m s = Done a s1 ∧ k a s1 = Done b s'.
Proof. unfold mbind, M_bind. destruct (m s) as [a s1|]; [|done]. by exists a, s1. Qed.

(** One step of [hmain] from a state with the machine [s]. *)

Lemma at_print {B} msg (k : unit → M (platform D) B) p s : at_machine s p →
  ∃ p', (Println_str spin msg ≫= k) p = k tt p' ∧ at_machine s p'.
Proof. intros [Em Eb]. destruct (Println_str_then msg k p Eb) as (p' & E & Em' & Eb'). exists p'. unfold at_machine. by rewrite Em'. Qed.

Lemma at_println {B} fmt args (k : unit → M (platform D) B) p s : Forall arg_ok args → at_machine s p →
  ∃ p', (Println spin fmt args ≫= k) p = k tt p' ∧ at_machine s p'.
Proof. intros Ha [Em Eb]. destruct (Println_then fmt args k p Ha Eb) as (p' & E & Em' & Eb'). exists p'. unfold at_machine. by rewrite Em'. Qed.

Lemma at_step {A B} (m : M machine A) (k : A → M (platform D) B) p s a s' : at_machine s p → m s = Done a s' →
  ∃ p', (in_machine m ≫= k) p = k a p' ∧ at_machine s' p'.
Proof. intros [<- Eb] E. exists (with_machine p s'). by rewrite (machine_then _ _ _ _ _ E). Qed.

Lemma at_devices {B} dtb p s uart gic (k : MmioMap → M (platform D) B) : at_machine s p →
  FindDevice dtb fuel kUartCompatible s = Done uart s → FindDevice dtb fuel kGicCompatible s = Done gic s → host_devices uart gic →
  region_ok (region uart 0) ∧ Forall region_ok (regions gic) ∧ (regionCount gic < MMIO_MAX_WINDOWS)%nat →
  ∃ p', (GetHostMmio spin fuel dtb ≫= k) p = k (host_windows uart gic) p' ∧ at_machine s p'.
Proof.
  intros [<- Hp] Hu Hg Hdev (H1 & H2 & H3).
  destruct (host_mmio_accepted spin p uart gic) as (map & p' & E & (Hb & _) & Em & _); [by rewrite Hp|done..|].
  exists p'. split; [|by split; [|unfold console_base; rewrite Hb]].
  assert (E' : GetHostMmio spin fuel dtb p = Done (host_windows uart gic) p').
  { unfold GetHostMmio. rewrite (FindDevice_then fuel dtb kUartCompatible uart), (FindDevice_then fuel dtb kGicCompatible gic) by done.
    by rewrite <-(host_mmio_windows _ _ _ _ _ E). }
  by rewrite (bind_done _ _ _ _ _ E').
Qed.

Ltac hmain_step H p :=
  let H' := fresh in
  match goal with
  | |- context [(Println_str spin ?msg ≫= ?k) ?q] => destruct (at_print msg k q _ H) as (p & -> & H')
  | |- context [(Println spin ?fmt ?args ≫= ?k) ?q] => destruct (at_println fmt args k q _ ltac:(by repeat constructor) H) as (p & -> & H')
  | E : ?m ?s = Done ?a ?s' |- context [(in_machine ?m ≫= ?k) ?q] => destruct (at_step m k q s a s' H E) as (p & -> & H')
  end; clear H; rename H' into H; cbv beta.

Lemma hmain_to_guest dtb p p0 map uart gic r s1 : starts_ok dtb p p0 map uart gic →
  bring_up kernelBase kernelEnd map (host_windows uart gic) (p_machine p0) = Done r s1 →
  ∃ p1, handed_over r s1 (hmain_body dtb p) p1.
Proof.
  intros [Hct Hcon Htree Hmap Hu Hg Hboard Hregions Hok] E. unfold bring_up in E.
  apply bind_inv in E as ([] & sa & E1 & E). apply bind_inv in E as (pt & sb & E2 & E).
  apply bind_inv in E as ([] & sc & E3 & E). apply bind_inv in E as (bytes & sd & E4 & E).
  injection E4 as E4 <-. apply bind_inv in E as (archive & se & E5 & E).
  apply bind_inv in E as ([loaded layout] & sf & E6 & E). injection E as <- <-.
  assert (Hm : mem_same_outside (in_ram map) (p_machine p0) sb).
  { eapply (host_new_mem _ _ _ _ Hok _ pt). by rewrite (bind_done _ _ _ _ _ E1). }
  eapply still_found in Hu, Hg; [|done..].
  unfold hmain_body. rewrite (bind_done _ _ _ _ _ Hct). assert (Hs : at_machine (p_machine p0) p0) by done.
  hmain_step Hs p1. hmain_step Hs p2. hmain_step Hs p3. hmain_step Hs p4. hmain_step Hs p5. hmain_step Hs p6. hmain_step Hs p7.
  hmain_step Hs p8. hmain_step Hs p9.
  match goal with |- context [(GetHostMmio _ _ _ ≫= ?k) _] => destruct (at_devices dtb p9 sb uart gic k Hs Hu Hg Hboard Hregions) as (q & -> & Ha) end.
  cbv beta. hmain_step Ha q1. hmain_step Ha q2. hmain_step Ha q3. destruct Ha as [Em Eb].
  erewrite bind_done; [|reflexivity]. cbv beta. rewrite Em, E4. assert (Ha : at_machine sc q3) by done.
  hmain_step Ha q4. hmain_step Ha q5. destruct loaded; [by exists q5|].
  cbn [negb fst snd]. destruct (at_println "[Guest] archive error={}" [AUnsigned (error_code (m_error archive))]
    (λ _, panic (A := unit) "[ERROR][VM] Failed to spin up Linux VM") q5 sf) as (q6 & -> & H6); [by repeat constructor|done|].
  by exists q6.
Qed.

(** ** The whole of it *)

End hmain.

(** ** A boot *)

(** A tree for the board of [fvp_board]: 2 GiB of RAM, with the firmware's files below it. *)
Definition full_struct : list Z :=
  node_bytes "" (
    prop_bytes 22 (be4 2) ++ prop_bytes 37 (be4 1) ++
    node_bytes "memory@80000000" (prop_bytes 0 (be4 0 ++ be4 0x80000000 ++ be4 0 ++ be4 0x80000000)) ++
    node_bytes "reserved-memory" (node_bytes "atf" (prop_bytes 0 (be4 0 ++ be4 0x4000000 ++ be4 0 ++ be4 0x200000))) ++
    node_bytes "chosen" (prop_bytes 49 (be4 0x48000000) ++ prop_bytes 68 (be4 (0x48000000 + 796))) ++
    node_bytes "interrupt-controller" (prop_bytes 4 (lit "arm,gic-400") ++
      prop_bytes 0 (be4 0 ++ be4 0x2f000000 ++ be4 0x10000 ++ be4 0 ++ be4 0x2c000000 ++ be4 0x2000 ++
        be4 0 ++ be4 0x2c010000 ++ be4 0x2000 ++ be4 0 ++ be4 0x2c02f000 ++ be4 0x2000)) ++
    node_bytes "serial" (prop_bytes 4 (lit "arm,pl011") ++ prop_bytes 0 (be4 0 ++ be4 0x1c090000 ++ be4 0x1000))) ++
  be4 9.
Definition full_dtb : list Z := blob_bytes 56 full_struct board_strings.
Definition full_map : MemoryMap :=
  MkMemoryMap 0x80000000 0x80000000 0x4000000 0x200000 0x44000000 (Z.of_nat (List.length full_dtb)) 0x48000000 796.
Definition full_platform : platform unit :=
  MkPlatform (set_mem (λ _, put 0x44000000 full_dtb (put 0x48000000 boot_archive ∅)) pool1) (MkIo tt []) None None.

Lemma full_pages k : Z.of_nat k ≤ 300000 → free_pages (unreserved 0x80080000 0x80280000 full_map) k.
Proof.
  intros Hk. exists ((λ i, 0x90000000 + i * 4096) <$> seqZ 0 (Z.of_nat k)). split_and!.
  - apply NoDup_fmap_2; [intros i j; lia|apply NoDup_seqZ].
  - rewrite length_fmap, length_seqZ. lia.
  - intros p (i & -> & Hi%elem_of_seqZ)%list_elem_of_fmap. split; [by rewrite Z.mod_add|]. split; [unfold in_ram; cbn; lia|].
    intros r Hr. assert (Hall : Forall (λ r, region_hi r.1 r.2 ≤ 0x90000000) (reserved_regions 0x80080000 0x80280000 full_map)).
    { repeat constructor; vm_compute; discriminate. }
    rewrite list.Forall_forall in Hall. specialize (Hall r Hr). cbv beta in Hall. lia.
Qed.

Definition full_windows : MmioMap :=
  [MkMmioWindow 0x1c000000 0x1c000000 0x200000 false; MkMmioWindow 0x2f000000 0x2f000000 0x200000 false;
   MkMmioWindow 0x2c000000 0x2c000000 0x200000 false].
Lemma full_host_windows : host_windows fvp_uart_node fvp_gic_node = full_windows.
Proof. vm_compute. reflexivity. Qed.

Lemma full_boot_ok : boot_ok 0x80080000 0x80280000 full_map (host_windows fvp_uart_node fvp_gic_node).
Proof.
  rewrite full_host_windows. split.
  - split; [..|repeat constructor]; vm_compute; intuition congruence.
  - done.
  - apply list.Forall_forall. intros w Hw. unfold window_ok, range_ok.
    repeat (apply elem_of_cons in Hw as [-> |Hw]; [split_and!; vm_compute; (reflexivity || discriminate)|]). by apply not_elem_of_nil in Hw.
  - apply full_pages. unfold boot_pages. change (window_pages full_windows) with 6%nat. lia.
  - vm_compute. intuition discriminate.
  - intros x Hx. unfold in_ram. cbn in *. lia.
Qed.

Lemma full_starts : starts_ok (D := unit) (H0 := fvp_board false) 1000 [] 0x80080000 0x80280000 0x44000000
  full_platform full_platform full_map fvp_uart_node fvp_gic_node.
Proof.
  split.
  - done.
  - done.
  - split; [split_and!; vm_compute; reflexivity|vm_compute; repeat constructor| |].
    + split; [split_and!|]; vm_compute; (reflexivity || discriminate).
    + intros x Hx. unfold in_blob in Hx. replace (be32 _ _) with (Z.of_nat (List.length full_dtb)) in Hx by (vm_compute; reflexivity).
      unfold in_ram. vm_compute (Z.of_nat _) in Hx. cbn in *. lia.
  - apply reads_result; [apply ParseMemoryMap_reads|vm_compute; reflexivity].
  - apply reads_result; [apply FindDevice_reads|vm_compute; reflexivity].
  - apply reads_result; [apply FindDevice_reads|vm_compute; reflexivity].
  - split_and!; vm_compute; (reflexivity || intuition discriminate).
  - destruct fvp_regions as [Hg [Hu _]%Forall_cons_1]. split; [exact Hu|]. split; [exact Hg|]. by apply Nat.ltb_lt.
  - apply full_boot_ok.
Qed.

