(* ===== verification/Arm.v ===== *)
(** * The instructions of the assembly files

    A core as the EL2 code sees it, the instructions vcpu.S, vectors.S, entry.S and the boot
    files use, and their execution. Registers and memory words are 64 bits wide, memory is
    little endian. [sp] is SP_EL2: PSTATE.SP is 1 wherever the code uses the stack. *)
From Stdlib Require Import String.
From S2P Require Import Prelude Memory.

(** The system registers the files name. *)
Inductive areg : Set :=
  | SCTLR_EL1 | TTBR0_EL1 | TTBR1_EL1 | TCR_EL1 | MAIR_EL1 | AMAIR_EL1 | VBAR_EL1 | ELR_EL1
  | SPSR_EL1 | ESR_EL1 | FAR_EL1 | AFSR0_EL1 | AFSR1_EL1 | CONTEXTIDR_EL1 | TPIDR_EL1 | TPIDR_EL0
  | TPIDRRO_EL0 | CNTKCTL_EL1 | CPACR_EL1 | PAR_EL1 | CSSELR_EL1 | SP_EL0 | SP_EL1
  | ELR_EL2 | SPSR_EL2 | ESR_EL2 | FAR_EL2 | HPFAR_EL2 | TPIDR_EL2 | DAIF | SPSel | CurrentEL
  | MPIDR_EL1 | MIDR_EL1 | HCR_EL2 | SCTLR_EL2 | CNTHCTL_EL2 | CNTVOFF_EL2 | VPIDR_EL2 | VMPIDR_EL2
  | VBAR_EL2.

#[export] Instance areg_eq_dec : EqDecision areg.
Proof. solve_decision. Defined.

(** Of the flags, Z and C. *)
Record cpu : Type := MkCpu {
  xr : nat → Z;      (** x0 to x30 *)
  sp : Z;
  sys : areg → Z;
  mem : gmap Z Z;
  zf : bool;
  cf : bool;
}.

Inductive reg : Set := X (n : nat) | XZR.
Inductive base : Set := SP | XB (n : nat).

Inductive instr : Set :=
  | STP (a b : reg) (m : base) (off : Z)          (** [stp a, b, [m, #off]] *)
  | STP_pre (a b : reg) (m : base) (off : Z)      (** [stp a, b, [m, #off]!] *)
  | STP_post (a b : reg) (m : base) (off : Z)     (** [stp a, b, [m], #off] *)
  | LDP (a b : reg) (m : base) (off : Z)
  | STR (a : reg) (m : base) (off : Z)
  | LDR (a : reg) (m : base) (off : Z)
  | LDR_eq (a : reg) (v : Z)                      (** [ldr a, =symbol] *)
  | ADR (a : reg) (v : Z)                         (** [adr a, symbol] *)
  | MRS (a : reg) (r : areg)
  | MSR (r : areg) (a : reg)
  | MSR_daifset (v : Z)
  | ADD_sp (v : Z)                                (** [add sp, sp, #v] *)
  | SUB_sp (v : Z)
  | MOV (d s : reg)
  | MOV_imm (d : reg) (v : Z)
  | MOV_from_sp (d : reg)                         (** [mov d, sp] *)
  | MOV_to_sp (s : reg)                           (** [mov sp, s] *)
  | AND_imm (d n : reg) (v : Z)
  | ORR_imm (d n : reg) (v : Z)
  | BIC_imm (d n : reg) (v : Z)
  | CMP_imm (n : reg) (v : Z)
  | CMP (n m : reg)
  | UBFX (d n : reg) (lsb width : Z)
  | ISB
  | B (l : string)
  | B_eq (l : string)
  | B_ne (l : string)
  | B_hs (l : string)
  | CBNZ (n : reg) (l : string)
  | BL (l : string)
  | ERET
  | RET
  | WFE.

(** A line of a file. *)
Inductive line : Set := Label (l : string) | I (i : instr).

(** ** Effects *)

Definition set_x (f : (nat → Z) → nat → Z) (c : cpu) : cpu := MkCpu (f (xr c)) (sp c) (sys c) (mem c) (zf c) (cf c).
Definition set_sp (v : Z) (c : cpu) : cpu := MkCpu (xr c) v (sys c) (mem c) (zf c) (cf c).
Definition set_sys (r : areg) (v : Z) (c : cpu) : cpu := MkCpu (xr c) (sp c) (<[r := v]> (sys c)) (mem c) (zf c) (cf c).
Definition set_mem (f : gmap Z Z → gmap Z Z) (c : cpu) : cpu := MkCpu (xr c) (sp c) (sys c) (f (mem c)) (zf c) (cf c).
Definition set_flags (a b : Z) (c : cpu) : cpu :=
  MkCpu (xr c) (sp c) (sys c) (mem c) (bool_decide (a = b)) (bool_decide (b ≤ a)).

Definition rd (c : cpu) (r : reg) : Z := match r with X n => xr c n | XZR => 0 end.
Definition wr (r : reg) (v : Z) (c : cpu) : cpu := match r with X n => set_x <[n := v]> c | XZR => c end.
Definition base_of (c : cpu) (m : base) : Z := match m with SP => sp c | XB n => xr c n end.
Definition set_base (m : base) (v : Z) (c : cpu) : cpu := match m with SP => set_sp v c | XB n => set_x <[n := v]> c end.

Definition store_pair (a v w : Z) (m : gmap Z Z) : gmap Z Z := store64 (store64 m a v) (a ⊞ 8) w.

(** What an instruction that does not branch does. *)
Definition effect (i : instr) (c : cpu) : cpu :=
  match i with
  | STP a b m off => set_mem (store_pair (base_of c m ⊞ off) (rd c a) (rd c b)) c
  | STP_pre a b m off =>
      let ad := base_of c m ⊞ off in set_base m ad (set_mem (store_pair ad (rd c a) (rd c b)) c)
  | STP_post a b m off =>
      let ad := base_of c m in set_base m (ad ⊞ off) (set_mem (store_pair ad (rd c a) (rd c b)) c)
  | LDP a b m off =>
      let ad := base_of c m ⊞ off in
      wr b (load64 (mem c) (ad ⊞ 8)) (wr a (load64 (mem c) ad) c)
  | STR a m off => set_mem (λ me, store64 me (base_of c m ⊞ off) (rd c a)) c
  | LDR a m off => wr a (load64 (mem c) (base_of c m ⊞ off)) c
  | LDR_eq a v | ADR a v => wr a v c
  | MRS a r => wr a (sys c r) c
  | MSR r a => set_sys r (rd c a) c
  | MSR_daifset v => set_sys DAIF (Z.lor (sys c DAIF) (v ≪ 6)) c
  | ADD_sp v => set_sp (sp c ⊞ v) c
  | SUB_sp v => set_sp (sp c ⊟ v) c
  | MOV d s => wr d (rd c s) c
  | MOV_imm d v => wr d v c
  | MOV_from_sp d => wr d (sp c) c
  | MOV_to_sp s => set_sp (rd c s) c
  | AND_imm d n v => wr d (Z.land (rd c n) v) c
  | ORR_imm d n v => wr d (Z.lor (rd c n) v) c
  | BIC_imm d n v => wr d (Z.land (rd c n) (not64 v)) c
  | CMP_imm n v => set_flags (rd c n) v c
  | CMP n m => set_flags (rd c n) (rd c m) c
  | UBFX d n lsb width => wr d (Z.land (rd c n ≫ lsb) (Z.ones width)) c
  | _ => c
  end.

(** ** Execution *)

(** Where a run of the text ends: a return, an exception return, a call of a function outside
    the text, or a core waiting for events (each with the lines it goes on to). *)
Inductive ending : Set :=
  | Returned
  | Exited
  | Called (f : string) (back : list line)
  | Waiting (back : list line).

Fixpoint code_at (text : list line) (l : string) : option (list line) :=
  match text with
  | [] => None
  | Label l' :: rest => if decide (l = l') then Some rest else code_at rest l
  | I _ :: rest => code_at rest l
  end.

Section exec.
Context (text : list line).

(** From the lines [k] on; a branch to a label of the text continues there, a [bl] leaves the
    text. [None]: out of fuel, or off the end of the text. *)
Fixpoint exec (fuel : nat) (k : list line) (c : cpu) : option (ending * cpu) :=
  match fuel with
  | O => None
  | S n =>
      match k with
      | [] => None
      | Label _ :: k' => exec n k' c
      | I i :: k' =>
          let goto l := match code_at text l with Some k'' => exec n k'' c | None => None end in
          match i with
          | B l => goto l
          | B_eq l => if zf c then goto l else exec n k' c
          | B_ne l => if zf c then exec n k' c else goto l
          | B_hs l => if cf c then goto l else exec n k' c
          | CBNZ r l => if decide (rd c r = 0) then exec n k' c else goto l
          | BL f => Some (Called f k', c)
          | ERET => Some (Exited, c)
          | RET => Some (Returned, c)
          | WFE => Some (Waiting k', c)
          | _ => exec n k' (effect i c)
          end
      end
  end.

(** From a label on. *)
Definition enter (fuel : nat) (l : string) (c : cpu) : option (ending * cpu) :=
  match code_at text l with Some k => exec fuel k c | None => None end.

Definition straight (i : instr) : bool :=
  match i with
  | B _ | B_eq _ | B_ne _ | B_hs _ | CBNZ _ _ | BL _ | ERET | RET | WFE => false
  | _ => true
  end.

Definition effects (js : list instr) (c : cpu) : cpu := fold_left (λ c i, effect i c) js c.

Lemma effects_app js ks c : effects (js ++ ks) c = effects ks (effects js c).
Proof. apply fold_left_app. Qed.

(** A run through instructions that do not branch. *)
Lemma exec_straight js : ∀ n k c, forallb straight js = true →
  exec (List.length js + n) ((I <$> js) ++ k) c = exec n k (effects js c).
Proof.
  induction js as [|i js IH]; intros n k c Hs; [done|]. simpl in Hs. apply andb_prop in Hs as [Hi Hs].
  rewrite fmap_cons. cbn [List.length Nat.add app effects fold_left].
  destruct i; try discriminate Hi; cbn [exec]; by apply IH.
Qed.

(** ** Runs with enough fuel *)

(** The run from [k] ends, in a state [Q] holds of. *)
Definition runs_to (k : list line) (c : cpu) (Q : ending * cpu → Prop) : Prop :=
  ∃ fuel r, exec fuel k c = Some r ∧ Q r.

Lemma exec_mono fuel : ∀ k c r fuel', exec fuel k c = Some r → (fuel ≤ fuel')%nat → exec fuel' k c = Some r.
Proof.
  induction fuel as [|n IH]; intros k c r [|n'] He Hle; [done|done|lia|]. cbn [exec] in *.
  destruct k as [|[l|i] k]; [done|apply (IH _ _ _ n' He); lia|].
  destruct i; try (apply (IH _ _ _ n' He); lia); try done;
    repeat case_match; try done; apply (IH _ _ _ n' He); lia.
Qed.

(** The result does not depend on the fuel. *)
Lemma runs_to_det k c Q Q' : runs_to k c Q → runs_to k c Q' → runs_to k c (λ r, Q r ∧ Q' r).
Proof.
  intros (n & r & Hn & Hr) (n' & r' & Hn' & Hr'). exists (n + n')%nat, r.
  apply (exec_mono n _ _ _ (n + n')) in Hn; [|lia]. apply (exec_mono n' _ _ _ (n + n')) in Hn'; [|lia].
  rewrite Hn in Hn'. injection Hn' as <-. done.
Qed.

Lemma runs_to_mono k c (Q Q' : ending * cpu → Prop) : runs_to k c Q → (∀ r, Q r → Q' r) → runs_to k c Q'.
Proof. intros (n & r & Hn & Hr) HQ. exists n, r. auto. Qed.

Lemma rt_straight js k c Q : forallb straight js = true → runs_to k (effects js c) Q → runs_to ((I <$> js) ++ k) c Q.
Proof. intros Hs (n & r & Hn & Hr). exists (List.length js + n)%nat, r. by rewrite exec_straight. Qed.

Lemma rt_label l k c Q : runs_to k c Q → runs_to (Label l :: k) c Q.
Proof. intros (n & r & Hn & Hr). by exists (S n), r. Qed.

Lemma rt_b l k k' c Q : code_at text l = Some k' → runs_to k' c Q → runs_to (I (B l) :: k) c Q.
Proof. intros E (n & r & Hn & Hr). exists (S n), r. cbn [exec]. by rewrite E. Qed.

(** A conditional branch goes to its label when [taken], and on otherwise. *)
Definition branches (i : instr) (c : cpu) : option (bool * string) :=
  match i with
  | B_eq l => Some (zf c, l)
  | B_ne l => Some (negb (zf c), l)
  | B_hs l => Some (cf c, l)
  | CBNZ n l => Some (negb (bool_decide (rd c n = 0)), l)
  | _ => None
  end.

Lemma rt_branch i l b k k' c Q :
  branches i c = Some (b, l) → code_at text l = Some k' → runs_to (if b then k' else k) c Q → runs_to (I i :: k) c Q.
Proof.
  intros Hb E (n & r & Hn & Hr). exists (S n), r. split; [|done].
  destruct i; try discriminate Hb; cbn [branches] in Hb; injection Hb as <- <-; cbn [exec];
    rewrite E; [by destruct (zf c)..|by destruct (cf c)|]. by case_bool_decide; case_decide.
Qed.

Lemma rt_ret k c (Q : ending * cpu → Prop) : Q (Returned, c) → runs_to (I RET :: k) c Q.
Proof. by exists 1%nat, (Returned, c). Qed.
Lemma rt_eret k c (Q : ending * cpu → Prop) : Q (Exited, c) → runs_to (I ERET :: k) c Q.
Proof. by exists 1%nat, (Exited, c). Qed.
Lemma rt_call f k c (Q : ending * cpu → Prop) : Q (Called f k, c) → runs_to (I (BL f) :: k) c Q.
Proof. by exists 1%nat, (Called f k, c). Qed.
Lemma rt_wait k c (Q : ending * cpu → Prop) : Q (Waiting k, c) → runs_to (I WFE :: k) c Q.
Proof. by exists 1%nat, (Waiting k, c). Qed.
End exec.

(** ** Sequences of loads and stores: what they leave *)

(** Every register holds a 64-bit value. *)
Record cpu_ok (c : cpu) : Prop := {
  co_x : ∀ n, fits 64 (xr c n);
  co_sys : ∀ r, fits 64 (sys c r);
}.

(** ** Several stores of words *)

Definition store_all (ws : list (Z * Z)) (m : gmap Z Z) : gmap Z Z :=
  fold_left (λ m w, store64 m w.1 w.2) ws m.

(** Words at offsets [l] from some base do not overlap. *)
Fixpoint spread (l : list Z) : bool :=
  match l with
  | [] => true
  | o :: l' => forallb (λ o', (o + 8 <=? o') || (o' + 8 <=? o)) l' && spread l'
  end.

Lemma spread_elem o l : spread (o :: l) = true → (∀ o', o' ∈ l → o + 8 ≤ o' ∨ o' + 8 ≤ o) ∧ spread l = true.
Proof.
  simpl. intros [Hall Hl]%andb_prop. split; [|done]. intros o' Ho'.
  rewrite forallb_forall in Hall. apply list_elem_of_In in Ho'. specialize (Hall o' Ho').
  apply orb_prop in Hall as [?%Z.leb_le|?%Z.leb_le]; auto.
Qed.

Definition at_base (p : Z) (ws : list (Z * Z)) : list (Z * Z) := (λ w, (p + w.1, w.2)) <$> ws.

Lemma store_all_app ws ws' m : store_all (ws ++ ws') m = store_all ws' (store_all ws m).
Proof. apply fold_left_app. Qed.

Lemma store_at_app p ws ws' m : store_all (at_base p (ws ++ ws')) m = store_all (at_base p ws') (store_all (at_base p ws) m).
Proof. unfold at_base. by rewrite fmap_app, store_all_app. Qed.

Lemma store_at_one p o v m : store_all (at_base p [(o, v)]) m = store64 m (p + o) v.
Proof. done. Qed.

Lemma store_all_frame ws : ∀ m x, (∀ a v, (a, v) ∈ ws → ¬ a ≤ x < a + 8) → load8 (store_all ws m) x = load8 m x.
Proof.
  induction ws as [|[a v] ws IH]; intros m x Hx; [done|]. cbn [store_all fold_left fst snd].
  unfold store_all in IH. rewrite IH by (intros b w Hw; apply (Hx b w); set_solver).
  apply store_frame. apply (Hx a v). set_solver.
Qed.

Lemma store_all_other ws m a n :
  (∀ b v, (b, v) ∈ ws → b + 8 ≤ a ∨ a + Z.of_nat n ≤ b) → load n (store_all ws m) a = load n m a.
Proof.
  intros Ha. apply load_agree. intros x Hx. apply store_all_frame. intros b v Hb. specialize (Ha b v Hb). lia.
Qed.

Lemma at_base_elem p ws a v : (a, v) ∈ at_base p ws ↔ ∃ o, a = p + o ∧ (o, v) ∈ ws.
Proof.
  unfold at_base. rewrite list_elem_of_fmap. split.
  - intros ([o w] & [= -> ->] & Hw). by exists o.
  - intros (o & -> & Ho). by exists (o, v).
Qed.

Lemma store_all_at p ws : ∀ m o v,
  spread ws.*1 = true → (o, v) ∈ ws → fits 64 v → load64 (store_all (at_base p ws) m) (p + o) = v.
Proof.
  induction ws as [|[o' v'] ws IH]; intros m o v Hs Hin Hv; [by apply elem_of_nil in Hin|].
  rewrite fmap_cons in Hs. apply spread_elem in Hs as [Hap Hs]. cbn [at_base fmap list_fmap store_all fold_left fst snd].
  apply elem_of_cons in Hin as [[= <- <-]|Hin]; [|by apply IH].
  change (fold_left _ _ ?m) with (store_all (at_base p ws) m).
  rewrite store_all_other; [by apply (load_store_eq_fits 8)|].
  intros b w (x & -> & Hx)%at_base_elem. specialize (Hap x). 
  assert (x ∈ ws.*1) by (apply list_elem_of_fmap; by exists (x, w)). naive_solver lia.
Qed.

Lemma store_pair_all a v w m : store_pair a v w m = store_all [(a, v); (a ⊞ 8, w)] m.
Proof. done. Qed.

(** ** Groups of instructions *)

(** [c'] is [c] but for the registers in [xs]. *)
Definition same_x (xs : list nat) (c c' : cpu) : Prop := ∀ n, n ∉ xs → xr c' n = xr c n.

(** The macros of vcpu.S. *)
Definition restore_register (ro : areg * Z) : list instr := [LDR (X 1) (XB 0) ro.2; MSR ro.1 (X 1)].
Definition save_register (ro : areg * Z) : list instr := [MRS (X 1) ro.1; STR (X 1) (XB 0) ro.2].

Definition ldp (m : base) (t : nat * nat * Z) : instr := LDP (X t.1.1) (X t.1.2) m t.2.
Definition stp (m : base) (t : nat * nat * Z) : instr := STP (X t.1.1) (X t.1.2) m t.2.
(** The words a list of pairs moves: register and offset. *)
Definition words (l : list (nat * nat * Z)) : list (nat * Z) := concat ((λ t, [(t.1.1, t.2); (t.1.2, t.2 + 8)]) <$> l).

(** Offsets of an object of [lim] bytes. *)
Definition within (lim : Z) (l : list Z) : Prop := Forall (λ o, 0 ≤ o ∧ o + 8 ≤ lim) l.
#[export] Instance within_dec lim l : Decision (within lim l).
Proof. unfold within. apply _. Defined.

(** The address of a member of an object at [p]. *)
Lemma member p lim o : 0 ≤ p → p + lim ≤ 2 ^ 64 → 0 ≤ o ∧ o + 8 ≤ lim → p ⊞ o = p + o.
Proof. intros. apply Z.mod_small. lia. Qed.

Section object.
Context (p lim : Z) (Hp : 0 ≤ p) (Hlim : p + lim ≤ 2 ^ 64).

Lemma restores_spec l : ∀ c, xr c 0 = p → NoDup l.*1 → within lim l.*2 →
  let c' := effects (concat (restore_register <$> l)) c in
  mem c' = mem c ∧ sp c' = sp c ∧ same_x [1%nat] c c' ∧
  (∀ r o, (r, o) ∈ l → sys c' r = load64 (mem c) (p + o)) ∧
  (∀ r, r ∉ l.*1 → sys c' r = sys c r).
Proof.
  induction l as [|[r o] l IH]; intros c Hx0 Hnd Hw; cbv zeta.
  { split_and!; try done. by intros r o ?%elem_of_nil. }
  rewrite fmap_cons in Hnd. rewrite fmap_cons in Hw. apply list.NoDup_cons in Hnd as [Hr Hnd]. apply Forall_cons_1 in Hw as [Ho Hw].
  rewrite fmap_cons. cbn [concat]. rewrite effects_app. set (c1 := effects (restore_register (r, o)) c).
  destruct (IH c1) as (Hm & Hsp & Hx & Hin & Hout); [done..|]. cbv zeta in *.
  set (c' := effects _ c1) in *. split_and!; [done|done| | |].
  - intros n Hn. rewrite (Hx n Hn). simpl. rewrite fn_lookup_insert_ne; [done|set_solver].
  - intros r' o' [[= -> ->]|Hin']%elem_of_cons; [|by rewrite (Hin r' o' Hin')].
    rewrite Hout by done. simpl. rewrite fn_lookup_insert. rewrite fn_lookup_insert, Hx0. cbn [snd]. by rewrite (member p lim).
  - intros r' [Hne Hr']%not_elem_of_cons. rewrite Hout by done. simpl. by rewrite fn_lookup_insert_ne.
Qed.

Lemma saves_spec l : ∀ c, xr c 0 = p → within lim l.*2 →
  let c' := effects (concat (save_register <$> l)) c in
  mem c' = store_all (at_base p ((λ ro, (ro.2, sys c ro.1)) <$> l)) (mem c) ∧
  sp c' = sp c ∧ sys c' = sys c ∧ same_x [1%nat] c c'.
Proof.
  induction l as [|[r o] l IH]; intros c Hx0 Hw; cbv zeta; [done|].
  rewrite fmap_cons in Hw. apply Forall_cons_1 in Hw as [Ho Hw]. rewrite fmap_cons. cbn [concat]. rewrite effects_app.
  destruct (IH (effects (save_register (r, o)) c)) as (Hm & Hsp & Hs & Hx); [done..|]. cbv zeta in *.
  set (c' := effects _ _) in *. split_and!; [|done|done|].
  - rewrite Hm. simpl. rewrite fn_lookup_insert. rewrite fn_lookup_insert_ne, Hx0 by done. cbn [snd] in Ho. by rewrite (member p lim o).
  - intros n Hn. rewrite (Hx n Hn). simpl. rewrite fn_lookup_insert_ne; [done|set_solver].
Qed.

(** Loads whose base is not among the targets. *)
Lemma ldps_spec m l : ∀ c, base_of c m = p → NoDup (words l).*1 → within lim (words l).*2 →
  (match m with SP => True | XB b => b ∉ (words l).*1 end) →
  let c' := effects (ldp m <$> l) c in
  mem c' = mem c ∧ sp c' = sp c ∧ sys c' = sys c ∧ same_x (words l).*1 c c' ∧
  (∀ n o, (n, o) ∈ words l → xr c' n = load64 (mem c) (p + o)).
Proof.
  induction l as [|[[a b] o] l IH]; intros c Hbase Hnd Hw Hb; cbv zeta.
  { split_and!; try done. by intros ? ? ?%elem_of_nil. }
  change (words ((a, b, o) :: l)) with ((a, o) :: (b, o + 8) :: words l) in *. rewrite !fmap_cons in Hnd. rewrite !fmap_cons in Hw. rewrite !fmap_cons in Hb. cbn [fst snd] in *.
  apply list.NoDup_cons in Hnd as [Ha Hnd]. apply list.NoDup_cons in Hnd as [Hb' Hnd].
  apply Forall_cons_1 in Hw as [Ho Hw]. apply Forall_cons_1 in Hw as [Ho8 Hw].
  rewrite fmap_cons. set (c1 := effect (ldp m (a, b, o)) c).
  change (effects (ldp m (a, b, o) :: (ldp m <$> l)) c) with (effects (ldp m <$> l) c1).
  assert (E1 : xr c1 = <[b := load64 (mem c) (p + (o + 8))]> (<[a := load64 (mem c) (p + o)]> (xr c))).
  { unfold c1. cbn [effect ldp fst snd wr set_x xr]. rewrite Hbase, (member p lim o), <-(member p lim (o + 8)) by done.
    by rewrite (member p lim (o + 8)), <-Z.add_assoc, (member p lim (o + 8)) by done. }
  assert (Hbase1 : base_of c1 m = p).
  { destruct m as [|n]; [done|]. cbn [base_of] in *. rewrite E1, !fn_lookup_insert_ne; [done|set_solver..]. }
  destruct (IH c1 Hbase1 Hnd Hw) as (Hm & Hsp & Hs & Hx & Hin); [destruct m; [done|set_solver]|]. cbv zeta in *.
  set (c' := effects _ c1) in *. split_and!; [done|done|done| |].
  - intros n Hn. rewrite !fmap_cons in Hn. cbn [fst] in Hn. rewrite Hx by set_solver. rewrite E1, !fn_lookup_insert_ne; [done|set_solver..].
  - intros n o' [[= -> ->]|[[= -> ->]|Hin']%elem_of_cons]%elem_of_cons; [| |by apply Hin].
    + rewrite Hx by set_solver. rewrite E1, fn_lookup_insert_ne by set_solver. by rewrite fn_lookup_insert.
    + rewrite Hx by set_solver. by rewrite E1, fn_lookup_insert.
Qed.

Lemma stps_spec m l : ∀ c, base_of c m = p → within lim (words l).*2 →
  effects (stp m <$> l) c = set_mem (store_all (at_base p ((λ w, (w.2, xr c w.1)) <$> words l))) c.
Proof.
  induction l as [|[[a b] o] l IH]; intros c Hbase Hw; [by destruct c|].
  change (words ((a, b, o) :: l)) with ((a, o) :: (b, o + 8) :: words l) in *. rewrite !fmap_cons in Hw. cbn [fst snd] in *.
  apply Forall_cons_1 in Hw as [Ho Hw]. apply Forall_cons_1 in Hw as [Ho8 Hw].
  rewrite !fmap_cons. change (effects (?i :: ?l) c) with (effects l (effect i c)). rewrite IH; [|by destruct m|done].
  unfold set_mem. cbn [effect stp fst snd]. unfold set_mem at 1. cbn [xr sp sys mem zf cf rd].
  rewrite Hbase, (member p lim o) by done.
  assert (p + o ⊞ 8 = p + (o + 8)) as E by (rewrite <-(member p lim (o + 8)) by done; f_equal; lia).
  unfold store_pair. rewrite E. reflexivity.
Qed.

(** Words copied from the stack, one register's worth at a time. *)
Definition copy_word (t : Z * Z) : list instr := [LDR (X 3) SP t.1; STR (X 3) (XB 2) t.2].

Lemma copies_spec s slim l : 0 ≤ s → s + slim ≤ 2 ^ 64 → ∀ c, sp c = s → xr c 2 = p →
  within slim l.*1 → within lim l.*2 → s + slim ≤ p ∨ p + lim ≤ s →
  let c' := effects (concat (copy_word <$> l)) c in
  mem c' = store_all (at_base p ((λ t, (t.2, load64 (mem c) (s + t.1))) <$> l)) (mem c) ∧
  sp c' = sp c ∧ sys c' = sys c ∧ same_x [3%nat] c c'.
Proof.
  intros Hs Hslim. induction l as [|[o off] l IH]; intros c Hsp Hx2 Hw1 Hw2 Hap; cbv zeta; [done|].
  rewrite fmap_cons in Hw1. rewrite fmap_cons in Hw2. cbn [fst snd] in *.
  apply Forall_cons_1 in Hw1 as [Ho Hw1]. apply Forall_cons_1 in Hw2 as [Hoff Hw2].
  rewrite fmap_cons. cbn [concat]. rewrite effects_app. set (c1 := effects (copy_word (o, off)) c).
  assert (E1 : mem c1 = store64 (mem c) (p + off) (load64 (mem c) (s + o))).
  { unfold c1. cbn. rewrite fn_lookup_insert. rewrite fn_lookup_insert_ne, Hx2, Hsp by done.
    by rewrite (member p lim off), (member s slim o). }
  assert (Hx1 : xr c1 2 = p) by (unfold c1; cbn; by rewrite fn_lookup_insert_ne).
  destruct (IH c1) as (Hm & Hsp' & Hs' & Hx); [done..|]. cbv zeta in *. set (c' := effects _ c1) in *.
  split_and!; [|done|done|].
  - rewrite Hm, E1. rewrite fmap_cons. cbn [at_base fmap list_fmap store_all fold_left fst snd]. f_equal. f_equal.
    apply list_fmap_ext. intros i [o' off'] Hi. cbn [fst snd]. f_equal. apply load_store_ne.
    apply list_elem_of_lookup_2 in Hi. unfold within in Hw1. rewrite list.Forall_forall in Hw1. specialize (Hw1 o').
    assert (o' ∈ l.*1) by (apply list_elem_of_fmap; by exists (o', off')). naive_solver lia.
  - intros n Hn. rewrite (Hx n Hn). unfold c1. cbn. rewrite fn_lookup_insert_ne; [done|set_solver].
Qed.
End object.
