(* ===== verification/Assembly.v ===== *)
(** * The assembly files: vcpu.S, vectors.S, entry.S, and boot.S of both boards

    core/vcpu, core/vmm/exceptions, bsp. Every file is a list of labels and instructions, in its
    order; a macro is a definition. *)
From Stdlib Require Import String.
From S2P Require Import Prelude Memory Vcpu Arm.

Definition HOST_FRAME_SIZE : Z := 144.
Definition HOST_TPIDR_DAIF : Z := 96.
Definition HOST_SP_ELR : Z := 112.
Definition HOST_SPSR : Z := 128.
Definition HOST_EXIT : Z := 136.

(** An offset of vcpuOffsets.h. *)
Abbreviation ofs v := (vcpu_offset v).
Abbreviation vx n := (VCPU_X n).
Abbreviation vs f := (VCPU_SYS f).

Definition vcpu_read_sctlr : list line := [Label "vcpu_read_sctlr"; I (MRS (X 0) SCTLR_EL1); I RET].

(** ** Into the guest: vcpu.S *)

(** Saving what the caller keeps; x0 is the [Vcpu], x1 the [VcpuExit]. *)
Definition save_host : list instr :=
  [MRS (X 2) DAIF;
   MSR_daifset 0xf;
   SUB_sp HOST_FRAME_SIZE;
   STP (X 19) (X 20) SP 0;
   STP (X 21) (X 22) SP 16;
   STP (X 23) (X 24) SP 32;
   STP (X 25) (X 26) SP 48;
   STP (X 27) (X 28) SP 64;
   STP (X 29) (X 30) SP 80;
   STR (X 1) SP HOST_EXIT;
   MRS (X 1) TPIDR_EL2;
   STP (X 1) (X 2) SP HOST_TPIDR_DAIF;
   MRS (X 1) SP_EL0;
   MRS (X 2) ELR_EL2;
   STP (X 1) (X 2) SP HOST_SP_ELR;
   MRS (X 1) SPSR_EL2;
   STR (X 1) SP HOST_SPSR;
   MSR TPIDR_EL2 (X 0)].

Definition restored : list (areg * saved) :=
  [(TTBR0_EL1, vs sf_ttbr0); (TTBR1_EL1, vs sf_ttbr1); (TCR_EL1, vs sf_tcr); (MAIR_EL1, vs sf_mair);
   (AMAIR_EL1, vs sf_amair); (VBAR_EL1, vs sf_vbar); (ELR_EL1, vs sf_elr); (SPSR_EL1, vs sf_spsr);
   (ESR_EL1, vs sf_esr); (FAR_EL1, vs sf_far); (AFSR0_EL1, vs sf_afsr0); (AFSR1_EL1, vs sf_afsr1);
   (CONTEXTIDR_EL1, vs sf_contextidr); (TPIDR_EL1, vs sf_tpidr); (TPIDR_EL0, vs sf_tpidrEl0);
   (TPIDRRO_EL0, vs sf_tpidrroEl0); (CNTKCTL_EL1, vs sf_cntkctl); (CPACR_EL1, vs sf_cpacr);
   (PAR_EL1, vs sf_par); (CSSELR_EL1, vs sf_csselr); (SP_EL0, VCPU_SP_EL0); (SP_EL1, VCPU_SP_EL1)].

(** One use of a macro per register. *)
Definition offsets (l : list (areg * saved)) : list (areg * Z) := prod_map id vcpu_offset <$> l.
Definition restore_all (l : list (areg * saved)) : list instr := concat (restore_register <$> offsets l).
Definition save_all (l : list (areg * saved)) : list instr := concat (save_register <$> offsets l).

Definition restore_pc : list instr :=
  [LDR (X 1) (XB 0) (ofs VCPU_PC);
   MSR ELR_EL2 (X 1);
   LDR (X 1) (XB 0) (ofs VCPU_PSTATE);
   MSR SPSR_EL2 (X 1)].

Definition restore_x : list instr :=
  [LDP (X 2) (X 3) (XB 0) (ofs (vx 2));
   LDP (X 4) (X 5) (XB 0) (ofs (vx 4));
   LDP (X 6) (X 7) (XB 0) (ofs (vx 6));
   LDP (X 8) (X 9) (XB 0) (ofs (vx 8));
   LDP (X 10) (X 11) (XB 0) (ofs (vx 10));
   LDP (X 12) (X 13) (XB 0) (ofs (vx 12));
   LDP (X 14) (X 15) (XB 0) (ofs (vx 14));
   LDP (X 16) (X 17) (XB 0) (ofs (vx 16));
   LDP (X 18) (X 19) (XB 0) (ofs (vx 18));
   LDP (X 20) (X 21) (XB 0) (ofs (vx 20));
   LDP (X 22) (X 23) (XB 0) (ofs (vx 22));
   LDP (X 24) (X 25) (XB 0) (ofs (vx 24));
   LDP (X 26) (X 27) (XB 0) (ofs (vx 26));
   LDP (X 28) (X 29) (XB 0) (ofs (vx 28));
   LDR (X 30) (XB 0) (ofs (vx 30));
   LDP (X 0) (X 1) (XB 0) (ofs (vx 0))].

Definition enter_guest : list instr :=
  save_host ++ restore_all restored ++ [ISB] ++ restore_all [(SCTLR_EL1, vs sf_sctlr)] ++ [ISB] ++
  restore_pc ++ restore_x.

Definition vcpu_run : list line := [Label "vcpu_run"] ++ (I <$> enter_guest) ++ [I ERET].

(** ** Out of the guest *)

Definition vcpu_exits : list line :=
  [Label "vcpu_exit_sync"; I (MOV_imm (X 1) (exit_code SYNC)); I (B "vcpu_exit");
   Label "vcpu_exit_irq"; I (MOV (X 0) XZR); I (MOV_imm (X 1) (exit_code IRQ)); I (B "vcpu_exit");
   Label "vcpu_exit_fiq"; I (MOV (X 0) XZR); I (MOV_imm (X 1) (exit_code FIQ)); I (B "vcpu_exit");
   Label "vcpu_exit_serror"; I (MOV_imm (X 1) (exit_code SERROR)); I (B "vcpu_exit")].

Definition save_x : list instr :=
  [STP_pre (X 1) (X 0) SP (-16);
   MRS (X 2) TPIDR_EL2;
   LDR (X 3) SP 32;
   STR (X 3) (XB 2) (ofs (vx 0));
   LDR (X 3) SP 40;
   STR (X 3) (XB 2) (ofs (vx 1));
   LDR (X 3) SP 16;
   STR (X 3) (XB 2) (ofs (vx 2));
   LDR (X 3) SP 24;
   STR (X 3) (XB 2) (ofs (vx 3));
   STP (X 4) (X 5) (XB 2) (ofs (vx 4));
   STP (X 6) (X 7) (XB 2) (ofs (vx 6));
   STP (X 8) (X 9) (XB 2) (ofs (vx 8));
   STP (X 10) (X 11) (XB 2) (ofs (vx 10));
   STP (X 12) (X 13) (XB 2) (ofs (vx 12));
   STP (X 14) (X 15) (XB 2) (ofs (vx 14));
   STP (X 16) (X 17) (XB 2) (ofs (vx 16));
   STP (X 18) (X 19) (XB 2) (ofs (vx 18));
   STP (X 20) (X 21) (XB 2) (ofs (vx 20));
   STP (X 22) (X 23) (XB 2) (ofs (vx 22));
   STP (X 24) (X 25) (XB 2) (ofs (vx 24));
   STP (X 26) (X 27) (XB 2) (ofs (vx 26));
   STP (X 28) (X 29) (XB 2) (ofs (vx 28));
   STR (X 30) (XB 2) (ofs (vx 30));
   MOV (X 0) (X 2)].

Definition saved_regs : list (areg * saved) :=
  [(SCTLR_EL1, vs sf_sctlr); (TTBR0_EL1, vs sf_ttbr0); (TTBR1_EL1, vs sf_ttbr1); (TCR_EL1, vs sf_tcr);
   (MAIR_EL1, vs sf_mair); (AMAIR_EL1, vs sf_amair); (VBAR_EL1, vs sf_vbar); (ELR_EL1, vs sf_elr);
   (SPSR_EL1, vs sf_spsr); (ESR_EL1, vs sf_esr); (FAR_EL1, vs sf_far); (AFSR0_EL1, vs sf_afsr0);
   (AFSR1_EL1, vs sf_afsr1); (CONTEXTIDR_EL1, vs sf_contextidr); (TPIDR_EL1, vs sf_tpidr);
   (TPIDR_EL0, vs sf_tpidrEl0); (TPIDRRO_EL0, vs sf_tpidrroEl0); (CNTKCTL_EL1, vs sf_cntkctl);
   (CPACR_EL1, vs sf_cpacr); (PAR_EL1, vs sf_par); (CSSELR_EL1, vs sf_csselr); (SP_EL0, VCPU_SP_EL0);
   (SP_EL1, VCPU_SP_EL1)].

Definition save_pc : list instr :=
  [MRS (X 1) ELR_EL2;
   STR (X 1) (XB 0) (ofs VCPU_PC);
   MRS (X 1) SPSR_EL2;
   STR (X 1) (XB 0) (ofs VCPU_PSTATE)].

(** The [VcpuExit]: reason, syndrome, and the fault addresses of an abort. *)
Definition report_exit : list line :=
  [I (LDR (X 3) SP (48 + HOST_EXIT));
   I (LDP (X 4) (X 5) SP 0);
   I (STP (X 4) (X 5) (XB 3) 0);
   I (STP XZR XZR (XB 3) 16);
   I (CMP_imm (X 4) (exit_code SYNC));
   I (B_ne "vcpu_exit.1");
   I (UBFX (X 4) (X 5) 26 6);
   I (CMP_imm (X 4) 0x20);
   I (B_eq "vcpu_exit.2");
   I (CMP_imm (X 4) 0x21);
   I (B_eq "vcpu_exit.2");
   I (CMP_imm (X 4) 0x24);
   I (B_eq "vcpu_exit.2");
   I (CMP_imm (X 4) 0x25);
   I (B_ne "vcpu_exit.1");
   Label "vcpu_exit.2";
   I (MRS (X 4) FAR_EL2);
   I (MRS (X 5) HPFAR_EL2);
   I (STP (X 4) (X 5) (XB 3) 16);
   Label "vcpu_exit.1"].

Definition restore_host : list instr :=
  [ADD_sp 48;
   LDP (X 2) (X 3) SP HOST_SP_ELR;
   MSR SP_EL0 (X 2);
   MSR ELR_EL2 (X 3);
   LDR (X 2) SP HOST_SPSR;
   MSR SPSR_EL2 (X 2);
   LDP (X 2) (X 3) SP HOST_TPIDR_DAIF;
   MSR TPIDR_EL2 (X 2);
   LDP (X 19) (X 20) SP 0;
   LDP (X 21) (X 22) SP 16;
   LDP (X 23) (X 24) SP 32;
   LDP (X 25) (X 26) SP 48;
   LDP (X 27) (X 28) SP 64;
   LDP (X 29) (X 30) SP 80;
   ADD_sp HOST_FRAME_SIZE;
   MSR DAIF (X 3)].

Definition vcpu_exit : list line :=
  [Label "vcpu_exit"] ++ (I <$> save_x ++ save_all saved_regs ++ save_pc) ++ report_exit ++
  (I <$> restore_host) ++ [I RET].

Definition vcpu_S : list line := vcpu_read_sctlr ++ vcpu_run ++ vcpu_exits ++ vcpu_exit.

(** ** The exception vectors: 16 slots of 0x80 bytes *)

Definition el2_vectors : list (list instr) :=
  [ (* EL2 with SP_EL0 *)
    [B "el2_unhandled"]; [B "el2_unhandled"]; [B "el2_unhandled"]; [B "el2_unhandled"];
    (* EL2 with SP_EL2 *)
    [B "el2_sync"]; [B "el2_irq"]; [B "el2_fiq"]; [B "el2_serror"];
    (* lower EL, AArch64 *)
    [STP_pre (X 0) (X 1) SP (-16); STP_pre (X 2) (X 3) SP (-16); MRS (X 0) ESR_EL2; B "vcpu_exit_sync"];
    [STP_pre (X 0) (X 1) SP (-16); STP_pre (X 2) (X 3) SP (-16); B "vcpu_exit_irq"];
    [STP_pre (X 0) (X 1) SP (-16); STP_pre (X 2) (X 3) SP (-16); B "vcpu_exit_fiq"];
    [STP_pre (X 0) (X 1) SP (-16); STP_pre (X 2) (X 3) SP (-16); MRS (X 0) ESR_EL2; B "vcpu_exit_serror"];
    (* lower EL, AArch32 *)
    [B "el2_unhandled"]; [B "el2_unhandled"]; [B "el2_unhandled"]; [B "el2_unhandled"] ].

(** The slot at offset 0x200 * [group] + 0x80 * [kind] of the table. *)
Definition vector (group kind : nat) : list instr := nth (4 * group + kind) el2_vectors [].
Definition kind_of (r : ExitReason) : nat := match r with SYNC => 0 | IRQ => 1 | FIQ => 2 | SERROR => 3 end.

(** ** The entries of the hypervisor's own exceptions: entry.S (core/vmm/exceptions) *)

Definition save_context : list instr :=
  [SUB_sp 272;
   STP (X 0) (X 1) SP 0;
   STP (X 2) (X 3) SP 16;
   STP (X 4) (X 5) SP 32;
   STP (X 6) (X 7) SP 48;
   STP (X 8) (X 9) SP 64;
   STP (X 10) (X 11) SP 80;
   STP (X 12) (X 13) SP 96;
   STP (X 14) (X 15) SP 112;
   STP (X 16) (X 17) SP 128;
   STP (X 18) (X 19) SP 144;
   STP (X 20) (X 21) SP 160;
   STP (X 22) (X 23) SP 176;
   STP (X 24) (X 25) SP 192;
   STP (X 26) (X 27) SP 208;
   STP (X 28) (X 29) SP 224;
   STR (X 30) SP 240;
   MRS (X 0) ELR_EL2;
   MRS (X 1) SPSR_EL2;
   STP (X 0) (X 1) SP 248].

Definition restore_context : list instr :=
  [LDP (X 0) (X 1) SP 248;
   MSR ELR_EL2 (X 0);
   MSR SPSR_EL2 (X 1);
   LDP (X 0) (X 1) SP 0;
   LDP (X 2) (X 3) SP 16;
   LDP (X 4) (X 5) SP 32;
   LDP (X 6) (X 7) SP 48;
   LDP (X 8) (X 9) SP 64;
   LDP (X 10) (X 11) SP 80;
   LDP (X 12) (X 13) SP 96;
   LDP (X 14) (X 15) SP 112;
   LDP (X 16) (X 17) SP 128;
   LDP (X 18) (X 19) SP 144;
   LDP (X 20) (X 21) SP 160;
   LDP (X 22) (X 23) SP 176;
   LDP (X 24) (X 25) SP 192;
   LDP (X 26) (X 27) SP 208;
   LDP (X 28) (X 29) SP 224;
   LDR (X 30) SP 240;
   ADD_sp 272].

(** [el2_sync] and its three likes; the macro [restore_context] ends in [eret]. *)
Definition el2_entry (entry handler : string) : list line :=
  [Label entry] ++ (I <$> save_context ++ [MOV_from_sp (X 0)]) ++ [I (BL handler)] ++
  (I <$> restore_context) ++ [I ERET].

Definition el2_unhandled : list line :=
  [Label "el2_unhandled"] ++ (I <$> save_context ++ [MOV_from_sp (X 0)]) ++
  [I (BL "handle_unhandled"); Label "el2_unhandled.hang"; I (B "el2_unhandled.hang")].

Definition entry_S : list line :=
  el2_entry "el2_sync" "handle_el2_sync" ++ el2_entry "el2_irq" "handle_el2_irq" ++
  el2_entry "el2_fiq" "handle_el2_fiq" ++ el2_entry "el2_serror" "handle_el2_serror" ++ el2_unhandled.

(** All of the hypervisor's text the vectors reach. *)
Definition el2_text : list line := vcpu_S ++ entry_S.

(** ** The first instructions of the image: boot.S (bsp/qemu, bsp/rpi5)

    The two files differ in one instruction: the one for the Raspberry Pi also clears SA. *)

(** What linker.ld and vectors.S place: [__bss_start], [__bss_end], [__stack_end], [el2_vectors]. *)
Record image : Type := MkImage {
  bss_start : Z;
  bss_end : Z;
  stack_end : Z;
  vectors_at : Z;
}.

Section start.
Context (im : image).

Definition check_core : list line :=
  [I (MOV (X 19) (X 0));
   I (MRS (X 0) MPIDR_EL1);
   I (AND_imm (X 0) (X 0) 0xFF);
   I (CBNZ (X 0) ".Lblock");
   I (MRS (X 0) CurrentEL);
   I (AND_imm (X 0) (X 0) 0xC);
   I (CMP_imm (X 0) (2 ≪ 2));
   I (B_ne ".Lblock")].

Definition set_hcr : list instr := [MOV_imm (X 0) (1 ≪ 31); MSR HCR_EL2 (X 0)].

(** The bits of SCTLR_EL2 each board's file clears, in its order. *)
Definition qemu_bits : list Z := [0; 1; 2; 12].
Definition rpi5_bits : list Z := [0; 1; 2; 3; 12].
Definition clear_sctlr (bits : list Z) : list instr :=
  [MRS (X 0) SCTLR_EL2] ++ ((λ b, BIC_imm (X 0) (X 0) (1 ≪ b)) <$> bits) ++ [MSR SCTLR_EL2 (X 0); ISB].

Definition set_timers : list instr :=
  [MRS (X 0) CNTHCTL_EL2;
   ORR_imm (X 0) (X 0) (1 ≪ 0);
   ORR_imm (X 0) (X 0) (1 ≪ 1);
   MSR CNTHCTL_EL2 (X 0);
   MSR CNTVOFF_EL2 XZR].

Definition set_ids : list instr := [MRS (X 0) MIDR_EL1; MSR VPIDR_EL2 (X 0); MRS (X 0) MPIDR_EL1; MSR VMPIDR_EL2 (X 0)].

Definition bss_bounds : list instr := [LDR_eq (X 0) (bss_start im); LDR_eq (X 1) (bss_end im)].
Definition bss_loop : list line :=
  [Label ".Lbss_loop";
   I (CMP (X 0) (X 1));
   I (B_hs ".Lbss_done");
   I (STP_post XZR XZR (XB 0) 16);
   I (B ".Lbss_loop");
   Label ".Lbss_done"].

Definition set_stack : list instr :=
  [MOV_imm (X 0) 1;
   MSR SPSel (X 0);
   ISB;
   LDR_eq (X 0) (stack_end im);
   MOV_to_sp (X 0);
   ADR (X 0) (vectors_at im);
   MSR VBAR_EL2 (X 0);
   ISB;
   MOV (X 0) (X 19)].

Definition block : list line := [Label ".Lblock"; I WFE; I (B ".Lblock")].

Definition boot_S (bits : list Z) : list line :=
  [Label "_start"] ++ check_core ++ (I <$> set_hcr ++ clear_sctlr bits ++ set_timers ++ set_ids ++ bss_bounds) ++ bss_loop ++
  (I <$> set_stack) ++ [I (BL "hmain")] ++ block.
Definition qemu_boot_S : list line := boot_S qemu_bits.
Definition rpi5_boot_S : list line := boot_S rpi5_bits.
End start.
