(* ===== verification/VcpuSwitch.v ===== *)
(** * The context switch: into the guest, out of it, and back to the caller *)
From Stdlib Require Import String.
From S2P Require Import Prelude Memory Psci Vcpu Arm Assembly.

(** ** The guest's registers and the places of a [Vcpu] *)

(** The register a member of [SystemRegisters] is for. *)
Definition sys_areg (f : sysfield) : areg :=
  match f with
  | sf_sctlr => SCTLR_EL1 | sf_ttbr0 => TTBR0_EL1 | sf_ttbr1 => TTBR1_EL1 | sf_tcr => TCR_EL1
  | sf_mair => MAIR_EL1 | sf_amair => AMAIR_EL1 | sf_vbar => VBAR_EL1 | sf_elr => ELR_EL1
  | sf_spsr => SPSR_EL1 | sf_esr => ESR_EL1 | sf_far => FAR_EL1 | sf_afsr0 => AFSR0_EL1
  | sf_afsr1 => AFSR1_EL1 | sf_contextidr => CONTEXTIDR_EL1 | sf_tpidr => TPIDR_EL1
  | sf_tpidrEl0 => TPIDR_EL0 | sf_tpidrroEl0 => TPIDRRO_EL0 | sf_cntkctl => CNTKCTL_EL1
  | sf_cpacr => CPACR_EL1 | sf_par => PAR_EL1 | sf_csselr => CSSELR_EL1
  end.

(** The guest's value of what a place holds; its PC and PSTATE are in ELR_EL2 and SPSR_EL2
    when it is about to run and when it has just left. *)
Definition guest_reg (c : cpu) (v : saved) : Z :=
  match v with
  | VCPU_X n => xr c n
  | VCPU_PC => sys c ELR_EL2
  | VCPU_PSTATE => sys c SPSR_EL2
  | VCPU_SP_EL0 => sys c SP_EL0
  | VCPU_SP_EL1 => sys c SP_EL1
  | VCPU_SYS f => sys c (sys_areg f)
  end.

Definition callee_saved : list (nat * nat * Z) :=
  [(19, 20, 0%Z); (21, 22, 16%Z); (23, 24, 32%Z); (25, 26, 48%Z); (27, 28, 64%Z); (29, 30, 80%Z)]%nat.

(** The frame of [vcpu_run] called in state [h]. *)
Definition host_words (h : cpu) : list (Z * Z) :=
  ((λ w, (w.2, xr h w.1)) <$> words callee_saved) ++
  [(HOST_EXIT, xr h 1); (HOST_TPIDR_DAIF, sys h TPIDR_EL2); (HOST_TPIDR_DAIF + 8, sys h DAIF);
   (HOST_SP_ELR, sys h SP_EL0); (HOST_SP_ELR + 8, sys h ELR_EL2); (HOST_SPSR, sys h SPSR_EL2)].
Definition host_frame (h : cpu) (m : gmap Z Z) : Prop :=
  ∀ o v, (o, v) ∈ host_words h → load64 m (sp h - HOST_FRAME_SIZE + o) = v.

Definition in_frame (h : cpu) (x : Z) : Prop := sp h - HOST_FRAME_SIZE ≤ x < sp h.
(** The stack of a switch: the frame, and three pairs on the way back. *)
Definition in_stack (h : cpu) (x : Z) : Prop := sp h - 192 ≤ x < sp h.
Definition in_vcpu (h : cpu) (x : Z) : Prop := xr h 0 ≤ x < xr h 0 + sizeof_Vcpu.
Definition in_exit (h : cpu) (x : Z) : Prop := xr h 1 ≤ x < xr h 1 + sizeof_VcpuExit.

(** A call with room on the stack and two objects apart from it and from each other. *)
Record call_ok (h : cpu) : Prop := {
  ca_regs : cpu_ok h;
  ca_sp : 192 ≤ sp h < 2 ^ 64;
  ca_vcpu : xr h 0 + sizeof_Vcpu ≤ 2 ^ 64;
  ca_exit : xr h 1 + sizeof_VcpuExit ≤ 2 ^ 64;
  ca_stack_vcpu : ∀ x, in_stack h x → ¬ in_vcpu h x;
  ca_stack_exit : ∀ x, in_stack h x → ¬ in_exit h x;
  ca_vcpu_exit : ∀ x, in_vcpu h x → ¬ in_exit h x;
}.

(** The bytes of a word of an object lie in it. *)
Lemma load_kept (P : Z → Prop) m m' a :
  (∀ x, ¬ P x → load8 m' x = load8 m x) → (∀ x, a ≤ x < a + 8 → ¬ P x) → load64 m' a = load64 m a.
Proof. intros Hm Ha. apply load_agree. intros x Hx. apply Hm, Ha. lia. Qed.

(** Facts about the literal lists of the text. *)
Ltac by_compute := apply (bool_decide_unpack _); vm_compute; exact Logic.I.
Ltac reg_simpl := repeat first [rewrite fn_lookup_insert | rewrite fn_lookup_insert_ne by done].

(** ** Entering *)

Section enter.
Context (h : cpu) (Hh : call_ok h).

Lemma frame_base : sp h ⊟ HOST_FRAME_SIZE = sp h - HOST_FRAME_SIZE.
Proof. destruct Hh as [_ Hsp _ _ _ _ _]. apply Z.mod_small. unfold HOST_FRAME_SIZE. lia. Qed.

Lemma frame_address o : 0 ≤ o ≤ 136 → sp h - HOST_FRAME_SIZE ⊞ o = sp h - HOST_FRAME_SIZE + o.
Proof. intros Ho. destruct Hh as [_ Hsp _ _ _ _ _]. apply Z.mod_small. unfold HOST_FRAME_SIZE. lia. Qed.

Lemma frame_address2 o : 0 ≤ o ≤ 128 → sp h - HOST_FRAME_SIZE + o ⊞ 8 = sp h - HOST_FRAME_SIZE + (o + 8).
Proof. intros Ho. rewrite <-Z.add_assoc. apply frame_address. lia. Qed.

Lemma save_host_spec : let c := effects save_host h in
  mem c = store_all (at_base (sp h - HOST_FRAME_SIZE) (host_words h)) (mem h) ∧
  sp c = sp h - HOST_FRAME_SIZE ∧ same_x [1%nat; 2%nat] h c ∧
  sys c = <[TPIDR_EL2 := xr h 0]> (<[DAIF := Z.lor (sys h DAIF) (0xf ≪ 6)]> (sys h)).
Proof.
  cbv zeta. unfold save_host, effects. cbn -[Z.add Z.sub store64 u64 HOST_FRAME_SIZE]. rewrite frame_base.
  split; [|split; [done|split]].
  - reg_simpl. unfold store_pair, HOST_EXIT, HOST_TPIDR_DAIF, HOST_SP_ELR, HOST_SPSR.
    rewrite !frame_address, !frame_address2 by lia. done.
  - intros n Hn. cbn -[Z.add Z.sub]. rewrite !fn_lookup_insert_ne by set_solver. done.
  - by reg_simpl.
Qed.

(** The object is not in the frame. *)
Lemma saved_offset v : v ∈ all_saved → 0 ≤ vcpu_offset v ∧ vcpu_offset v + 8 ≤ sizeof_Vcpu.
Proof.
  assert (Hall : Forall (λ v, 0 ≤ vcpu_offset v ∧ vcpu_offset v + 8 ≤ sizeof_Vcpu) all_saved) by by_compute.
  rewrite list.Forall_forall in Hall. apply Hall.
Qed.

Lemma frame_word_kept ws a :
  within HOST_FRAME_SIZE ws.*1 → (∀ x, a ≤ x < a + 8 → ¬ in_frame h x) →
  load64 (store_all (at_base (sp h - HOST_FRAME_SIZE) ws) (mem h)) a = load64 (mem h) a.
Proof.
  intros Hws Ha. apply store_all_other. intros b v (o & -> & Ho)%at_base_elem.
  unfold within in Hws. rewrite list.Forall_forall in Hws. specialize (Hws o). cbv beta in Hws.
  assert (o ∈ ws.*1) by (apply list_elem_of_fmap; by exists (o, v)).
  unfold in_frame in Ha. pose proof (Ha a). pose proof (Ha (a + 7)). naive_solver lia.
Qed.

Lemma vcpu_word_kept v : v ∈ all_saved →
  load64 (mem (effects save_host h)) (xr h 0 + vcpu_offset v) = load64 (mem h) (xr h 0 + vcpu_offset v).
Proof.
  intros Hv. destruct save_host_spec as (-> & _). apply frame_word_kept.
  - by_compute.
  - intros x Hx Hf. destruct (saved_offset v Hv). apply (ca_stack_vcpu h Hh x); unfold in_stack, in_vcpu, in_frame, HOST_FRAME_SIZE in *; lia.
Qed.

Definition restored_pairs : list (nat * nat * Z) :=
  (λ n : nat, (n, S n, vcpu_offset (VCPU_X n))) <$> [2; 4; 6; 8; 10; 12; 14; 16; 18; 20; 22; 24; 26; 28]%nat.

Lemma restore_x_split : restore_x = (ldp (XB 0) <$> restored_pairs) ++
  [LDR (X 30) (XB 0) (vcpu_offset (VCPU_X 30)); LDP (X 0) (X 1) (XB 0) (vcpu_offset (VCPU_X 0))].
Proof. reflexivity. Qed.

Lemma restored_words : words restored_pairs = (λ n, (n, vcpu_offset (VCPU_X n))) <$> seq 2 28.
Proof. reflexivity. Qed.

(** The last part: every general register, the base included. *)
Lemma restore_x_spec c : xr c 0 = xr h 0 →
  let c' := effects restore_x c in
  mem c' = mem c ∧ sp c' = sp c ∧ sys c' = sys c ∧
  ∀ n, (n < 31)%nat → xr c' n = load64 (mem c) (xr h 0 + vcpu_offset (VCPU_X n)).
Proof.
  intros H0. cbv zeta. destruct Hh as [[Hx _] _ Hv _ _ _ _]. specialize (Hx 0%nat). unfold fits in Hx.
  rewrite restore_x_split, effects_app.
  destruct (ldps_spec (xr h 0) sizeof_Vcpu ltac:(lia) Hv (XB 0) restored_pairs c) as (Hm & Hsp & Hs & Hsame & Hin);
    [done|by_compute|by_compute|by_compute|]. cbv zeta in *.
  set (c1 := effects (ldp (XB 0) <$> restored_pairs) c) in *.
  assert (H01 : xr c1 0 = xr h 0) by (rewrite Hsame; [done|by_compute]).
  assert (Ha : ∀ o, 0 ≤ o ∧ o + 8 ≤ sizeof_Vcpu → xr h 0 ⊞ o = xr h 0 + o) by (intros; by apply (member _ sizeof_Vcpu); [lia|..]).
  clearbody c1. unfold effects. cbn [fold_left effect wr set_x xr sp sys mem base_of]. reg_simpl.
  rewrite H01, !Hm. split_and!; [done..|].
  assert (E1 : xr h 0 ⊞ vcpu_offset (VCPU_X 0) ⊞ 8 = xr h 0 + vcpu_offset (VCPU_X 1)).
  { change (vcpu_offset (VCPU_X 0)) with 0. change (vcpu_offset (VCPU_X 1)) with 8.
    rewrite (Ha 0), Z.add_0_r, Ha by by_compute. done. }
  rewrite E1, !Ha by by_compute.
  intros n Hn. destruct (decide (n = 0%nat)) as [->|H0n]; [by reg_simpl|].
  destruct (decide (n = 1%nat)) as [->|H1n]; [by reg_simpl|].
  destruct (decide (n = 30%nat)) as [->|H30]; [by reg_simpl|].
  rewrite !fn_lookup_insert_ne by done. apply Hin. rewrite restored_words.
  apply list_elem_of_fmap. exists n. split; [done|]. apply elem_of_seq. lia.
Qed.

(** The registers loaded for the guest, and those the host masks or uses meanwhile. *)
Definition guest_aregs : list areg := (offsets restored).*1 ++ [SCTLR_EL1; ELR_EL2; SPSR_EL2].
Definition host_aregs : list areg := [TPIDR_EL2; DAIF].

(** The middle part: the system registers, the PC and PSTATE. *)
Definition restore_sys : list instr :=
  restore_all restored ++ [ISB] ++ restore_all [(SCTLR_EL1, vs sf_sctlr)] ++ [ISB] ++ restore_pc.

Definition all_restored : list (areg * saved) :=
  restored ++ [(SCTLR_EL1, vs sf_sctlr); (ELR_EL2, VCPU_PC); (SPSR_EL2, VCPU_PSTATE)].

Lemma effects_skip js ks c : effects (js ++ [ISB] ++ ks) c = effects (js ++ ks) c.
Proof. by rewrite !effects_app. Qed.

Lemma restore_sys_effects c : effects restore_sys c = effects (restore_all all_restored) c.
Proof.
  unfold restore_sys. rewrite (effects_skip (restore_all restored)), app_assoc, effects_skip.
  apply (f_equal (λ l, effects l c)). reflexivity.
Qed.

Lemma restore_sys_spec c : xr c 0 = xr h 0 →
  let c' := effects restore_sys c in
  mem c' = mem c ∧ sp c' = sp c ∧ same_x [1%nat] c c' ∧
  (∀ r v, (r, v) ∈ all_restored → sys c' r = load64 (mem c) (xr h 0 + vcpu_offset v)) ∧
  (∀ r, r ∉ guest_aregs → sys c' r = sys c r).
Proof.
  intros H0. cbv zeta. destruct Hh as [[Hx _] _ Hv _ _ _ _]. specialize (Hx 0%nat). unfold fits in Hx.
  rewrite restore_sys_effects.
  destruct (restores_spec (xr h 0) sizeof_Vcpu ltac:(lia) Hv (offsets all_restored) c H0) as (Hm & Hsp & Hs & Hin & Hout);
    [by_compute..|]. cbv zeta in *. fold (restore_all all_restored) in *.
  split_and!; [done..| |exact Hout]. intros r v Hr. apply Hin. apply list_elem_of_fmap. by exists (r, v).
Qed.

Lemma enter_guest_spec : let c := effects enter_guest h in
  (∀ v, v ∈ all_saved → guest_reg c v = load64 (mem h) (xr h 0 + vcpu_offset v)) ∧
  host_frame h (mem c) ∧ (∀ x, ¬ in_frame h x → load8 (mem c) x = load8 (mem h) x) ∧
  sp c = sp h - HOST_FRAME_SIZE ∧ sys c TPIDR_EL2 = xr h 0 ∧ sys c DAIF = Z.lor (sys h DAIF) (0xf ≪ 6) ∧
  ∀ r, r ∉ guest_aregs ++ host_aregs → sys c r = sys h r.
Proof.
  cbv zeta. assert (E : enter_guest = save_host ++ restore_sys ++ restore_x) by reflexivity.
  rewrite E, !effects_app. pose proof vcpu_word_kept as Hkept. destruct save_host_spec as (Hm1 & Hsp1 & Hx1 & Hs1). cbv zeta in *.
  set (c1 := effects save_host h) in *. assert (H01 : xr c1 0 = xr h 0) by (rewrite Hx1; [done|by_compute]).
  destruct (restore_sys_spec c1 H01) as (Hm2 & Hsp2 & Hx2 & Hin2 & Hout2). cbv zeta in *.
  set (c2 := effects restore_sys c1) in *. assert (H02 : xr c2 0 = xr h 0) by (rewrite Hx2; [done|by_compute]).
  destruct (restore_x_spec c2 H02) as (Hm3 & Hsp3 & Hs3 & Hx3). cbv zeta in *.
  set (c3 := effects restore_x c2) in *. clearbody c1 c2 c3. rewrite Hm3, Hm2, Hsp3, Hsp2, Hs3. split; [|split; [|split; [|split]]].
  - intros v Hv. rewrite <-Hkept by done. destruct v as [n| | | | |f]; cbn [guest_reg]; rewrite ?Hs3.
    + rewrite Hx3, Hm2; [done|]. unfold all_saved in Hv. rewrite !elem_of_app, list_elem_of_fmap in Hv.
      destruct Hv as [(k & [= ->] & Hk%elem_of_seq)|[Hv|(f & ? & _)%list_elem_of_fmap]]; [lia| |done]. set_solver.
    + apply Hin2. by_compute.
    + apply Hin2. by_compute.
    + apply Hin2. by_compute.
    + apply Hin2. by_compute.
    + apply Hin2. destruct f; by_compute.
  - intros o v Ho. rewrite Hm1. apply store_all_at; [by_compute|done|].
    unfold host_words in Ho. destruct Hh as [[Hx Hsy] _ _ _ _ _ _].
    apply elem_of_app in Ho as [(w & [= -> ->] & _)%list_elem_of_fmap|Ho]; [apply Hx|].
    repeat (apply elem_of_cons in Ho as [[= -> ->]|Ho]; [apply Hx || apply Hsy|]). by apply elem_of_nil in Ho.
  - intros x Hx. rewrite Hm1. apply store_all_frame. intros a v (o & -> & Ho)%at_base_elem.
    assert (Hall : within HOST_FRAME_SIZE (host_words h).*1) by by_compute.
    unfold within in Hall. rewrite list.Forall_forall in Hall. specialize (Hall o). cbv beta in Hall.
    assert (o ∈ (host_words h).*1) by (apply list_elem_of_fmap; by exists (o, v)). unfold in_frame in Hx. naive_solver lia.
  - done.
  - assert (Hk : ∀ r, r ∉ guest_aregs → sys c2 r = sys c1 r) by done.
    rewrite (Hk TPIDR_EL2), (Hk DAIF), Hs1 by by_compute. reg_simpl. split; [done|]. split; [done|].
    intros r [Hr1 Hr2]%not_elem_of_app. unfold host_aregs in Hr2. rewrite Hk, Hs1 by done.
    rewrite !fn_lookup_insert_ne; [done|set_solver..].
Qed.
End enter.

(** ** The context switch: leaving the guest *)

(** ** From the vector to the saved state *)

(** What the vector and the entry of [vcpu_exit] run before saving. *)
Definition vector_pushes : list instr := [STP_pre (X 0) (X 1) SP (-16); STP_pre (X 2) (X 3) SP (-16)].
Definition exit_regs (r : ExitReason) : list instr :=
  match r with
  | SYNC | SERROR => [MRS (X 0) ESR_EL2; MOV_imm (X 1) (exit_code r)]
  | IRQ | FIQ => [MOV (X 0) XZR; MOV_imm (X 1) (exit_code r)]
  end.
Definition push_exit : list instr := [STP_pre (X 1) (X 0) SP (-16); MRS (X 2) TPIDR_EL2].

Definition syndrome_of (g : cpu) (r : ExitReason) : Z :=
  match r with SYNC | SERROR => sys g ESR_EL2 | IRQ | FIQ => 0 end.

(** The three pairs below the frame. *)
Definition exit_words (g : cpu) (r : ExitReason) : list (Z * Z) :=
  [(32, xr g 0); (40, xr g 1); (16, xr g 2); (24, xr g 3); (0, exit_code r); (8, syndrome_of g r)].

Section leave.
Context (h : cpu) (Hh : call_ok h).
(** The core as the guest left it. *)
Context (g : cpu) (Hg : cpu_ok g) (Hsp : sp g = sp h - HOST_FRAME_SIZE) (Htp : sys g TPIDR_EL2 = xr h 0).
Context (Hframe : host_frame h (mem g)).

Definition exit_sp : Z := sp h - 192.

Lemma exit_sp_bounds : 0 ≤ exit_sp ∧ exit_sp + 192 < 2 ^ 64 ∧ sp g = exit_sp + 48.
Proof. destruct Hh as [_ ? _ _ _ _ _]. unfold exit_sp. rewrite Hsp. unfold HOST_FRAME_SIZE. lia. Qed.

Lemma push_exit_spec r : let c := effects (vector_pushes ++ exit_regs r ++ push_exit) g in
  mem c = store_all (at_base exit_sp (exit_words g r)) (mem g) ∧ sp c = exit_sp ∧ xr c 2 = xr h 0 ∧
  same_x [0%nat; 1%nat; 2%nat] g c ∧ sys c = sys g.
Proof.
  cbv zeta. destruct exit_sp_bounds as (H0 & H1 & H2).
  assert (Hpush : ∀ k, 0 ≤ k ≤ 48 → exit_sp + k ⊞ -16 = exit_sp + (k - 16) ∨ k < 16).
  { intros k Hk. destruct (decide (k < 16)); [by right|left]. unfold u64. rewrite Z.mod_small by lia. lia. }
  assert (E : ∀ k, 0 ≤ k ≤ 40 → exit_sp + k ⊞ 8 = exit_sp + (k + 8)) by (intros; unfold u64; rewrite Z.mod_small by lia; lia).
  assert (P1 : exit_sp + 48 ⊞ -16 = exit_sp + 32) by (destruct (Hpush 48); lia).
  assert (P2 : exit_sp + 32 ⊞ -16 = exit_sp + 16) by (destruct (Hpush 32); lia).
  assert (P3 : exit_sp + 16 ⊞ -16 = exit_sp + 0) by (destruct (Hpush 16); lia).
  unfold effects. destruct r; cbn -[Z.add Z.sub store64 u64 exit_sp];
    rewrite H2, P1, P2, P3; (split; [|split; [lia|split; [by reg_simpl|split; [|done]]]]).
  all: try (intros n Hn; cbn; rewrite !fn_lookup_insert_ne by set_solver; done).
  all: reg_simpl; unfold store_pair; rewrite !E by lia; done.
Qed.

(** ** The saved state *)

Definition saved_copies : list (Z * Z) :=
  [(32, vcpu_offset (VCPU_X 0)); (40, vcpu_offset (VCPU_X 1)); (16, vcpu_offset (VCPU_X 2)); (24, vcpu_offset (VCPU_X 3))].
Definition saved_pairs : list (nat * nat * Z) :=
  (λ n : nat, (n, S n, vcpu_offset (VCPU_X n))) <$> [4; 6; 8; 10; 12; 14; 16; 18; 20; 22; 24; 26; 28]%nat.
Definition all_saved_regs : list (areg * saved) := saved_regs ++ [(ELR_EL2, VCPU_PC); (SPSR_EL2, VCPU_PSTATE)].
Definition save_rest : list instr :=
  (stp (XB 2) <$> saved_pairs) ++ [STR (X 30) (XB 2) (vcpu_offset (VCPU_X 30)); MOV (X 0) (X 2)].

Lemma save_split : save_x ++ save_all saved_regs ++ save_pc =
  push_exit ++ concat (copy_word <$> saved_copies) ++ save_rest ++ save_all all_saved_regs.
Proof. reflexivity. Qed.

(** Every place of the [Vcpu], in the order of the stores. *)
Definition saved_order : list saved := (VCPU_X <$> seq 0 31) ++ all_saved_regs.*2.

Lemma saved_order_all v : v ∈ all_saved → v ∈ saved_order.
Proof.
  assert (Hall : Forall (λ v, v ∈ saved_order) all_saved) by by_compute.
  rewrite list.Forall_forall in Hall. apply Hall.
Qed.

Definition vcpu_words (g : cpu) : list (Z * Z) := (λ v, (vcpu_offset v, guest_reg g v)) <$> saved_order.

Lemma vcpu_below : xr h 0 + sizeof_Vcpu ≤ 2 ^ 64 ∧ 0 ≤ xr h 0 ∧
  (exit_sp + 48 ≤ xr h 0 ∨ xr h 0 + sizeof_Vcpu ≤ exit_sp).
Proof.
  destruct Hh as [[Hx _] Hs Hv _ Hap _ _]. specialize (Hx 0%nat). unfold fits in Hx. split_and!; [done|lia|].
  pose proof (Hap (xr h 0)) as A. pose proof (Hap exit_sp) as B. unfold in_stack, in_vcpu, exit_sp in *.
  assert (0 < sizeof_Vcpu) by done. lia.
Qed.

Lemma save_pairs_mem c : xr c 2 = xr h 0 → effects (stp (XB 2) <$> saved_pairs) c =
  set_mem (store_all (at_base (xr h 0) ((λ w, (w.2, xr c w.1)) <$> words saved_pairs))) c.
Proof.
  intros H2. destruct vcpu_below as (Hlim & H0 & _).
  exact (stps_spec (xr h 0) sizeof_Vcpu H0 Hlim (XB 2) saved_pairs c H2 ltac:(by_compute)).
Qed.

Lemma save_last_mem c m : store_all (at_base (xr h 0) ((λ n, (vcpu_offset (VCPU_X n), xr c n)) <$> seq 4 27)) m =
  store64 (store_all (at_base (xr h 0) ((λ w, (w.2, xr c w.1)) <$> words saved_pairs)) m)
    (xr h 0 + vcpu_offset (VCPU_X 30)) (xr c 30).
Proof.
  assert (Ew : (λ n, (vcpu_offset (VCPU_X n), xr c n)) <$> seq 4 27 =
    ((λ w, (w.2, xr c w.1)) <$> words saved_pairs) ++ [(vcpu_offset (VCPU_X 30), xr c 30%nat)]) by reflexivity.
  by rewrite Ew, store_at_app, store_at_one.
Qed.

Lemma save_last_spec c c1 m : xr c 2 = xr h 0 → xr c1 = xr c → mem c1 = m →
  let c' := effects [STR (X 30) (XB 2) (vcpu_offset (VCPU_X 30)); MOV (X 0) (X 2)] c1 in
  mem c' = store64 m (xr h 0 + vcpu_offset (VCPU_X 30)) (xr c 30) ∧
  sp c' = sp c1 ∧ sys c' = sys c1 ∧ xr c' 0 = xr h 0.
Proof.
  intros H2 E2 E1. cbv zeta. destruct vcpu_below as (Hlim & H0 & _).
  unfold effects. cbn [fold_left effect wr set_x set_mem xr sp sys mem base_of rd]. rewrite E1, E2, H2.
  rewrite (member (xr h 0) sizeof_Vcpu) by (done || by_compute). by reg_simpl.
Qed.

Lemma save_rest_spec c : xr c 2 = xr h 0 →
  let c' := effects save_rest c in
  mem c' = store_all (at_base (xr h 0) ((λ n, (vcpu_offset (VCPU_X n), xr c n)) <$> seq 4 27)) (mem c) ∧
  sp c' = sp c ∧ sys c' = sys c ∧ xr c' 0 = xr h 0.
Proof.
  intros H2. cbv zeta. unfold save_rest. rewrite effects_app, save_pairs_mem, save_last_mem by done.
  by apply (save_last_spec c (set_mem _ c)).
Qed.

Lemma save_guest_spec c : xr c 2 = xr h 0 → sp c = exit_sp →
  let c' := effects (concat (copy_word <$> saved_copies) ++ save_rest ++ save_all all_saved_regs) c in
  mem c' = store_all (at_base (xr h 0)
    (((λ t, (t.2, load64 (mem c) (exit_sp + t.1))) <$> saved_copies) ++
     ((λ n, (vcpu_offset (VCPU_X n), xr c n)) <$> seq 4 27) ++
     ((λ rv, (vcpu_offset rv.2, sys c rv.1)) <$> all_saved_regs))) (mem c) ∧
  sp c' = exit_sp ∧ sys c' = sys c.
Proof.
  intros H2 Hs. cbv zeta. destruct vcpu_below as (Hlim & H0 & Hap). destruct exit_sp_bounds as (S0 & S1 & _).
  rewrite !effects_app.
  destruct (copies_spec (xr h 0) sizeof_Vcpu H0 Hlim exit_sp 48 saved_copies) with (c := c) as (Hm1 & Hs1 & Hy1 & Hx1);
    [done|lia|done|done|by_compute|by_compute|done|]. cbv zeta in *.
  set (c1 := effects (concat (copy_word <$> saved_copies)) c) in *. clearbody c1.
  assert (H21 : xr c1 2 = xr h 0) by (rewrite Hx1; [done|by_compute]).
  destruct (save_rest_spec c1 H21) as (Hm2 & Hs2 & Hy2 & H02). cbv zeta in *.
  set (c2 := effects save_rest c1) in *. clearbody c2.
  destruct (saves_spec (xr h 0) sizeof_Vcpu H0 Hlim (offsets all_saved_regs) c2 H02) as (Hm3 & Hs3 & Hy3 & _); [by_compute|].
  cbv zeta in *. fold (save_all all_saved_regs) in *. split; [|split; [by rewrite Hs3, Hs2, Hs1|by rewrite Hy3, Hy2, Hy1]].
  rewrite Hm3, Hm2, Hm1, !store_at_app. f_equal.
  - abstract (f_equal; unfold offsets; rewrite <-!list_fmap_compose; apply list_fmap_ext; intros i [r v] _; cbn; by rewrite Hy2, Hy1).
  - abstract (f_equal; f_equal; apply list_fmap_ext; intros i n Hi; rewrite Hx1; [done|];
      apply lookup_seq in Hi; intros [->|?%elem_of_nil]%elem_of_cons; [lia|done]).
Qed.

(** What the stores of the state are, in terms of the core the guest left. *)
Lemma saved_values r c :
  mem c = store_all (at_base exit_sp (exit_words g r)) (mem g) → same_x [0%nat; 1%nat; 2%nat] g c → sys c = sys g →
  ((λ t, (t.2, load64 (mem c) (exit_sp + t.1))) <$> saved_copies) ++
  ((λ n, (vcpu_offset (VCPU_X n), xr c n)) <$> seq 4 27) ++
  ((λ rv, (vcpu_offset rv.2, sys c rv.1)) <$> all_saved_regs) = vcpu_words g.
Proof.
  intros Hm Hx Hy. destruct Hg as [Hgx _].
  assert (Hl : ∀ o v, (o, v) ∈ [(32, xr g 0); (40, xr g 1); (16, xr g 2); (24, xr g 3)] → load64 (mem c) (exit_sp + o) = v).
  { intros o v Ho. rewrite Hm. apply store_all_at; [by destruct r; by_compute| |].
    - unfold exit_words. set_solver.
    - repeat (apply elem_of_cons in Ho as [[= -> ->]|Ho]; [apply Hgx|]). by apply elem_of_nil in Ho. }
  assert (Hlist : ∀ n, n ∈ seq 4 27 → xr c n = xr g n).
  { intros n Hn%elem_of_seq. apply Hx. set_solver by lia. }
  unfold vcpu_words, saved_order. rewrite fmap_app. change (seq 0 31) with ([0; 1; 2; 3]%nat ++ seq 4 27).
  rewrite !fmap_app, <-app_assoc. f_equal; [|f_equal].
  - unfold saved_copies. cbn [fmap list_fmap fst snd guest_reg]. repeat f_equal; apply Hl; set_solver.
  - rewrite <-list_fmap_compose. apply list_fmap_ext. intros i n Hi%list_elem_of_lookup_2. cbn. by rewrite Hlist.
  - rewrite Hy. assert (Hr : Forall (λ rv, guest_reg g rv.2 = sys g rv.1) all_saved_regs) by (repeat constructor).
    rewrite <-list_fmap_compose. apply list_fmap_ext. intros i rv Hi%list_elem_of_lookup_2.
    rewrite list.Forall_forall in Hr. cbn. by rewrite Hr.
Qed.

(** Up to the report: the guest's registers are in its [Vcpu]. *)
Lemma guest_saved r :
  let c := effects (vector_pushes ++ exit_regs r ++ save_x ++ save_all saved_regs ++ save_pc) g in
  mem c = store_all (at_base (xr h 0) (vcpu_words g)) (store_all (at_base exit_sp (exit_words g r)) (mem g)) ∧
  sp c = exit_sp ∧ sys c = sys g.
Proof.
  cbv zeta. assert (E : vector_pushes ++ exit_regs r ++ save_x ++ save_all saved_regs ++ save_pc =
    (vector_pushes ++ exit_regs r ++ push_exit) ++ concat (copy_word <$> saved_copies) ++ save_rest ++ save_all all_saved_regs).
  { by rewrite save_split, <-!app_assoc. }
  rewrite E, effects_app. destruct (push_exit_spec r) as (Hm & Hs & H2 & Hx & Hy). cbv zeta in *.
  set (c := effects (vector_pushes ++ exit_regs r ++ push_exit) g) in *. clearbody c.
  destruct (save_guest_spec c H2 Hs) as (Hm' & Hs' & Hy'). cbv zeta in *.
  split; [|split; [done|by rewrite Hy', Hy]].
  by rewrite Hm', (saved_values r c Hm Hx Hy), Hm.
Qed.
End leave.

(** ** The context switch: the report of an exit and the way back to the caller *)

(** The exits that report the faulting addresses: aborts of the guest, and of EL2 itself. *)
Definition is_abort (r : ExitReason) (syn : Z) : bool :=
  bool_decide (r = SYNC ∧ GetEsrEc syn ∈ [0x20; 0x21; 0x24; 0x25]).

Definition back_to_host : list line := (I <$> restore_host) ++ [I RET] ++ entry_S.

Lemma code_exit_1 : code_at el2_text "vcpu_exit.1" = Some back_to_host.
Proof. reflexivity. Qed.
Definition report_fault : list line :=
  (I <$> [MRS (X 4) FAR_EL2; MRS (X 5) HPFAR_EL2; STP (X 4) (X 5) (XB 3) 16]) ++ [Label "vcpu_exit.1"] ++ back_to_host.
Lemma code_exit_2 : code_at el2_text "vcpu_exit.2" = Some report_fault.
Proof. reflexivity. Qed.

Definition report_head : list instr :=
  [LDR (X 3) SP (48 + HOST_EXIT); LDP (X 4) (X 5) SP 0; STP (X 4) (X 5) (XB 3) 0; STP XZR XZR (XB 3) 16;
   CMP_imm (X 4) (exit_code SYNC)].
Definition report_classes : list line :=
  [I (B_ne "vcpu_exit.1"); I (UBFX (X 4) (X 5) 26 6); I (CMP_imm (X 4) 0x20); I (B_eq "vcpu_exit.2");
   I (CMP_imm (X 4) 0x21); I (B_eq "vcpu_exit.2"); I (CMP_imm (X 4) 0x24); I (B_eq "vcpu_exit.2");
   I (CMP_imm (X 4) 0x25); I (B_ne "vcpu_exit.1"); Label "vcpu_exit.2"] ++ report_fault.
Lemma report_split : report_exit ++ back_to_host = (I <$> report_head) ++ report_classes.
Proof. reflexivity. Qed.

(** [c'] is [c] with other scratch registers and other memory. *)
Definition reported (c c' : cpu) (m : gmap Z Z) : Prop := sp c' = sp c ∧ sys c' = sys c ∧ mem c' = m.

Section return_.
Context (h : cpu) (Hh : call_ok h).
Context (r : ExitReason) (syn : Z) (Hsyn : fits 64 syn).

Lemma exit_below : xr h 1 + sizeof_VcpuExit ≤ 2 ^ 64 ∧ 0 ≤ xr h 1 ∧
  (sp h ≤ xr h 1 ∨ xr h 1 + sizeof_VcpuExit ≤ sp h - 192).
Proof.
  destruct Hh as [[Hx _] Hs _ He _ Hap _]. specialize (Hx 1%nat). unfold fits in Hx. split_and!; [done|lia|].
  pose proof (Hap (xr h 1)) as A. pose proof (Hap (sp h - 192)) as B. unfold in_stack, in_exit in *.
  assert (0 < sizeof_VcpuExit) by done. lia.
Qed.

(** The words of the report. *)
Definition report_words (fs : Z * Z) : list (Z * Z) :=
  [(0, exit_code r); (8, syn); (16, 0); (24, 0); (16, fs.1); (24, fs.2)].

Lemma report_head_spec c :
  sp c = exit_sp h → host_frame h (mem c) → load64 (mem c) (exit_sp h) = exit_code r → load64 (mem c) (exit_sp h + 8) = syn →
  let c' := effects report_head c in
  mem c' = store_all (at_base (xr h 1) [(0, exit_code r); (8, syn); (16, 0); (24, 0)]) (mem c) ∧
  sp c' = sp c ∧ sys c' = sys c ∧ xr c' 3 = xr h 1 ∧ xr c' 4 = exit_code r ∧ xr c' 5 = syn ∧
  zf c' = bool_decide (r = SYNC).
Proof.
  intros Hs Hf Hcode Hsy. cbv zeta. destruct exit_below as (Hlim & H0 & _). destruct Hh as [_ Hsp _ _ _ _ _].
  unfold exit_sp in *.
  assert (E3 : load64 (mem c) (sp c ⊞ (48 + HOST_EXIT)) = xr h 1).
  { rewrite <-(Hf HOST_EXIT (xr h 1)) by (unfold host_words; set_solver). f_equal.
    rewrite Hs. unfold HOST_EXIT, HOST_FRAME_SIZE, u64. rewrite Z.mod_small by lia. lia. }
  assert (E4 : load64 (mem c) (sp c ⊞ 0) = exit_code r).
  { rewrite Hs. unfold u64. rewrite Z.add_0_r, Z.mod_small by lia. done. }
  assert (E5 : load64 (mem c) (sp c ⊞ 0 ⊞ 8) = syn).
  { rewrite Hs. unfold u64. rewrite Z.add_0_r, (Z.mod_small (sp h - 192)), Z.mod_small by lia. done. }
  assert (Hm : ∀ o, 0 ≤ o ∧ o + 8 ≤ sizeof_VcpuExit → xr h 1 ⊞ o = xr h 1 + o) by (intros; by apply (member _ sizeof_VcpuExit)).
  unfold effects, report_head. cbn [fold_left effect wr set_x set_mem set_flags xr sp sys mem zf base_of rd]. reg_simpl.
  rewrite E3, E4, E5. unfold store_pair. rewrite (Hm 0), (Hm 16) by by_compute.

  assert (xr h 1 + 0 ⊞ 8 = xr h 1 + 8) as -> by (rewrite Z.add_0_r; by rewrite (Hm 8) by by_compute).
  assert (xr h 1 + 16 ⊞ 8 = xr h 1 + 24) as -> by (rewrite <-Z.add_assoc; apply (Hm 24); by_compute).
  split_and!; try done. destruct r; by case_bool_decide.
Qed.

Definition exit_holds (m : gmap Z Z) (f hp : Z) : Prop :=
  load64 m (xr h 1) = exit_code r ∧ load64 m (xr h 1 + 8) = syn ∧
  load64 m (xr h 1 + 16) = f ∧ load64 m (xr h 1 + 24) = hp.

Lemma exit_words_at ws m o v :
  spread ws.*1 = true → (o, v) ∈ ws → fits 64 v → load64 (store_all (at_base (xr h 1) ws) m) (xr h 1 + o) = v.
Proof. apply store_all_at. Qed.

Lemma exit_words_frame ws m x : within sizeof_VcpuExit ws.*1 → ¬ in_exit h x →
  load8 (store_all (at_base (xr h 1) ws) m) x = load8 m x.
Proof.
  intros Hw Hx. apply store_all_frame. intros a v (o & -> & Ho)%at_base_elem.
  unfold within in Hw. rewrite list.Forall_forall in Hw. specialize (Hw o).
  assert (o ∈ ws.*1) by (apply list_elem_of_fmap; by exists (o, v)). unfold in_exit in Hx. naive_solver lia.
Qed.

Lemma code_fits : fits 64 (exit_code r).
Proof. by destruct r. Qed.

Lemma plain_report m : exit_holds (store_all (at_base (xr h 1) [(0, exit_code r); (8, syn); (16, 0); (24, 0)]) m) 0 0.
Proof.
  pose proof code_fits. unfold exit_holds. rewrite <-(Z.add_0_r (xr h 1)) at 2.
  by split_and!; apply exit_words_at; try set_solver.
Qed.

Lemma fault_report m f hp : fits 64 f → fits 64 hp →
  exit_holds (store_all (at_base (xr h 1) [(16, f); (24, hp)])
    (store_all (at_base (xr h 1) [(0, exit_code r); (8, syn); (16, 0); (24, 0)]) m)) f hp.
Proof.
  intros Hf Hhp. destruct (plain_report m) as (H0 & H8 & _). set (m1 := store_all (at_base _ [_; _; _; _]) m) in *.
  unfold exit_holds. split_and!.
  - rewrite store_all_other; [done|]. intros b v (o & -> & Ho)%at_base_elem. set_solver by lia.
  - rewrite store_all_other; [done|]. intros b v (o & -> & Ho)%at_base_elem. set_solver by lia.
  - apply exit_words_at; [done|set_solver|done].
  - apply exit_words_at; [done|set_solver|done].
Qed.

(** ** The tests of the exception class *)

Section classes.
Context (c1 : cpu) (H3 : xr c1 3 = xr h 1).

(** The core between two tests. *)
Definition testing (c : cpu) : Prop :=
  xr c 3 = xr h 1 ∧ xr c 4 = GetEsrEc syn ∧ mem c = mem c1 ∧ sp c = sp c1 ∧ sys c = sys c1.

Lemma testing_cmp n c : testing c →
  testing (effect (CMP_imm (X 4) n) c) ∧ zf (effect (CMP_imm (X 4) n) c) = bool_decide (GetEsrEc syn = n).
Proof. intros (? & H4 & ? & ? & ?). split; [by split_and!|]. cbn. by rewrite H4. Qed.

Lemma rt_class n k c R :
  testing c → (GetEsrEc syn = n → ∀ c', testing c' → runs_to el2_text report_fault c' R) →
  (GetEsrEc syn ≠ n → ∀ c', testing c' → runs_to el2_text k c' R) →
  runs_to el2_text ([I (CMP_imm (X 4) n); I (B_eq "vcpu_exit.2")] ++ k) c R.
Proof.
  intros Ht Heq Hne. destruct (testing_cmp n c Ht) as [Ht' Hz].
  apply (rt_straight el2_text [CMP_imm (X 4) n]); [done|].
  eapply rt_branch; [reflexivity|exact code_exit_2|].
  change (effects [CMP_imm (X 4) n] c) with (effect (CMP_imm (X 4) n) c). rewrite Hz. case_bool_decide; auto.
Qed.

Lemma report_classes_runs R :
  xr c1 5 = syn → zf c1 = bool_decide (r = SYNC) →
  (is_abort r syn = true → ∀ c', testing c' → runs_to el2_text report_fault c' R) →
  (is_abort r syn = false → ∀ c', mem c' = mem c1 → sp c' = sp c1 → sys c' = sys c1 → runs_to el2_text back_to_host c' R) →
  runs_to el2_text report_classes c1 R.
Proof.
  intros H5 Hz Hab Hno.
  eapply rt_branch; [reflexivity|exact code_exit_1|]. rewrite Hz. case_bool_decide as Hr; cbn [negb].
  2: { apply Hno; [|done..]. unfold is_abort. rewrite bool_decide_false; [done|naive_solver]. }
  apply (rt_straight el2_text [UBFX (X 4) (X 5) 26 6]); [done|].
  set (c2 := effects [UBFX (X 4) (X 5) 26 6] c1).
  assert (Ht : testing c2).
  { split_and!; [exact H3| |done..]. unfold c2. cbn. reg_simpl. by rewrite H5. }
  clearbody c2. assert (Hyes : GetEsrEc syn ∈ [0x20; 0x21; 0x24; 0x25] → is_abort r syn = true).
  { intros Hin. unfold is_abort. by rewrite bool_decide_true. }
  apply rt_class; [done|intros E; apply Hab, Hyes; rewrite E; set_solver|]. intros N0 c3 Ht3.
  apply rt_class; [done|intros E; apply Hab, Hyes; rewrite E; set_solver|]. intros N1 c4 Ht4.
  apply rt_class; [done|intros E; apply Hab, Hyes; rewrite E; set_solver|]. intros N2 c5 Ht5.
  destruct (testing_cmp 0x25 c5 Ht5) as [Ht6 Hz6]. apply (rt_straight el2_text [CMP_imm (X 4) 0x25]); [done|].
  eapply rt_branch; [reflexivity|exact code_exit_1|].
  change (effects [CMP_imm (X 4) 0x25] c5) with (effect (CMP_imm (X 4) 0x25) c5). rewrite Hz6. case_bool_decide as E; cbn [negb].
  - apply rt_label, Hab; [|done]. apply Hyes. rewrite E. set_solver.
  - destruct Ht6 as (_ & _ & ? & ? & ?). apply Hno; [|done..]. unfold is_abort. apply bool_decide_false.
  intros [_ Hin]. set_solver.
Qed.
End classes.

Lemma report_runs c R :
  (∀ q, fits 64 (sys c q)) →
  sp c = exit_sp h → host_frame h (mem c) → load64 (mem c) (exit_sp h) = exit_code r → load64 (mem c) (exit_sp h + 8) = syn →
  (∀ c', sp c' = sp c → sys c' = sys c →
    exit_holds (mem c') (if is_abort r syn then sys c FAR_EL2 else 0) (if is_abort r syn then sys c HPFAR_EL2 else 0) →
    (∀ x, ¬ in_exit h x → load8 (mem c') x = load8 (mem c) x) → runs_to el2_text back_to_host c' R) →
  runs_to el2_text (report_exit ++ back_to_host) c R.
Proof.
  intros Hq Hs Hf Hcode Hsy Hk. rewrite report_split. apply rt_straight; [done|].
  destruct (report_head_spec c Hs Hf Hcode Hsy) as (Hm & Hsp & Hsys & H3 & H4 & H5 & Hz). cbv zeta in *.
  set (c1 := effects report_head c) in *. clearbody c1.
  assert (Hframe1 : ∀ x, ¬ in_exit h x → load8 (mem c1) x = load8 (mem c) x).
  { intros x Hx. rewrite Hm. apply exit_words_frame; [by_compute|done]. }
  apply (report_classes_runs c1 H3); [done|done| |].
  - intros Hab c2 (H32 & _ & Hm2 & Hsp2 & Hsys2). unfold report_fault.
    apply (rt_straight el2_text [MRS (X 4) FAR_EL2; MRS (X 5) HPFAR_EL2; STP (X 4) (X 5) (XB 3) 16]); [done|].
    apply rt_label, Hk; rewrite ?Hab; [by rewrite <-Hsp, <-Hsp2|by rewrite <-Hsys, <-Hsys2| |].
    all: unfold effects; cbn [fold_left effect wr set_x set_mem xr sp sys mem base_of rd]; reg_simpl; rewrite H32.
    all: destruct exit_below as (Hlim & H0 & _); unfold store_pair.
    all: rewrite (member (xr h 1) sizeof_VcpuExit 16) by (done || by_compute).
    all: assert (xr h 1 + 16 ⊞ 8 = xr h 1 + 24) as -> by (rewrite <-Z.add_assoc; apply (member _ sizeof_VcpuExit 24); (done || by_compute)).
    all: change (store64 (store64 ?m (xr h 1 + 16) ?f) (xr h 1 + 24) ?g) with (store_all (at_base (xr h 1) [(16, f); (24, g)]) m).
    + rewrite Hm2, Hm, Hsys2, Hsys. by apply fault_report.
    + intros x Hx. rewrite exit_words_frame by (by_compute || done). rewrite Hm2. by apply Hframe1.
  - intros Hab c2 Hm2 Hsp2 Hsys2. apply Hk; rewrite ?Hab; [congruence|congruence| |].
    + rewrite Hm2, Hm. apply plain_report.
    + intros x Hx. rewrite Hm2. by apply Hframe1.
Qed.

End return_.

(** ** The caller's state *)

Section caller.
Context (h : cpu) (Hh : call_ok h).

Definition restore_host_sys : list instr :=
  [ADD_sp 48; LDP (X 2) (X 3) SP HOST_SP_ELR; MSR SP_EL0 (X 2); MSR ELR_EL2 (X 3); LDR (X 2) SP HOST_SPSR;
   MSR SPSR_EL2 (X 2); LDP (X 2) (X 3) SP HOST_TPIDR_DAIF; MSR TPIDR_EL2 (X 2)].
Lemma restore_host_split :
  restore_host = restore_host_sys ++ (ldp SP <$> callee_saved) ++ [ADD_sp HOST_FRAME_SIZE; MSR DAIF (X 3)].
Proof. reflexivity. Qed.

(** The registers of the caller a call must not change. *)
Definition host_kept (c : cpu) : Prop :=
  (∀ n, (19 ≤ n ≤ 30)%nat → xr c n = xr h n) ∧ sp c = sp h ∧
  ∀ q, q ∈ [SP_EL0; ELR_EL2; SPSR_EL2; TPIDR_EL2; DAIF] → sys c q = sys h q.

Lemma host_word c o v : host_frame h (mem c) → (o, v) ∈ host_words h → load64 (mem c) (sp h - HOST_FRAME_SIZE + o) = v.
Proof. intros Hf. apply Hf. Qed.

Lemma restore_host_sys_spec c : sp c = exit_sp h → host_frame h (mem c) →
  let c' := effects restore_host_sys c in
  mem c' = mem c ∧ sp c' = sp h - HOST_FRAME_SIZE ∧ xr c' 3 = sys h DAIF ∧
  sys c' = <[TPIDR_EL2 := sys h TPIDR_EL2]> (<[SPSR_EL2 := sys h SPSR_EL2]>
    (<[ELR_EL2 := sys h ELR_EL2]> (<[SP_EL0 := sys h SP_EL0]> (sys c)))).
Proof.
  intros Hs Hf. cbv zeta. pose proof (frame_address h Hh) as Ha. pose proof (frame_address2 h Hh) as Ha2.
  assert (Esp : sp c ⊞ 48 = sp h - HOST_FRAME_SIZE).
  { destruct Hh as [_ Hsp _ _ _ _ _]. rewrite Hs. unfold exit_sp, HOST_FRAME_SIZE, u64. rewrite Z.mod_small; lia. }
  unfold effects, restore_host_sys. cbn [fold_left effect wr set_x set_sp set_sys xr sp sys mem base_of rd]. reg_simpl.
  rewrite Esp. rewrite !Ha, !Ha2 by by_compute.
  split; [done|]. split; [done|]. split; [apply host_word; [done|unfold host_words; set_solver]|].
  repeat f_equal; (apply host_word; [done|unfold host_words; set_solver]).
Qed.

Lemma restore_tail c : effects [ADD_sp HOST_FRAME_SIZE; MSR DAIF (X 3)] c =
  MkCpu (xr c) (sp c ⊞ HOST_FRAME_SIZE) (<[DAIF := xr c 3%nat]> (sys c)) (mem c) (zf c) (cf c).
Proof. done. Qed.

Lemma restore_host_spec c : sp c = exit_sp h → host_frame h (mem c) →
  let c' := effects restore_host c in
  mem c' = mem c ∧ host_kept c' ∧ ∀ q, q ∉ [SP_EL0; ELR_EL2; SPSR_EL2; TPIDR_EL2; DAIF] → sys c' q = sys c q.
Proof.
  intros Hs Hf. cbv zeta. rewrite restore_host_split, !effects_app.
  destruct (restore_host_sys_spec c Hs Hf) as (Hm1 & Hs1 & H31 & Hy1). cbv zeta in *.
  set (c1 := effects restore_host_sys c) in *. clearbody c1.
  assert (Hb : 0 ≤ sp h - HOST_FRAME_SIZE ∧ sp h - HOST_FRAME_SIZE + HOST_FRAME_SIZE ≤ 2 ^ 64).
  { destruct Hh as [_ Hsp _ _ _ _ _]. unfold HOST_FRAME_SIZE. lia. }
  destruct (ldps_spec _ HOST_FRAME_SIZE (proj1 Hb) (proj2 Hb) SP callee_saved c1 Hs1) as (Hm2 & Hs2 & Hy2 & Hx2 & Hin);
    [by_compute|by_compute|done|]. cbv zeta in *.
  set (c2 := effects (ldp SP <$> callee_saved) c1) in *. clearbody c2.
  rewrite restore_tail. unfold host_kept. cbn [xr sp sys mem]. rewrite Hm2, Hm1, Hs2, Hs1.
  split; [done|]. split; [split; [|split]|].
  - intros n Hn. assert (Hw : (n, Z.of_nat (n - 19) * 8) ∈ words callee_saved).
    { assert (Hall : Forall (λ n, (n, Z.of_nat (n - 19) * 8) ∈ words callee_saved) (seq 19 12)) by by_compute.
      rewrite list.Forall_forall in Hall. apply (Hall n), elem_of_seq. lia. }
    rewrite (Hin n _ Hw), Hm1. apply host_word; [done|]. unfold host_words.
    apply elem_of_app. left. apply list_elem_of_fmap. by exists (n, Z.of_nat (n - 19) * 8).
  - destruct Hh as [_ Hsp _ _ _ _ _].
    unfold HOST_FRAME_SIZE, u64. rewrite Z.mod_small; lia.
  - intros q Hq. rewrite Hx2, H31, Hy2, Hy1 by by_compute.
    repeat (apply elem_of_cons in Hq as [->|Hq]; [by reg_simpl|]). by apply elem_of_nil in Hq.
  - intros q Hq. rewrite Hy2, Hy1, !fn_lookup_insert_ne; [done|set_solver..].
Qed.
End caller.
