(* ===== verification/SwitchProps.v ===== *)
(** * What the assembly of the hypervisor does: the context switch *)
From Stdlib Require Import String.
From S2P Require Import Prelude Memory Vcpu Psci Arm Assembly VcpuSwitch.
From S2P Require Import VcpuSwitch.

(** ** Runs of the text *)

Lemma vcpu_run_runs h : ∃ k, code_at el2_text "vcpu_run" = Some k ∧
  runs_to el2_text k h (λ r, r = (Exited, effects enter_guest h)).
Proof.
  exists ((I <$> enter_guest) ++ [I ERET] ++ vcpu_exits ++ vcpu_exit ++ entry_S). split; [reflexivity|].
  apply rt_straight; [done|]. by apply rt_eret.
Qed.

Lemma code_vcpu_exit : code_at el2_text "vcpu_exit" =
  Some ((I <$> save_x ++ save_all saved_regs ++ save_pc) ++ report_exit ++ back_to_host).
Proof. reflexivity. Qed.

(** From the vector of a guest's exception to the report. *)
Lemma vector_runs r g R :
  runs_to el2_text (report_exit ++ back_to_host)
    (effects (vector_pushes ++ exit_regs r ++ save_x ++ save_all saved_regs ++ save_pc) g) R →
  runs_to el2_text (I <$> vector 2 (kind_of r)) g R.
Proof.
  intros HR. rewrite !effects_app in HR. rewrite <-!effects_app in HR.
  assert (Hsave : ∀ c, c = effects (exit_regs r) (effects vector_pushes g) →
    runs_to el2_text ((I <$> save_x ++ save_all saved_regs ++ save_pc) ++ report_exit ++ back_to_host) c R).
  { intros c ->. apply rt_straight; [done|]. by rewrite !effects_app in *. }
  assert (Hb : ∀ c, c = effects (exit_regs r) (effects vector_pushes g) → ∀ k, runs_to el2_text (I (B "vcpu_exit") :: k) c R).
  { intros c Hc k. eapply rt_b; [exact code_vcpu_exit|]. by apply Hsave. }
  clear HR. destruct r.
  - apply (rt_straight el2_text (vector_pushes ++ [MRS (X 0) ESR_EL2]) [I (B "vcpu_exit_sync")]); [done|].
    eapply rt_b; [reflexivity|]. apply (rt_straight el2_text [MOV_imm (X 1) (exit_code SYNC)]); [done|].
    apply Hb. by rewrite effects_app.
  - apply (rt_straight el2_text vector_pushes [I (B "vcpu_exit_irq")]); [done|].
    eapply rt_b; [reflexivity|]. apply (rt_straight el2_text [MOV (X 0) XZR; MOV_imm (X 1) (exit_code IRQ)]); [done|].
    by apply Hb.
  - apply (rt_straight el2_text vector_pushes [I (B "vcpu_exit_fiq")]); [done|].
    eapply rt_b; [reflexivity|]. apply (rt_straight el2_text [MOV (X 0) XZR; MOV_imm (X 1) (exit_code FIQ)]); [done|].
    by apply Hb.
  - apply (rt_straight el2_text (vector_pushes ++ [MRS (X 0) ESR_EL2]) [I (B "vcpu_exit_serror")]); [done|].
    eapply rt_b; [reflexivity|]. apply (rt_straight el2_text [MOV_imm (X 1) (exit_code SERROR)]); [done|].
    apply Hb. by rewrite effects_app.
Qed.

(** ** One exit *)

Section exit.
Context (h : cpu) (Hh : call_ok h) (g : cpu) (r : ExitReason).
Context (Hg : cpu_ok g) (Hsp : sp g = sp h - HOST_FRAME_SIZE) (Htp : sys g TPIDR_EL2 = xr h 0).
Context (Hframe : host_frame h (mem g)).

(** Memory once the guest's registers are saved. *)
Definition saved_mem : gmap Z Z :=
  store_all (at_base (xr h 0) (vcpu_words g)) (store_all (at_base (exit_sp h) (exit_words g r)) (mem g)).

Lemma vcpu_words_within : within sizeof_Vcpu (vcpu_words g).*1.
Proof.
  unfold vcpu_words. rewrite <-list_fmap_compose. apply list.Forall_forall. intros o (v & -> & Hv)%list_elem_of_fmap.
  cbn [compose fst]. assert (Hall : Forall (λ v, 0 ≤ vcpu_offset v ∧ vcpu_offset v + 8 ≤ sizeof_Vcpu) saved_order) by by_compute.
  rewrite list.Forall_forall in Hall. by apply Hall.
Qed.

Lemma saved_mem_frame x : ¬ in_vcpu h x → ¬ exit_sp h ≤ x < exit_sp h + 48 → load8 saved_mem x = load8 (mem g) x.
Proof.
  intros Hv Hs. unfold saved_mem. rewrite !store_all_frame; [done| |].
  - intros a v (o & -> & Ho)%at_base_elem. unfold exit_words in Ho.
    assert (o ∈ [32; 40; 16; 24; 0; 8]) by (apply (list_elem_of_fmap_2 fst) in Ho; exact Ho). set_solver by lia.
  - intros a v (o & -> & Ho)%at_base_elem. pose proof vcpu_words_within as Hw. unfold within in Hw.
    rewrite list.Forall_forall in Hw. specialize (Hw o ltac:(by apply (list_elem_of_fmap_2 fst) in Ho)).
    unfold in_vcpu in Hv. lia.
Qed.

(** The three things the rest of the exit relies on. *)
Lemma saved_frame : host_frame h saved_mem.
Proof.
  intros o v Ho. rewrite <-(Hframe o v Ho). apply load_agree. intros x Hx.
  assert (Hin : within HOST_FRAME_SIZE (host_words h).*1) by by_compute. unfold within in Hin. rewrite list.Forall_forall in Hin.
  specialize (Hin o ltac:(by apply (list_elem_of_fmap_2 fst) in Ho)).
  apply saved_mem_frame; [apply (ca_stack_vcpu h Hh)|]; unfold in_stack, exit_sp, HOST_FRAME_SIZE in *; lia.
Qed.

Lemma saved_pair o v : (o, v) ∈ [(0, exit_code r); (8, syndrome_of g r)] → load64 saved_mem (exit_sp h + o) = v.
Proof.
  intros Ho. unfold saved_mem. rewrite store_all_other.
  - apply store_all_at; [by destruct r; by_compute|unfold exit_words; set_solver|].
    destruct Hg as [_ Hy]. apply elem_of_cons in Ho as [[= -> ->]|[[= -> ->]|?%elem_of_nil]%elem_of_cons]; [by destruct r| |done].
    destruct r; cbn; (apply Hy || done).
  - intros b w (k & -> & Hk)%at_base_elem. destruct (vcpu_below h Hh) as (_ & _ & Hap).
    pose proof vcpu_words_within as Hw. unfold within in Hw. rewrite list.Forall_forall in Hw.
    specialize (Hw k ltac:(by apply (list_elem_of_fmap_2 fst) in Hk)). set_solver by lia.
Qed.

Lemma saved_word v : v ∈ all_saved → load64 saved_mem (xr h 0 + vcpu_offset v) = guest_reg g v.
Proof.
  intros Hv. unfold saved_mem. apply store_all_at.
  - unfold vcpu_words. rewrite <-list_fmap_compose. by_compute.
  - apply list_elem_of_fmap. exists v. split; [done|]. by apply saved_order_all.
  - destruct Hg as [Hx Hy]. destruct v; cbn; auto.
Qed.

(** The exit runs to the return, with the guest's state in its [Vcpu], the report in the
    [VcpuExit], and the caller's registers as they were. *)
Definition exit_far (q : areg) : Z := if is_abort r (syndrome_of g r) then sys g q else 0.

Record exited (c : cpu) : Prop := {
  ex_guest : ∀ v, v ∈ all_saved → load64 (mem c) (xr h 0 + vcpu_offset v) = guest_reg g v;
  ex_report : exit_holds h r (syndrome_of g r) (mem c) (exit_far FAR_EL2) (exit_far HPFAR_EL2);
  ex_kept : host_kept h c;
  ex_sys : ∀ q, q ∉ [SP_EL0; ELR_EL2; SPSR_EL2; TPIDR_EL2; DAIF] → sys c q = sys g q;
  ex_mem : ∀ x, ¬ in_stack h x → ¬ in_vcpu h x → ¬ in_exit h x → load8 (mem c) x = load8 (mem g) x;
}.

Lemma syndrome_fits : fits 64 (syndrome_of g r).
Proof. destruct Hg as [_ Hq]. destruct r; cbn; (apply Hq || done). Qed.

Lemma frame_not_exit m : (∀ x, ¬ in_exit h x → load8 m x = load8 saved_mem x) → host_frame h m.
Proof.
  intros Hm o v Ho. rewrite <-(saved_frame o v Ho). apply load_agree. intros x Hx. apply Hm.
  assert (Hin : within HOST_FRAME_SIZE (host_words h).*1) by by_compute. unfold within in Hin. rewrite list.Forall_forall in Hin.
  specialize (Hin o ltac:(by apply (list_elem_of_fmap_2 fst) in Ho)).
  apply (ca_stack_exit h Hh). unfold in_stack, HOST_FRAME_SIZE in *. lia.
Qed.

Lemma exit_spec : runs_to el2_text (I <$> vector 2 (kind_of r)) g (λ e, e.1 = Returned ∧ exited e.2).
Proof.
  apply vector_runs. destruct (guest_saved h Hh g Hg Hsp Htp Hframe r) as (Hm & Hs & Hy). cbv zeta in *.
  set (c1 := effects _ g) in *. clearbody c1. fold saved_mem in Hm.
  apply (report_runs h Hh r (syndrome_of g r) syndrome_fits); rewrite ?Hm; [|done|apply saved_frame| | |].
  { rewrite Hy. by destruct Hg. }
  { rewrite <-(Z.add_0_r (exit_sp h)). apply saved_pair. set_solver. }
  { apply saved_pair. set_solver. }
  rewrite Hy, Hs. intros c2 Hs2 Hy2 He2 Hm2. apply rt_straight; [done|].
  destruct (restore_host_spec h Hh c2 Hs2 (frame_not_exit _ Hm2)) as (Hm3 & Hk & Hq). cbv zeta in *.
  apply rt_ret. split; [done|]. cbn [snd]. constructor; rewrite ?Hm3; [|exact He2|done| |].
  - intros v Hv. rewrite <-saved_word by done. apply load_agree. intros x Hx. apply Hm2. intros Hin.
    apply (ca_vcpu_exit h Hh x); [|done]. destruct (saved_offset v Hv). unfold in_vcpu. lia.
  - intros q Hnq. by rewrite Hq, Hy2.
  - intros x Hxs Hxv Hxe. rewrite Hm2 by done. apply saved_mem_frame; [done|]. unfold in_stack, exit_sp in *. lia.
Qed.
End exit.

(** ** [vcpu_run] as the run loop sees it *)

(** The object at an address. *)
Definition vcpu_of (m : gmap Z Z) (p : Z) : Vcpu :=
  let at_ v := load64 m (p + vcpu_offset v) in
  MkVcpu (MkGuestRegisters ((λ n, at_ (VCPU_X n)) <$> seq 0 31) (at_ VCPU_PC) (at_ VCPU_PSTATE) (at_ VCPU_SP_EL0) (at_ VCPU_SP_EL1))
    (λ f, at_ (VCPU_SYS f)).
Definition reason_of (z : Z) : option ExitReason :=
  if z =? 0 then Some SYNC else if z =? 1 then Some IRQ else if z =? 2 then Some FIQ else if z =? 3 then Some SERROR else None.
Definition exit_of (m : gmap Z Z) (p : Z) : option VcpuExit :=
  (λ r, MkVcpuExit r (load64 m (p + 8)) (load64 m (p + 16)) (load64 m (p + 24))) <$> reason_of (load64 m p).

(** The guest's registers in a core at the guest's exception level. *)
Definition guest_vcpu (c : cpu) : Vcpu :=
  MkVcpu (MkGuestRegisters ((λ n, guest_reg c (VCPU_X n)) <$> seq 0 31) (guest_reg c VCPU_PC) (guest_reg c VCPU_PSTATE)
    (guest_reg c VCPU_SP_EL0) (guest_reg c VCPU_SP_EL1)) (λ f, guest_reg c (VCPU_SYS f)).

Definition exit_report (g : cpu) (r : ExitReason) : VcpuExit :=
  let s := syndrome_of g r in
  MkVcpuExit r s (if is_abort r s then sys g FAR_EL2 else 0) (if is_abort r s then sys g HPFAR_EL2 else 0).

(** The same registers. *)
#[export] Instance vcpu_equiv : Equiv Vcpu := λ v w, m_registers v = m_registers w ∧ ∀ f, m_system v f = m_system w f.
#[export] Instance vcpu_equivalence : Equivalence (≡@{Vcpu}).
Proof.
  split.
  - by intros v.
  - intros v w [H1 H2]. split; [done|]. intros f. by rewrite H2.
  - intros u v w [H1 H2] [H3 H4]. split; [congruence|]. intros f. by rewrite H2.
Qed.

Lemma vcpu_of_guest m p c :
  (∀ v, v ∈ all_saved → load64 m (p + vcpu_offset v) = guest_reg c v) → vcpu_of m p ≡ guest_vcpu c.
Proof.
  intros Hv. unfold vcpu_of, guest_vcpu. split; cbn [m_registers m_system].
  - rewrite !Hv by by_compute. f_equal. apply list_fmap_ext. intros i n Hi%list_elem_of_lookup_2. apply Hv. unfold all_saved.
    apply elem_of_app. left. apply list_elem_of_fmap. by exists n.
  - intros f. apply Hv. destruct f; by_compute.
Qed.

Lemma exit_of_report h g r m :
  exit_holds h r (syndrome_of g r) m (exit_far g r FAR_EL2) (exit_far g r HPFAR_EL2) → exit_of m (xr h 1) = Some (exit_report g r).
Proof. intros (H0 & H8 & H16 & H24). unfold exit_of. rewrite H0, H8, H16, H24. by destruct r. Qed.

(** The guest, from the exception return to the exception that ends its turn. *)
Definition guest_turn : Type := cpu → cpu * ExitReason.

(** What EL2 relies on: the guest can reach neither SP_EL2 nor TPIDR_EL2, nor the frame. *)
Definition guest_keeps (h : cpu) (guest : guest_turn) : Prop :=
  ∀ c, sp c = sp h - HOST_FRAME_SIZE → sys c TPIDR_EL2 = xr h 0 →
    let g := (guest c).1 in
    cpu_ok g ∧ sp g = sp c ∧ sys g TPIDR_EL2 = sys c TPIDR_EL2 ∧ ∀ x, in_frame h x → load8 (mem g) x = load8 (mem c) x.

(** The whole call: into the guest, its turn, and out through the vector of its exception. *)
Definition vcpu_call (guest : guest_turn) (fuel : nat) (h : cpu) : option (ending * cpu) :=
  match enter el2_text fuel "vcpu_run" h with
  | Some (Exited, c) => let '(g, r) := guest c in exec el2_text fuel (I <$> vector 2 (kind_of r)) g
  | _ => None
  end.

Lemma frame_kept h m m' : host_frame h m → (∀ x, in_frame h x → load8 m' x = load8 m x) → host_frame h m'.
Proof.
  intros Hf Hm o v Ho. rewrite <-(Hf o v Ho). apply load_agree. intros x Hx. apply Hm.
  assert (Hin : within HOST_FRAME_SIZE (host_words h).*1) by by_compute. unfold within in Hin. rewrite list.Forall_forall in Hin.
  specialize (Hin o ltac:(by apply (list_elem_of_fmap_2 fst) in Ho)). unfold in_frame. lia.
Qed.

(** A turn as its caller sees it: [c] enters the guest, [g] left it for the reason [r], [c'] is
    the core after the call. *)
Record switched (h c g : cpu) (r : ExitReason) (c' : cpu) : Prop := {
  sw_entered : guest_vcpu c ≡ vcpu_of (mem h) (xr h 0);
  sw_masked : sys c DAIF = Z.lor (sys h DAIF) (0xf ≪ 6);
  sw_entry_sys : ∀ q, q ∉ guest_aregs ++ host_aregs → sys c q = sys h q;
  sw_entry_mem : ∀ x, ¬ in_frame h x → load8 (mem c) x = load8 (mem h) x;
  sw_saved : vcpu_of (mem c') (xr h 0) ≡ guest_vcpu g;
  sw_report : exit_of (mem c') (xr h 1) = Some (exit_report g r);
  sw_kept : host_kept h c';
  sw_mem : ∀ x, ¬ in_stack h x → ¬ in_vcpu h x → ¬ in_exit h x → load8 (mem c') x = load8 (mem g) x;
}.

(** C21: [vcpu_run] of vcpu.S, called with a [Vcpu] and a [VcpuExit] apart from its stack, gives
    the guest exactly the registers its [Vcpu] holds, with interrupts masked; and after any
    exception of the guest it returns, with the guest's registers in the [Vcpu], the reason,
    syndrome and (for an abort) fault addresses in the [VcpuExit], the registers the caller
    relies on as they were, and no other byte of memory changed by the switch. *)
Theorem vcpu_run_switches (guest : guest_turn) (h : cpu) (Hh : call_ok h) (Hguest : guest_keeps h guest) :
  ∃ fuel c g r c', (∀ fuel', (fuel ≤ fuel')%nat →
    enter el2_text fuel' "vcpu_run" h = Some (Exited, c) ∧ guest c = (g, r) ∧
    vcpu_call guest fuel' h = Some (Returned, c')) ∧ switched h c g r c'.
Proof.
  destruct (vcpu_run_runs h) as (k & Hk & n1 & _ & Hn1 & ->).
  destruct (enter_guest_spec h Hh) as (Hv & Hf & Hm & Hs & Ht & Hd & Hq). cbv zeta in *.
  set (c := effects enter_guest h) in *. clearbody c.
  specialize (Hguest c Hs Ht). destruct (guest c) as [g r] eqn:Eg. cbn [fst] in Hguest.
  destruct Hguest as (Hok & Hsg & Htg & Hmg). rewrite Hs in Hsg. rewrite Ht in Htg.
  destruct (exit_spec h Hh g r Hok Hsg Htg (frame_kept h _ _ Hf Hmg)) as (n2 & [e c'] & Hn2 & He & Hex).
  cbn [fst snd] in *. subst e. exists (n1 + n2)%nat, c, g, r, c'. split.
  - intros fuel' Hle. assert (He : enter el2_text fuel' "vcpu_run" h = Some (Exited, c)).
    { unfold enter. rewrite Hk. eapply exec_mono; [exact Hn1|lia]. }
    split; [done|]. split; [done|]. unfold vcpu_call. rewrite He, Eg. eapply exec_mono; [exact Hn2|lia].
  - destruct Hex. constructor; auto using vcpu_of_guest, exit_of_report. symmetry. by apply vcpu_of_guest; intros; rewrite Hv.
Qed.

(** A call with the [Vcpu] at 0x8000 and the [VcpuExit] at 0x9000, and a guest that counts in
    x0 and then takes a data abort. *)
Definition sample_call : cpu :=
  MkCpu (<[0%nat := 0x8000]> (<[1%nat := 0x9000]> (λ _, 5))) 0x4000 (λ _, 3) (store64 ∅ 0x8000 6) false false.
Definition sample_guest : guest_turn := λ c,
  (MkCpu (<[0%nat := u64 (xr c 0 + 1)]> (λ _, 8)) (sp c)
    (<[TPIDR_EL2 := sys c TPIDR_EL2]> (<[ESR_EL2 := 0x24 ≪ 26]> (<[FAR_EL2 := 0x1234]> (<[HPFAR_EL2 := 0x50]> (λ _, 9)))))
    (mem c) false false, SYNC).

Lemma sample_call_ok : call_ok sample_call.
Proof.
  assert (A0 : xr sample_call 0 = 0x8000) by reflexivity. assert (A1 : xr sample_call 1 = 0x9000) by reflexivity.
  assert (As : sp sample_call = 0x4000) by reflexivity.
  assert (Sv : sizeof_Vcpu = 448) by reflexivity. assert (Se : sizeof_VcpuExit = 32) by reflexivity.
  split; unfold in_stack, in_vcpu, in_exit; rewrite ?A0, ?A1, ?As, ?Sv, ?Se; try (intros; lia).
  split; [|done]. intros [|[|n]]; done.
Qed.

Lemma sample_guest_keeps : guest_keeps sample_call sample_guest.
Proof.
  intros c Hs Ht. cbn [sample_guest fst]. split; [|done]. split.
  - intros n. cbn [xr]. destruct (decide (n = 0%nat)) as [->|Hn]; [rewrite fn_lookup_insert|by rewrite fn_lookup_insert_ne].
    apply Z.mod_pos_bound. lia.
  - intros q. cbn [sys]. rewrite Ht. unfold insert, fn_insert. repeat case_decide; by vm_compute.
Qed.

Lemma vcpu_run_switches_witness : ∃ fuel c', vcpu_call sample_guest fuel sample_call = Some (Returned, c') ∧
  exit_of (mem c') 0x9000 = Some (MkVcpuExit SYNC (0x24 ≪ 26) 0x1234 0x50) ∧ xr c' 19 = 5 ∧
  load64 (mem c') (0x8000 + vcpu_offset (VCPU_X 0)) = 7.
Proof.
  destruct (vcpu_run_switches sample_guest sample_call sample_call_ok sample_guest_keeps)
    as (fuel & c & g & r & c' & Hrun & [He _ _ _ Hs Hr Hk _]).
  destruct (Hrun fuel (le_n fuel)) as (_ & Hg & Hc). exists fuel, c'. injection Hg as <- <-.
  split; [done|]. split; [exact Hr|]. split; [apply (proj1 Hk 19%nat); lia|].
  assert (E0 : xr c 0 = 6) by (apply (λ e, f_equal (λ v, nth 0 (x v) 0) (proj1 e)) in He; exact He).
  apply (λ e, f_equal (λ v, nth 0 (x v) 0) (proj1 e)) in Hs. cbn in Hs. by rewrite fn_lookup_insert, E0 in Hs.
Defined.
