(* ===== verification/EntryProps.v ===== *)
(** * The hypervisor's own exceptions: what their handlers get, and the way back *)
From Stdlib Require Import String.
From S2P Require Import Prelude Machine Memory Mmio Uart Gic Console ConsoleProps Vcpu Arm.
From S2P Require Import Assembly VcpuSwitch.

(** ** The frame *)

Definition frame_pairs : list (nat * nat * Z) :=
  (λ n : nat, (n, S n, Z.of_nat n * 8)) <$> [0; 2; 4; 6; 8; 10; 12; 14; 16; 18; 20; 22; 24; 26; 28]%nat.
(** Without the two loads of x0 and x1 that come before the others. *)
Definition save_pairs : list instr := stp SP <$> frame_pairs.
Definition save_last : list instr := [STR (X 30) SP 240; MRS (X 0) ELR_EL2; MRS (X 1) SPSR_EL2; STP (X 0) (X 1) SP 248].
Definition restore_first : list instr := [LDP (X 0) (X 1) SP 248; MSR ELR_EL2 (X 0); MSR SPSR_EL2 (X 1)].
Definition restore_last : list instr := [LDR (X 30) SP 240; ADD_sp 272].

Lemma save_context_split : save_context = [SUB_sp 272] ++ save_pairs ++ save_last.
Proof. reflexivity. Qed.
Lemma restore_context_split : restore_context = restore_first ++ (ldp SP <$> frame_pairs) ++ restore_last.
Proof. reflexivity. Qed.

Definition frame_words (c : cpu) : list (Z * Z) :=
  ((λ n, (Z.of_nat n * 8, xr c n)) <$> seq 0 31) ++ [(248, sys c ELR_EL2); (256, sys c SPSR_EL2)].

(** The [El2ExceptionFrame] at an address. *)
Definition frame_at (m : gmap Z Z) (p : Z) : El2ExceptionFrame :=
  MkEl2ExceptionFrame ((λ n, load64 m (p + Z.of_nat n * 8)) <$> seq 0 31) (load64 m (p + 248)) (load64 m (p + 256)) (load64 m (p + 264)).

Section entry.
Context (c : cpu) (Hc : cpu_ok c) (Hsp : 272 ≤ sp c < 2 ^ 64).
Definition frame_base : Z := sp c - 272.

Lemma frame_base_bounds : 0 ≤ frame_base ∧ frame_base + 272 < 2 ^ 64.
Proof. unfold frame_base. lia. Qed.

Lemma frame_member o : 0 ≤ o ∧ o + 8 ≤ 272 → frame_base ⊞ o = frame_base + o.
Proof. apply member; destruct frame_base_bounds; lia. Qed.

Lemma save_last_effects d : sp d = frame_base → effects save_last d =
  MkCpu (<[1%nat := sys d SPSR_EL2]> (<[0%nat := sys d ELR_EL2]> (xr d))) (sp d) (sys d)
    (store_all (at_base frame_base [(240, xr d 30); (248, sys d ELR_EL2); (256, sys d SPSR_EL2)]) (mem d)) (zf d) (cf d).
Proof.
  destruct d as [dx ds dy dm dz df]. cbn [xr sp sys mem zf cf]. intros ->.
  unfold effects, save_last. cbn [fold_left effect wr set_x set_mem xr sp sys mem zf cf base_of rd]. reg_simpl.
  unfold store_pair. rewrite (frame_member 240), (frame_member 248) by lia.
  assert (frame_base + 248 ⊞ 8 = frame_base + 256) as -> by (rewrite <-Z.add_assoc; apply (frame_member 256); lia).
  reflexivity.
Qed.

Lemma frame_words_split : frame_words c =
  ((λ w, (w.2, xr c w.1)) <$> words frame_pairs) ++ [(240, xr c 30%nat); (248, sys c ELR_EL2); (256, sys c SPSR_EL2)].
Proof. reflexivity. Qed.

Lemma save_context_spec : let d := effects save_context c in
  mem d = store_all (at_base frame_base (frame_words c)) (mem c) ∧ sp d = frame_base ∧ sys d = sys c.
Proof.
  cbv zeta. rewrite save_context_split, !effects_app. set (c1 := effects [SUB_sp 272] c).
  assert (Hs1 : sp c1 = frame_base) by (unfold c1, frame_base, effects; cbn; unfold u64; rewrite Z.mod_small; lia).
  assert (E1 : xr c1 = xr c ∧ sys c1 = sys c ∧ mem c1 = mem c) by done. clearbody c1. destruct E1 as (Ex & Ey & Em).
  destruct frame_base_bounds as [B0 B1]. unfold save_pairs.
  rewrite (stps_spec frame_base 272 B0 ltac:(lia) SP frame_pairs c1 Hs1 ltac:(by_compute)).
  rewrite save_last_effects by done. cbn [set_mem mem sp sys xr]. rewrite Ex, Ey, Em, frame_words_split, store_at_app. done.
Qed.

Lemma frame_words_in o v : (o, v) ∈ frame_words c → fits 64 v ∧ 0 ≤ o ∧ o + 8 ≤ 264.
Proof.
  destruct Hc as [Hx Hy]. unfold frame_words. rewrite elem_of_app, list_elem_of_fmap.
  intros [(n & [= -> ->] & Hn%elem_of_seq)|Hin]; [split; [apply Hx|lia]|].
  repeat (apply elem_of_cons in Hin as [[= -> ->]|Hin]; [split; [apply Hy|lia]|]). by apply elem_of_nil in Hin.
Qed.

Lemma frame_word m o v : (o, v) ∈ frame_words c →
  load64 (store_all (at_base frame_base (frame_words c)) m) (frame_base + o) = v.
Proof. intros Ho. apply store_all_at; [by_compute|done|by eapply frame_words_in]. Qed.

Lemma frame_words_x n : (n < 31)%nat → (Z.of_nat n * 8, xr c n) ∈ frame_words c.
Proof. intros Hn. apply elem_of_app. left. apply list_elem_of_fmap. exists n. split; [done|]. apply elem_of_seq. lia. Qed.
Lemma frame_words_pc : (248, sys c ELR_EL2) ∈ frame_words c ∧ (256, sys c SPSR_EL2) ∈ frame_words c.
Proof. split; apply elem_of_app; right; set_solver. Qed.

Lemma frame_rest m x : ¬ frame_base ≤ x < frame_base + 264 →
  load8 (store_all (at_base frame_base (frame_words c)) m) x = load8 m x.
Proof.
  intros Hx. apply store_all_frame. intros a v (o & -> & Ho)%at_base_elem. apply frame_words_in in Ho. lia.
Qed.

Lemma frame_at_saved m : frame_at (store_all (at_base frame_base (frame_words c)) m) frame_base =
  MkEl2ExceptionFrame (xr c <$> seq 0 31) (sys c ELR_EL2) (sys c SPSR_EL2) (load64 m (frame_base + 264)).
Proof.
  destruct frame_words_pc as [H1 H2]. unfold frame_at. rewrite !(frame_word m _ _ H1), !(frame_word m _ _ H2). f_equal.
  - apply list_fmap_ext. intros i n Hi%list_elem_of_lookup_2%elem_of_seq. apply frame_word, frame_words_x. lia.
  - apply load_agree. intros x Hx. apply frame_rest. lia.
Qed.

(** ** The way back *)

Lemma restore_first_effects d : sp d = frame_base → effects restore_first d =
  MkCpu (<[1%nat := load64 (mem d) (frame_base + 256)]> (<[0%nat := load64 (mem d) (frame_base + 248)]> (xr d))) (sp d)
    (<[SPSR_EL2 := load64 (mem d) (frame_base + 256)]> (<[ELR_EL2 := load64 (mem d) (frame_base + 248)]> (sys d)))
    (mem d) (zf d) (cf d).
Proof.
  destruct d as [dx ds dy dm dz df]. cbn [xr sp sys mem zf cf]. intros ->.
  unfold effects, restore_first. cbn [fold_left effect wr set_x set_sys xr sp sys mem zf cf base_of rd]. reg_simpl.
  rewrite (frame_member 248) by lia.
  assert (frame_base + 248 ⊞ 8 = frame_base + 256) as -> by (rewrite <-Z.add_assoc; apply (frame_member 256); lia).
  reflexivity.
Qed.

Lemma restore_last_effects d : sp d = frame_base → effects restore_last d =
  MkCpu (<[30%nat := load64 (mem d) (frame_base + 240)]> (xr d)) (sp c) (sys d) (mem d) (zf d) (cf d).
Proof.
  destruct d as [dx ds dy dm dz df]. cbn [xr sp sys mem zf cf]. intros ->.
  unfold effects, restore_last. cbn [fold_left effect wr set_x set_sp xr sp sys mem zf cf base_of rd].
  rewrite (frame_member 240) by lia.
  assert (frame_base ⊞ 272 = sp c) as ->; [|reflexivity]. unfold frame_base, u64. rewrite Z.mod_small; lia.
Qed.

Lemma frame_pairs_words : words frame_pairs = (λ n, (n, Z.of_nat n * 8)) <$> seq 0 30.
Proof. reflexivity. Qed.

Lemma restore_context_spec d : sp d = frame_base → let e := effects restore_context d in
  (∀ n, (n < 31)%nat → xr e n = load64 (mem d) (frame_base + Z.of_nat n * 8)) ∧ sp e = sp c ∧ mem e = mem d ∧
  sys e = <[SPSR_EL2 := load64 (mem d) (frame_base + 256)]> (<[ELR_EL2 := load64 (mem d) (frame_base + 248)]> (sys d)).
Proof.
  intros Hs. cbv zeta. rewrite restore_context_split, !effects_app, restore_first_effects by done.
  set (d1 := MkCpu _ _ _ _ _ _).
  assert (E1 : sp d1 = frame_base ∧ mem d1 = mem d ∧ sys d1 = <[SPSR_EL2 := load64 (mem d) (frame_base + 256)]>
    (<[ELR_EL2 := load64 (mem d) (frame_base + 248)]> (sys d))) by done.
  clearbody d1. destruct E1 as (Es & Em & Ey). destruct frame_base_bounds as [B0 B1].
  destruct (ldps_spec frame_base 272 B0 ltac:(lia) SP frame_pairs d1 Es) as (Hm & Hs2 & Hy & _ & Hin);
    [by_compute|by_compute|done|]. cbv zeta in *.
  set (d2 := effects (ldp SP <$> frame_pairs) d1) in *. clearbody d2.
  rewrite restore_last_effects by congruence. cbn [xr sp sys mem]. rewrite Hm, Hy, Em, Ey. split; [|done].
  intros n Hn. destruct (decide (n = 30%nat)) as [->|Hne]; [by rewrite fn_lookup_insert|].
  rewrite fn_lookup_insert_ne by done. rewrite (Hin n (Z.of_nat n * 8)), Em; [done|].
  rewrite frame_pairs_words. apply list_elem_of_fmap. exists n. split; [done|]. apply elem_of_seq. lia.
Qed.
End entry.

(** ** An exception of EL2 *)

(** Whether the hypervisor takes it on its own stack pointer, as it runs. *)
Definition own_group (group : nat) : bool := bool_decide (group = 1%nat).
Definition handlers : list string := ["handle_el2_sync"; "handle_el2_irq"; "handle_el2_fiq"; "handle_el2_serror"]%string.
Definition host_vector (group kind : nat) : string := if own_group group then nth kind handlers EmptyString else "handle_unhandled"%string.

(** What follows the call of a handler. *)
Definition after_handler (group : nat) (back : list line) : Prop :=
  if own_group group then ∃ k, back = (I <$> restore_context) ++ [I ERET] ++ k
  else back = [Label "el2_unhandled.hang"; I (B "el2_unhandled.hang")].

Lemma hang_forever fuel : ∀ c, exec el2_text fuel [Label "el2_unhandled.hang"; I (B "el2_unhandled.hang")] c = None.
Proof.
  induction fuel as [fuel IH] using lt_wf_ind. intros c. destruct fuel as [|[|fuel]]; [done|done|].
  assert (E : code_at el2_text "el2_unhandled.hang" = Some [I (B "el2_unhandled.hang")]) by reflexivity.
  cbn [exec]. rewrite E. destruct fuel as [|fuel]; [done|]. specialize (IH (S (S fuel)) ltac:(lia) c). cbn [exec] in IH. done.
Qed.

Lemma entry_runs group kind c : group ≠ 2%nat → (group < 4)%nat → (kind < 4)%nat →
  runs_to el2_text (I <$> vector group kind) c (λ r, ∃ back, after_handler group back ∧
    r = (Called (host_vector group kind) back, effects [MOV_from_sp (X 0)] (effects save_context c))).
Proof.
  intros Hg Hg4 Hk4. rewrite <-effects_app.
  assert (Hrun : ∀ h back l, code_at el2_text l = Some ((I <$> save_context ++ [MOV_from_sp (X 0)]) ++ [I (BL h)] ++ back) →
    ∀ Q : ending * cpu → Prop, Q (Called h back, effects (save_context ++ [MOV_from_sp (X 0)]) c) → runs_to el2_text [I (B l)] c Q).
  { intros h back l E Q HQ. eapply rt_b; [exact E|]. apply rt_straight; [done|]. by apply rt_call. }
  destruct (decide (group = 1%nat)) as [->|Hne].
  - destruct kind as [|[|[|[|]]]]; [..|lia]; (eapply Hrun; [reflexivity|]; eexists; split; [eexists; reflexivity|reflexivity]).
  - assert (Hv : I <$> vector group kind = [I (B "el2_unhandled")]).
    { destruct group as [|[|[|[|]]]], kind as [|[|[|[|]]]]; (lia || done). }
    rewrite Hv. eapply Hrun; [reflexivity|]. unfold after_handler, host_vector, own_group.
    rewrite bool_decide_false by done. by eexists.
Qed.

(** The handler the text calls, as the C++ has it. *)
Definition host_handler {D} `{Bus D} `{Board} (spin : nat) (f : string) : option (El2ExceptionFrame → M (platform D) unit) :=
  if decide (f = "handle_el2_sync"%string) then Some (handle_el2_sync spin)
  else if decide (f = "handle_el2_irq"%string) then Some (handle_el2_irq spin)
  else if decide (f = "handle_el2_fiq"%string) then Some (handle_el2_fiq spin)
  else if decide (f = "handle_el2_serror"%string) then Some (handle_el2_serror spin)
  else if decide (f = "handle_unhandled"%string) then Some (handle_unhandled spin)
  else None.

Definition panic_text (group kind : nat) : string :=
  if own_group group
  then nth kind ["[HV sync] was triggered"; "[HV irq] was triggered"; "[HV fiq] was triggered"; "[HV SError] was triggered"] EmptyString
  else "[HV mysterious exception?] was triggered".

(** The frame of an exception taken in state [c], and the core the handler starts in. *)
Record handed (c d : cpu) : Prop := {
  hd_sp : sp d = sp c - 272;
  hd_arg : xr d 0 = sp d;
  hd_sys : sys d = sys c;
  hd_frame : frame_at (mem d) (xr d 0) =
    MkEl2ExceptionFrame (xr c <$> seq 0 31) (sys c ELR_EL2) (sys c SPSR_EL2) (load64 (mem c) (sp c - 8));
  hd_mem : ∀ x, ¬ sp c - 272 ≤ x < sp c → load8 (mem d) x = load8 (mem c) x;
}.

(** A handler that returns: it keeps the stack pointer and the frame. *)
Definition keeps_frame (d d' : cpu) : Prop :=
  sp d' = sp d ∧ ∀ x, sp d ≤ x < sp d + 272 → load8 (mem d') x = load8 (mem d) x.

(** [e] is back where the exception was taken, with what else the handler [d'] did. *)
Record resumed (c d' e : cpu) : Prop := {
  rs_x : ∀ n, (n < 31)%nat → xr e n = xr c n;
  rs_sp : sp e = sp c;
  rs_pc : sys e ELR_EL2 = sys c ELR_EL2 ∧ sys e SPSR_EL2 = sys c SPSR_EL2;
  rs_sys : ∀ q, q ∉ [ELR_EL2; SPSR_EL2] → sys e q = sys d' q;
  rs_mem : mem e = mem d';
}.

Lemma give_frame d : effects [MOV_from_sp (X 0)] d = MkCpu (<[0%nat := sp d]> (xr d)) (sp d) (sys d) (mem d) (zf d) (cf d).
Proof. done. Qed.

Lemma handed_given c d : cpu_ok c → 272 ≤ sp c < 2 ^ 64 →
  mem d = store_all (at_base (frame_base c) (frame_words c)) (mem c) → sp d = frame_base c → sys d = sys c →
  handed c (MkCpu (<[0%nat := sp d]> (xr d)) (sp d) (sys d) (mem d) (zf d) (cf d)).
Proof.
  intros Hc Hsp Hm Hs Hy. pose proof (frame_at_saved c Hc Hsp (mem c)) as Hf. rewrite <-Hm in Hf.
  constructor; cbn [xr sp sys mem]; rewrite ?fn_lookup_insert, ?Hs; [done|done|done| |].
  - rewrite Hf. unfold frame_base. f_equal. f_equal. lia.
  - intros x Hx. rewrite Hm. apply frame_rest; [done|]. unfold frame_base. lia.
Qed.

Lemma handed_save c : cpu_ok c → 272 ≤ sp c < 2 ^ 64 → handed c (effects [MOV_from_sp (X 0)] (effects save_context c)).
Proof.
  intros Hc Hsp. destruct (save_context_spec c Hsp) as (Hm & Hs & Hy). rewrite give_frame. by apply handed_given.
Qed.

Lemma resumed_restore c d d' : cpu_ok c → 272 ≤ sp c < 2 ^ 64 → handed c d → keeps_frame d d' →
  resumed c d' (effects restore_context d').
Proof.
  intros Hc Hsp [Hs Ha _ Hf _] [Hs' Hm'].
  destruct (restore_context_spec c Hsp d') as (Hx & Hse & Hme & Hye); [unfold frame_base; congruence|]. cbv zeta in *.
  set (e := effects restore_context d') in *. clearbody e. fold (frame_base c) in Hs.
  assert (Hw : ∀ o, 0 ≤ o ∧ o + 8 ≤ 272 → load64 (mem d') (frame_base c + o) = load64 (mem d) (frame_base c + o)).
  { intros o Ho. apply load_agree. intros x Hxo. apply Hm'. rewrite Hs. lia. }
  rewrite Ha, Hs in Hf. unfold frame_at in Hf.
  pose proof (f_equal fr_x Hf) as Hfx. pose proof (f_equal fr_elr Hf) as Hfe. pose proof (f_equal fr_frame_spsr Hf) as Hfs.
  clear Hf. cbn [fr_x fr_elr fr_frame_spsr] in *.
  constructor; [|done| | |done].
  - intros n Hn. rewrite Hx, Hw by lia.
    pose proof (f_equal (λ l : list Z, l !! n) Hfx) as Hl. cbv beta in Hl. rewrite !list_lookup_fmap, lookup_seq_lt in Hl by done. by injection Hl.
  - rewrite Hye. reg_simpl. rewrite !Hw by lia. done.
  - intros q Hq. rewrite Hye, !fn_lookup_insert_ne; [done|set_solver..].
Qed.


(** A synchronous exception of EL2 whose handler returns at once. *)
Definition sample_host : cpu := MkCpu Z.of_nat 0x4000 (λ _, 3) ∅ false false.
Definition sample_small (c : cpu) : cpu := MkCpu (λ n, if decide (n < 31)%nat then xr c n else 0) (sp c) (sys c) (mem c) (zf c) (cf c).

