(* ===== verification/StartProps.v ===== *)
(** * What boot.S leaves to [hmain], and where the other cores stay *)
From Stdlib Require Import String.
From S2P Require Import Prelude Memory Arm Assembly VcpuSwitch.

(** ** Zeroing the .bss section *)

(** [n] stores of a pair of zeros. *)
Fixpoint zero_pairs (n : nat) (a : Z) (m : gmap Z Z) : gmap Z Z :=
  match n with O => m | S n' => zero_pairs n' (a + 16) (store_pair a 0 0 m) end.

Lemma store_zero n m a x : a ≤ x < a + Z.of_nat n → load8 (store n m a 0) x = 0.
Proof.
  revert m a. induction n as [|n IH]; intros m a Hx; [lia|]. rewrite store_S. change (0 / 2 ^ 8) with 0.
  destruct (decide (x = a)) as [->|Hne]; [|apply IH; lia]. rewrite store_frame by lia. apply load8_store8_eq.
Qed.

Lemma zero_pairs_frame n : ∀ a m x, 0 ≤ a → a + 16 * Z.of_nat n < 2 ^ 64 → ¬ a ≤ x < a + 16 * Z.of_nat n →
  load8 (zero_pairs n a m) x = load8 m x.
Proof.
  induction n as [|n IH]; intros a m x Ha He Hx; [done|]. cbn [zero_pairs]. rewrite IH by lia.
  unfold store_pair, u64. rewrite (Z.mod_small (a + 8)) by lia. rewrite !store_frame by lia. done.
Qed.

Lemma zero_pairs_zero n : ∀ a m x, 0 ≤ a → a + 16 * Z.of_nat n < 2 ^ 64 → a ≤ x < a + 16 * Z.of_nat n →
  load8 (zero_pairs n a m) x = 0.
Proof.
  induction n as [|n IH]; intros a m x Ha He Hx; [lia|]. cbn [zero_pairs].
  destruct (decide (a + 16 ≤ x)); [apply IH; lia|]. rewrite zero_pairs_frame by lia.
  unfold store_pair, u64. rewrite (Z.mod_small (a + 8)) by lia.
  destruct (decide (a + 8 ≤ x)); [apply store_zero; lia|]. rewrite store_frame by lia. apply store_zero. lia.
Qed.

Section loop.
Context (text : list line) (done_ : list line).
Context (Hloop : code_at text ".Lbss_loop" = Some (drop 1 bss_loop ++ done_)) (Hdone : code_at text ".Lbss_done" = Some done_).

Lemma bss_loop_runs n : ∀ c Q, fits 64 (xr c 0) → xr c 0 + 16 * Z.of_nat n = xr c 1 → xr c 1 < 2 ^ 64 →
  (∀ d, (∀ k, k ≠ 0%nat → xr d k = xr c k) → sp d = sp c → sys d = sys c → mem d = zero_pairs n (xr c 0) (mem c) → runs_to text done_ d Q) →
  runs_to text (drop 1 bss_loop ++ done_) c Q.
Proof.
  induction n as [|n IH]; intros c Q Ha He Hlim HQ; unfold fits in Ha.
  - apply (rt_straight text [CMP (X 0) (X 1)]); [done|].
    eapply (rt_branch text _ _ true); [cbn; rewrite bool_decide_true by lia; reflexivity|exact Hdone|]. by apply HQ.
  - apply (rt_straight text [CMP (X 0) (X 1)]); [done|].
    eapply (rt_branch text _ _ false); [cbn; rewrite bool_decide_false by lia; reflexivity|exact Hdone|].
    apply (rt_straight text [STP_post XZR XZR (XB 0) 16]); [done|]. eapply rt_b; [exact Hloop|].
    assert (E : xr c 0 ⊞ 16 = xr c 0 + 16) by (unfold u64; rewrite Z.mod_small; lia).
    set (c1 := effects [STP_post XZR XZR (XB 0) 16] (effects [CMP (X 0) (X 1)] c)).
    assert (E1 : xr c1 = <[0%nat := xr c 0 + 16]> (xr c) ∧ sp c1 = sp c ∧ sys c1 = sys c ∧ mem c1 = store_pair (xr c 0) 0 0 (mem c)).
    { unfold c1, effects. cbn [fold_left effect set_flags base_of rd set_base set_x set_mem xr sp sys mem]. by rewrite E. }
    clearbody c1. destruct E1 as (Ex & Es & Ey & Em).
    apply IH; rewrite ?Ex, ?Es, ?Ey, ?Em, ?fn_lookup_insert; rewrite ?fn_lookup_insert_ne by done; [unfold fits; lia|lia|done|].
    intros d Hx Hs Hy Hm. apply HQ; [|done..].
    intros k Hk. rewrite Hx by done. by rewrite fn_lookup_insert_ne.
Qed.
End loop.

(** ** The bits of the control registers *)

Definition cleared (bits : list Z) (v : Z) : Z := fold_left (λ v b, Z.land v (not64 (1 ≪ b))) bits v.

Lemma cleared_bit bits : ∀ v b, Forall (λ b, 0 ≤ b < 64) bits → 0 ≤ b < 64 →
  Z.testbit (cleared bits v) b = Z.testbit v b && negb (bool_decide (b ∈ bits)).
Proof.
  induction bits as [|k bits IH]; intros v b Hall Hb; cbn [cleared fold_left]; [by rewrite andb_true_r|].
  apply Forall_cons_1 in Hall as [Hk Hall]. fold (cleared bits (Z.land v (not64 (1 ≪ k)))). rewrite IH by done.
  assert (Hf : fits 64 (1 ≪ k)).
  { rewrite Z.shiftl_1_l. split; [apply Z.pow_nonneg; lia|apply Z.pow_lt_mono_r; lia]. }
  rewrite Z.land_spec, not64_bit by (exact Hf || lia). rewrite Z.shiftl_1_l, Z.pow2_bits_eqb by lia.
  rewrite (bool_decide_true (b < 64)), andb_true_l, <-andb_assoc by lia. f_equal.
  rewrite (bool_decide_ext (b ∈ k :: bits) (b = k ∨ b ∈ bits)) by apply elem_of_cons.
  rewrite bool_decide_or, negb_orb. f_equal. f_equal. destruct (Z.eqb_spec k b); symmetry; [by apply bool_decide_true|by apply bool_decide_false].
Qed.

Lemma bics_spec bits : ∀ d, let d' := effects ((λ b, BIC_imm (X 0) (X 0) (1 ≪ b)) <$> bits) d in
  xr d' 0 = cleared bits (xr d 0) ∧ (∀ n, n ≠ 0%nat → xr d' n = xr d n) ∧ sp d' = sp d ∧ sys d' = sys d ∧ mem d' = mem d.
Proof.
  induction bits as [|b bits IH]; intros d; cbv zeta; [done|]. rewrite fmap_cons.
  destruct (IH (effect (BIC_imm (X 0) (X 0) (1 ≪ b)) d)) as (H0 & Hx & Hs & Hy & Hm). cbv zeta in *.
  change (effects (?i :: ?l) d) with (effects l (effect i d)).
  split; [|split; [|done]]; [rewrite H0|intros n Hn; rewrite Hx by done]; cbn [effect wr set_x xr rd].
  - by rewrite fn_lookup_insert.
  - by rewrite fn_lookup_insert_ne.
Qed.

(** What the setup before the loop does. *)
Definition setup (im : image) (bits : list Z) : list instr :=
  set_hcr ++ clear_sctlr bits ++ set_timers ++ set_ids ++ bss_bounds im.

Lemma setup_spec im bits c : let d := effects (setup im bits) c in
  xr d 0 = bss_start im ∧ xr d 1 = bss_end im ∧ (∀ n, n ≠ 0%nat → n ≠ 1%nat → xr d n = xr c n) ∧ sp d = sp c ∧ mem d = mem c ∧
  sys d = <[VMPIDR_EL2 := sys c MPIDR_EL1]> (<[VPIDR_EL2 := sys c MIDR_EL1]> (<[CNTVOFF_EL2 := 0]>
    (<[CNTHCTL_EL2 := Z.lor (Z.lor (sys c CNTHCTL_EL2) (1 ≪ 0)) (1 ≪ 1)]>
    (<[SCTLR_EL2 := cleared bits (sys c SCTLR_EL2)]> (<[HCR_EL2 := 1 ≪ 31]> (sys c)))))).
Proof.
  cbv zeta. unfold setup, clear_sctlr.
  assert (E : set_hcr ++ ([MRS (X 0) SCTLR_EL2] ++ ((λ b, BIC_imm (X 0) (X 0) (1 ≪ b)) <$> bits) ++ [MSR SCTLR_EL2 (X 0); ISB]) ++
    set_timers ++ set_ids ++ bss_bounds im = [MOV_imm (X 0) (1 ≪ 31); MSR HCR_EL2 (X 0); MRS (X 0) SCTLR_EL2] ++
    ((λ b, BIC_imm (X 0) (X 0) (1 ≪ b)) <$> bits) ++ [MSR SCTLR_EL2 (X 0); ISB] ++ set_timers ++ set_ids ++ bss_bounds im).
  { by rewrite <-!app_assoc. }
  rewrite E, effects_app, effects_app. clear E.
  set (c1 := effects [MOV_imm (X 0) (1 ≪ 31); MSR HCR_EL2 (X 0); MRS (X 0) SCTLR_EL2] c).
  assert (E1 : xr c1 0 = sys c SCTLR_EL2 ∧ (∀ n, n ≠ 0%nat → xr c1 n = xr c n) ∧ sp c1 = sp c ∧ mem c1 = mem c ∧
    sys c1 = <[HCR_EL2 := 1 ≪ 31]> (sys c)).
  { unfold c1, effects. cbn [fold_left effect wr set_x set_sys xr sp sys mem rd]. reg_simpl.
    split_and!; try done. intros n Hn. by rewrite !fn_lookup_insert_ne. }
  clearbody c1. destruct E1 as (H0 & Hx & Hs & Hm & Hy). destruct (bics_spec bits c1) as (H01 & Hx1 & Hs1 & Hy1 & Hm1). cbv zeta in *.
  set (c2 := effects _ c1) in *. clearbody c2. rewrite H0 in H01. rewrite Hs in Hs1. rewrite Hm in Hm1. rewrite Hy in Hy1.
  unfold effects, set_timers, set_ids, bss_bounds. cbn [app fold_left effect wr set_x set_sys xr sp sys mem rd]. reg_simpl.
  rewrite H01, Hy1. reg_simpl. split_and!; try done.
  intros n H0n H1n. rewrite !fn_lookup_insert_ne by done. by rewrite Hx1, Hx.
Qed.

(** The stack, the vectors and the argument. *)
Lemma set_stack_spec im c : let d := effects (set_stack im) c in
  xr d 0 = xr c 19 ∧ sp d = stack_end im ∧ mem d = mem c ∧ sys d = <[VBAR_EL2 := vectors_at im]> (<[SPSel := 1]> (sys c)).
Proof.
  unfold effects, set_stack. cbn [fold_left effect wr set_x set_sp set_sys xr sp sys mem rd]. by reg_simpl.
Qed.

(** ** The whole of boot.S *)

Record image_ok (im : image) : Prop := {
  im_bss : 0 ≤ bss_start im ≤ bss_end im ∧ bss_end im < 2 ^ 64;
  im_pairs : (bss_end im - bss_start im) mod 16 = 0;
}.

(** A core that waits, and waits again however often it is woken. *)
Fixpoint still_waiting (text : list line) (n : nat) (k : list line) (c : cpu) : Prop :=
  match n with
  | O => True
  | S n' => ∃ fuel back, exec text fuel k c = Some (Waiting back, c) ∧ still_waiting text n' back c
  end.
Definition parked (text : list line) (k : list line) (c : cpu) : Prop := ∀ n, still_waiting text n k c.

(** The test of boot.S. *)
Definition boots (c : cpu) : bool :=
  bool_decide (Z.land (sys c MPIDR_EL1) 0xFF = 0) && bool_decide (Z.land (sys c CurrentEL) 0xC = 2 ≪ 2).

(** The registers boot.S sets up. *)
Definition boot_aregs : list areg := [HCR_EL2; SCTLR_EL2; CNTHCTL_EL2; CNTVOFF_EL2; VPIDR_EL2; VMPIDR_EL2; SPSel; VBAR_EL2].

(** The core [d] that enters [hmain], from the core [c] the firmware started. *)
Record started (im : image) (bits : list Z) (c d : cpu) : Prop := {
  st_arg : xr d 0 = xr c 0;
  st_sp : sp d = stack_end im ∧ sys d SPSel = 1;
  st_hcr : sys d HCR_EL2 = 2 ^ 31;
  st_sctlr : ∀ b, 0 ≤ b < 64 → Z.testbit (sys d SCTLR_EL2) b = Z.testbit (sys c SCTLR_EL2) b && negb (bool_decide (b ∈ bits));
  st_timers : sys d CNTHCTL_EL2 = Z.lor (sys c CNTHCTL_EL2) 3 ∧ sys d CNTVOFF_EL2 = 0;
  st_ids : sys d VPIDR_EL2 = sys c MIDR_EL1 ∧ sys d VMPIDR_EL2 = sys c MPIDR_EL1;
  st_vectors : sys d VBAR_EL2 = vectors_at im;
  st_sys : ∀ q, q ∉ boot_aregs → sys d q = sys c q;
  st_bss : ∀ x, bss_start im ≤ x < bss_end im → load8 (mem d) x = 0;
  st_mem : ∀ x, ¬ bss_start im ≤ x < bss_end im → load8 (mem d) x = load8 (mem c) x;
}.

Section boot.
Context (im : image) (Him : image_ok im) (bits : list Z) (Hbits : Forall (λ b, 0 ≤ b < 64) bits).
Definition text : list line := boot_S im bits.

(** The rest after the loop. *)
Definition to_hmain : list line := (I <$> set_stack im) ++ [I (BL "hmain")] ++ block.

Lemma boot_split : text = [Label "_start"] ++ check_core ++ (I <$> setup im bits) ++ bss_loop ++ to_hmain.
Proof. reflexivity. Qed.

Lemma code_skip l js k : code_at ((I <$> js) ++ k) l = code_at k l.
Proof. by induction js. Qed.

Lemma code_labels : code_at text ".Lblock" = Some (drop 1 block) ∧ code_at text ".Lbss_loop" = Some (drop 1 bss_loop ++ to_hmain) ∧
  code_at text ".Lbss_done" = Some to_hmain.
Proof.
  rewrite boot_split. cbn [app code_at check_core]. rewrite !decide_False, !code_skip by done.
  split; [|done]. cbn [app code_at bss_loop]. rewrite !decide_False by done. by unfold to_hmain; rewrite code_skip.
Qed.

(** Once in the block, a core stays there. *)
Lemma block_parked c : parked text (drop 1 block) c ∧ parked text [I (B ".Lblock")] c.
Proof.
  destruct code_labels as (Hb & _). assert (H : ∀ n, still_waiting text n (drop 1 block) c ∧ still_waiting text n [I (B ".Lblock")] c).
  { induction n as [|n [IH1 IH2]]; [done|]. split.
    - by exists 1%nat, [I (B ".Lblock")].
    - exists 2%nat, [I (B ".Lblock")]. split; [|done]. cbn [exec]. by rewrite Hb. }
  split; intros n; apply H.
Qed.

Lemma block_parked_after c : parked text block c.
Proof.
  intros [|n]; [done|]. destruct (block_parked c) as [_ Hp]. exists 2%nat, [I (B ".Lblock")]. split; [done|apply Hp].
Qed.

Lemma setup_straight : forallb straight (setup im bits) = true.
Proof.
  assert (E : forallb straight ((λ b, BIC_imm (X 0) (X 0) (1 ≪ b)) <$> bits) = true) by (clear Hbits; by induction bits).
  unfold setup, clear_sctlr. rewrite !forallb_app, E. done.
Qed.

(** The tests: [k] is what a core that passes them runs. *)
Lemma check_core_runs k c (Q : ending * cpu → Prop) :
  (∀ d, xr d 19 = xr c 0 → sys d = sys c → mem d = mem c → runs_to text (if boots c then k else drop 1 block) d Q) →
  runs_to text (check_core ++ k) c Q.
Proof.
  intros HQ. destruct code_labels as (Hb & _). unfold boots in HQ.
  apply (rt_straight text [MOV (X 19) (X 0); MRS (X 0) MPIDR_EL1; AND_imm (X 0) (X 0) 0xFF]); [done|].
  set (c1 := effects _ c). assert (E1 : xr c1 0 = Z.land (sys c MPIDR_EL1) 0xFF ∧ xr c1 19 = xr c 0 ∧ sys c1 = sys c ∧ mem c1 = mem c).
  { unfold c1, effects. cbn [fold_left effect wr set_x xr sp sys mem rd]. by reg_simpl. }
  clearbody c1. destruct E1 as (H0 & H19 & Hy & Hm).
  eapply rt_branch; [reflexivity|exact Hb|]. cbn [rd]. rewrite H0.
  case_bool_decide as E; cbn [negb andb] in *; [|by apply HQ].
  apply (rt_straight text [MRS (X 0) CurrentEL; AND_imm (X 0) (X 0) 0xC; CMP_imm (X 0) (2 ≪ 2)]); [done|].
  set (c2 := effects _ c1). assert (E2 : zf c2 = bool_decide (Z.land (sys c CurrentEL) 0xC = 2 ≪ 2) ∧ xr c2 19 = xr c 0 ∧ sys c2 = sys c ∧ mem c2 = mem c).
  { unfold c2, effects. cbn [fold_left effect wr set_x set_flags xr sp sys mem zf rd]. reg_simpl. by rewrite Hy. }
  clearbody c2. destruct E2 as (Hz & H219 & Hy2 & Hm2).
  eapply rt_branch; [reflexivity|exact Hb|]. rewrite Hz. case_bool_decide; cbn [negb]; by apply HQ.
Qed.

(** The core that goes on. *)
Lemma setup_runs c : ∃ fuel d, exec text fuel ((I <$> setup im bits) ++ bss_loop ++ to_hmain) c = Some (Called "hmain" block, d) ∧
  xr d 0 = xr c 19 ∧ sp d = stack_end im ∧
  mem d = zero_pairs (Z.to_nat ((bss_end im - bss_start im) / 16)) (bss_start im) (mem c) ∧
  sys d = <[VBAR_EL2 := vectors_at im]> (<[SPSel := 1]> (sys (effects (setup im bits) c))).
Proof.
  destruct (setup_spec im bits c) as (H0 & H1 & Hx & Hs & Hm & _). cbv zeta in *. set (c1 := effects (setup im bits) c) in *.
  destruct code_labels as (_ & Hl & Hd). destruct Him as [[[Hs0 Hle] Hlim] Hp].
  assert (Hn : bss_start im + 16 * Z.of_nat (Z.to_nat ((bss_end im - bss_start im) / 16)) = bss_end im).
  { rewrite Z2Nat.id by (apply Z.div_pos; lia). pose proof (Z.div_mod (bss_end im - bss_start im) 16). lia. }
  assert (Hr : runs_to text ((I <$> setup im bits) ++ bss_loop ++ to_hmain) c (λ r, r.1 = Called "hmain" block ∧
    let d := r.2 in xr d 0 = xr c 19 ∧ sp d = stack_end im ∧
    mem d = zero_pairs (Z.to_nat ((bss_end im - bss_start im) / 16)) (bss_start im) (mem c) ∧
    sys d = <[VBAR_EL2 := vectors_at im]> (<[SPSel := 1]> (sys c1)))).
  { apply rt_straight; [apply setup_straight|].
    fold c1. clearbody c1. apply rt_label.
    apply (bss_loop_runs text to_hmain Hl Hd (Z.to_nat ((bss_end im - bss_start im) / 16))); rewrite ?H0, ?H1, ?Hm; [unfold fits; lia|lia|lia|].
    intros d Hxd Hsd Hyd Hmd. apply rt_straight; [done|]. destruct (set_stack_spec im d) as (E0 & Es & Em & Ey). cbv zeta in *.
    apply rt_call. split; [done|]. cbn [fst snd]. rewrite E0, Em, Ey, Hyd, Hxd, Hx by done. done. }
  destruct Hr as (fuel & [r d] & He & Hr1 & Hr2). cbn [fst snd] in *. subst r. by exists fuel, d.
Qed.

Lemma setup_started c c0 d :
  xr c 19 = xr c0 0 → sys c = sys c0 → mem c = mem c0 →
  xr d 0 = xr c 19 → sp d = stack_end im →
  mem d = zero_pairs (Z.to_nat ((bss_end im - bss_start im) / 16)) (bss_start im) (mem c) →
  sys d = <[VBAR_EL2 := vectors_at im]> (<[SPSel := 1]> (sys (effects (setup im bits) c))) → started im bits c0 d.
Proof.
  intros Hx Hy Hm H0 Hs Hmd Hyd. destruct (setup_spec im bits c) as (_ & _ & _ & _ & _ & Hys). cbv zeta in Hys.
  rewrite Hys, Hy in Hyd. destruct Him as [[[Hs0 Hle] Hlim] Hp]. rewrite Hm in Hmd.
  assert (Hn : bss_start im + 16 * Z.of_nat (Z.to_nat ((bss_end im - bss_start im) / 16)) = bss_end im).
  { rewrite Z2Nat.id by (apply Z.div_pos; lia). pose proof (Z.div_mod (bss_end im - bss_start im) 16). lia. }
  constructor; rewrite ?Hyd, ?Hmd; [congruence|split; [done|by reg_simpl]|by reg_simpl| | | |by reg_simpl| | |].
  - intros b Hb. reg_simpl. by apply cleared_bit.
  - reg_simpl. by rewrite <-Z.lor_assoc.
  - by reg_simpl.
  - intros q Hq. unfold boot_aregs in Hq. rewrite !fn_lookup_insert_ne; [done|set_solver..].
  - intros x Hx'. apply zero_pairs_zero; lia.
  - intros x Hx'. apply zero_pairs_frame; lia.
Qed.
End boot.


(** A core the firmware starts at EL2 on the QEMU board, and one with another number. *)
Definition sample_image : image := MkImage 0x40100000 0x40101000 0x40600000 0x40080800.
Definition sample_core (mpidr : Z) : cpu :=
  MkCpu (<[0%nat := 0x44000000]> (λ _, 0)) 0 (<[MPIDR_EL1 := mpidr]> (<[CurrentEL := 8]> (<[SCTLR_EL2 := 0x30C5183F]> (λ _, 0))))
    ∅ false false.


(** On a core that counts its cores in Aff1, as the Cortex-A76 of both boards does, the test
    does not tell the others from the first: core 1 boots as well. *)
Lemma aff1_core_boots : boots (sample_core 0x81000100) = true.
Proof. reflexivity. Qed.
